(** * Fluid statement generator: event decoding, unit conversion and
      paginated retrieval, embedded from [js/history.js] and [js/fetcher.js].

    JavaScript values are modelled as follows.
    - [BigInt] is [Z]; a thrown exception is [None] in the error monad.
    - [Number] is an IEEE 754 binary64 value: [spec_float] with
      [prec = 53] and [emax = 1024], rounded to nearest, ties to even.
    - Strings are [string]: the program handles ASCII text only
      (hexadecimal payloads and decimal renderings of integers). *)

From Stdlib Require Import ZArith List String Ascii Bool Lia Arith.
From Stdlib Require Import Permutation Sorted.
From Stdlib Require Import Floats.SpecFloat.
From Stdlib Require Import Reals Lra.
Import ListNotations.

Local Open Scope Z_scope.

(** Exceptions: [None] is a thrown error. *)
Notation "'let?' x ':=' a 'in' b" :=
  (match a with Some x => b | None => None end)
  (at level 10, x pattern, a at level 100, b at level 200).

(** ** Strings *)

Module JSString.

Local Open Scope string_scope.

(** [s.slice(n)] for [0 <= n]. *)
Fixpoint drop (n : nat) (s : string) : string :=
  match n, s with
  | O, _ => s
  | S _, EmptyString => EmptyString
  | S n', String _ s' => drop n' s'
  end.

(** The first [n] characters of [s] (all of [s] when it is shorter). *)
Fixpoint take (n : nat) (s : string) : string :=
  match n, s with
  | O, _ => EmptyString
  | S _, EmptyString => EmptyString
  | S n', String c s' => String c (take n' s')
  end.

(** [s.slice(a, b)] for [0 <= a <= b]. *)
Definition slice (a b : nat) (s : string) : string :=
  take (b - a) (drop a s).

(** The ASCII members of [StrWhiteSpaceChar]: TAB, LF, VT, FF, CR, SP. *)
Definition is_white (c : ascii) : bool :=
  let n := nat_of_ascii c in
  ((9 <=? n) && (n <=? 13) || (n =? 32))%nat.

(** Removal of trailing white space. *)
Fixpoint trim_end (s : string) : string :=
  match s with
  | EmptyString => EmptyString
  | String c s' =>
      match trim_end s' with
      | EmptyString => if is_white c then EmptyString else String c EmptyString
      | t => String c t
      end
  end.

(** Removal of leading white space. *)
Fixpoint trim_start (s : string) : string :=
  match s with
  | EmptyString => EmptyString
  | String c s' => if is_white c then trim_start s' else s
  end.

(** [s.padStart(n, '0')]. *)
Definition padStart0 (n : nat) (s : string) : string :=
  string_of_list_ascii (repeat "0"%char (n - length s)) ++ s.

(** [hay.includes(needle)]. *)
Fixpoint includes (needle hay : string) : bool :=
  prefix needle hay ||
  match hay with
  | EmptyString => false
  | String _ hay' => includes needle hay'
  end.

(** Removes [c1 c2] from the front of [s] when [s] starts with [c1]
    followed by [c2] or by [c2'], and says whether it did. *)
Definition strip2 (c1 c2 c2' : ascii) (s : string) : option string :=
  match s with
  | String a (String b t) =>
      if Ascii.eqb a c1 && (Ascii.eqb b c2 || Ascii.eqb b c2')
      then Some t else None
  | _ => None
  end.

End JSString.

(** ** BigInt *)

Module JSBigInt.

Import JSString.

Definition digit_value (c : ascii) : option Z :=
  let n := Z.of_nat (nat_of_ascii c) in
  if (48 <=? n) && (n <=? 57) then Some (n - 48)
  else if (97 <=? n) && (n <=? 102) then Some (n - 87)
  else if (65 <=? n) && (n <=? 70) then Some (n - 55)
  else None.

(** Value of a run of digits in radix [r], most significant first; every
    character has to be a digit of that radix. *)
Fixpoint radix_digits (r acc : Z) (s : string) : option Z :=
  match s with
  | EmptyString => Some acc
  | String c s' =>
      match digit_value c with
      | Some d => if d <? r then radix_digits r (r * acc + d) s' else None
      | None => None
      end
  end.

Definition nonempty_digits (r : Z) (s : string) : option Z :=
  match s with
  | EmptyString => None
  | _ => radix_digits r 0 s
  end.

(** [BigInt('0x' + w)]: [StringToBigInt] accepts one or more hexadecimal
    digits after the prefix, followed by optional white space; anything
    else is a [SyntaxError]. *)
Definition of_hex (w : string) : option Z :=
  nonempty_digits 16 (trim_end w).

(** [BigInt(s)] for a string [s] ([StringToBigInt]): white space is
    trimmed, the empty text is [0n], a radix prefix takes no sign. *)
Definition of_string (s : string) : option Z :=
  let t := trim_end (trim_start s) in
  match t with
  | EmptyString => Some 0
  | String c t' =>
      match strip2 "0" "x" "X" t, strip2 "0" "o" "O" t, strip2 "0" "b" "B" t with
      | Some h, _, _ => nonempty_digits 16 h
      | _, Some o, _ => nonempty_digits 8 o
      | _, _, Some b => nonempty_digits 2 b
      | None, None, None =>
          if Ascii.eqb c "-" then option_map Z.opp (nonempty_digits 10 t')
          else if Ascii.eqb c "+" then nonempty_digits 10 t'
          else nonempty_digits 10 t
      end
  end.

Definition digit_char (d : Z) : ascii := ascii_of_N (48 + Z.to_N d).

(** Decimal digits of [n >= 0], prepended to [acc]. *)
Fixpoint digits_fuel (fuel : nat) (n : Z) (acc : string) : string :=
  match fuel with
  | O => acc
  | S f =>
      let acc' := String (digit_char (n mod 10)) acc in
      if n <? 10 then acc' else digits_fuel f (n / 10) acc'
  end.

Definition digits (n : Z) : string :=
  digits_fuel (S (Z.to_nat (Z.log2 n))) n EmptyString.

(** [z.toString()], also the text [`${z}`] of a template literal. *)
Definition to_string (z : Z) : string :=
  if z <? 0 then String "-" (digits (- z)) else digits z.

(** [a ** b]: a negative exponent is a [RangeError]. *)
Definition pow (a b : Z) : option Z :=
  if b <? 0 then None else Some (a ^ b).

(** [a / b] and [a % b] truncate toward zero; a zero divisor is a
    [RangeError]. *)
Definition div (a b : Z) : option Z :=
  if b =? 0 then None else Some (Z.quot a b).

Definition rem (a b : Z) : option Z :=
  if b =? 0 then None else Some (Z.rem a b).

End JSBigInt.

(** ** Number *)

Module JSNumber.

Import JSString.

Definition prec : Z := 53.
Definition emax : Z := 1024.

Definition number : Type := spec_float.

Definition NaN : number := S754_nan.

(** [Number(z)] for a BigInt [z], and integer literals. *)
Definition of_Z (z : Z) : number := binary_normalize prec emax z 0 false.

Definition mul : number -> number -> number := SFmul prec emax.
Definition div : number -> number -> number := SFdiv prec emax.
Definition sub : number -> number -> number := SFsub prec emax.
Definition neg : number -> number := SFopp.
Definition abs : number -> number := SFabs.
Definition ltb : number -> number -> bool := SFltb.
Definition leb : number -> number -> bool := SFleb.
(** [a === b] on numbers. *)
Definition eqb : number -> number -> bool := SFeqb.

(** [ToBoolean]. *)
Definition truthy (x : number) : bool :=
  match x with
  | S754_zero _ | S754_nan => false
  | _ => true
  end.

(** The binary64 value nearest to [num / den], for positive integers
    [num] and [den], with sign [s]. *)
Definition round_ratio (s : bool) (num den : Z) : number :=
  let '(q, e, l) := SFdiv_core_binary prec emax num 0 den 0 in
  binary_round_aux prec emax s q e l.

(** The Number denoted by the decimal literal of digits [n >= 0] scaled
    by [10 ^ x], with sign [s]. *)
Definition of_decimal (s : bool) (n x : Z) : number :=
  if n =? 0 then S754_zero s
  else if 0 <=? x then round_ratio s (n * 10 ^ x) 1
  else round_ratio s n (10 ^ (- x)).

Definition is_digit (c : ascii) : bool :=
  let n := nat_of_ascii c in ((48 <=? n) && (n <=? 57))%nat.

(** Reads the longest run of decimal digits at the front of [s]: the
    value accumulated onto [acc], the number of digits added to [cnt],
    and the rest of [s]. *)
Fixpoint read_digits (acc : Z) (cnt : nat) (s : string)
  : Z * nat * string :=
  match s with
  | String c s' =>
      if is_digit c
      then read_digits (10 * acc + (Z.of_nat (nat_of_ascii c) - 48)) (S cnt) s'
      else (acc, cnt, s)
  | EmptyString => (acc, cnt, s)
  end.

Fixpoint read_hex_digits (acc : Z) (cnt : nat) (s : string)
  : Z * nat * string :=
  match s with
  | String c s' =>
      match JSBigInt.digit_value c with
      | Some d => read_hex_digits (16 * acc + d) (S cnt) s'
      | None => (acc, cnt, s)
      end
  | EmptyString => (acc, cnt, s)
  end.

Definition read_sign (s : string) : bool * string :=
  match s with
  | String c s' =>
      if Ascii.eqb c "-" then (true, s')
      else if Ascii.eqb c "+" then (false, s')
      else (false, s)
  | EmptyString => (false, s)
  end.

(** The optional [ExponentPart] at the front of [s]; it counts only when
    at least one digit follows the exponent indicator and sign. *)
Definition read_exponent (s : string) : Z :=
  match s with
  | String c s' =>
      if Ascii.eqb c "e" || Ascii.eqb c "E" then
        let '(sg, s'') := read_sign s' in
        let '(x, cnt, _) := read_digits 0 0 s'' in
        match cnt with
        | O => 0
        | S _ => if sg then - x else x
        end
      else 0
  | EmptyString => 0
  end.

(** [parseFloat(input)]: leading white space is skipped, the longest
    prefix that is a [StrDecimalLiteral] is converted, [NaN] when there
    is none. *)
Definition parseFloat (input : string) : number :=
  let '(sg, s1) := read_sign (trim_start input) in
  if prefix "Infinity" s1 then S754_infinity sg
  else
    let '(i, ci, s2) := read_digits 0 0 s1 in
    let '(n, cf, s3) :=
      match s2 with
      | String c s2' =>
          if Ascii.eqb c "." then read_digits i 0 s2' else (i, O, s2)
      | EmptyString => (i, O, s2)
      end in
    match (ci + cf)%nat with
    | O => NaN
    | S _ => of_decimal sg n (read_exponent s3 - Z.of_nat cf)
    end.

(** [parseInt(input, 16)]. *)
Definition parseInt16 (input : string) : number :=
  let '(sg, s1) := read_sign (trim_start input) in
  let s2 := match strip2 "0" "x" "X" s1 with Some t => t | None => s1 end in
  let '(v, cnt, _) := read_hex_digits 0 0 s2 in
  match cnt with
  | O => NaN
  | S _ => if v =? 0 then S754_zero sg else of_Z (if sg then - v else v)
  end.

(** [BigInt(x)] for a Number [x]: a [RangeError] unless [x] is an
    integer. *)
Definition to_BigInt (x : number) : option Z :=
  match x with
  | S754_zero _ => Some 0
  | S754_finite s m e =>
      let a :=
        if 0 <=? e then Some (Zpos m * 2 ^ e)
        else if Zpos m mod 2 ^ (- e) =? 0 then Some (Zpos m / 2 ^ (- e))
        else None in
      option_map (fun v => if s then - v else v) a
  | _ => None
  end.

(** [Math.round]: the integer nearest to [x], ties toward [+Infinity];
    the sign of a zero result is the sign of [x]. *)
Definition Math_round (x : number) : number :=
  match x with
  | S754_finite s m e =>
      if 0 <=? e then x
      else
        let k := - e in
        let v := if s then Zneg m else Zpos m in
        let z := (2 * v + 2 ^ k) / 2 ^ (k + 1) in
        if z =? 0 then S754_zero s else of_Z z
  | _ => x
  end.

Definition is_neg_zero (x : number) : bool :=
  match x with S754_zero true => true | _ => false end.

(** [Math.min(a, b)] and [Math.max(a, b)]: [NaN] when an argument is
    [NaN]; [-0] is below [+0]. *)
Definition Math_min (a b : number) : number :=
  match SFcompare a b with
  | None => NaN
  | Some Lt => a
  | Some Gt => b
  | Some Eq => if is_neg_zero a then a else b
  end.

Definition Math_max (a b : number) : number :=
  match SFcompare a b with
  | None => NaN
  | Some Lt => b
  | Some Gt => a
  | Some Eq => if is_neg_zero a then b else a
  end.

End JSNumber.

(** ** 32-byte words and their hexadecimal rendering *)

Module Word256.

Definition nibble_char (n : N) : ascii :=
  if (n <? 10)%N then ascii_of_N (48 + n) else ascii_of_N (87 + n).

Definition hex_of_byte (b : Byte.byte) : string :=
  let n := Byte.to_N b in
  String (nibble_char (n / 16)) (String (nibble_char (n mod 16)) EmptyString).

(** Lower-case hexadecimal text of a byte sequence, as the log API
    returns it. *)
Fixpoint hex_of_bytes (w : list Byte.byte) : string :=
  match w with
  | [] => EmptyString
  | b :: w' => (hex_of_byte b ++ hex_of_bytes w')%string
  end.

(** Big-endian unsigned value of a byte sequence. *)
Definition unsigned (w : list Byte.byte) : Z :=
  fold_left (fun acc b => 256 * acc + Z.of_N (Byte.to_N b)) w 0.

(** The 32-byte big-endian word of [v mod 2^256]. *)
Definition of_Z (v : Z) : list Byte.byte :=
  map (fun i => match Byte.of_N (Z.to_N ((v / 256 ^ Z.of_nat (31 - i)) mod 256)) with
                | Some b => b
                | None => Byte.x00
                end)
      (seq 0 32).

Definition all_ones : list Byte.byte := repeat Byte.xff 32.
Definition one : list Byte.byte := repeat Byte.x00 31 ++ [Byte.x01].
Definition min_int : list Byte.byte := Byte.x80 :: repeat Byte.x00 31.

End Word256.


(** ** [js/fetcher.js]: [FluidFetcher.rateToApy] *)

Module Fetcher.

Import JSNumber.

(** The body of [rateToApy] after [const raw = BigInt(rawRateStr)]. *)
Definition rateToApy_raw (raw : Z) : number :=
  let abs := if raw <? 0 then - raw else raw in
  let sign := if raw <? 0 then of_Z (-1) else of_Z 1 in
  if abs >? 10 ^ 18 then
    let scaled := of_Z (Z.quot abs (10 ^ 23)) in
    div (mul sign scaled) (of_Z 100)
  else
    div (mul sign (of_Z abs)) (of_Z 100).

Definition rateToApy (rawRateStr : string) : option number :=
  let? raw := JSBigInt.of_string rawRateStr in
  Some (rateToApy_raw raw).

End Fetcher.

(** ** [js/history.js]: [TransactionHistoryFetcher] *)

Definition MAX_RESULTS_PER_PAGE : nat := 1000.

(** One entry of the [result] array of the log API. A missing [data] or
    [timeStamp] field behaves like the empty string in every use the
    program makes of it. *)
Record log : Type := {
  log_data : string;
  log_timeStamp : string;
  log_transactionHash : string
}.

(** A transaction row pushed by [decodeEvent]; [date] is the time value
    of the [Date] object. *)
Record row : Type := {
  date : JSNumber.number;
  timestamp : JSNumber.number;
  description : string;
  asset : string;
  amount : JSNumber.number;
  symbol : string;
  usdValue : JSNumber.number;
  txHash : string;
  isRepayOrWithdraw : bool
}.

(** The value kept per vault in [vaultMap]; [nftIds] is a [Set] of
    BigInt, kept in insertion order without duplicates. *)
Record vault_info : Type := {
  nftIds : list Z;
  supplyToken : string;
  borrowToken : string;
  supplySymbol : string;
  borrowSymbol : string;
  supplyName : string;
  borrowName : string;
  supplyDecimals : JSNumber.number;
  borrowDecimals : JSNumber.number
}.

(** The result of [decodeEvent] when it is not [null]. *)
Record decoded : Type := {
  _nftId : Z;
  rows : list row
}.

(** The [prices] object, a plain object: its own properties, which are
    Numbers. *)
Definition price_map : Type := string -> option JSNumber.number.

(** The names of the members a plain object inherits from
    [Object.prototype]: functions, and for [__proto__] the prototype
    itself. *)
Definition Object_prototype_names : list string :=
  ["constructor"; "hasOwnProperty"; "isPrototypeOf"; "propertyIsEnumerable";
   "toLocaleString"; "toString"; "valueOf"; "__proto__";
   "__defineGetter__"; "__defineSetter__"; "__lookupGetter__";
   "__lookupSetter__"]%string.

Definition inherited (name : string) : bool :=
  existsb (String.eqb name) Object_prototype_names.

(** A formatted position as [FluidFetcher.formatPosition] builds it,
    restricted to the fields the history fetcher reads. [pos_supply] and
    [pos_borrow] are the raw amounts as strings; a formatted amount that
    is absent is [None]. *)
Record position : Type := {
  pos_nftId : string;
  pos_vaultAddress : string;
  pos_supplyToken : string;
  pos_borrowToken : string;
  pos_supply : option string;
  pos_borrow : option string;
  pos_collateral_amount : option JSNumber.number;
  pos_collateral_symbol : string;
  pos_collateral_name : string;
  pos_debt_amount : option JSNumber.number;
  pos_debt_symbol : string;
  pos_debt_name : string
}.

(** *** The log API *)

Inductive json_result : Type :=
| RUndefined
| RString (s : string)
| RLogs (l : list log).

Record api_json : Type := {
  status : string;
  message : string;
  result : json_result
}.

(** What [await fetch(url)] followed by [await response.json()] can give:
    a rejected [fetch], or a response with its [ok] flag, its status code
    and its body, [None] when the body is not JSON. *)
Inductive http_reply : Type :=
| NetworkFailure
| HttpReply (ok : bool) (code : nat) (body : option api_json).

Record request : Type := {
  req_address : string;
  req_page : nat
}.

(** How an [async] method ends. *)
Inductive outcome (A : Type) : Type :=
| Returned (a : A)
| Thrown.
Arguments Returned {A} a.
Arguments Thrown {A}.

(** [_decodeInt256] *)
Definition MAX_INT256 : Z := Z.shiftl 1 255 - 1.

Definition _decodeInt256 (hexWord : string) : option Z :=
  let? val := JSBigInt.of_hex hexWord in
  if val >? MAX_INT256 then Some (val - Z.shiftl 1 256) else Some val.

(** [_formatUnits]: [BigInt(decimals)] throws unless [decimals] is an
    integer, [**] throws on a negative exponent. *)
Definition _formatUnits (value : Z) (decimals : JSNumber.number)
  : option JSNumber.number :=
  let? d := JSNumber.to_BigInt decimals in
  let? divisor := JSBigInt.pow 10 d in
  let? intPart := JSBigInt.div value divisor in
  let? fracPart := JSBigInt.rem value divisor in
  let fracStr :=
    JSString.padStart0 (Z.to_nat d) (JSBigInt.to_string fracPart) in
  Some (JSNumber.parseFloat
          (JSBigInt.to_string intPart ++ "." ++ fracStr)%string).

(** [prices[symbol] || 0], as the factor of a product, its one use. A
    symbol that is no own property of [prices] but the name of an
    inherited member reads that member, a function or an object: it is
    truthy, and as a factor it converts to [NaN]. *)
Definition price_or_0 (prices : price_map) (sym : string) : JSNumber.number :=
  match prices sym with
  | Some p => if JSNumber.truthy p then p else JSNumber.of_Z 0
  | None => if inherited sym then JSNumber.NaN else JSNumber.of_Z 0
  end.

(** [TimeClip], the time value of [new Date(time)] for a Number [time]:
    [NaN] when [time] is not finite or beyond 8.64e15 in magnitude, and
    else [time] without its fractional part, a zero being [+0]. *)
Definition TimeClip (time : JSNumber.number) : JSNumber.number :=
  match time with
  | S754_zero _ => S754_zero false
  | S754_finite s m e =>
      if JSNumber.ltb (JSNumber.of_Z 8640000000000000) (JSNumber.abs time)
      then JSNumber.NaN
      else
        let v := if 0 <=? e then Zpos m * 2 ^ e else Zpos m / 2 ^ (- e) in
        JSNumber.of_Z (if s then - v else v)
  | _ => JSNumber.NaN
  end.

(** The row pushed for one non-zero delta [amt]; [pos_label] and
    [neg_label] are the descriptions of the two signs. *)
Definition delta_row (ts : JSNumber.number) (hash : string)
    (amt : Z) (decimals : JSNumber.number) (sym : string)
    (pos_label neg_label : string) (prices : price_map) : option row :=
  let isPositive := amt >? 0 in
  let absAmt := if amt >? 0 then amt else - amt in
  let? amount := _formatUnits absAmt decimals in
  let price := price_or_0 prices sym in
  Some {| date := TimeClip (JSNumber.mul ts (JSNumber.of_Z 1000));
          timestamp := ts;
          description := if isPositive then pos_label else neg_label;
          asset := sym;
          amount := if isPositive then amount else JSNumber.neg amount;
          symbol := sym;
          usdValue := JSNumber.mul (JSNumber.abs amount) price;
          txHash := hash;
          isRepayOrWithdraw := negb isPositive |}.

(** [decodeEvent]: [None] is the [null] result, from the length guard, from
    the [catch] block or from an event with both deltas zero. *)
Definition decodeEvent (lg : log) (vaultInfo : vault_info) (prices : price_map)
  : option decoded :=
  let data := log_data lg in
  if (String.length data <? 2 + 64 * 5)%nat then None
  else
    let hex := JSString.drop 2 data in
    let word (i : nat) := JSString.slice (i * 64) ((i + 1) * 64) hex in
    let? nftId := JSBigInt.of_hex (word 1%nat) in
    let? colAmt := _decodeInt256 (word 2%nat) in
    let? debtAmt := _decodeInt256 (word 3%nat) in
    let ts := JSNumber.parseInt16 (log_timeStamp lg) in
    let hash := log_transactionHash lg in
    let? colRows :=
      if colAmt =? 0 then Some []
      else
        let? r := delta_row ts hash colAmt (supplyDecimals vaultInfo)
                    (supplySymbol vaultInfo)
                    "Collateral Deposit" "Collateral Withdrawal" prices in
        Some [r] in
    let? debtRows :=
      if debtAmt =? 0 then Some []
      else
        let? r := delta_row ts hash debtAmt (borrowDecimals vaultInfo)
                    (borrowSymbol vaultInfo)
                    "Margin Loan" "Loan Repayment" prices in
        Some [r] in
    match colRows ++ debtRows with
    | [] => None
    | rs => Some {| _nftId := nftId; rows := rs |}
    end.

(** The four kinds of ledger row, read off the description. *)
Inductive row_kind : Type := Deposit | Withdrawal | Borrow | Repayment.

Definition kind_of (r : row) : option row_kind :=
  if String.eqb (description r) "Collateral Deposit" then Some Deposit
  else if String.eqb (description r) "Collateral Withdrawal" then Some Withdrawal
  else if String.eqb (description r) "Margin Loan" then Some Borrow
  else if String.eqb (description r) "Loan Repayment" then Some Repayment
  else None.

(** *** Pagination *)

Section LogSource.

(** The log API: a state and the reply to each request. *)
Variable source : Type.
Variable serve : source -> request -> http_reply * source.

(** [json.result && typeof json.result === 'string' &&
     json.result.includes('rate limit')] *)
Definition is_rate_limit (r : json_result) : bool :=
  match r with
  | RString s =>
      negb (String.eqb s "") && JSString.includes "rate limit" s
  | _ => false
  end.

(** [json.result || []], spread into [allLogs]. A non-empty string spreads
    into its characters, entries without a [data] field. *)
Definition logs_of_result (r : json_result) : list log :=
  match r with
  | RLogs l => l
  | RUndefined => []
  | RString s =>
      map (fun _ => {| log_data := ""; log_timeStamp := "";
                       log_transactionHash := "" |})
          (list_ascii_of_string s)
  end.

(** The state of a run: the source, and the requests issued so far, the
    latest first. *)
Record run (A : Type) : Type := {
  run_result : outcome A;
  run_source : source;
  run_requests : list request
}.
Arguments run_result {A} r.
Arguments run_source {A} r.
Arguments run_requests {A} r.

(** The [while (true)] loop of [fetchVaultEvents]; [fuel] bounds the
    number of requests, [None] is a loop still running when it is spent. *)
Fixpoint fetch_loop (fuel : nat) (vaultAddress : string) (src : source)
    (reqs : list request) (allLogs : list log) (page : nat)
  : option (run (list log)) :=
  match fuel with
  | O => None
  | S fuel' =>
      let rq := {| req_address := vaultAddress; req_page := page |} in
      let '(reply, src') := serve src rq in
      let reqs' := rq :: reqs in
      let stop (o : outcome (list log)) :=
        Some {| run_result := o; run_source := src';
                run_requests := reqs' |} in
      match reply with
      | NetworkFailure => stop Thrown
      | HttpReply false _ _ => stop Thrown
      | HttpReply true _ None => stop Thrown
      | HttpReply true _ (Some json) =>
          if String.eqb (status json) "0" then
            if String.eqb (message json) "No records found"
            then stop (Returned allLogs)
            else if is_rate_limit (result json)
            then fetch_loop fuel' vaultAddress src' reqs' allLogs page
            else stop (Returned allLogs)
          else
            let logs := logs_of_result (result json) in
            let allLogs' := allLogs ++ logs in
            if (List.length logs <? MAX_RESULTS_PER_PAGE)%nat
            then stop (Returned allLogs')
            else fetch_loop fuel' vaultAddress src' reqs' allLogs'
                   (S page)
      end
  end.

Definition fetchVaultEvents (fuel : nat) (vaultAddress : string)
    (src : source) (reqs : list request) : option (run (list log)) :=
  fetch_loop fuel vaultAddress src reqs [] 1%nat.

(** *** Assembly *)

Variable Math_log10 : JSNumber.number -> JSNumber.number.

(** [!rawStr || rawStr === '0' || !formattedAmount ||
     formattedAmount === 0] *)
Definition use_default_decimals (rawStr : option string)
    (formattedAmount : option JSNumber.number) : bool :=
  match rawStr, formattedAmount with
  | Some s, Some f =>
      String.eqb s "" || String.eqb s "0" ||
      negb (JSNumber.truthy f) || JSNumber.eqb f (JSNumber.of_Z 0)
  | _, _ => true
  end.

Definition _inferDecimals (rawStr : option string)
    (formattedAmount : option JSNumber.number) : JSNumber.number :=
  match rawStr, formattedAmount with
  | Some s, Some f =>
      if use_default_decimals rawStr formattedAmount then JSNumber.of_Z 18
      else
        let raw := JSNumber.parseFloat s in
        let ratio := JSNumber.div raw f in
        let decimals := JSNumber.Math_round (Math_log10 ratio) in
        JSNumber.Math_max (JSNumber.of_Z 0)
          (JSNumber.Math_min decimals (JSNumber.of_Z 18))
  | _, _ => JSNumber.of_Z 18
  end.

Inductive token_side : Type := supply_side | borrow_side.

Definition _getDecimals (pos : position) (type : token_side)
  : JSNumber.number :=
  match type with
  | supply_side => _inferDecimals (pos_supply pos) (pos_collateral_amount pos)
  | borrow_side => _inferDecimals (pos_borrow pos) (pos_debt_amount pos)
  end.

(** [vaultMap]: a [Map] from vault address to [vault_info], in insertion
    order. *)
Definition vault_map : Type := list (string * vault_info).

Fixpoint vault_has (m : vault_map) (a : string) : bool :=
  match m with
  | [] => false
  | (k, _) :: m' => String.eqb k a || vault_has m' a
  end.

Definition set_add (x : Z) (s : list Z) : list Z :=
  if existsb (Z.eqb x) s then s else s ++ [x].

(** [vaultMap.get(vaultAddr).nftIds.add(id)] *)
Fixpoint vault_add_id (m : vault_map) (a : string) (id : Z) : vault_map :=
  match m with
  | [] => []
  | (k, info) :: m' =>
      if String.eqb k a
      then (k, {| nftIds := set_add id (nftIds info);
                  supplyToken := supplyToken info;
                  borrowToken := borrowToken info;
                  supplySymbol := supplySymbol info;
                  borrowSymbol := borrowSymbol info;
                  supplyName := supplyName info;
                  borrowName := borrowName info;
                  supplyDecimals := supplyDecimals info;
                  borrowDecimals := borrowDecimals info |}) :: m'
      else (k, info) :: vault_add_id m' a id
  end.

Definition new_vault_info (pos : position) : vault_info :=
  {| nftIds := [];
     supplyToken := pos_supplyToken pos;
     borrowToken := pos_borrowToken pos;
     supplySymbol := pos_collateral_symbol pos;
     borrowSymbol := pos_debt_symbol pos;
     supplyName := pos_collateral_name pos;
     borrowName := pos_debt_name pos;
     supplyDecimals := _getDecimals pos supply_side;
     borrowDecimals := _getDecimals pos borrow_side |}.

(** The first loop of [fetchForPositions]; [BigInt(pos.nftId)] may
    throw. *)
Fixpoint group_positions (positions : list position) (m : vault_map)
  : option vault_map :=
  match positions with
  | [] => Some m
  | pos :: rest =>
      let vaultAddr := pos_vaultAddress pos in
      let m1 := if vault_has m vaultAddr then m
                else m ++ [(vaultAddr, new_vault_info pos)] in
      let? id := JSBigInt.of_string (pos_nftId pos) in
      group_positions rest (vault_add_id m1 vaultAddr id)
  end.

(** The rows one vault's logs add to [allTransactions]. *)
Fixpoint rows_of_logs (logs : list log) (info : vault_info)
    (prices : price_map) : list row :=
  match logs with
  | [] => []
  | lg :: logs' =>
      match decodeEvent lg info prices with
      | None => rows_of_logs logs' info prices
      | Some d =>
          if existsb (Z.eqb (_nftId d)) (nftIds info)
          then rows d ++ rows_of_logs logs' info prices
          else rows_of_logs logs' info prices
      end
  end.

(** The loop over [vaultMap]: [allTransactions] before it is sorted. *)
Fixpoint collect_vaults (fuel : nat) (m : vault_map) (prices : price_map)
    (src : source) (reqs : list request) (allTransactions : list row)
  : option (run (list row)) :=
  match m with
  | [] => Some {| run_result := Returned allTransactions;
                  run_source := src; run_requests := reqs |}
  | (vaultAddress, info) :: m' =>
      let? r := fetchVaultEvents fuel vaultAddress src reqs in
      match run_result r with
      | Thrown => Some {| run_result := Thrown;
                          run_source := run_source r;
                          run_requests := run_requests r |}
      | Returned logs =>
          collect_vaults fuel m' prices (run_source r) (run_requests r)
            (allTransactions ++ rows_of_logs logs info prices)
      end
  end.

(** The comparator [(a, b) => b.timestamp - a.timestamp]. *)
Definition by_timestamp_desc (a b : row) : JSNumber.number :=
  JSNumber.sub (timestamp b) (timestamp a).

(** [SortCompare]: whether the comparator's value is above zero, a
    [NaN] counting as zero. *)
Definition sorts_after {A : Type} (comparefn : A -> A -> JSNumber.number)
    (a b : A) : bool :=
  JSNumber.ltb (JSNumber.of_Z 0) (comparefn a b).

(** [Array.prototype.sort] is stable; with a consistent comparator every
    stable sort gives the same array, here by insertion. *)
Fixpoint sort_insert {A : Type} (comparefn : A -> A -> JSNumber.number)
    (x : A) (l : list A) : list A :=
  match l with
  | [] => [x]
  | y :: l' =>
      if sorts_after comparefn x y then y :: sort_insert comparefn x l'
      else x :: l
  end.

Definition array_sort {A : Type} (comparefn : A -> A -> JSNumber.number)
    (l : list A) : list A :=
  fold_right (sort_insert comparefn) [] l.

(** [allTransactions] as the loops of [fetchForPositions] leave it. *)
Definition collectTransactions (fuel : nat) (positions : list position)
    (prices : price_map) (src : source) : option (run (list row)) :=
  match group_positions positions [] with
  | None => Some {| run_result := Thrown; run_source := src;
                    run_requests := [] |}
  | Some vaultMap => collect_vaults fuel vaultMap prices src [] []
  end.

Definition fetchForPositions (fuel : nat) (positions : list position)
    (prices : price_map) (src : source) : option (run (list row)) :=
  let? r := collectTransactions fuel positions prices src in
  match run_result r with
  | Thrown => Some r
  | Returned allTransactions =>
      Some {| run_result := Returned (array_sort by_timestamp_desc allTransactions);
              run_source := run_source r;
              run_requests := run_requests r |}
  end.

End LogSource.

Arguments run_result {source A} r.
Arguments run_source {source A} r.
Arguments run_requests {source A} r.
Arguments Build_run {source A} run_result run_source run_requests.
Arguments fetch_loop {source} serve fuel vaultAddress src reqs allLogs page.
Arguments fetchVaultEvents {source} serve fuel vaultAddress src reqs.
Arguments collect_vaults {source} serve fuel m prices src reqs allTransactions.
Arguments collectTransactions {source} serve Math_log10 fuel positions prices src.
Arguments fetchForPositions {source} serve Math_log10 fuel positions prices src.



(** ** Vocabulary of the statements *)

(** The int256 read of an unsigned 256-bit value. *)
Definition signed256 (v : Z) : Z :=
  if v <=? 2 ^ 255 - 1 then v else v - 2 ^ 256.

(** The hexadecimal text of five 32-byte words. *)
Definition payload_hex (w0 w1 w2 w3 w4 : list Byte.byte) : string :=
  (Word256.hex_of_bytes w0 ++ Word256.hex_of_bytes w1
     ++ Word256.hex_of_bytes w2 ++ Word256.hex_of_bytes w3
     ++ Word256.hex_of_bytes w4)%string.

(** The [data] field of a LogOperate entry: five 32-byte words. *)
Definition payload (w0 w1 w2 w3 w4 : list Byte.byte) : string :=
  ("0x" ++ payload_hex w0 w1 w2 w3 w4)%string.

(** Descending order of a key. *)
Definition key_desc {A : Type} (key : A -> Z) (a b : A) : Prop :=
  key b <= key a.

(** One row kind per non-zero delta side. *)
Definition expected_kinds (colAmt debtAmt : Z) : list row_kind :=
  (if colAmt >? 0 then [Deposit] else if colAmt <? 0 then [Withdrawal] else [])
  ++
  (if debtAmt >? 0 then [Borrow] else if debtAmt <? 0 then [Repayment] else []).

(** [decimals] is a Number holding a non-negative integer. *)
Definition valid_decimals (decimals : JSNumber.number) : Prop :=
  exists d, JSNumber.to_BigInt decimals = Some d /\ 0 <= d.

Section SourceRuns.

Context {source : Type}.
Variable serve : source -> request -> http_reply * source.
Variable vaultAddress : string.

Definition page_request (p : nat) : request :=
  {| req_address := vaultAddress; req_page := p |}.

(** A reply that makes the loop wait and ask for the same page again. *)
Definition rate_limited (json : api_json) : bool :=
  String.eqb (status json) "0" &&
  negb (String.eqb (message json) "No records found") &&
  is_rate_limit (result json).

(** An error reply of the API that is neither the empty answer nor a
    rate limit. *)
Definition api_error (json : api_json) : bool :=
  String.eqb (status json) "0" &&
  negb (String.eqb (message json) "No records found") &&
  negb (is_rate_limit (result json)).

(** [collects src p reqs pages src']: from state [src] and page [p], the
    source answers the requests [reqs] (the latest first) with full
    pages, of at least [MAX_RESULTS_PER_PAGE] entries each, whose
    contents are [pages] in order, and with rate-limit replies in
    between; it is left in state [src'], the next page to ask for being
    [p + length pages]. *)
Inductive collects :
  source -> nat -> list request -> list (list log) -> source -> Prop :=
| collects_done (src : source) (p : nat) : collects src p [] [] src
| collects_page (src src1 src2 : source) (p code : nat) (json : api_json)
    (reqs : list request) (pages : list (list log)) :
    serve src (page_request p) = (HttpReply true code (Some json), src1) ->
    String.eqb (status json) "0" = false ->
    (MAX_RESULTS_PER_PAGE <= List.length (logs_of_result (result json)))%nat ->
    collects src1 (S p) reqs pages src2 ->
    collects src p (reqs ++ [page_request p])
      (logs_of_result (result json) :: pages) src2
| collects_retry (src src1 src2 : source) (p code : nat) (json : api_json)
    (reqs : list request) (pages : list (list log)) :
    serve src (page_request p) = (HttpReply true code (Some json), src1) ->
    rate_limited json = true ->
    collects src1 p reqs pages src2 ->
    collects src p (reqs ++ [page_request p]) pages src2.

(** How [fetchVaultEvents] ends on a reply that is not a page. *)
Inductive abort_kind : Type := AbortReturn | AbortThrow.

Definition abort_of (reply : http_reply) : option abort_kind :=
  match reply with
  | NetworkFailure => Some AbortThrow
  | HttpReply false _ _ => Some AbortThrow
  | HttpReply true _ None => Some AbortThrow
  | HttpReply true _ (Some json) =>
      if api_error json then Some AbortReturn else None
  end.

End SourceRuns.

(** *** Ledger order *)

(** The timestamp of [r] is an integer below [2^53], as the hexadecimal
    [timeStamp] of a log entry gives. *)
Definition valid_timestamp (r : row) : Prop :=
  exists z, 0 <= z < 2 ^ 53 /\ timestamp r = JSNumber.of_Z z.

(** [a] may come before [b] in a ledger in descending order. *)
Definition ts_desc (a b : row) : Prop :=
  JSNumber.leb (timestamp b) (timestamp a) = true.


Definition ts_key (r : row) : Z :=
  match JSNumber.to_BigInt (timestamp r) with
  | Some z => z
  | None => 0
  end.

(** *** Ownership *)

(** [pos] is a position of the caller on vault [vaultAddress] whose NFT id
    is [id]. *)
Definition owns (positions : list position) (vaultAddress : string) (id : Z)
  : Prop :=
  exists pos, In pos positions /\ pos_vaultAddress pos = vaultAddress /\
              JSBigInt.of_string (pos_nftId pos) = Some id.

(** [r] is a row of a log that [fetchVaultEvents] returned for a vault of
    [vaultMap], decoded in that vault's context, whose NFT id is among the
    ids kept for the vault. *)
Definition derived_from_owned_log {source : Type}
    (serve : source -> request -> http_reply * source) (fuel : nat)
    (vaultMap : list (string * vault_info)) (prices : price_map) (r : row)
  : Prop :=
  exists vaultAddress info lg d src reqs fetched logs,
    In (vaultAddress, info) vaultMap /\
    fetchVaultEvents serve fuel vaultAddress src reqs = Some fetched /\
    run_result fetched = Returned logs /\
    In lg logs /\
    decodeEvent lg info prices = Some d /\
    In r (rows d) /\
    In (_nftId d) (nftIds info).

(** *** Binary64 rounding *)

Section RoundingSteps.

Import JSNumber.

(** The steps of [binary_round_aux], named: the first shift, the
    rounded mantissa, the second shift. *)
Definition bra_n1 (mx ex : Z) : Z :=
  Z.max 0 (fexp prec emax (Zdigits2 mx + ex) - ex).

Definition bra_m1 (mx ex : Z) (lx : location) : Z :=
  let mrs := fst (shr_fexp prec emax mx ex lx) in
  round_nearest_even (shr_m mrs) (loc_of_shr_record mrs).

Definition bra_n2 (mx ex : Z) (lx : location) : Z :=
  let e1 := ex + bra_n1 mx ex in
  Z.max 0 (fexp prec emax (Zdigits2 (bra_m1 mx ex lx) + e1) - e1).

(** [x] is not [NaN] and its sign bit is [s]. *)
Definition has_sign (s : bool) (x : number) : Prop :=
  match x with
  | S754_zero s' | S754_infinity s' | S754_finite s' _ _ => s' = s
  | S754_nan => False
  end.

Definition nonzero (x : number) : Prop :=
  match x with
  | S754_zero _ => False
  | _ => True
  end.

(** A finite Number above zero. *)
Definition positive_finite (x : number) : Prop :=
  match x with
  | S754_finite false _ _ => True
  | _ => False
  end.

(** A normal binary64 value in canonical form: 53 digits of mantissa. *)
Definition canonical (x : number) : Prop :=
  match x with
  | S754_finite _ m e =>
      Zdigits2 (Zpos m) = 53 /\ emin prec emax <= e <= emax - prec
  | _ => False
  end.

(** A zero, an infinity, or a normal value in canonical form. *)
Definition regular (x : number) : Prop :=
  match x with
  | S754_zero _ | S754_infinity _ => True
  | S754_nan => False
  | S754_finite _ _ _ => canonical x
  end.

Definition p2 (e : Z) : R := powerRZ 2 e.

(** The real number a finite Number stands for. *)
Definition B2R (x : number) : R :=
  match x with
  | S754_finite s m e => IZR (if s then Zneg m else Zpos m) * p2 e
  | _ => 0%R
  end.

(** Where the real [x] lies in the interval from [m * u] to
    [(m + 1) * u], as a [location] records it. *)
Definition located (x : R) (m : Z) (l : location) (u : R) : Prop :=
  match l with
  | loc_Exact => x = (IZR m * u)%R
  | loc_Inexact c =>
      (IZR m * u < x < (IZR m + 1) * u)%R /\
      match c with
      | Lt => (x < (IZR m + / 2) * u)%R
      | Eq => x = ((IZR m + / 2) * u)%R
      | Gt => ((IZR m + / 2) * u < x)%R
      end
  end.

End RoundingSteps.

(** *** Decimal text *)

(** The value of a run of decimal digits read after [acc]. *)
Fixpoint dec_value (acc : Z) (s : string) : Z :=
  match s with
  | EmptyString => acc
  | String c s' => dec_value (10 * acc + (Z.of_nat (nat_of_ascii c) - 48)) s'
  end.

Definition all_digits (s : string) : bool :=
  forallb JSNumber.is_digit (list_ascii_of_string s).

(** [D] is a non-empty run of decimal digits whose value is [n]. *)
Definition decimal_text (D : string) (n : Z) : Prop :=
  all_digits D = true /\ D <> EmptyString /\
  forall a, dec_value a D = a * 10 ^ Z.of_nat (String.length D) + n.

(** *** Rates *)

(** The magnitude [rateToApy] scales: beyond the threshold the ray
    encoding, below it the basis-point encoding. *)
Definition rate_magnitude (r : Z) : Z :=
  if 10 ^ 18 <? Z.abs r then Z.abs r / 10 ^ 23 else Z.abs r.

(** The rate formula as the specification words it: the sign of [r] times
    the scaled magnitude over one hundred. *)
Definition rateToApy_spec (r : Z) : JSNumber.number :=
  let q := if 10 ^ 18 <? Z.abs r then Z.abs r / 10 ^ 23 else Z.abs r in
  JSNumber.mul (JSNumber.of_Z (Z.sgn r))
    (JSNumber.div (JSNumber.of_Z q) (JSNumber.of_Z 100)).

(** *** Inferred decimals *)

(** What [Math.round] can give on a Number that is not [NaN]: a zero, an
    infinity, a negative value, a positive value with no fractional bit,
    or the Number of a positive integer. *)
Definition rounded (x : JSNumber.number) : Prop :=
  match x with
  | S754_nan => False
  | S754_zero _ | S754_infinity _ | S754_finite true _ _ => True
  | S754_finite false _ e => 0 <= e \/ exists z, 0 < z /\ x = JSNumber.of_Z z
  end.

(** [x] is absent, or a zero. *)
Definition missing_or_zero (x : option JSNumber.number) : Prop :=
  x = None \/ exists s, x = Some (S754_zero s).

(** [s] is absent, empty, or the text of zero. *)
Definition missing_or_0 (s : option string) : Prop :=
  s = None \/ s = Some EmptyString \/ s = Some "0"%string.

(** [y] is a Number in canonical form less than one half away from the
    integer [k], or a zero for [k = 0]. *)
Definition within_half (y : JSNumber.number) (k : Z) : Prop :=
  match y with
  | S754_zero _ => k = 0
  | S754_finite _ _ _ => canonical y /\ (Rabs (B2R y - IZR k) < / 2)%R
  | _ => False
  end.

(** [Math.log10] finds the exponent of the powers of ten from 1 to
    [10^18]: on a Number from half such a power to twice it, its value
    is less than one half away from the exponent. The logarithm of 2 is
    near 0.30. *)
Definition log10_near_powers
    (Math_log10 : JSNumber.number -> JSNumber.number) : Prop :=
  forall x k,
    0 <= k <= 18 -> positive_finite x ->
    (IZR (10 ^ k) / 2 <= B2R x <= 2 * IZR (10 ^ k))%R ->
    within_half (Math_log10 x) k.

(** [f] is a formatted amount of [v] base units with [d] decimals: a
    positive finite Number within one quarter of [v / 10^d]. *)
Definition formatted_amount (v d : Z) (f : JSNumber.number) : Prop :=
  positive_finite f /\
  (Rabs (B2R f - IZR v / IZR (10 ^ d)) <= IZR v / IZR (10 ^ d) / 4)%R.

(** *** Round trip *)

(** The base units rebuilt from a decimal value, as the specification
    words it: [round(decimal * 10^d)]. *)
Definition reconstruct (decimal : JSNumber.number) (d : Z) : JSNumber.number :=
  JSNumber.Math_round (JSNumber.mul decimal (JSNumber.of_Z (10 ^ d))).


(** ** Sample data *)

Module Sample.

Import JSNumber.
Local Open Scope string_scope.

(** A coarse base-10 logarithm, exact on the powers of ten: the integer
    part of the logarithm. *)
Definition log10_floor (m : positive) (e : Z) : Z :=
  let len (n : Z) := Z.of_nat (String.length (JSBigInt.digits n)) in
  (if 0 <=? e then len (Zpos m * 2 ^ e) - 1
   else if 2 ^ (- e) <=? Zpos m then len (Zpos m / 2 ^ (- e)) - 1
   else - len ((2 ^ (- e) - 1) / Zpos m))%Z.

Definition log10 (x : number) : number :=
  match x with
  | S754_nan => S754_nan
  | S754_infinity false => x
  | S754_infinity true => S754_nan
  | S754_zero _ => S754_infinity true
  | S754_finite true _ _ => S754_nan
  | S754_finite false m e => of_Z (log10_floor m e)
  end.

(** Whether the positive Number [m * 2^e] is at most the integer
    [n]. *)
Definition at_most (m : positive) (e : Z) (n : Z) : bool :=
  (if 0 <=? e then Zpos m * 2 ^ e <=? n
   else Zpos m <=? n * 2 ^ (- e))%Z.

(** The first exponent from [k] on whose power of ten, doubled, is not
    below the Number. *)
Fixpoint exponent_from (fuel : nat) (k : Z) (m : positive) (e : Z) : Z :=
  match fuel with
  | O => k
  | S fuel' =>
      if at_most m e (2 * 10 ^ k) then k
      else exponent_from fuel' (k + 1) m e
  end.

(** A base-10 logarithm to the nearest exponent, from 0 on: [k] on the
    Numbers above [2 * 10^(k-1)] and up to [2 * 10^k]. *)
Definition log10_nearest (x : number) : number :=
  match x with
  | S754_finite false m e => of_Z (exponent_from 330 0 m e)
  | _ => log10 x
  end.

Definition vault : string := "0x0C8C77B7FF4c2aF7F6CEBbe67350A490E3DD6cB3".

(** The entry of a LogOperate event for NFT [nft] with deltas [col] and
    [debt], at the block time [ts]. *)
Definition entry (nft col debt : Z) (ts : string) : log :=
  {| log_data := payload (Word256.of_Z 0) (Word256.of_Z nft)
                   (Word256.of_Z col) (Word256.of_Z debt) (Word256.of_Z 0);
     log_timeStamp := ts;
     log_transactionHash := "0xfeed" |}.

Definition info : vault_info :=
  {| nftIds := [6];
     supplyToken := "0xEeeeeEeeeEeEeeEeEeEeeEEEeeeeEeeeeeeeEEeE";
     borrowToken := "0xA0b86991c6218b36c1d19D4a2e9Eb0cE3606eB48";
     supplySymbol := "ETH"; borrowSymbol := "USDC";
     supplyName := "Ethereum"; borrowName := "USD Coin";
     supplyDecimals := of_Z 18; borrowDecimals := of_Z 6 |}.

Definition prices : price_map :=
  fun sym =>
    if String.eqb sym "ETH" then Some (of_Z 2000)
    else if String.eqb sym "USDC" then Some (of_Z 1)
    else None.

Definition pos : position :=
  {| pos_nftId := "6";
     pos_vaultAddress := vault;
     pos_supplyToken := "0xEeeeeEeeeEeEeeEeEeEeeEEEeeeeEeeeeeeeEEeE";
     pos_borrowToken := "0xA0b86991c6218b36c1d19D4a2e9Eb0cE3606eB48";
     pos_supply := Some "1500000000000000000";
     pos_borrow := Some "250000000";
     pos_collateral_amount := Some (parseFloat "1.5");
     pos_collateral_symbol := "ETH";
     pos_collateral_name := "Ethereum";
     pos_debt_amount := Some (of_Z 250);
     pos_debt_symbol := "USDC";
     pos_debt_name := "USD Coin" |}.

(** Three events of the owned position, at the times 100, 300 and 200,
    and one of another position of the same vault. *)
Definition events : list log :=
  [ entry 6 1500000000000000000 0 "0x64";
    entry 7 900000000000000000 125000000 "0x12d";
    entry 6 0 250000000 "0x12c";
    entry 6 (-500000000000000000) 0 "0xc8" ].


Definition blank : log :=
  {| log_data := ""; log_timeStamp := ""; log_transactionHash := "" |}.

(** A page of [n] entries. *)
Definition page (n : nat) : http_reply :=
  HttpReply true 200
    (Some {| status := "1"; message := "OK";
             result := RLogs (repeat blank n) |}).

(** The source of the pagination test: 1000 entries on page 1, 400 on
    page 2, full pages after that. *)
Definition two_pages : unit -> request -> http_reply * unit :=
  fun _ rq =>
    (match req_page rq with
     | 1%nat => page 1000
     | 2%nat => page 400
     | _ => page 1000
     end, tt).

(** A source that answers each request with the next reply of a script,
    and with a rejected [fetch] once the script is over. *)
Definition scripted (script : list http_reply) (rq : request)
  : http_reply * list http_reply :=
  match script with
  | [] => (NetworkFailure, [])
  | r :: script' => (r, script')
  end.

Definition events_page : http_reply :=
  HttpReply true 200
    (Some {| status := "1"; message := "OK"; result := RLogs events |}).


Definition api_failure : http_reply :=
  HttpReply true 200
    (Some {| status := "0"; message := "NOTOK";
             result := RString "Invalid API Key" |}).

Definition http_failure : http_reply := HttpReply false 500 None.

End Sample.


(** ** Further operations of the language *)

Module JSText.

Import JSString.

(** [s.slice(-n)] for [0 < n]: the last [n] characters of [s], all of
    [s] when it is shorter. *)
Definition slice_last (n : nat) (s : string) : string :=
  drop (String.length s - n) s.

(** [s.trim()], on ASCII text. *)
Definition trim (s : string) : string := trim_end (trim_start s).

End JSText.

Module JSArith.

Import JSNumber.

Definition add : number -> number -> number := SFadd prec emax.

(** [a > b] and [a >= b]: false when an operand is [NaN]. *)
Definition gtb (a b : number) : bool := ltb b a.
Definition geb (a b : number) : bool := leb b a.

Definition isNaN (x : number) : bool :=
  match x with
  | S754_nan => true
  | _ => false
  end.

(** [ToNumber] of a value that is a Number or [undefined]. *)
Definition to_number (x : option number) : number :=
  match x with
  | Some v => v
  | None => NaN
  end.

End JSArith.


(** ** [js/generator.js]: [StatementGenerator] *)

(** A position as the statement reads it: the fields of the formatted
    position the history fetcher reads, and the texts and flags the
    tables print. *)
Record statement_position : Type := {
  sp_position : position;
  sp_ltv : string;
  sp_liquidationThreshold : string;
  sp_borrowRateApy : string;
  sp_healthFactor : string;
  sp_isLiquidated : bool
}.

(** The entries of [COLORS]. *)
Inductive colour : Type :=
| primary | secondary | accent | lightGray | mediumGray | text_colour
| lightBg | success | warning | danger | white.

(** The calls the generator makes on the jsPDF document. *)
Inductive call : Type :=
| addPage
| setFont (family style : string)
| setFontSize (size : JSNumber.number)
| setTextColor (c : colour)
| setFillColor (c : colour)
| setDrawColor (c : colour)
| setLineWidth (width : JSNumber.number)
| text (s : string) (x y : JSNumber.number)
| rect (x y w h : JSNumber.number) (style : string).

(** [prices?.[symbol] || fallback], for the fallbacks 0 and 1, as the
    factor of a product, its one use: an inherited member read for the
    name of a symbol is truthy, and [NaN] as a factor. *)
Definition price_or (fallback : Z) (prices : option price_map)
    (sym : string) : JSNumber.number :=
  match prices with
  | Some p =>
      match p sym with
      | Some x => if JSNumber.truthy x then x else JSNumber.of_Z fallback
      | None =>
          if inherited sym then JSNumber.NaN else JSNumber.of_Z fallback
      end
  | None => JSNumber.of_Z fallback
  end.

Module Generator.

Import JSString JSText JSNumber JSArith.
Local Open Scope string_scope.

(** The sign put before the amount of a transaction row:
    [tx.amount >= 0 ? '+' : '']. *)
Definition amount_sign (amount : number) : string :=
  if leb (of_Z 0) amount then "+" else "".

(** [maskedAccountNumber], on the array of positions. *)
Definition maskedAccountNumber (positions : list position) : string :=
  match positions with
  | [] => "****0000"
  | p :: _ => "****" ++ slice_last 4 (padStart0 4 (pos_nftId p))
  end.

(** The colour of the health factor in the table of positions. *)
Definition health_colour (healthFactor : string) : colour :=
  let hf := parseFloat healthFactor in
  if gtb hf (parseFloat "1.5") then success
  else if gtb hf (parseFloat "1.2") then warning
  else danger.

(** The text of the status column. *)
Definition status_text (p : statement_position) : string :=
  if sp_isLiquidated p then "Margin Call" else "Active".

(** The running sums of [calculateTotals]. *)
Record sums : Type := {
  totalCollateralUsd : number;
  totalDebtUsd : number;
  weightedLtv : number;
  weightedBorrowRate : number;
  weightedLiqThreshold : number
}.

Definition no_sums : sums :=
  {| totalCollateralUsd := of_Z 0; totalDebtUsd := of_Z 0;
     weightedLtv := of_Z 0; weightedBorrowRate := of_Z 0;
     weightedLiqThreshold := of_Z 0 |}.

(** The body of the [forEach] of [calculateTotals], on the sums. *)
Definition add_position (prices : option price_map) (t : sums)
    (pos : statement_position) : sums :=
  let f := sp_position pos in
  let collateralPrice := price_or 0 prices (pos_collateral_symbol f) in
  let debtPrice := price_or 1 prices (pos_debt_symbol f) in
  let collateralUsd :=
    mul (to_number (pos_collateral_amount f)) collateralPrice in
  let debtUsd := mul (to_number (pos_debt_amount f)) debtPrice in
  {| totalCollateralUsd := add (totalCollateralUsd t) collateralUsd;
     totalDebtUsd := add (totalDebtUsd t) debtUsd;
     weightedLtv :=
       add (weightedLtv t) (mul (parseFloat (sp_ltv pos)) debtUsd);
     weightedBorrowRate :=
       add (weightedBorrowRate t)
         (mul (parseFloat (sp_borrowRateApy pos)) debtUsd);
     weightedLiqThreshold :=
       add (weightedLiqThreshold t)
         (mul (parseFloat (sp_liquidationThreshold pos)) collateralUsd) |}.

Section Texts.

(** [x.toFixed(n)] and [x.toLocaleString('en-US', ...)] with [n]
    fractional digits. *)
Variable toFixed : number -> nat -> string.
Variable toLocaleString : number -> nat -> string.

(** [formatNumber]: [None] is a value that is not a Number. *)
Definition formatNumber (num : option number) (decimals : nat) : string :=
  match num with
  | Some x => if isNaN x then "0" else toLocaleString x decimals
  | None => "0"
  end.

(** The numbers and the averages [calculateTotals] returns; the two
    texts that list the amounts per symbol are left out. *)
Record totals : Type := {
  t_totalCollateralUsd : number;
  t_totalDebtUsd : number;
  t_netValue : number;
  t_avgLtv : string;
  t_avgBorrowRate : string;
  t_avgLiquidationThreshold : string
}.

Definition calculateTotals (prices : option price_map)
    (positions : list statement_position) : totals :=
  let t := fold_left (add_position prices) positions no_sums in
  {| t_totalCollateralUsd := totalCollateralUsd t;
     t_totalDebtUsd := totalDebtUsd t;
     t_netValue := sub (totalCollateralUsd t) (totalDebtUsd t);
     t_avgLtv :=
       if gtb (totalDebtUsd t) (of_Z 0)
       then toFixed (div (weightedLtv t) (totalDebtUsd t)) 2
       else "0.00";
     t_avgBorrowRate :=
       if gtb (totalDebtUsd t) (of_Z 0)
       then toFixed (div (weightedBorrowRate t) (totalDebtUsd t)) 2
       else "0.00";
     t_avgLiquidationThreshold :=
       if gtb (totalCollateralUsd t) (of_Z 0)
       then toFixed (div (weightedLiqThreshold t) (totalCollateralUsd t)) 2
       else "0.00" |}.

(** *** The table of transactions *)

(** [tx.date.toLocaleDateString('en-US', ...)], of the time value of
    the date, and the height of the page, [this.pageHeight]. *)
Variable toLocaleDateString : number -> string.
Variable pageHeight : number.

Definition margin : number := of_Z 40.

Definition headers : list string :=
  ["Date"; "Description"; "Amount"; "Value (USD)"].
Definition colWidths : list number :=
  [of_Z 90; of_Z 160; of_Z 130; of_Z 85].
Definition tableWidth : number := fold_left add colWidths (of_Z 0).
Definition startX : number := margin.

(** [headers.forEach((header, i) => { doc.text(header, x + 5,
    y + 12); x += colWidths[i]; })], the two arrays having the same
    length. *)
Fixpoint header_texts (hs : list string) (ws : list number)
    (x y : number) : list call :=
  match hs, ws with
  | h :: hs', w :: ws' =>
      text h (add x (of_Z 5)) (add y (of_Z 12))
        :: header_texts hs' ws' (add x w) y
  | _, _ => []
  end.

(** The header row of the table, drawn at [y]. *)
Definition table_header (y : number) : list call :=
  ([setFillColor primary; rect startX y tableWidth (of_Z 18) "F";
   setFont "helvetica" "bold"; setFontSize (of_Z 8); setTextColor white]
  ++ header_texts headers colWidths startX y)%list.

(** The row of the transaction [tx], the [index]-th, drawn at [y]. *)
Definition transaction_row (index : nat) (tx : row) (y : number)
  : list call :=
  let rowBg := if Nat.even index then white else lightBg in
  let x0 := startX in
  let x1 := add x0 (nth 0 colWidths NaN) in
  let x2 := add x1 (nth 1 colWidths NaN) in
  let x3 := add x2 (nth 2 colWidths NaN) in
  [setFillColor rowBg; rect startX y tableWidth (of_Z 20) "F";
   setFont "helvetica" "normal"; setFontSize (of_Z 8);
   setTextColor text_colour;
   text (toLocaleDateString (date tx)) (add x0 (of_Z 5)) (add y (of_Z 13));
   text (description tx) (add x1 (of_Z 5)) (add y (of_Z 13));
   setTextColor (if isRepayOrWithdraw tx then success else text_colour);
   text (amount_sign (amount tx) ++ formatNumber (Some (amount tx)) 4
         ++ " " ++ symbol tx)
     (add x2 (of_Z 5)) (add y (of_Z 13));
   setTextColor text_colour;
   text ("$" ++ formatNumber (Some (usdValue tx)) 2)
     (add x3 (of_Z 5)) (add y (of_Z 13))].

(** The [forEach] over the transactions: the calls, and [currentY]
    after them. A row that would start below [pageHeight - 60] goes
    to a new page, under a new header. *)
Fixpoint transaction_rows (index : nat) (transactions : list row)
    (currentY : number) : list call * number :=
  match transactions with
  | [] => ([], currentY)
  | tx :: rest =>
      let '(break, y) :=
        if gtb currentY (sub pageHeight (of_Z 60))
        then (addPage :: table_header margin, add margin (of_Z 22))
        else ([], currentY) in
      let '(more, y') :=
        transaction_rows (S index) rest (add y (of_Z 20)) in
      ((break ++ transaction_row index tx y ++ more)%list, y')
  end.

(** [addTransactionActivity]: the calls, and [currentY] after
    them. *)
Definition addTransactionActivity (transactions : list row)
    (currentY : number) : list call * number :=
  let '(break, y0) :=
    if gtb currentY (sub pageHeight (of_Z 200))
    then ([addPage], margin)
    else ([], currentY) in
  let title :=
    [setFont "helvetica" "bold"; setFontSize (of_Z 12);
     setTextColor primary; text "TRANSACTION ACTIVITY" margin y0] in
  let y1 := add y0 (of_Z 20) in
  let '(rows, y3) :=
    transaction_rows 0 transactions (add y1 (of_Z 22)) in
  ((break ++ title ++ table_header y1 ++ rows
    ++ [setDrawColor lightGray; setLineWidth (parseFloat "0.5")])%list,
   add y3 (of_Z 20)).

End Texts.

End Generator.

(** ** [js/app.js]: [App] *)

Module App.

Import JSNumber JSArith.

(** The two sums of [updateSummaryCards]: the collateral and the debt
    in USD. *)
Definition updateSummaryCards (prices : price_map)
    (positions : list statement_position) : number * number :=
  fold_left
    (fun '(totalCollateralUsd, totalDebtUsd) pos =>
       let f := sp_position pos in
       let collateralPrice :=
         price_or 0 (Some prices) (pos_collateral_symbol f) in
       let debtPrice := price_or 1 (Some prices) (pos_debt_symbol f) in
       (add totalCollateralUsd
          (mul (to_number (pos_collateral_amount f)) collateralPrice),
        add totalDebtUsd
          (mul (to_number (pos_debt_amount f)) debtPrice)))
    positions (of_Z 0, of_Z 0).

End App.


(** ** [js/fetcher.js]: [FluidFetcher] *)

Module FluidFetcher.

Import JSNumber JSArith.
Local Open Scope string_scope.

(** The struct [userPosition_] of the resolver as it is decoded, with
    the fields the program reads: integers are BigInt. *)
Record user_position : Type := {
  up_nftId : Z;
  up_owner : string;
  up_isLiquidated : bool;
  up_isSupplyPosition : bool;
  up_supply : Z;
  up_borrow : Z;
  up_tick : Z;
  up_tickId : Z
}.

(** The struct [vaultData_], with the fields the program reads of its
    [constantVariables], [configs] and [exchangePricesAndRates]. *)
Record vault_entire_data : Type := {
  ved_vault : string;
  ved_isSmartCol : bool;
  ved_isSmartDebt : bool;
  ved_vaultId : Z;
  ved_supplyToken0 : string;
  ved_borrowToken0 : string;
  ved_collateralFactor : Z;
  ved_liquidationThreshold : Z;
  ved_liquidationMaxLimit : Z;
  ved_liquidationPenalty : Z;
  ved_borrowFee : Z;
  ved_oraclePriceOperate : Z;
  ved_oraclePriceLiquidate : Z;
  ved_supplyRateVault : Z;
  ved_borrowRateVault : Z
}.

(** The result of [parseVaultData]. *)
Record vault_data : Type := {
  vaultAddress : string;
  vaultId : string;
  vd_supplyToken : string;
  vd_borrowToken : string;
  collateralFactor : number;
  liquidationThreshold : number;
  liquidationMaxLimit : number;
  liquidationPenalty : number;
  borrowFee : number;
  oraclePriceOperate : string;
  oraclePriceLiquidate : string;
  supplyRateRaw : string;
  borrowRateRaw : string
}.

(** [Number(x) / 100] for a BigInt [x]. *)
Definition percent (x : Z) : number := div (of_Z x) (of_Z 100).

Definition parseVaultData (v : vault_entire_data) : vault_data :=
  {| vaultAddress := ved_vault v;
     vaultId := JSBigInt.to_string (ved_vaultId v);
     vd_supplyToken := ved_supplyToken0 v;
     vd_borrowToken := ved_borrowToken0 v;
     collateralFactor := percent (ved_collateralFactor v);
     liquidationThreshold := percent (ved_liquidationThreshold v);
     liquidationMaxLimit := percent (ved_liquidationMaxLimit v);
     liquidationPenalty := percent (ved_liquidationPenalty v);
     borrowFee := percent (ved_borrowFee v);
     oraclePriceOperate := JSBigInt.to_string (ved_oraclePriceOperate v);
     oraclePriceLiquidate := JSBigInt.to_string (ved_oraclePriceLiquidate v);
     supplyRateRaw := JSBigInt.to_string (ved_supplyRateVault v);
     borrowRateRaw := JSBigInt.to_string (ved_borrowRateVault v) |}.

(** The result of [buildPositionObject]. *)
Record position_object : Type := {
  nftId : string;
  owner : string;
  isLiquidated : bool;
  isSupplyPosition : bool;
  supply : string;
  borrow : string;
  tick : string;
  tickId : string;
  isSmartCol : bool;
  isSmartDebt : bool;
  vaultData : vault_data
}.

Definition buildPositionObject (position : user_position)
    (v : vault_entire_data) : position_object :=
  {| nftId := JSBigInt.to_string (up_nftId position);
     owner := up_owner position;
     isLiquidated := up_isLiquidated position;
     isSupplyPosition := up_isSupplyPosition position;
     supply := JSBigInt.to_string (up_supply position);
     borrow := JSBigInt.to_string (up_borrow position);
     tick := JSBigInt.to_string (up_tick position);
     tickId := JSBigInt.to_string (up_tickId position);
     isSmartCol := ved_isSmartCol v;
     isSmartDebt := ved_isSmartDebt v;
     vaultData := parseVaultData v |}.

Record token_metadata : Type := {
  tm_symbol : string;
  tm_decimals : number;
  tm_name : string
}.

(** The member [formatted] of a formatted position. *)
Record formatted : Type := {
  collateral_amount : number;
  collateral_symbol : string;
  collateral_name : string;
  debt_amount : number;
  debt_symbol : string;
  debt_name : string;
  ltv : string;
  liquidationThreshold_text : string;
  borrowRateApy : string;
  supplyRateApy : string;
  healthFactor : string;
  oraclePrice : number
}.

(** The result of [formatPosition]: the position, and [formatted]. *)
Record formatted_position : Type := {
  fp_position : position_object;
  fp_formatted : formatted
}.

(** The text of U+221E, the sign of infinity, in UTF-8. *)
Definition infinity_sign : string :=
  String (ascii_of_nat 226)
    (String (ascii_of_nat 136) (String (ascii_of_nat 158) EmptyString)).

(** The loan to value in percent, the health factor and its text, as
    [formatPosition] computes them. *)
Definition ltv_of (borrowAmount colValueInDebt : number) : number :=
  if gtb borrowAmount (of_Z 0) && gtb colValueInDebt (of_Z 0)
  then mul (div borrowAmount colValueInDebt) (of_Z 100)
  else of_Z 0.

Definition healthFactor_of (threshold ltv : number) : number :=
  if gtb ltv (of_Z 0) then div threshold ltv else S754_infinity false.

Definition oraclePrice_of (supplyAmount colValueInDebt : number) : number :=
  if gtb supplyAmount (of_Z 0) && gtb colValueInDebt (of_Z 0)
  then div colValueInDebt supplyAmount
  else of_Z 0.

(** What [ethers.formatUnits] is given: a string or a BigInt. *)
Inductive big_numberish : Type :=
| BNString (s : string)
| BNBigInt (z : Z).

Section Chain.

(** The surroundings of the fetcher: the metadata of a token
    ([getTokenMetadata] catches every error and never rejects),
    [ethers.formatUnits], which may throw, [Number.prototype.toFixed],
    and the call [positionsByUser] of the resolver, [None] when it
    rejects. *)
Variable getTokenMetadata : string -> token_metadata.
Variable formatUnits : big_numberish -> number -> option string.
Variable toFixed : number -> nat -> string.

Definition formatPosition (position : position_object)
  : option formatted_position :=
  let supplyToken := getTokenMetadata (vd_supplyToken (vaultData position)) in
  let borrowToken := getTokenMetadata (vd_borrowToken (vaultData position)) in
  let? supplyText :=
    formatUnits (BNString (supply position)) (tm_decimals supplyToken) in
  let supplyAmount := parseFloat supplyText in
  let? borrowText :=
    formatUnits (BNString (borrow position)) (tm_decimals borrowToken) in
  let borrowAmount := parseFloat borrowText in
  let? supplyRaw := JSBigInt.of_string (supply position) in
  let? borrowRaw := JSBigInt.of_string (borrow position) in
  let? oraclePriceBN :=
    JSBigInt.of_string (oraclePriceOperate (vaultData position)) in
  let? e27 := JSBigInt.pow 10 27 in
  let? colValueInDebtRaw := JSBigInt.div (supplyRaw * oraclePriceBN) e27 in
  let? colText :=
    formatUnits (BNBigInt colValueInDebtRaw) (tm_decimals borrowToken) in
  let colValueInDebt := parseFloat colText in
  let ltv := ltv_of borrowAmount colValueInDebt in
  let healthFactor :=
    healthFactor_of (liquidationThreshold (vaultData position)) ltv in
  let oraclePriceHuman := oraclePrice_of supplyAmount colValueInDebt in
  let? borrowRateApy :=
    Fetcher.rateToApy (borrowRateRaw (vaultData position)) in
  let? supplyRateApy :=
    Fetcher.rateToApy (supplyRateRaw (vaultData position)) in
  Some
    {| fp_position := position;
       fp_formatted :=
         {| collateral_amount := supplyAmount;
            collateral_symbol := tm_symbol supplyToken;
            collateral_name := tm_name supplyToken;
            debt_amount := borrowAmount;
            debt_symbol := tm_symbol borrowToken;
            debt_name := tm_name borrowToken;
            ltv := toFixed ltv 2;
            liquidationThreshold_text :=
              toFixed (liquidationThreshold (vaultData position)) 2;
            borrowRateApy := toFixed borrowRateApy 2;
            supplyRateApy := toFixed supplyRateApy 2;
            healthFactor :=
              if eqb healthFactor (S754_infinity false)
              then infinity_sign
              else toFixed healthFactor 2;
            oraclePrice := oraclePriceHuman |} |}.

(** The loop of [getAllPositions] over the two arrays of the
    resolver: [vaultsData[i]] is read after the first two tests, and
    reading a member of a missing entry throws. *)
Fixpoint collect_positions (userPositions : list user_position)
    (vaultsData : list vault_entire_data)
  : option (list formatted_position) :=
  match userPositions with
  | [] => Some []
  | position :: rest =>
      let next := collect_positions rest (tl vaultsData) in
      if up_isLiquidated position then next
      else if String.eqb (JSBigInt.to_string (up_supply position)) "0"
      then next
      else
        match vaultsData with
        | [] => None
        | v :: _ =>
            if ved_isSmartCol v || ved_isSmartDebt v then next
            else if up_isSupplyPosition position then next
            else
              let? formatted :=
                formatPosition (buildPositionObject position v) in
              let? positions := next in
              Some (formatted :: positions)
        end
  end.

(** [getAllPositions], the call of the resolver done: [None] is the
    rejected call, and every error ends as a thrown error. *)
Definition getAllPositions
    (result : option (list user_position * list vault_entire_data))
  : option (list formatted_position) :=
  let? (userPositions, vaultsData) := result in
  match userPositions with
  | [] => Some []
  | _ => collect_positions userPositions vaultsData
  end.

End Chain.

(** The formatted position as the history fetcher reads it. *)
Definition history_view (p : formatted_position) : position :=
  {| pos_nftId := nftId (fp_position p);
     pos_vaultAddress := vaultAddress (vaultData (fp_position p));
     pos_supplyToken := vd_supplyToken (vaultData (fp_position p));
     pos_borrowToken := vd_borrowToken (vaultData (fp_position p));
     pos_supply := Some (supply (fp_position p));
     pos_borrow := Some (borrow (fp_position p));
     pos_collateral_amount := Some (collateral_amount (fp_formatted p));
     pos_collateral_symbol := collateral_symbol (fp_formatted p);
     pos_collateral_name := collateral_name (fp_formatted p);
     pos_debt_amount := Some (debt_amount (fp_formatted p));
     pos_debt_symbol := debt_symbol (fp_formatted p);
     pos_debt_name := debt_name (fp_formatted p) |}.

(** The formatted position as the statement reads it. *)
Definition statement_view (p : formatted_position) : statement_position :=
  {| sp_position := history_view p;
     sp_ltv := ltv (fp_formatted p);
     sp_liquidationThreshold := liquidationThreshold_text (fp_formatted p);
     sp_borrowRateApy := borrowRateApy (fp_formatted p);
     sp_healthFactor := healthFactor (fp_formatted p);
     sp_isLiquidated := isLiquidated (fp_position p) |}.

End FluidFetcher.


(** ** Vocabulary of the further statements *)

(** The [timeStamp] of [lg] is the text [0x] followed by hexadecimal
    digits, of a value below [2^53]. *)
Definition hex_timestamp (lg : log) : Prop :=
  exists h t,
    log_timeStamp lg = ("0x" ++ h)%string /\
    JSBigInt.nonempty_digits 16 h = Some t /\ t < 2 ^ 53.


Section ServedLogs.

Context {source : Type}.
Variable serve : source -> request -> http_reply * source.

(** [lg] is an entry of a page the source can answer with, from some
    state and to some request. *)
Definition served_by (lg : log) : Prop :=
  exists s rq code json s',
    serve s rq = (HttpReply true code (Some json), s') /\
    In lg (logs_of_result (result json)).

(** The source answers every request, in every state, with a
    rate-limit reply. *)
Definition always_rate_limited : Prop :=
  forall s rq, exists code json s',
    serve s rq = (HttpReply true code (Some json), s') /\
    rate_limited json = true.

(** The source never fails below the API: no rejected [fetch], no
    response that is not a success, no body that is not JSON. *)
Definition transport_ok : Prop :=
  forall s rq, exists code json s',
    serve s rq = (HttpReply true code (Some json), s').

End ServedLogs.

(** [pages] goes up from [p] by steps of zero or one. *)
Fixpoint climbs (p : nat) (pages : list nat) : bool :=
  match pages with
  | [] => true
  | q :: rest => ((q =? p) || (q =? S p))%nat && climbs q rest
  end.

(** A walk through the pages: it starts at page 1 and goes to the same
    page again or to the next one. *)
Definition page_walk (pages : list nat) : bool :=
  match pages with
  | [] => false
  | q :: rest => (q =? 1)%nat && climbs q rest
  end.

(** What a vault entry keeps besides the ids: the tokens, the symbols,
    the names and the decimals. *)
Definition vault_metadata (info : vault_info) :=
  (supplyToken info, borrowToken info, supplySymbol info, borrowSymbol info,
   supplyName info, borrowName info, supplyDecimals info, borrowDecimals info).

(** [pos] is the first of [positions] on the vault [a]. *)
Definition first_on_vault (positions : list position) (a : string)
    (pos : position) : Prop :=
  exists before after,
    positions = before ++ pos :: after /\
    pos_vaultAddress pos = a /\
    Forall (fun p => pos_vaultAddress p <> a) before.

(** [decimals] is a Number holding an integer from 0 to 18. *)
Definition decimals_0_18 (decimals : JSNumber.number) : Prop :=
  exists d, JSNumber.to_BigInt decimals = Some d /\ 0 <= d <= 18.

(** [r] is a row of an outflow: a withdrawal or a repayment. *)
Definition outflow (r : row) : bool :=
  match kind_of r with
  | Some Withdrawal | Some Repayment => true
  | _ => false
  end.

(** The raw amount text and the formatted amount of a position, as
    [buildPositionObject] and [formatPosition] make them: the decimal
    text of an unsigned 256-bit integer, and a Number that is zero or
    positive and finite. *)
Definition chain_amount (raw : option string)
    (amt : option JSNumber.number) : Prop :=
  exists v x,
    0 <= v < 2 ^ 256 /\ raw = Some (JSBigInt.to_string v) /\
    amt = Some x /\ (x = S754_zero false \/ positive_finite x).

Definition chain_position (pos : position) : Prop :=
  chain_amount (pos_supply pos) (pos_collateral_amount pos) /\
  chain_amount (pos_borrow pos) (pos_debt_amount pos).

Section FetchedLogs.

Context {source : Type}.
Variable serve : source -> request -> http_reply * source.

(** The entries [fetchVaultEvents] returns for each vault in the loop
    of [fetchForPositions], with the vault's address and context: the
    source and the requests are threaded from one vault to the next,
    and a call that throws or does not end stops the list. *)
Fixpoint fetched (fuel : nat) (m : vault_map) (src : source)
    (reqs : list request) : list (string * vault_info * list log) :=
  match m with
  | [] => []
  | (vaultAddress, info) :: m' =>
      match fetchVaultEvents serve fuel vaultAddress src reqs with
      | Some r =>
          match run_result r with
          | Returned logs =>
              (vaultAddress, info, logs)
                :: fetched fuel m' (run_source r) (run_requests r)
          | Thrown => []
          end
      | None => []
      end
  end.

End FetchedLogs.

(** A Number that is [+0] or positive and finite: what [parseFloat]
    gives on the decimal text of an amount, and what a price is. *)
Definition zero_or_positive (x : JSNumber.number) : Prop :=
  x = S754_zero false \/ positive_finite x.

(** The amounts of the position are Numbers, zero or positive. *)
Definition amounts_known (p : statement_position) : Prop :=
  (exists x, pos_collateral_amount (sp_position p) = Some x /\
             zero_or_positive x) /\
  (exists x, pos_debt_amount (sp_position p) = Some x /\
             zero_or_positive x).

(** Every price of the table is zero or positive. *)
Definition prices_known (prices : price_map) : Prop :=
  forall sym x, prices sym = Some x -> zero_or_positive x.

(** [sym] has a price of its own in the table, or is not the name of a
    member the table inherits from [Object.prototype]. *)
Definition plain_symbol (prices : price_map) (sym : string) : Prop :=
  prices sym <> None \/ inherited sym = false.

(** [sym] has no price of its own and is the name of an inherited
    member, such as [constructor] or [toString]. *)
Definition inherited_symbol (prices : price_map) (sym : string) : Prop :=
  prices sym = None /\ inherited sym = true.

(** The two symbols of the position are plain. *)
Definition symbols_plain (prices : price_map) (p : statement_position)
  : Prop :=
  plain_symbol prices (pos_collateral_symbol (sp_position p)) /\
  plain_symbol prices (pos_debt_symbol (sp_position p)).

(** The call draws nothing below the line of the footer, at 40 from the
    bottom of a page of height [H]: a rectangle ends above it, and the
    base line of a text is at least 7 above it. *)
Definition above_footer (H : Z) (c : call) : Prop :=
  match c with
  | rect _ y _ h _ =>
      exists ky kh, y = JSNumber.of_Z ky /\ h = JSNumber.of_Z kh /\
                    0 <= ky /\ 0 <= kh /\ ky + kh <= H - 40
  | text _ _ y => exists ky, y = JSNumber.of_Z ky /\ 0 <= ky <= H - 47
  | _ => True
  end.


(** ** Further sample data *)

Module Scenario.

Import JSNumber FluidFetcher.
Local Open Scope string_scope.

(** A vault of ETH against USDC, with a maintenance threshold of
    85 percent. *)
Definition vault_data : vault_entire_data :=
  {| ved_vault := Sample.vault;
     ved_isSmartCol := false; ved_isSmartDebt := false;
     ved_vaultId := 11;
     ved_supplyToken0 := "0xEeeeeEeeeEeEeeEeEeEeeEEEeeeeEeeeeeeeEEeE";
     ved_borrowToken0 := "0xA0b86991c6218b36c1d19D4a2e9Eb0cE3606eB48";
     ved_collateralFactor := 8000; ved_liquidationThreshold := 8500;
     ved_liquidationMaxLimit := 9000; ved_liquidationPenalty := 100;
     ved_borrowFee := 0;
     ved_oraclePriceOperate := 2000000000000000000000;
     ved_oraclePriceLiquidate := 2000000000000000000000;
     ved_supplyRateVault := 210; ved_borrowRateVault := 523 |}.

(** A position with the supply and the debt given, in base units. *)
Definition chain_position (id : Z) (liquidated : bool) (s b : Z)
  : user_position :=
  {| up_nftId := id; up_owner := "0x00000000000000000000000000000000000000aa";
     up_isLiquidated := liquidated; up_isSupplyPosition := false;
     up_supply := s; up_borrow := b; up_tick := -100; up_tickId := 3 |}.

Definition metadata (address : string) : token_metadata :=
  if String.eqb address "0xEeeeeEeeeEeEeeEeEeEeeEEEeeeeEeeeeeeeEEeE"
  then {| tm_symbol := "ETH"; tm_decimals := of_Z 18; tm_name := "Ether" |}
  else {| tm_symbol := "USDC"; tm_decimals := of_Z 6;
          tm_name := "USD Coin" |}.

(** A conversion to decimal text of the amounts of the samples: the
    text of the integer quotient. *)
Definition whole_units (v : big_numberish) (decimals : number)
  : option string :=
  let? d := to_BigInt decimals in
  let? z := match v with
            | BNString s => JSBigInt.of_string s
            | BNBigInt z => Some z
            end in
  if ((d <? 0) || (z <? 0))%Z then None
  else Some (JSBigInt.to_string (z / 10 ^ d)%Z).

(** A conversion that only tells zero from the other amounts. *)
Definition coarse_units (v : big_numberish) (decimals : number)
  : option string :=
  match v with
  | BNString s => if String.eqb s "0" then Some "0.0" else Some "1.5"
  | BNBigInt z => if (z =? 0)%Z then Some "0.0" else Some "1.5"
  end.

Definition two_digits (x : number) (n : nat) : string := "0.00".

(** A repayment of 250 USDC, and the texts of its table row. *)
Definition repayment : row :=
  {| date := of_Z 1700000000000;
     timestamp := of_Z 1700000000;
     description := "Repay USDC";
     asset := "USDC";
     amount := of_Z (-250);
     symbol := "USDC";
     usdValue := of_Z 250;
     txHash := "0x01";
     isRepayOrWithdraw := true |}.

Definition grouped (x : number) (n : nat) : string :=
  match n with
  | 4%nat => "-250.0000"
  | _ => "250.00"
  end.

Definition short_date (t : number) : string := "Nov 14, 2023".

End Scenario.

(** * Proofs *)

(** ** Binary64 rounding *)

Section RoundingFacts.

Import JSNumber.

Lemma digits2_size (p : positive) : digits2_pos p = Pos.size p.
Proof. induction p as [p IH|p IH|]; cbn; now rewrite ?IH. Qed.

Lemma Zdigits2_log2 (m : Z) : 0 < m -> Zdigits2 m = Z.log2 m + 1.
Proof.
  destruct m as [|p|p]; try lia. intros _. cbn [Zdigits2].
  rewrite digits2_size.
  destruct p; cbn [Pos.size Z.log2]; rewrite ?Pos2Z.inj_succ; lia.
Qed.

Lemma Zdigits2_bounds (m : Z) :
  0 < m -> 2 ^ (Zdigits2 m - 1) <= m < 2 ^ Zdigits2 m.
Proof.
  intros H. rewrite Zdigits2_log2 by assumption.
  replace (Z.log2 m + 1 - 1) with (Z.log2 m) by lia.
  pose proof (Z.log2_spec m H). unfold Z.succ in *. lia.
Qed.

Lemma Zdigits2_nonneg (m : Z) : 0 <= Zdigits2 m.
Proof. destruct m; cbn; lia. Qed.

Lemma Zdigits2_unique (m d : Z) :
  0 < m -> 2 ^ (d - 1) <= m < 2 ^ d -> Zdigits2 m = d.
Proof.
  intros H [Hl Hu]. rewrite Zdigits2_log2 by assumption.
  assert (0 <= d - 1).
  { destruct (Z.le_gt_cases 1 d) as [|G]; [lia|].
    destruct (Z.eq_dec d 0) as [->|]; [cbn in Hu; lia|].
    rewrite Z.pow_neg_r in Hu by lia. lia. }
  rewrite (Z.log2_unique m (d - 1)); [lia|lia|].
  replace (Z.succ (d - 1)) with d by lia. lia.
Qed.

Lemma iter_pos_nat {A : Type} (f : A -> A) (p : positive) (x : A) :
  SpecFloat.iter_pos f p x = Nat.iter (Pos.to_nat p) f x.
Proof.
  revert x. induction p as [p IH|p IH|]; intros x; cbn [SpecFloat.iter_pos].
  - rewrite !IH, Pos2Nat.inj_xI.
    replace (S (2 * Pos.to_nat p)) with (Pos.to_nat p + (Pos.to_nat p + 1))%nat
      by lia.
    rewrite !Nat.iter_add. reflexivity.
  - rewrite !IH, Pos2Nat.inj_xO.
    replace (2 * Pos.to_nat p)%nat with (Pos.to_nat p + Pos.to_nat p)%nat
      by lia.
    rewrite Nat.iter_add. reflexivity.
  - reflexivity.
Qed.

Lemma shr_1_spec (m : Z) (r s : bool) :
  0 <= m ->
  shr_1 {| shr_m := m; shr_r := r; shr_s := s |}
  = {| shr_m := m / 2; shr_r := Z.odd m; shr_s := r || s |}.
Proof.
  intros H. rewrite <- Z.div2_div.
  destruct m as [|[p|p|]|]; try reflexivity. lia.
Qed.

Lemma shr_m_iter (n : nat) (mrs : shr_record) :
  0 <= shr_m mrs ->
  shr_m (Nat.iter n shr_1 mrs) = shr_m mrs / 2 ^ Z.of_nat n.
Proof.
  intros H. induction n as [|n IH].
  - cbn. now rewrite Z.div_1_r.
  - rewrite Nat.iter_succ.
    destruct (Nat.iter n shr_1 mrs) as [m r s] eqn:E. cbn [shr_m] in IH.
    assert (0 <= m) by (rewrite IH; apply Z.div_pos; lia).
    rewrite shr_1_spec by assumption. cbn [shr_m]. rewrite IH.
    rewrite Nat2Z.inj_succ, Z.pow_succ_r by lia.
    rewrite Z.div_div by lia. f_equal. lia.
Qed.

(** The mantissa left by [shr]. *)
Lemma shr_m_shr (mrs : shr_record) (e n : Z) :
  0 <= shr_m mrs ->
  shr_m (fst (shr mrs e n)) = shr_m mrs / 2 ^ Z.max 0 n /\
  snd (shr mrs e n) = e + Z.max 0 n.
Proof.
  intros H. destruct n as [|p|p]; cbn [shr fst snd Z.max Z.compare].
  - rewrite Z.div_1_r. lia.
  - rewrite iter_pos_nat, shr_m_iter by assumption.
    rewrite positive_nat_Z. split; reflexivity.
  - rewrite Z.div_1_r. lia.
Qed.

Lemma shr_m_of_loc (m : Z) (l : location) :
  shr_m (shr_record_of_loc m l) = m.
Proof. destruct l as [|[| |]]; reflexivity. Qed.

Lemma round_nearest_even_bounds (m : Z) (l : location) :
  m <= round_nearest_even m l <= m + 1.
Proof.
  destruct l as [|[| |]]; cbn; try lia. destruct (Z.even m); lia.
Qed.

Lemma bra_m1_bounds (mx ex : Z) (lx : location) :
  0 <= mx ->
  mx / 2 ^ bra_n1 mx ex <= bra_m1 mx ex lx <= mx / 2 ^ bra_n1 mx ex + 1.
Proof.
  intros H. unfold bra_m1, shr_fexp, bra_n1.
  pose proof (shr_m_shr (shr_record_of_loc mx lx) ex
                (fexp prec emax (Zdigits2 mx + ex) - ex)) as [E _].
  { now rewrite shr_m_of_loc. }
  rewrite shr_m_of_loc in E. rewrite <- E.
  apply round_nearest_even_bounds.
Qed.

(** [binary_round_aux], unfolded into its two shifts. *)
Lemma binary_round_aux_eq (s : bool) (mx ex : Z) (lx : location) :
  0 <= mx ->
  let m1 := bra_m1 mx ex lx in
  let m2 := m1 / 2 ^ bra_n2 mx ex lx in
  let e2 := ex + bra_n1 mx ex + bra_n2 mx ex lx in
  binary_round_aux prec emax s mx ex lx =
  match m2 with
  | Z0 => S754_zero s
  | Zpos m => if e2 <=? emax - prec then S754_finite s m e2
              else S754_infinity s
  | Zneg _ => S754_nan
  end.
Proof.
  intros H m1 m2 e2. unfold binary_round_aux.
  assert (H1 : 0 <= m1).
  { pose proof (bra_m1_bounds mx ex lx H) as B.
    assert (0 <= mx / 2 ^ bra_n1 mx ex) by (apply Z.div_pos; unfold bra_n1; lia).
    unfold m1. lia. }
  destruct (shr_fexp prec emax mx ex lx) as [mrs' e'] eqn:E1.
  assert (Em : round_nearest_even (shr_m mrs') (loc_of_shr_record mrs') = m1).
  { unfold m1, bra_m1. now rewrite E1. }
  assert (Ee : e' = ex + bra_n1 mx ex).
  { unfold shr_fexp in E1.
    pose proof (shr_m_shr (shr_record_of_loc mx lx) ex
                  (fexp prec emax (Zdigits2 mx + ex) - ex)) as [_ E].
    { now rewrite shr_m_of_loc. }
    rewrite E1 in E. exact E. }
  rewrite Em.
  destruct (shr_fexp prec emax m1 e' loc_Exact) as [mrs'' e''] eqn:E2.
  unfold shr_fexp in E2.
  pose proof (shr_m_shr (shr_record_of_loc m1 loc_Exact) e'
                (fexp prec emax (Zdigits2 m1 + e') - e')) as [Ea Eb].
  { exact H1. }
  rewrite E2 in Ea, Eb. cbn [fst snd shr_record_of_loc shr_m] in Ea, Eb.
  assert (En : Z.max 0 (fexp prec emax (Zdigits2 m1 + e') - e')
               = bra_n2 mx ex lx).
  { unfold bra_n2. fold m1. now rewrite Ee. }
  rewrite En in Ea, Eb. rewrite Ea. fold m2.
  replace e'' with e2 by (unfold e2; lia).
  reflexivity.
Qed.

Lemma binary_round_aux_sign (s : bool) (mx ex : Z) (lx : location) :
  0 <= mx -> has_sign s (binary_round_aux prec emax s mx ex lx).
Proof.
  intros H. rewrite binary_round_aux_eq by assumption.
  pose proof (bra_m1_bounds mx ex lx H) as B.
  assert (0 <= mx / 2 ^ bra_n1 mx ex) by (apply Z.div_pos; unfold bra_n1; lia).
  assert (0 <= bra_m1 mx ex lx / 2 ^ bra_n2 mx ex lx)
    by (apply Z.div_pos; unfold bra_n2; lia).
  destruct (bra_m1 mx ex lx / 2 ^ bra_n2 mx ex lx) as [|m|m]; cbn; try lia.
  - reflexivity.
  - destruct (_ <=? _); reflexivity.
Qed.

Lemma div_pow2_pos (m n : Z) :
  0 < m -> 0 <= n -> n < Zdigits2 m -> 0 < m / 2 ^ n.
Proof.
  intros Hm Hn Hd. apply Z.div_str_pos. split; [apply Z.pow_pos_nonneg; lia|].
  pose proof (Zdigits2_bounds m Hm) as [B _].
  eapply Z.le_trans; [|exact B]. apply Z.pow_le_mono_r; lia.
Qed.

Lemma shift_below_digits (m e : Z) :
  0 < m -> emin prec emax <= e ->
  Z.max 0 (fexp prec emax (Zdigits2 m + e) - e) < Zdigits2 m.
Proof.
  intros Hm He.
  assert (1 <= Zdigits2 m)
    by (rewrite Zdigits2_log2 by assumption; pose proof (Z.log2_nonneg m); lia).
  unfold fexp, emin, prec, emax in *. lia.
Qed.

(** Above the least exponent no rounding flushes to zero. *)
Lemma binary_round_aux_nonzero (s : bool) (mx ex : Z) (lx : location) :
  0 < mx -> emin prec emax <= ex ->
  nonzero (binary_round_aux prec emax s mx ex lx).
Proof.
  intros H He. rewrite binary_round_aux_eq by lia.
  pose proof (bra_m1_bounds mx ex lx (Z.lt_le_incl _ _ H)) as B.
  assert (P1 : 0 < mx / 2 ^ bra_n1 mx ex).
  { apply div_pow2_pos; [assumption|unfold bra_n1; lia|].
    apply shift_below_digits; assumption. }
  assert (P2 : 0 < bra_m1 mx ex lx / 2 ^ bra_n2 mx ex lx).
  { apply div_pow2_pos; [lia|unfold bra_n2; lia|].
    apply shift_below_digits; [lia|]. unfold bra_n1. lia. }
  destruct (bra_m1 mx ex lx / 2 ^ bra_n2 mx ex lx) as [|m|m]; cbn; try lia.
  destruct (_ <=? _); exact I.
Qed.

Lemma digits2_iter_xO (m d : positive) :
  Zpos (digits2_pos (Pos.iter xO m d)) = Zpos (digits2_pos m) + Zpos d.
Proof.
  rewrite Pos2Nat.inj_iter.
  rewrite <- (positive_nat_Z d).
  induction (Pos.to_nat d) as [|n IH]; [cbn; lia|].
  cbn [nat_rect digits2_pos].
  rewrite Nat2Z.inj_succ, Pos2Z.inj_succ. lia.
Qed.

Lemma iter_xO_value (m d : positive) :
  Zpos (Pos.iter xO m d) = Zpos m * 2 ^ Zpos d.
Proof.
  rewrite Pos2Nat.inj_iter.
  rewrite <- (positive_nat_Z d).
  induction (Pos.to_nat d) as [|n IH]; [cbn; lia|].
  cbn [nat_rect]. rewrite Nat2Z.inj_succ, Z.pow_succ_r by lia.
  rewrite Pos2Z.inj_xO, IH. lia.
Qed.

(** [shl_align] keeps the value and lowers the exponent to at most
    [ex']. *)
Lemma shl_align_spec (mx : positive) (ex ex' : Z) :
  let '(mz, ez) := shl_align mx ex ex' in
  ez = Z.min ex ex' /\ Zpos mz = Zpos mx * 2 ^ (ex - ez).
Proof.
  unfold shl_align. destruct (ex' - ex) as [|d|d] eqn:E.
  - split; [lia|]. replace (ex - ex) with 0 by lia. lia.
  - split; [lia|]. replace (ex - ex) with 0 by lia. lia.
  - split; [lia|]. rewrite iter_xO_value. f_equal. f_equal. lia.
Qed.

Lemma binary_round_sign (s : bool) (m : positive) (e : Z) :
  has_sign s (binary_round prec emax s m e).
Proof.
  unfold binary_round. destruct (shl_align _ _ _) as [mz ez].
  apply binary_round_aux_sign. lia.
Qed.

Lemma binary_round_nonzero (s : bool) (m : positive) (e : Z) :
  emin prec emax <= e -> nonzero (binary_round prec emax s m e).
Proof.
  intros He. unfold binary_round.
  pose proof (shl_align_spec m e
                (fexp prec emax (Zpos (digits2_pos m) + e))) as S.
  destruct (shl_align _ _ _) as [mz ez]. destruct S as [Ez _].
  apply binary_round_aux_nonzero; [lia|].
  unfold fexp, emin, prec, emax in *. lia.
Qed.

End RoundingFacts.


(** ** Integers below [2^53] as Numbers *)

Section IntegerNumbers.

Import JSNumber.

Lemma binary_round_aux_canonical (s : bool) (m : positive) (e : Z) :
  Zdigits2 (Zpos m) = 53 -> emin prec emax <= e <= emax - prec ->
  binary_round_aux prec emax s (Zpos m) e loc_Exact = S754_finite s m e.
Proof.
  intros Hd He.
  assert (N0 : fexp prec emax (Zdigits2 (Zpos m) + e) - e = 0)
    by (rewrite Hd; unfold fexp, emin, prec, emax in *; lia).
  assert (M1 : bra_m1 (Zpos m) e loc_Exact = Zpos m).
  { unfold bra_m1, shr_fexp. rewrite N0. reflexivity. }
  assert (N1 : bra_n1 (Zpos m) e = 0) by (unfold bra_n1; rewrite N0; reflexivity).
  assert (N2 : bra_n2 (Zpos m) e loc_Exact = 0).
  { unfold bra_n2. rewrite M1, N1, Z.add_0_r, N0. reflexivity. }
  rewrite binary_round_aux_eq by lia. cbv zeta.
  rewrite M1, N1, N2. cbn [Z.pow]. rewrite Z.div_1_r, !Z.add_0_r.
  replace (e <=? emax - prec) with true by (symmetry; apply Z.leb_le; lia).
  reflexivity.
Qed.

(** The binary64 form of an integer [0 < z < 2^53]. *)
Lemma of_Z_canonical (z : Z) :
  0 < z < 2 ^ 53 ->
  exists m, of_Z z = S754_finite false m (Zdigits2 z - 53) /\
            Zpos m = z * 2 ^ (53 - Zdigits2 z) /\
            Zdigits2 (Zpos m) = 53.
Proof.
  intros [Hz Hu]. destruct z as [|p|p]; try lia.
  pose proof (Zdigits2_bounds (Zpos p) Hz) as [Bl Bu].
  assert (D1 : 1 <= Zdigits2 (Zpos p))
    by (rewrite Zdigits2_log2 by lia; pose proof (Z.log2_nonneg (Zpos p)); lia).
  assert (D2 : Zdigits2 (Zpos p) <= 53).
  { destruct (Z.le_gt_cases (Zdigits2 (Zpos p)) 53) as [|G]; [assumption|].
    assert (2 ^ 53 <= 2 ^ (Zdigits2 (Zpos p) - 1))
      by (apply Z.pow_le_mono_r; lia). lia. }
  unfold of_Z, binary_normalize, binary_round.
  pose proof (shl_align_spec p 0 (fexp prec emax (Zpos (digits2_pos p) + 0)))
    as S.
  destruct (shl_align _ _ _) as [mz ez]. destruct S as [Ez Em].
  change (Zpos (digits2_pos p)) with (Zdigits2 (Zpos p)) in Ez.
  assert (Ez' : ez = Zdigits2 (Zpos p) - 53)
    by (unfold fexp, emin, prec, emax in Ez; lia).
  assert (Em' : Zpos mz = Zpos p * 2 ^ (53 - Zdigits2 (Zpos p)))
    by (rewrite Em; f_equal; f_equal; lia).
  assert (Dm : Zdigits2 (Zpos mz) = 53).
  { apply Zdigits2_unique; [lia|]. rewrite Em'.
    set (d := Zdigits2 (Zpos p)) in *.
    assert (P : 0 < 2 ^ (53 - d)) by (apply Z.pow_pos_nonneg; lia).
    replace (2 ^ (53 - 1)) with (2 ^ (d - 1) * 2 ^ (53 - d))
      by (rewrite <- Z.pow_add_r by lia; f_equal; lia).
    replace (2 ^ 53) with (2 ^ d * 2 ^ (53 - d))
      by (rewrite <- Z.pow_add_r by lia; f_equal; lia).
    split; [apply Z.mul_le_mono_nonneg_r; lia
           |apply Z.mul_lt_mono_pos_r; lia]. }
  exists mz. split; [|split; assumption].
  rewrite binary_round_aux_canonical; [now rewrite Ez'|assumption|].
  unfold emin, prec, emax. lia.
Qed.

Lemma of_Z_0 : of_Z 0 = S754_zero false.
Proof. reflexivity. Qed.

(** [BigInt(Number(z))] gives [z] back. *)
Lemma to_BigInt_of_Z (z : Z) :
  0 <= z < 2 ^ 53 -> to_BigInt (of_Z z) = Some z.
Proof.
  intros [Hz Hu]. destruct (Z.eq_dec z 0) as [->|Hn]; [reflexivity|].
  destruct (of_Z_canonical z) as (m & -> & Em & Dm); [lia|].
  pose proof (Zdigits2_bounds z ltac:(lia)) as [Bl Bu].
  assert (D2 : Zdigits2 z <= 53).
  { destruct (Z.le_gt_cases (Zdigits2 z) 53) as [|G]; [assumption|].
    assert (2 ^ 53 <= 2 ^ (Zdigits2 z - 1))
      by (apply Z.pow_le_mono_r; lia). lia. }
  unfold to_BigInt. rewrite Em.
  destruct (Z.leb_spec 0 (Zdigits2 z - 53)) as [G|G].
  - replace (Zdigits2 z) with 53 by lia. cbn [option_map].
    f_equal. change (53 - 53) with 0. change (2 ^ 0) with 1. lia.
  - replace (- (Zdigits2 z - 53)) with (53 - Zdigits2 z) by lia.
    assert (0 < 2 ^ (53 - Zdigits2 z)) by (apply Z.pow_pos_nonneg; lia).
    rewrite Z.mod_mul by lia. cbn [Z.eqb option_map].
    rewrite Z.div_mul by lia. reflexivity.
Qed.

Lemma compare_cont_Eq (a b : positive) :
  Pos.compare_cont Eq a b = (Zpos a ?= Zpos b).
Proof. reflexivity. Qed.

(** On integers below [2^53] the order of Numbers is the order of
    integers. *)
Lemma SFcompare_of_Z (a b : Z) :
  0 <= a < 2 ^ 53 -> 0 <= b < 2 ^ 53 ->
  SFcompare (of_Z a) (of_Z b) = Some (a ?= b).
Proof.
  intros Ha Hb.
  destruct (Z.eq_dec a 0) as [->|Na]; destruct (Z.eq_dec b 0) as [->|Nb].
  - reflexivity.
  - destruct (of_Z_canonical b) as (m & -> & _); [lia|].
    rewrite of_Z_0. cbn [SFcompare]. f_equal. symmetry.
    apply Z.compare_lt_iff. lia.
  - destruct (of_Z_canonical a) as (m & -> & _); [lia|].
    rewrite of_Z_0. cbn [SFcompare]. f_equal. symmetry.
    apply Z.compare_gt_iff. lia.
  - destruct (of_Z_canonical a) as (ma & -> & Ea & _); [lia|].
    destruct (of_Z_canonical b) as (mb & -> & Eb & _); [lia|].
    pose proof (Zdigits2_bounds a ltac:(lia)) as [Al Au].
    pose proof (Zdigits2_bounds b ltac:(lia)) as [Bl Bu].
    cbn [SFcompare]. f_equal.
    destruct (Z.compare_spec (Zdigits2 a - 53) (Zdigits2 b - 53)) as [E|L|G].
    + rewrite compare_cont_Eq, Ea, Eb.
      replace (Zdigits2 b) with (Zdigits2 a) by lia.
      assert (D2 : Zdigits2 a <= 53).
      { destruct (Z.le_gt_cases (Zdigits2 a) 53) as [|G]; [assumption|].
        assert (2 ^ 53 <= 2 ^ (Zdigits2 a - 1))
          by (apply Z.pow_le_mono_r; lia). lia. }
      assert (0 < 2 ^ (53 - Zdigits2 a)) by (apply Z.pow_pos_nonneg; lia).
      destruct (Z.compare_spec a b) as [E'|L'|G'].
      * subst. apply Z.compare_refl.
      * apply Z.compare_lt_iff. apply Z.mul_lt_mono_pos_r; lia.
      * apply Z.compare_gt_iff. apply Z.mul_lt_mono_pos_r; lia.
    + symmetry. apply Z.compare_lt_iff.
      assert (2 ^ Zdigits2 a <= 2 ^ (Zdigits2 b - 1))
        by (apply Z.pow_le_mono_r; lia). lia.
    + symmetry. apply Z.compare_gt_iff.
      assert (2 ^ Zdigits2 b <= 2 ^ (Zdigits2 a - 1))
        by (apply Z.pow_le_mono_r; lia). lia.
Qed.

Lemma ltb_zero_signed (x : number) (s : bool) :
  has_sign s x -> nonzero x -> ltb (S754_zero false) x = negb s.
Proof.
  destruct x as [s'|s'| |s' m e]; cbn; intros Hs Hn;
    try contradiction; subst s'; destruct s; reflexivity.
Qed.

(** The sign of [Number(b) - Number(a)] on integers below [2^53]. *)
Lemma sub_of_Z_positive (a b : Z) :
  0 <= a < 2 ^ 53 -> 0 <= b < 2 ^ 53 ->
  ltb (of_Z 0) (sub (of_Z b) (of_Z a)) = (a <? b).
Proof.
  intros Ha Hb. rewrite of_Z_0.
  destruct (Z.eq_dec a 0) as [->|Na]; destruct (Z.eq_dec b 0) as [->|Nb].
  - reflexivity.
  - destruct (of_Z_canonical b) as (m & -> & _); [lia|].
    rewrite of_Z_0. unfold sub, ltb, SFltb. cbn [SFsub SFcompare].
    symmetry. apply Z.ltb_lt. lia.
  - destruct (of_Z_canonical a) as (m & -> & _); [lia|].
    rewrite of_Z_0. unfold sub, ltb, SFltb. cbn [SFsub SFcompare negb].
    symmetry. apply Z.ltb_ge. lia.
  - destruct (of_Z_canonical a) as (ma & -> & Ea & _); [lia|].
    destruct (of_Z_canonical b) as (mb & -> & Eb & _); [lia|].
    pose proof (Zdigits2_bounds a ltac:(lia)) as [Al Au].
    pose proof (Zdigits2_bounds b ltac:(lia)) as [Bl Bu].
    assert (Da : 1 <= Zdigits2 a <= 53).
    { split; [rewrite Zdigits2_log2 by lia; pose proof (Z.log2_nonneg a); lia|].
      destruct (Z.le_gt_cases (Zdigits2 a) 53) as [|G]; [assumption|].
      assert (2 ^ 53 <= 2 ^ (Zdigits2 a - 1))
        by (apply Z.pow_le_mono_r; lia). lia. }
    assert (Db : 1 <= Zdigits2 b <= 53).
    { split; [rewrite Zdigits2_log2 by lia; pose proof (Z.log2_nonneg b); lia|].
      destruct (Z.le_gt_cases (Zdigits2 b) 53) as [|G]; [assumption|].
      assert (2 ^ 53 <= 2 ^ (Zdigits2 b - 1))
        by (apply Z.pow_le_mono_r; lia). lia. }
    unfold sub. cbn [SFsub cond_Zopp].
    set (ea := Zdigits2 a - 53) in *. set (eb := Zdigits2 b - 53) in *.
    set (ez := Z.min eb ea).
    pose proof (shl_align_spec mb eb ez) as Sb.
    pose proof (shl_align_spec ma ea ez) as Sa.
    destruct (shl_align mb eb ez) as [mb' eb'].
    destruct (shl_align ma ea ez) as [ma' ea'].
    destruct Sb as [Eb' Vb]. destruct Sa as [Ea' Va]. cbn [fst].
    assert (Eb'' : eb' = ez) by (unfold ez in *; lia).
    assert (Ea'' : ea' = ez) by (unfold ez in *; lia).
    rewrite Eb'' in Vb. rewrite Ea'' in Va.
    assert (Pz : 0 < 2 ^ (- ez))
      by (apply Z.pow_pos_nonneg; unfold ez, ea, eb; lia).
    assert (Vb' : Zpos mb' = b * 2 ^ (- ez)).
    { rewrite Vb, Eb, <- Z.mul_assoc, <- Z.pow_add_r
        by (unfold ez, ea, eb; lia).
      f_equal. f_equal. unfold eb. lia. }
    assert (Va' : Zpos ma' = a * 2 ^ (- ez)).
    { rewrite Va, Ea, <- Z.mul_assoc, <- Z.pow_add_r
        by (unfold ez, ea, eb; lia).
      f_equal. f_equal. unfold ea. lia. }
    assert (Hez : emin prec emax <= ez)
      by (unfold emin, prec, emax, ez, ea, eb; lia).
    destruct (Zpos mb' - Zpos ma') as [|d|d] eqn:D; cbn [binary_normalize].
    + unfold ltb, SFltb. cbn [SFcompare]. symmetry. apply Z.ltb_ge. nia.
    + rewrite (ltb_zero_signed _ false)
        by (auto using binary_round_sign, binary_round_nonzero).
      symmetry. apply Z.ltb_lt. nia.
    + rewrite (ltb_zero_signed _ true)
        by (auto using binary_round_sign, binary_round_nonzero).
      symmetry. apply Z.ltb_ge. nia.
Qed.

End IntegerNumbers.


(** ** Rounding error *)

Section RoundingError.

Import JSNumber.
Local Open Scope R_scope.

Lemma p2_pos (e : Z) : 0 < p2 e.
Proof. apply powerRZ_lt. lra. Qed.

Lemma p2_add (a b : Z) : p2 (a + b) = p2 a * p2 b.
Proof. apply powerRZ_add. lra. Qed.

Lemma p2_succ (e : Z) : p2 (e + 1) = 2 * p2 e.
Proof.
  rewrite p2_add. replace (p2 1) with 2; [lra|].
  unfold p2. now rewrite powerRZ_1.
Qed.

Lemma p2_0 : p2 0 = 1.
Proof. reflexivity. Qed.

Lemma p2_IZR (n : Z) : (0 <= n)%Z -> p2 n = IZR (2 ^ n).
Proof.
  intros H. pattern n. apply natlike_ind; [reflexivity| |assumption].
  intros k Hk IH. unfold Z.succ. rewrite p2_succ, IH.
  rewrite Z.pow_add_r, Z.pow_1_r, mult_IZR by lia. lra.
Qed.

Lemma p2_le (a b : Z) : (a <= b)%Z -> p2 a <= p2 b.
Proof.
  intros H. replace b with (a + (b - a))%Z by lia.
  rewrite p2_add, (p2_IZR (b - a)) by lia.
  assert (1 <= IZR (2 ^ (b - a))).
  { apply IZR_le. assert (0 < 2 ^ (b - a))%Z by (apply Z.pow_pos_nonneg; lia). lia. }
  pose proof (p2_pos a). nra.
Qed.

Lemma loc_of_shr_record_of_loc (m : Z) (l : location) :
  loc_of_shr_record (shr_record_of_loc m l) = l.
Proof. destruct l as [|[| |]]; reflexivity. Qed.

Lemma shr_1_located (x u : R) (mrs : shr_record) :
  (0 <= shr_m mrs)%Z -> 0 < u ->
  located x (shr_m mrs) (loc_of_shr_record mrs) u ->
  located x (shr_m (shr_1 mrs)) (loc_of_shr_record (shr_1 mrs)) (2 * u).
Proof.
  destruct mrs as [m r s]. cbn [shr_m]. intros Hm Hu H.
  rewrite shr_1_spec by assumption. cbn [shr_m].
  pose proof (Z.div2_odd m) as E. rewrite Z.div2_div in E.
  set (q := (m / 2)%Z) in *.
  assert (Em : IZR m = 2 * IZR q + IZR (Z.b2z (Z.odd m))).
  { rewrite E at 1. rewrite plus_IZR, mult_IZR. reflexivity. }
  unfold located in *. cbn [loc_of_shr_record] in *.
  destruct (Z.odd m); cbn [Z.b2z] in Em; rewrite Em in H;
    destruct r, s; cbn [orb loc_of_shr_record] in *;
    repeat split; try lra.
Qed.

Lemma iter_shr_1_located (x u : R) (n : nat) (mrs : shr_record) :
  (0 <= shr_m mrs)%Z -> 0 < u ->
  located x (shr_m mrs) (loc_of_shr_record mrs) u ->
  located x (shr_m (Nat.iter n shr_1 mrs))
    (loc_of_shr_record (Nat.iter n shr_1 mrs)) (p2 (Z.of_nat n) * u).
Proof.
  intros Hm Hu H. induction n as [|n IH].
  - cbn [Nat.iter nat_rect Z.of_nat]. rewrite p2_0, Rmult_1_l. exact H.
  - rewrite Nat.iter_succ, Nat2Z.inj_succ. unfold Z.succ.
    rewrite p2_succ, Rmult_assoc.
    apply shr_1_located; [|pose proof (p2_pos (Z.of_nat n)); nra|exact IH].
    rewrite shr_m_iter by assumption. apply Z.div_pos; lia.
Qed.

(** What [shr] leaves locates the same real on the coarser grid. *)
Lemma shr_located (x u : R) (m e n : Z) (l : location) :
  (0 <= m)%Z -> 0 < u -> located x m l u ->
  let mrs := fst (shr (shr_record_of_loc m l) e n) in
  located x (shr_m mrs) (loc_of_shr_record mrs) (p2 (Z.max 0 n) * u).
Proof.
  intros Hm Hu H mrs. subst mrs.
  destruct n as [|p|p]; cbn [shr fst Z.max Z.compare].
  - rewrite p2_0, Rmult_1_l, shr_m_of_loc, loc_of_shr_record_of_loc. exact H.
  - rewrite !iter_pos_nat, <- (positive_nat_Z p).
    apply iter_shr_1_located;
      [now rewrite shr_m_of_loc|assumption|].
    now rewrite shr_m_of_loc, loc_of_shr_record_of_loc.
  - rewrite p2_0, Rmult_1_l, shr_m_of_loc, loc_of_shr_record_of_loc. exact H.
Qed.

Lemma round_nearest_even_error (x u : R) (m : Z) (l : location) :
  0 < u -> located x m l u ->
  Rabs (IZR (round_nearest_even m l) * u - x) <= u / 2.
Proof.
  intros Hu H. unfold located in H. apply Rabs_le.
  destruct l as [|[| |]]; cbn [round_nearest_even].
  - subst x. lra.
  - destruct H as [_ ->]. destruct (Z.even m); rewrite ?plus_IZR; lra.
  - lra.
  - rewrite plus_IZR. lra.
Qed.

Lemma located_bounds (x u : R) (m : Z) (l : location) :
  0 < u -> located x m l u -> IZR m * u <= x < (IZR m + 1) * u.
Proof.
  intros Hu H. unfold located in H. destruct l; [subst; nra|lra].
Qed.

(** [binary_round_aux] on a located real inside the normal range: the
    result is finite, on the grid of [x], within half a grid step. *)
Lemma binary_round_aux_error (s : bool) (mx ex : Z) (lx : location) (x : R) :
  (0 < mx)%Z ->
  located x mx lx (p2 ex) ->
  (53 <= Zdigits2 mx)%Z ->
  let e1 := (Zdigits2 mx + ex - 53)%Z in
  (emin prec emax <= e1 <= 970)%Z ->
  exists (m : positive) (e : Z) (m1 : Z),
    binary_round_aux prec emax s mx ex lx = S754_finite s m e /\
    IZR (Zpos m) * p2 e = IZR m1 * p2 e1 /\
    (2 ^ 52 <= m1 <= 2 ^ 53)%Z /\
    Rabs (IZR m1 * p2 e1 - x) <= p2 e1 / 2 /\
    p2 (e1 + 52) <= x < p2 (e1 + 53) /\
    canonical (S754_finite s m e) /\ (e1 <= e <= e1 + 1)%Z.
Proof.
  intros Hm Hx Hd e1 He.
  pose proof (Zdigits2_bounds mx Hm) as [Dl Du].
  set (d := Zdigits2 mx) in *.
  assert (N1 : bra_n1 mx ex = (d - 53)%Z).
  { unfold bra_n1. fold d. unfold fexp, emin, prec, emax in *. lia. }
  assert (E1 : (ex + bra_n1 mx ex)%Z = e1) by (rewrite N1; unfold e1; lia).
  (* the first shift *)
  pose proof (shr_located x (p2 ex) mx ex
                (fexp prec emax (Zdigits2 mx + ex) - ex) lx
                (Z.lt_le_incl _ _ Hm) (p2_pos ex) Hx) as L1.
  cbv zeta in L1. fold d in L1.
  change (Z.max 0 (fexp prec emax (d + ex) - ex)) with (bra_n1 mx ex) in L1.
  replace (p2 (bra_n1 mx ex) * p2 ex) with (p2 e1) in L1
    by (rewrite <- p2_add; f_equal; lia).
  pose proof (round_nearest_even_error x (p2 e1) _ _ (p2_pos e1) L1) as R1.
  pose proof (located_bounds x (p2 e1) _ _ (p2_pos e1) L1) as B1.
  pose proof (bra_m1_bounds mx ex lx (Z.lt_le_incl _ _ Hm)) as M1.
  change (round_nearest_even _ _) with (bra_m1 mx ex lx) in R1.
  assert (S1 : shr_m (fst (shr (shr_record_of_loc mx lx) ex
                              (fexp prec emax (d + ex) - ex)))
               = (mx / 2 ^ (d - 53))%Z).
  { pose proof (shr_m_shr (shr_record_of_loc mx lx) ex
                  (fexp prec emax (d + ex) - ex)) as [E _].
    { rewrite shr_m_of_loc. lia. }
    rewrite E, shr_m_of_loc.
    change (Z.max 0 (fexp prec emax (d + ex) - ex)) with (bra_n1 mx ex).
    now rewrite N1. }
  rewrite S1 in B1. rewrite N1 in M1.
  set (m1' := (mx / 2 ^ (d - 53))%Z) in *.
  set (m1 := bra_m1 mx ex lx) in *.
  assert (Q1 : (2 ^ 52 <= m1' < 2 ^ 53)%Z).
  { assert (P : (0 < 2 ^ (d - 53))%Z) by (apply Z.pow_pos_nonneg; lia).
    assert (A : (2 ^ (d - 1) = 2 ^ 52 * 2 ^ (d - 53))%Z)
      by (rewrite <- Z.pow_add_r by lia; f_equal; lia).
    assert (B : (2 ^ d = 2 ^ 53 * 2 ^ (d - 53))%Z)
      by (rewrite <- Z.pow_add_r by lia; f_equal; lia).
    unfold m1'. split.
    - apply Z.div_le_lower_bound; lia.
    - apply Z.div_lt_upper_bound; lia. }
  assert (X : p2 (e1 + 52) <= x < p2 (e1 + 53)).
  { rewrite !p2_add, (p2_IZR 52), (p2_IZR 53) by lia.
    pose proof (p2_pos e1) as P.
    assert (IZR (2 ^ 52) <= IZR m1') by (apply IZR_le; lia).
    assert (IZR m1' + 1 <= IZR (2 ^ 53))
      by (rewrite <- plus_IZR; apply IZR_le; lia).
    nra. }
  (* the second shift *)
  rewrite binary_round_aux_eq by lia. cbv zeta. fold m1. rewrite E1.
  destruct (Z.eq_dec m1 (2 ^ 53)) as [C|C].
  - assert (N2 : bra_n2 mx ex lx = 1%Z).
    { unfold bra_n2. fold m1. rewrite E1, C.
      change (Zdigits2 (2 ^ 53)) with 54%Z.
      unfold fexp, emin, prec, emax in *. lia. }
    rewrite N2, C. change (2 ^ 53 / 2 ^ 1)%Z with (Zpos (2 ^ 52)).
    replace (e1 + 1 <=? emax - prec)%Z with true
      by (symmetry; apply Z.leb_le; unfold emax, prec; lia).
    exists (2 ^ 52)%positive, (e1 + 1)%Z, m1.
    split; [reflexivity|].
    split; [|split; [lia|split; [assumption|split; [assumption|]]]].
    + rewrite C, p2_succ. change (Zpos (2 ^ 52)) with (2 ^ 52)%Z.
      change (2 ^ 53)%Z with (2 * 2 ^ 52)%Z. rewrite mult_IZR. lra.
    + split; [|lia]. split; [reflexivity|].
      unfold emin, prec, emax in *. lia.
  - assert (D1 : Zdigits2 m1 = 53%Z)
      by (apply Zdigits2_unique; lia).
    assert (N2 : bra_n2 mx ex lx = 0%Z).
    { unfold bra_n2. fold m1. rewrite E1, D1.
      unfold fexp, emin, prec, emax in *. lia. }
    rewrite N2. change (2 ^ 0)%Z with 1%Z. rewrite Z.div_1_r, Z.add_0_r.
    destruct m1 as [|pm|pm] eqn:Epm; try lia.
    replace (e1 <=? emax - prec)%Z with true
      by (symmetry; apply Z.leb_le; unfold emax, prec; lia).
    exists pm, e1, (Zpos pm).
    split; [reflexivity|]. split; [reflexivity|].
    split; [lia|split; [assumption|split; [assumption|]]].
    split; [|lia]. split; [exact D1|].
    unfold emin, prec, emax in *. lia.
Qed.

Lemma Rabs_le_between (x a : R) : Rabs x <= a -> - a <= x <= a.
Proof. unfold Rabs. destruct (Rcase_abs x); lra. Qed.

Lemma p2_opp (e : Z) : p2 e * p2 (- e) = 1.
Proof. rewrite <- p2_add, Z.add_opp_diag_r. reflexivity. Qed.

Lemma IZR_near_eq (a b : Z) : Rabs (IZR a - IZR b) < 1 -> a = b.
Proof.
  intros H. rewrite <- minus_IZR in H.
  apply Rabs_def2 in H as [H1 H2].
  apply lt_IZR in H1.
  assert (H3 : IZR (-1) < IZR (a - b)) by lra.
  apply lt_IZR in H3. lia.
Qed.

(** A finite Number whose value is the integer [v] converts to [v]. *)
Lemma to_BigInt_exact (m : positive) (e v : Z) :
  IZR (Zpos m) * p2 e = IZR v ->
  to_BigInt (S754_finite false m e) = Some v.
Proof.
  intros H. unfold to_BigInt.
  destruct (Z.leb_spec 0 e) as [L|G].
  - rewrite p2_IZR, <- mult_IZR in H by assumption.
    apply eq_IZR in H. cbn [option_map]. now rewrite H.
  - assert (E : Zpos m = (v * 2 ^ (- e))%Z).
    { apply eq_IZR. rewrite mult_IZR, <- p2_IZR, <- H by lia.
      rewrite Rmult_assoc, p2_opp. ring. }
    assert (0 < 2 ^ (- e))%Z by (apply Z.pow_pos_nonneg; lia).
    rewrite E, Z.mod_mul by lia. cbn [Z.eqb option_map].
    rewrite Z.div_mul by lia. reflexivity.
Qed.

Lemma scaled_value (m : positive) (v e : Z) :
  (Zpos m * 2 ^ Z.max 0 e = v * 2 ^ Z.max 0 (- e))%Z ->
  IZR (Zpos m) * p2 e = IZR v.
Proof.
  intros H. destruct (Z.le_gt_cases 0 e) as [L|G].
  - rewrite Z.max_r, (Z.max_l 0 (- e)) in H by lia.
    rewrite p2_IZR, <- mult_IZR, H by assumption.
    f_equal. cbn. lia.
  - rewrite Z.max_l, (Z.max_r 0 (- e)), Z.mul_1_r in H by lia.
    rewrite H, mult_IZR, <- p2_IZR, Rmult_assoc by lia.
    rewrite Rmult_comm with (r1 := p2 (- e)), p2_opp. ring.
Qed.

(** [Math.round] of a positive finite Number within one half of the
    integer [r]. *)
Lemma Math_round_near (m : positive) (e r : Z) :
  (0 <= r < 2 ^ 53)%Z ->
  Rabs (IZR (Zpos m) * p2 e - IZR r) < / 2 ->
  to_BigInt (Math_round (S754_finite false m e)) = Some r.
Proof.
  intros Hr H. cbn [Math_round].
  destruct (Z.leb_spec 0 e) as [L|G].
  - apply to_BigInt_exact.
    rewrite p2_IZR, <- mult_IZR in * by assumption.
    f_equal. apply IZR_near_eq. lra.
  - set (k := (- e)%Z). assert (Hk : (0 < k)%Z) by (unfold k; lia).
    assert (P : (0 < 2 ^ k)%Z) by (apply Z.pow_pos_nonneg; lia).
    assert (Pk : 0 < IZR (2 ^ k)) by (apply IZR_lt; exact P).
    assert (V : IZR (Zpos m) * p2 e * IZR (2 ^ k) = IZR (Zpos m)).
    { rewrite <- (p2_IZR k) by lia. unfold k.
      rewrite Rmult_assoc, p2_opp. ring. }
    apply Rabs_def2 in H as [H1 H2].
    assert (A1 : ((2 * r - 1) * 2 ^ k < 2 * Zpos m)%Z).
    { apply lt_IZR. rewrite !mult_IZR, minus_IZR, mult_IZR. nra. }
    assert (A2 : (2 * Zpos m < (2 * r + 1) * 2 ^ k)%Z).
    { apply lt_IZR. rewrite !mult_IZR, plus_IZR, mult_IZR. nra. }
    assert (Ez : ((2 * Zpos m + 2 ^ k) / 2 ^ (k + 1) = r)%Z).
    { rewrite Z.pow_add_r, Z.pow_1_r by lia.
      symmetry. apply (Z.div_unique _ _ r
                         (2 * Zpos m + 2 ^ k - 2 ^ k * 2 * r)); lia. }
    rewrite Ez. destruct (Z.eqb_spec r 0) as [->|N]; [reflexivity|].
    apply to_BigInt_of_Z. lia.
Qed.

End RoundingError.


(** ** Division and correctly rounded ratios *)

Section DivisionFacts.

Import JSNumber.
Local Open Scope R_scope.

Lemma new_location_located (d r : Z) (q : Z) (x u : R) :
  (0 < d)%Z -> (0 <= r < d)%Z -> 0 < u ->
  x = (IZR q + IZR r / IZR d) * u ->
  located x q (new_location d r) u.
Proof.
  intros Hd Hr Hu ->.
  assert (Pd : 0 < IZR d) by (apply IZR_lt; lia).
  assert (Q : IZR r / IZR d * IZR d = IZR r) by (field; lra).
  set (rho := IZR r / IZR d) in *.
  assert (Cmp : forall c : comparison,
             (0 < r)%Z -> (2 * r ?= d)%Z = c ->
             0 < rho < 1 /\
             match c with
             | Lt => rho < / 2
             | Eq => rho = / 2
             | Gt => / 2 < rho
             end).
  { intros c Pr Ec.
    assert (R0 : 0 < IZR r) by (apply IZR_lt; lia).
    assert (R1 : IZR r < IZR d) by (apply IZR_lt; lia).
    split; [split; nra|].
    destruct c.
    - apply Z.compare_eq in Ec.
      assert (2 * IZR r = IZR d)
        by (rewrite <- Ec, mult_IZR; reflexivity). nra.
    - apply Z.compare_lt_iff in Ec.
      assert (2 * IZR r < IZR d)
        by (rewrite <- (mult_IZR 2); apply IZR_lt; assumption). nra.
    - apply Z.compare_gt_iff in Ec.
      assert (IZR d < 2 * IZR r)
        by (rewrite <- (mult_IZR 2); apply IZR_lt; assumption). nra. }
  assert (Ex : r = 0%Z -> located ((IZR q + rho) * u) q loc_Exact u).
  { intros E0. assert (Z0 : rho = 0) by (subst r; unfold rho; field; lra).
    cbn [located]. rewrite Z0. ring. }
  unfold new_location.
  destruct (Z.even d) eqn:Ev.
  - unfold new_location_even.
    destruct (Z.eqb_spec r 0) as [E0|N0]; [auto|].
    destruct (Cmp _ ltac:(lia) eq_refl) as [B C].
    cbn [located]. split; [nra|].
    destruct (2 * r ?= d)%Z; nra.
  - unfold new_location_odd.
    destruct (Z.eqb_spec r 0) as [E0|N0]; [auto|].
    assert (Od : Z.odd d = true) by (rewrite <- Z.negb_even, Ev; reflexivity).
    apply Z.odd_spec in Od as [k Ek].
    destruct (Z.compare_spec (2 * r + 1) d) as [E|L|G].
    + destruct (Cmp Lt ltac:(lia) ltac:(apply Z.compare_lt_iff; lia))
        as [B C].
      cbn [located]. split; nra.
    + destruct (Cmp Lt ltac:(lia) ltac:(apply Z.compare_lt_iff; lia))
        as [B C].
      cbn [located]. split; nra.
    + destruct (Cmp Gt ltac:(lia) ltac:(apply Z.compare_gt_iff; lia))
        as [B C].
      cbn [located]. split; nra.
Qed.

(** The quotient [SFdiv_core_binary] hands to the rounding: it locates
    the exact ratio, on a grid fine enough for 53 digits. *)
Lemma SFdiv_core_spec (m1 e1 m2 e2 : Z) :
  (0 < m1)%Z -> (0 < m2)%Z ->
  let g := (Zdigits2 m1 + e1 - (Zdigits2 m2 + e2))%Z in
  (emin prec emax + 53 <= g)%Z ->
  exists q e' l,
    SFdiv_core_binary prec emax m1 e1 m2 e2 = (q, e', l) /\
    (0 < q)%Z /\
    located (IZR m1 * p2 e1 / (IZR m2 * p2 e2)) q l (p2 e') /\
    (53 <= Zdigits2 q)%Z /\
    (g <= Zdigits2 q + e' <= g + 1)%Z.
Proof.
  intros H1 H2 g Hg. unfold SFdiv_core_binary.
  pose proof (Zdigits2_bounds m1 H1) as [L1 U1].
  pose proof (Zdigits2_bounds m2 H2) as [L2 U2].
  set (d1 := Zdigits2 m1) in *. set (d2 := Zdigits2 m2) in *.
  assert (D1 : (1 <= d1)%Z)
    by (unfold d1; rewrite Zdigits2_log2 by lia;
        pose proof (Z.log2_nonneg m1); lia).
  assert (D2 : (1 <= d2)%Z)
    by (unfold d2; rewrite Zdigits2_log2 by lia;
        pose proof (Z.log2_nonneg m2); lia).
  replace (d1 + e1 - (d2 + e2))%Z with g by (unfold g; lia).
  set (e' := Z.min (fexp prec emax g) (e1 - e2)).
  set (s := (e1 - e2 - e')%Z).
  assert (Hs : (0 <= s)%Z) by (unfold s, e'; lia).
  assert (He' : (e' <= g - 53)%Z)
    by (unfold e', fexp, emin, prec, emax in *; lia).
  set (m' := match s with
             | Zpos _ => Z.shiftl m1 s
             | Z0 => m1
             | Zneg _ => 0%Z
             end).
  assert (Em' : m' = (m1 * 2 ^ s)%Z).
  { unfold m'. destruct s as [|p|p] eqn:Es; [cbn; lia| |lia].
    rewrite Z.shiftl_mul_pow2 by lia. reflexivity. }
  assert (Ps : (0 < 2 ^ s)%Z) by (apply Z.pow_pos_nonneg; lia).
  pose proof (Z.div_eucl_eq m' m2 ltac:(lia)) as Eq.
  pose proof (Z.mod_pos_bound m' m2 H2) as Br.
  unfold Z.modulo in Br.
  destruct (Z.div_eucl m' m2) as [q r] eqn:Ed.
  exists q, e', (new_location m2 r).
  split; [reflexivity|].
  (* size of the quotient *)
  assert (K : (d1 + s - d2 >= 53)%Z) by (unfold s, g in *; lia).
  assert (Ql : (2 ^ (d1 + s - d2 - 1) <= q)%Z).
  { assert (A : (2 ^ (d1 + s - d2 - 1) * 2 ^ d2 = 2 ^ (d1 - 1) * 2 ^ s)%Z)
      by (rewrite <- !Z.pow_add_r by lia; f_equal; lia).
    assert (P : (0 < 2 ^ (d1 + s - d2 - 1))%Z)
      by (apply Z.pow_pos_nonneg; lia).
    destruct (Z.le_gt_cases (2 ^ (d1 + s - d2 - 1)) q) as [|G]; [assumption|].
    exfalso.
    assert ((q + 1) * m2 <= 2 ^ (d1 + s - d2 - 1) * m2)%Z by nia.
    assert (2 ^ (d1 - 1) * 2 ^ s <= m1 * 2 ^ s)%Z by nia.
    nia. }
  assert (Qu : (q < 2 ^ (d1 + s - d2 + 1))%Z).
  { assert (A : (2 ^ (d1 + s - d2 + 1) * 2 ^ (d2 - 1) = 2 ^ d1 * 2 ^ s)%Z)
      by (rewrite <- !Z.pow_add_r by lia; f_equal; lia).
    assert (P : (0 < 2 ^ (d1 + s - d2 + 1))%Z)
      by (apply Z.pow_pos_nonneg; lia).
    destruct (Z.lt_ge_cases q (2 ^ (d1 + s - d2 + 1))) as [|G]; [assumption|].
    exfalso.
    assert (2 ^ (d1 + s - d2 + 1) * 2 ^ (d2 - 1) <= q * m2)%Z by nia.
    assert (m1 * 2 ^ s < 2 ^ d1 * 2 ^ s)%Z by nia.
    nia. }
  assert (Pq : (0 < q)%Z).
  { assert (0 < 2 ^ (d1 + s - d2 - 1))%Z by (apply Z.pow_pos_nonneg; lia).
    lia. }
  assert (Dq : (d1 + s - d2 <= Zdigits2 q <= d1 + s - d2 + 1)%Z).
  { pose proof (Zdigits2_bounds q Pq) as [Lq Uq].
    split.
    - destruct (Z.le_gt_cases (d1 + s - d2) (Zdigits2 q)) as [|G];
        [assumption|].
      assert (2 ^ Zdigits2 q <= 2 ^ (d1 + s - d2 - 1))%Z
        by (apply Z.pow_le_mono_r; lia). lia.
    - destruct (Z.le_gt_cases (Zdigits2 q) (d1 + s - d2 + 1)) as [|G];
        [assumption|].
      assert (2 ^ (d1 + s - d2 + 1) <= 2 ^ (Zdigits2 q - 1))%Z
        by (apply Z.pow_le_mono_r; lia). lia. }
  split; [assumption|]. split; [|split; [lia|unfold s, g in *; lia]].
  apply new_location_located; [assumption|lia|apply p2_pos|].
  assert (P2 : 0 < IZR m2) by (apply IZR_lt; lia).
  pose proof (p2_pos e2) as Pe2. pose proof (p2_pos e') as Pe'.
  assert (Ee : p2 e1 = p2 s * p2 e' * p2 e2)
    by (rewrite <- !p2_add; f_equal; unfold s; lia).
  assert (Em : IZR m1 * p2 s = IZR q * IZR m2 + IZR r).
  { rewrite p2_IZR by assumption.
    rewrite <- mult_IZR, <- Em', Eq, plus_IZR, mult_IZR. ring. }
  rewrite Ee.
  replace (IZR m1 * (p2 s * p2 e' * p2 e2))
    with ((IZR q * IZR m2 + IZR r) * p2 e' * p2 e2)
    by (rewrite <- Em; ring).
  field. split; lra.
Qed.

End DivisionFacts.

(** ** Hexadecimal words *)

Section HexFacts.

Import JSString JSBigInt Word256.

Lemma hex_digit_nibble (n : N) :
  (n < 16)%N -> digit_value (nibble_char n) = Some (Z.of_N n).
Proof.
  intros H.
  assert (Hc : In n (map N.of_nat (seq 0 16))).
  { apply in_map_iff. exists (N.to_nat n). split; [lia|].
    apply in_seq. lia. }
  simpl in Hc.
  repeat (destruct Hc as [<- | Hc]; [reflexivity|]).
  destruct Hc.
Qed.

Lemma is_white_nibble (n : N) :
  (n < 16)%N -> is_white (nibble_char n) = false.
Proof.
  intros H.
  assert (Hc : In n (map N.of_nat (seq 0 16))).
  { apply in_map_iff. exists (N.to_nat n). split; [lia|].
    apply in_seq. lia. }
  simpl in Hc.
  repeat (destruct Hc as [<- | Hc]; [reflexivity|]).
  destruct Hc.
Qed.

Lemma byte_lt_256 (b : Byte.byte) : (Byte.to_N b < 256)%N.
Proof. pose proof (Byte.to_N_bounded b). lia. Qed.

Lemma hex_digits_bytes (w : list Byte.byte) (acc : Z) (rest : string) :
  radix_digits 16 acc (hex_of_bytes w ++ rest) =
  radix_digits 16
    (fold_left (fun a b => 256 * a + Z.of_N (Byte.to_N b)) w acc) rest.
Proof.
  revert acc. induction w as [|b w IH]; intros acc; [reflexivity|].
  pose proof (byte_lt_256 b) as Hb.
  assert (Hhi : (Byte.to_N b / 16 < 16)%N)
    by (apply N.Div0.div_lt_upper_bound; lia).
  assert (Hlo : (Byte.to_N b mod 16 < 16)%N)
    by (apply N.mod_upper_bound; lia).
  cbn [hex_of_bytes fold_left]. unfold hex_of_byte.
  cbn [append radix_digits].
  rewrite !hex_digit_nibble by assumption.
  replace (Z.of_N (Byte.to_N b / 16) <? 16) with true
    by (symmetry; apply Z.ltb_lt; lia).
  replace (Z.of_N (Byte.to_N b mod 16) <? 16) with true
    by (symmetry; apply Z.ltb_lt; lia).
  rewrite IH. f_equal. f_equal.
  rewrite (N.div_mod (Byte.to_N b) 16) at 3 by lia.
  lia.
Qed.

Lemma trim_end_no_white (s : string) :
  (forall c, In c (list_ascii_of_string s) -> is_white c = false) ->
  trim_end s = s.
Proof.
  induction s as [|c s IH]; intros H; [reflexivity|].
  cbn [trim_end]. rewrite IH by (intros; apply H; right; assumption).
  destruct s; [|reflexivity].
  rewrite (H c) by (left; reflexivity). reflexivity.
Qed.

Lemma hex_of_bytes_no_white (w : list Byte.byte) (c : ascii) :
  In c (list_ascii_of_string (hex_of_bytes w)) -> is_white c = false.
Proof.
  induction w as [|b w IH]; [intros []|].
  pose proof (byte_lt_256 b) as Hb.
  cbn [hex_of_bytes hex_of_byte append list_ascii_of_string].
  unfold hex_of_byte. cbn [append list_ascii_of_string].
  intros [<- | [<- | H]]; [| |auto].
  - apply is_white_nibble. apply N.Div0.div_lt_upper_bound; lia.
  - apply is_white_nibble. apply N.mod_upper_bound; lia.
Qed.

Lemma unsigned_bound (w : list Byte.byte) :
  0 <= unsigned w < 256 ^ Z.of_nat (List.length w).
Proof.
  unfold unsigned.
  assert (G : forall acc k, 0 <= acc < 256 ^ k -> 0 <= k ->
    0 <= fold_left (fun a b => 256 * a + Z.of_N (Byte.to_N b)) w acc
      < 256 ^ (k + Z.of_nat (List.length w))).
  { induction w as [|b w IH]; intros acc k Hacc Hk.
    - cbn [fold_left List.length]. rewrite Z.add_0_r. exact Hacc.
    - cbn [fold_left List.length].
      replace (k + Z.of_nat (S (List.length w)))
        with ((k + 1) + Z.of_nat (List.length w)) by lia.
      apply IH; [|lia].
      pose proof (byte_lt_256 b).
      rewrite Z.pow_add_r, Z.pow_1_r by lia. lia. }
  apply (G 0 0); [simpl; lia | lia].
Qed.

Lemma append_empty_r (s : string) : (s ++ "")%string = s.
Proof. induction s as [|c s IH]; [reflexivity|]. cbn. now rewrite IH. Qed.

Lemma append_assoc (a b c : string) :
  ((a ++ b) ++ c)%string = (a ++ (b ++ c))%string.
Proof. induction a as [|x a IH]; [reflexivity|]. cbn. now rewrite IH. Qed.

Lemma length_append (a b : string) :
  String.length (a ++ b) = (String.length a + String.length b)%nat.
Proof. induction a as [|x a IH]; [reflexivity|]. cbn. now rewrite IH. Qed.

Lemma of_hex_bytes (w : list Byte.byte) :
  w <> [] -> of_hex (hex_of_bytes w) = Some (unsigned w).
Proof.
  intros Hw. unfold of_hex, nonempty_digits.
  rewrite trim_end_no_white by (intros c; apply hex_of_bytes_no_white).
  pose proof (hex_digits_bytes w 0 EmptyString) as E.
  rewrite append_empty_r in E. cbn [radix_digits] in E.
  destruct w as [|b w]; [contradiction|].
  cbn [hex_of_bytes hex_of_byte append] in *. exact E.
Qed.

End HexFacts.

(** ** Signed word decode *)

(** C1. For every 32-byte word, read as the unsigned big-endian integer [v],
    [_decodeInt256] returns [v] when [v <= 2^255 - 1] and [v - 2^256]
    otherwise, as an exact integer inside the int256 range; the all-ones word
    decodes to [-1], the word of value one to [1] and the word [2^255] to
    [-2^255]. *)
Theorem decodeInt256_twos_complement (w : list Byte.byte) :
  List.length w = 32%nat ->
  let v := Word256.unsigned w in
  (_decodeInt256 (Word256.hex_of_bytes w)
     = Some (if v <=? 2 ^ 255 - 1 then v else v - 2 ^ 256)) /\
  (forall z, _decodeInt256 (Word256.hex_of_bytes w) = Some z ->
             - 2 ^ 255 <= z < 2 ^ 255) /\
  (_decodeInt256 (Word256.hex_of_bytes Word256.all_ones) = Some (-1)) /\
  (_decodeInt256 (Word256.hex_of_bytes Word256.one) = Some 1) /\
  (Word256.unsigned Word256.min_int = 2 ^ 255) /\
  (_decodeInt256 (Word256.hex_of_bytes Word256.min_int) = Some (- 2 ^ 255)).
Proof.
  intros Hlen v.
  assert (Hw : w <> []) by (intros ->; discriminate).
  pose proof (unsigned_bound w) as Hb. rewrite Hlen in Hb.
  fold v in Hb.
  assert (E : _decodeInt256 (Word256.hex_of_bytes w)
              = Some (if v <=? 2 ^ 255 - 1 then v else v - 2 ^ 256)).
  { unfold _decodeInt256. rewrite of_hex_bytes by assumption. fold v.
    unfold MAX_INT256. rewrite !Z.shiftl_1_l.
    rewrite Z.gtb_ltb, Z.ltb_antisym.
    destruct (v <=? 2 ^ 255 - 1); reflexivity. }
  split; [exact E|].
  split; [|repeat split; vm_compute; reflexivity].
  intros z Hz. rewrite E in Hz.
  assert (Ez : z = if v <=? 2 ^ 255 - 1 then v else v - 2 ^ 256)
    by congruence.
  rewrite Ez. clear Ez Hz.
  assert (P : 256 ^ Z.of_nat 32 = 2 * 2 ^ 255) by reflexivity.
  assert (Q : 2 ^ 256 = 2 * 2 ^ 255) by reflexivity.
  rewrite P in Hb. rewrite Q. clear P Q E.
  generalize dependent (2 ^ 255). intros p Hb.
  destruct (v <=? p - 1) eqn:Hc;
    [apply Z.leb_le in Hc | apply Z.leb_gt in Hc]; lia.
Qed.

Lemma decodeInt256_twos_complement_witness :
  List.length Word256.min_int = 32%nat /\
  _decodeInt256 (Word256.hex_of_bytes Word256.min_int)
    = Some (if Word256.unsigned Word256.min_int <=? 2 ^ 255 - 1
            then Word256.unsigned Word256.min_int
            else Word256.unsigned Word256.min_int - 2 ^ 256).
Proof.
  split; [reflexivity|].
  exact (proj1 (decodeInt256_twos_complement Word256.min_int eq_refl)).
Defined.


(** ** Decimal text of integers *)

Section DigitFacts.

Import JSString JSBigInt JSNumber.

Lemma digit_char_facts (d : Z) :
  0 <= d <= 9 ->
  is_digit (digit_char d) = true /\
  Z.of_nat (nat_of_ascii (digit_char d)) - 48 = d.
Proof.
  intros H.
  assert (Hc : In d (map Z.of_nat (seq 0 10))).
  { apply in_map_iff. exists (Z.to_nat d). split; [lia|]. apply in_seq. lia. }
  cbn in Hc.
  repeat (destruct Hc as [<- | Hc]; [split; reflexivity|]).
  destruct Hc.
Qed.

Lemma is_digit_facts (c : ascii) :
  is_digit c = true ->
  digit_value c = Some (Z.of_nat (nat_of_ascii c) - 48) /\
  0 <= Z.of_nat (nat_of_ascii c) - 48 <= 9 /\
  is_white c = false /\
  Ascii.eqb c "-" = false /\ Ascii.eqb c "+" = false /\
  Ascii.eqb c "." = false /\ Ascii.eqb c "I" = false /\
  Ascii.eqb c "x" = false /\ Ascii.eqb c "X" = false /\
  Ascii.eqb c "o" = false /\ Ascii.eqb c "O" = false /\
  Ascii.eqb c "b" = false /\ Ascii.eqb c "B" = false.
Proof.
  unfold is_digit, digit_value, is_white. intros H.
  apply andb_prop in H as [H1 H2].
  apply Nat.leb_le in H1. apply Nat.leb_le in H2.
  set (n := nat_of_ascii c) in *.
  replace (48 <=? Z.of_nat n) with true by (symmetry; apply Z.leb_le; lia).
  replace (Z.of_nat n <=? 57) with true by (symmetry; apply Z.leb_le; lia).
  split; [reflexivity|]. split; [lia|]. split.
  { replace (n <=? 13)%nat with false by (symmetry; apply Nat.leb_gt; lia).
    replace (n =? 32)%nat with false by (symmetry; apply Nat.eqb_neq; lia).
    now rewrite andb_false_r. }
  repeat split;
    (apply Ascii.eqb_neq; intros E; subst c; cbn in n; subst n; lia).
Qed.

Lemma dec_value_app (a : Z) (s1 s2 : string) :
  dec_value a (s1 ++ s2) = dec_value (dec_value a s1) s2.
Proof.
  revert a. induction s1 as [|c s1 IH]; intros a; [reflexivity|].
  cbn [append dec_value]. apply IH.
Qed.

Lemma all_digits_app (s1 s2 : string) :
  all_digits (s1 ++ s2) = all_digits s1 && all_digits s2.
Proof.
  unfold all_digits. induction s1 as [|c s1 IH]; [reflexivity|].
  cbn [append list_ascii_of_string forallb]. now rewrite IH, andb_assoc.
Qed.

Lemma digits_fuel_S (fuel : nat) (n : Z) (acc : string) :
  digits_fuel (S fuel) n acc
  = if n <? 10 then String (digit_char (n mod 10)) acc
    else digits_fuel fuel (n / 10) (String (digit_char (n mod 10)) acc).
Proof. reflexivity. Qed.

Lemma digits_fuel_spec (fuel : nat) :
  forall (n : Z) (acc : string),
    0 <= n < 2 ^ Z.of_nat (S fuel) ->
    exists D, digits_fuel (S fuel) n acc = (D ++ acc)%string /\
              decimal_text D n /\
              forall k, 1 <= k -> n < 10 ^ k -> Z.of_nat (String.length D) <= k.
Proof.
  induction fuel as [|fuel IH]; intros n acc Hn.
  - change (2 ^ Z.of_nat 1) with 2 in Hn.
    destruct (digit_char_facts n ltac:(lia)) as [F1 F2].
    exists (String (digit_char n) EmptyString).
    rewrite digits_fuel_S, Z.mod_small by lia.
    replace (n <? 10) with true by (symmetry; apply Z.ltb_lt; lia).
    split; [reflexivity|]. split; [split; [|split]|].
    + unfold all_digits. cbn. now rewrite F1.
    + discriminate.
    + intros a. cbn [dec_value String.length]. rewrite F2.
      change (10 ^ Z.of_nat 1) with 10. lia.
    + intros k Hk _. cbn. lia.
  - rewrite digits_fuel_S.
    assert (M : 0 <= n mod 10 < 10) by (apply Z.mod_pos_bound; lia).
    destruct (digit_char_facts (n mod 10) ltac:(lia)) as [F1 F2].
    destruct (Z.ltb_spec n 10) as [L|G].
    + exists (String (digit_char (n mod 10)) EmptyString).
      rewrite Z.mod_small in * by lia.
      split; [reflexivity|]. split; [split; [|split]|].
      * unfold all_digits. cbn. now rewrite F1.
      * discriminate.
      * intros a. cbn [dec_value String.length]. rewrite F2.
        change (10 ^ Z.of_nat 1) with 10. lia.
      * intros k Hk _. cbn. lia.
    + assert (Hq : 0 <= n / 10 < 2 ^ Z.of_nat (S fuel)).
      { split; [apply Z.div_pos; lia|].
        apply Z.div_lt_upper_bound; [lia|].
        rewrite (Nat2Z.inj_succ (S fuel)), Z.pow_succ_r in Hn by lia. lia. }
      destruct (IH (n / 10) (String (digit_char (n mod 10)) acc) Hq)
        as (D' & E & (A & Ne & V) & Lk).
      exists (D' ++ String (digit_char (n mod 10)) EmptyString)%string.
      split; [|split; [split; [|split]|]].
      * rewrite E, append_assoc. reflexivity.
      * rewrite all_digits_app, A. unfold all_digits. cbn. now rewrite F1.
      * destruct D'; [contradiction|discriminate].
      * intros a. rewrite dec_value_app, V. cbn [dec_value].
        rewrite F2, length_append. cbn [String.length].
        rewrite Nat2Z.inj_add. change (Z.of_nat 1) with 1.
        rewrite Z.pow_add_r, Z.pow_1_r by lia.
        pose proof (Z.div_mod n 10 ltac:(lia)). lia.
      * intros k Hk Hlt. rewrite length_append. cbn [String.length].
        rewrite Nat2Z.inj_add. change (Z.of_nat 1) with 1.
        assert (2 <= k).
        { destruct (Z.eq_dec k 1) as [->|]; [|lia].
          change (10 ^ 1) with 10 in Hlt. lia. }
        assert (Z.of_nat (String.length D') <= k - 1); [|lia].
        apply Lk; [lia|]. apply Z.div_lt_upper_bound; [lia|].
        rewrite <- Z.pow_succ_r by lia. replace (Z.succ (k - 1)) with k by lia.
        exact Hlt.
Qed.

(** The decimal text of a non-negative BigInt. *)
Lemma digits_spec (n : Z) :
  0 <= n ->
  decimal_text (digits n) n /\
  forall k, 1 <= k -> n < 10 ^ k -> Z.of_nat (String.length (digits n)) <= k.
Proof.
  intros Hn. unfold digits.
  destruct (digits_fuel_spec (Z.to_nat (Z.log2 n)) n EmptyString)
    as (D & E & T & L).
  - split; [assumption|].
    rewrite Nat2Z.inj_succ, Z2Nat.id by apply Z.log2_nonneg.
    destruct (Z.eq_dec n 0) as [->|]; [cbn; lia|].
    apply Z.log2_spec. lia.
  - rewrite E, append_empty_r. split; assumption.
Qed.

Lemma read_digits_app (D rest : string) (acc : Z) (cnt : nat) :
  all_digits D = true ->
  read_digits acc cnt (D ++ rest)
  = read_digits (dec_value acc D) (cnt + String.length D) rest.
Proof.
  revert acc cnt. induction D as [|c D IH]; intros acc cnt H.
  - cbn. now rewrite Nat.add_0_r.
  - unfold all_digits in H. cbn [list_ascii_of_string forallb] in H.
    apply andb_prop in H as [Hc HD].
    cbn [append read_digits dec_value String.length]. rewrite Hc.
    rewrite IH by exact HD. f_equal. lia.
Qed.

Lemma radix_digits_decimal (D : string) (acc : Z) :
  all_digits D = true -> radix_digits 10 acc D = Some (dec_value acc D).
Proof.
  revert acc. induction D as [|c D IH]; intros acc H; [reflexivity|].
  unfold all_digits in H. cbn [list_ascii_of_string forallb] in H.
  apply andb_prop in H as [Hc HD].
  destruct (is_digit_facts c Hc) as (V & B & _).
  cbn [radix_digits dec_value]. rewrite V.
  replace (_ <? 10) with true by (symmetry; apply Z.ltb_lt; lia).
  apply IH. exact HD.
Qed.

Lemma trim_end_digits (D : string) :
  all_digits D = true -> trim_end D = D.
Proof.
  intros H. apply trim_end_no_white. intros c Hc.
  unfold all_digits in H. rewrite forallb_forall in H.
  now destruct (is_digit_facts c (H c Hc)) as (_ & _ & W & _).
Qed.

Lemma strip2_digits (c0 c2 c2' : ascii) (D : string) :
  all_digits D = true ->
  (forall c, is_digit c = true -> Ascii.eqb c c2 = false) ->
  (forall c, is_digit c = true -> Ascii.eqb c c2' = false) ->
  strip2 c0 c2 c2' D = None.
Proof.
  intros H H2 H2'. destruct D as [|a [|b D]]; try reflexivity.
  unfold all_digits in H. cbn [list_ascii_of_string forallb] in H.
  apply andb_prop in H as [_ H]. apply andb_prop in H as [Hb _].
  unfold strip2. rewrite (H2 b Hb), (H2' b Hb), andb_false_r. reflexivity.
Qed.

(** [BigInt(z.toString())] is [z]. *)
Lemma of_string_to_string (z : Z) : of_string (to_string z) = Some z.
Proof.
  unfold to_string.
  destruct (Z.ltb_spec z 0) as [L|G].
  - destruct (digits_spec (- z) ltac:(lia)) as [(A & Ne & V) _].
    unfold of_string. cbn [trim_start].
    change (is_white "-") with false. cbv iota.
    cbn [trim_end]. rewrite trim_end_digits by assumption.
    destruct (digits (- z)) as [|c D] eqn:E; [contradiction|].
    cbn [strip2]. change (Ascii.eqb "-" "0") with false. cbn [andb].
    change (Ascii.eqb "-" "-") with true. cbv iota.
    unfold nonempty_digits. rewrite radix_digits_decimal by assumption.
    rewrite V. cbn [option_map]. f_equal; lia.
  - destruct (digits_spec z G) as [(A & Ne & V) _].
    unfold of_string.
    destruct (digits z) as [|c D] eqn:E; [contradiction|].
    assert (Hc : is_digit c = true).
    { unfold all_digits in A. cbn [list_ascii_of_string forallb] in A.
      now apply andb_prop in A as [A _]. }
    destruct (is_digit_facts c Hc)
      as (_ & _ & W & Em & Ep & _ & _ & Ex & EX & Eo & EO & Eb & EB).
    cbn [trim_start]. rewrite W. rewrite trim_end_digits by assumption.
    rewrite !strip2_digits; try assumption;
      try (intros c' Hc'; now destruct (is_digit_facts c' Hc')
             as (_ & _ & _ & _ & _ & _ & _ & ? & ? & ? & ? & ? & ?)).
    rewrite Em, Ep. unfold nonempty_digits.
    rewrite radix_digits_decimal by assumption. rewrite V. f_equal; lia.
Qed.

End DigitFacts.


(** ** Signs, and products with one *)

Section SignFacts.

Import JSNumber.

Lemma binary_round_aux_opp (s : bool) (mx ex : Z) (lx : location) :
  binary_round_aux prec emax (negb s) mx ex lx
  = SFopp (binary_round_aux prec emax s mx ex lx).
Proof.
  unfold binary_round_aux.
  destruct (shr_fexp prec emax mx ex lx) as [mrs' e'].
  destruct (shr_fexp prec emax _ e' loc_Exact) as [mrs'' e''].
  destruct (shr_m mrs'') as [|m|m]; try reflexivity.
  destruct (e'' <=? emax - prec); reflexivity.
Qed.

Lemma mul_neg_l (a b : number) : mul (neg a) b = neg (mul a b).
Proof.
  unfold mul, neg.
  destruct a as [sa|sa| |sa ma ea], b as [sb|sb| |sb mb eb];
    cbn [SFmul SFopp]; try reflexivity;
    try (now rewrite <- negb_xorb_l).
  rewrite <- negb_xorb_l. apply binary_round_aux_opp.
Qed.

Lemma div_neg_l (a b : number) : div (neg a) b = neg (div a b).
Proof.
  unfold div, neg.
  destruct a as [sa|sa| |sa ma ea], b as [sb|sb| |sb mb eb];
    cbn [SFdiv SFopp]; try reflexivity;
    try (now rewrite <- negb_xorb_l).
  destruct (SFdiv_core_binary prec emax (Zpos ma) ea (Zpos mb) eb)
    as [[mz ez] lz].
  rewrite <- negb_xorb_l. apply binary_round_aux_opp.
Qed.

Lemma neg_has_sign (s : bool) (x : number) :
  has_sign s x -> has_sign (negb s) (neg x).
Proof. destruct x; cbn; intros; subst; auto. Qed.

Lemma SFopp_involutive_signed (x : number) : SFopp (SFopp x) = x.
Proof. destruct x as [s|s| |s m e]; cbn; now rewrite ?negb_involutive. Qed.

Lemma eqb_refl_signed (s : bool) (x : number) :
  has_sign s x -> eqb x x = true.
Proof.
  unfold eqb, SFeqb.
  destruct x as [s'|s'| |s' m e]; cbn [has_sign SFcompare]; intros H;
    try contradiction; try reflexivity.
  - destruct s'; reflexivity.
  - rewrite Z.compare_refl.
    change (Pos.compare_cont Eq m m) with (Pos.compare m m).
    rewrite Pos.compare_refl. destruct s'; reflexivity.
Qed.

(** A rounding inside or above the normal range gives a canonical value
    or an infinity. *)
Lemma binary_round_aux_normal (s : bool) (mx ex : Z) (lx : location) :
  0 < mx -> 53 <= Zdigits2 mx ->
  emin prec emax <= Zdigits2 mx + ex - 53 ->
  binary_round_aux prec emax s mx ex lx = S754_infinity s \/
  exists m e, binary_round_aux prec emax s mx ex lx = S754_finite s m e /\
              canonical (S754_finite s m e) /\
              Zdigits2 mx + ex - 53 <= e.
Proof.
  intros Hm Hd He.
  pose proof (Zdigits2_bounds mx Hm) as [Dl Du].
  set (d := Zdigits2 mx) in *. set (e1 := d + ex - 53) in *.
  assert (N1 : bra_n1 mx ex = d - 53)
    by (unfold bra_n1; fold d; unfold fexp, emin, prec, emax in *; lia).
  pose proof (bra_m1_bounds mx ex lx (Z.lt_le_incl _ _ Hm)) as M1.
  rewrite N1 in M1.
  assert (Q1 : 2 ^ 52 <= mx / 2 ^ (d - 53) < 2 ^ 53).
  { assert (P : 0 < 2 ^ (d - 53)) by (apply Z.pow_pos_nonneg; lia).
    assert (A : 2 ^ (d - 1) = 2 ^ 52 * 2 ^ (d - 53))
      by (rewrite <- Z.pow_add_r by lia; f_equal; lia).
    assert (B : 2 ^ d = 2 ^ 53 * 2 ^ (d - 53))
      by (rewrite <- Z.pow_add_r by lia; f_equal; lia).
    split; [apply Z.div_le_lower_bound; lia
           |apply Z.div_lt_upper_bound; lia]. }
  rewrite binary_round_aux_eq by lia. cbv zeta.
  set (m1 := bra_m1 mx ex lx) in *.
  replace (ex + bra_n1 mx ex) with e1 by (rewrite N1; unfold e1; lia).
  assert (E1 : ex + bra_n1 mx ex = e1) by (rewrite N1; unfold e1; lia).
  destruct (Z.eq_dec m1 (2 ^ 53)) as [C|C].
  - assert (N2 : bra_n2 mx ex lx = 1).
    { unfold bra_n2. fold m1. rewrite E1, C.
      change (Zdigits2 (2 ^ 53)) with 54.
      unfold fexp, emin, prec, emax in *. lia. }
    rewrite N2, C. change (2 ^ 53 / 2 ^ 1) with (Zpos (2 ^ 52)).
    destruct (Z.leb_spec (e1 + 1) (emax - prec)) as [L|G]; [|now left].
    right. exists (2 ^ 52)%positive, (e1 + 1).
    split; [reflexivity|]. split; [|lia].
    split; [reflexivity|]. unfold emin, prec, emax in *. lia.
  - assert (D1 : Zdigits2 m1 = 53) by (apply Zdigits2_unique; lia).
    assert (N2 : bra_n2 mx ex lx = 0).
    { unfold bra_n2. fold m1. rewrite E1, D1.
      unfold fexp, emin, prec, emax in *. lia. }
    rewrite N2. change (2 ^ 0) with 1. rewrite Z.div_1_r, Z.add_0_r.
    destruct m1 as [|pm|pm] eqn:Epm; try lia.
    destruct (Z.leb_spec e1 (emax - prec)) as [L|G]; [|now left].
    right. exists pm, e1. split; [reflexivity|]. split; [|lia].
    split; [exact D1|]. unfold emin, prec, emax in *. lia.
Qed.

(** [Number(q)] for a positive BigInt. *)
Lemma of_Z_regular (q : Z) :
  0 < q ->
  of_Z q = S754_infinity false \/
  exists m e, of_Z q = S754_finite false m e /\
              canonical (S754_finite false m e) /\ Zdigits2 q - 53 <= e.
Proof.
  intros Hq. destruct q as [|p|p]; try lia.
  unfold of_Z, binary_normalize, binary_round.
  pose proof (shl_align_spec p 0 (fexp prec emax (Zpos (digits2_pos p) + 0)))
    as S.
  destruct (shl_align _ _ _) as [mz ez]. destruct S as [Ez Em].
  change (Zpos (digits2_pos p)) with (Zdigits2 (Zpos p)) in Ez.
  pose proof (Zdigits2_bounds (Zpos p) Hq) as [Bl Bu].
  assert (D1 : 1 <= Zdigits2 (Zpos p))
    by (rewrite Zdigits2_log2 by lia; pose proof (Z.log2_nonneg (Zpos p)); lia).
  set (d := Zdigits2 (Zpos p)) in *.
  assert (Ez' : ez = Z.min 0 (d - 53))
    by (unfold fexp, emin, prec, emax in Ez; lia).
  assert (Dz : Zdigits2 (Zpos mz) = d - ez).
  { apply Zdigits2_unique; [lia|]. rewrite Em.
    replace (0 - ez) with (- ez) by lia.
    assert (P : 0 < 2 ^ (- ez)) by (apply Z.pow_pos_nonneg; lia).
    replace (2 ^ (d - ez - 1)) with (2 ^ (d - 1) * 2 ^ (- ez))
      by (rewrite <- Z.pow_add_r by lia; f_equal; lia).
    replace (2 ^ (d - ez)) with (2 ^ d * 2 ^ (- ez))
      by (rewrite <- Z.pow_add_r by lia; f_equal; lia).
    split; [apply Z.mul_le_mono_nonneg_r; lia
           |apply Z.mul_lt_mono_pos_r; lia]. }
  destruct (binary_round_aux_normal false (Zpos mz) ez loc_Exact)
    as [I|(m & e & E & C & L)];
    [lia|lia|unfold emin, prec, emax; lia|now left|].
  right. exists m, e. split; [exact E|]. split; [exact C|lia].
Qed.

Lemma located_exact_round (m : Z) (l : location) (u : R) :
  (0 < u)%R -> located (IZR m * u) m l u -> round_nearest_even m l = m.
Proof.
  intros Hu H. destruct l as [|c]; [reflexivity|].
  cbn [located] in H. destruct H as [[H _] _]. lra.
Qed.

Lemma of_Z_1 : of_Z 1 = S754_finite false (2 ^ 52) (-52).
Proof. reflexivity. Qed.

Lemma of_Z_m1 : of_Z (-1) = neg (of_Z 1).
Proof. reflexivity. Qed.

(** One times a regular Number is that Number. *)
Lemma mul_1_regular (y : number) : regular y -> mul (of_Z 1) y = y.
Proof.
  rewrite of_Z_1. destruct y as [s|s| |s m e]; cbn [regular];
    try contradiction; try reflexivity.
  intros [Dm He]. unfold mul. cbn [SFmul xorb].
  assert (Hm : 0 < Zpos (2 ^ 52 * m)) by lia.
  assert (Dp : Zdigits2 (Zpos (2 ^ 52 * m)) = 105).
  { pose proof (Zdigits2_bounds (Zpos m) ltac:(lia)) as [L U].
    rewrite Dm in L, U. apply Zdigits2_unique; [lia|].
    rewrite Pos2Z.inj_mul.
    change (2 ^ (105 - 1)) with (2 ^ 52 * 2 ^ (53 - 1)).
    change (2 ^ 105) with (2 ^ 52 * 2 ^ 53).
    change (Zpos (2 ^ 52)) with (2 ^ 52). lia. }
  assert (N0 : fexp prec emax (Zdigits2 (Zpos (2 ^ 52 * m)) + (-52 + e))
               - (-52 + e) = 52)
    by (rewrite Dp; unfold fexp, emin, prec, emax in *; lia).
  assert (N1 : bra_n1 (Zpos (2 ^ 52 * m)) (-52 + e) = 52)
    by (unfold bra_n1; rewrite N0; reflexivity).
  assert (S1 : shr_m (fst (shr_fexp prec emax (Zpos (2 ^ 52 * m)) (-52 + e)
                             loc_Exact)) = Zpos m).
  { unfold shr_fexp.
    pose proof (shr_m_shr (shr_record_of_loc (Zpos (2 ^ 52 * m)) loc_Exact)
                  (-52 + e)
                  (fexp prec emax (Zdigits2 (Zpos (2 ^ 52 * m)) + (-52 + e))
                   - (-52 + e))) as [E _]; [cbn; lia|].
    rewrite E, N0. cbn [shr_record_of_loc shr_m Z.max].
    rewrite Pos2Z.inj_mul, Z.mul_comm. apply Z.div_mul.
    change (Zpos (2 ^ 52)) with (2 ^ 52). lia. }
  assert (M1 : bra_m1 (Zpos (2 ^ 52 * m)) (-52 + e) loc_Exact = Zpos m).
  { pose proof (shr_located
                  (IZR (Zpos (2 ^ 52 * m)) * p2 (-52 + e))%R (p2 (-52 + e))
                  (Zpos (2 ^ 52 * m)) (-52 + e)
                  (fexp prec emax (Zdigits2 (Zpos (2 ^ 52 * m)) + (-52 + e))
                   - (-52 + e)) loc_Exact
                  ltac:(lia) (p2_pos _) eq_refl) as L.
    cbv zeta in L. unfold bra_m1. unfold shr_fexp in S1 |- *.
    rewrite S1 in L |- *. rewrite N0 in L at 2.
    change (Z.max 0 52) with 52 in L.
    replace (IZR (Zpos (2 ^ 52 * m)) * p2 (-52 + e))%R
      with (IZR (Zpos m) * (p2 52 * p2 (-52 + e)))%R in L.
    - apply (located_exact_round _ _ (p2 52 * p2 (-52 + e))); [|exact L].
      pose proof (p2_pos 52). pose proof (p2_pos (-52 + e)).
      apply Rmult_lt_0_compat; assumption.
    - rewrite Pos2Z.inj_mul, mult_IZR, (p2_IZR 52) by lia.
      change (Zpos (2 ^ 52)) with (2 ^ 52). ring. }
  assert (N2 : bra_n2 (Zpos (2 ^ 52 * m)) (-52 + e) loc_Exact = 0).
  { unfold bra_n2. rewrite M1, N1, Dm.
    unfold fexp, emin, prec, emax in *. lia. }
  rewrite binary_round_aux_eq by lia. cbv zeta. rewrite M1, N1, N2.
  change (2 ^ 0) with 1. rewrite Z.div_1_r.
  replace (-52 + e + 52 + 0) with e by lia.
  replace (e <=? emax - prec) with true by (symmetry; apply Z.leb_le; lia).
  reflexivity.
Qed.

Lemma mul_m1_regular (y : number) : regular y -> mul (of_Z (-1)) y = neg y.
Proof.
  intros H. rewrite of_Z_m1, mul_neg_l, mul_1_regular by assumption.
  reflexivity.
Qed.

(** A quotient of a regular Number by a canonical one, the dividend not
    too small, is regular and carries the sign of the two. *)
Lemma div_regular (sa : bool) (a : number) (sb : bool) (mb : positive)
    (eb : Z) :
  has_sign sa a -> regular a -> canonical (S754_finite sb mb eb) ->
  (forall m e, a = S754_finite sa m e -> emin prec emax + 53 <= e - eb) ->
  regular (div a (S754_finite sb mb eb)) /\
  has_sign (xorb sa sb) (div a (S754_finite sb mb eb)).
Proof.
  intros Hs Hr [Db Eb] Hg. unfold div.
  destruct a as [s|s| |s m e]; cbn [has_sign regular] in *;
    try contradiction; subst s; cbn [SFdiv].
  - split; [exact I|reflexivity].
  - split; [exact I|reflexivity].
  - destruct Hr as [Da Ea].
    destruct (SFdiv_core_spec (Zpos m) e (Zpos mb) eb)
      as (q & e' & l & E & Pq & _ & Dq & [G1 G2]); [lia|lia| |].
    { rewrite Da, Db. specialize (Hg m e eq_refl). lia. }
    rewrite E. rewrite Da, Db in G1, G2.
    destruct (binary_round_aux_normal (xorb sa sb) q e' l Pq Dq)
      as [I|(m' & e'' & E' & C & _)].
    + specialize (Hg m e eq_refl). lia.
    + rewrite I. split; [constructor|reflexivity].
    + rewrite E'. split; [exact C|reflexivity].
Qed.

End SignFacts.


(** ** Event decoding *)

Section StringFacts.

Import JSString.

Lemma drop_app_len (a b : string) (n m : nat) :
  String.length a = n -> drop (n + m) (a ++ b) = drop m b.
Proof.
  revert n. induction a as [|c a IH]; intros n <-; [reflexivity|].
  cbn. apply IH. reflexivity.
Qed.

Lemma take_app_len (a b : string) (n : nat) :
  String.length a = n -> take n (a ++ b) = a.
Proof.
  revert n. induction a as [|c a IH]; intros n <-; [reflexivity|].
  cbn. f_equal. apply IH. reflexivity.
Qed.

Lemma length_hex_of_bytes (w : list Byte.byte) :
  String.length (Word256.hex_of_bytes w) = (2 * List.length w)%nat.
Proof.
  induction w as [|b w IH]; [reflexivity|].
  cbn [Word256.hex_of_bytes List.length]. rewrite length_append, IH.
  cbn [Word256.hex_of_byte String.length]. lia.
Qed.

End StringFacts.

Section DecodeFacts.

Import JSString.

Variables w0 w1 w2 w3 w4 : list Byte.byte.
Hypothesis L0 : List.length w0 = 32%nat.
Hypothesis L1 : List.length w1 = 32%nat.
Hypothesis L2 : List.length w2 = 32%nat.
Hypothesis L3 : List.length w3 = 32%nat.
Hypothesis L4 : List.length w4 = 32%nat.

Local Abbreviation hex := (payload_hex w0 w1 w2 w3 w4).

Lemma hexlen (w : list Byte.byte) :
  List.length w = 32%nat -> String.length (Word256.hex_of_bytes w) = 64%nat.
Proof. intros H. rewrite length_hex_of_bytes, H. reflexivity. Qed.

Lemma payload_length :
  String.length (payload w0 w1 w2 w3 w4) = (2 + 64 * 5)%nat.
Proof.
  unfold payload, payload_hex. cbn [append String.length].
  rewrite !length_append, !hexlen by assumption. reflexivity.
Qed.

Lemma payload_drop : drop 2 (payload w0 w1 w2 w3 w4) = hex.
Proof. reflexivity. Qed.

Lemma word1 : slice (1 * 64) ((1 + 1) * 64) hex = Word256.hex_of_bytes w1.
Proof.
  unfold slice, payload_hex.
  change (1 * 64)%nat with (64 + 0)%nat.
  rewrite (drop_app_len _ _ 64 0) by (apply hexlen; assumption).
  cbn [drop]. apply take_app_len, hexlen; assumption.
Qed.

Lemma word2 : slice (2 * 64) ((2 + 1) * 64) hex = Word256.hex_of_bytes w2.
Proof.
  unfold slice, payload_hex.
  change (2 * 64)%nat with (64 + (64 + 0))%nat.
  rewrite !(drop_app_len _ _ 64) by (apply hexlen; assumption).
  cbn [drop]. apply take_app_len, hexlen; assumption.
Qed.

Lemma word3 : slice (3 * 64) ((3 + 1) * 64) hex = Word256.hex_of_bytes w3.
Proof.
  unfold slice, payload_hex.
  change (3 * 64)%nat with (64 + (64 + (64 + 0)))%nat.
  rewrite !(drop_app_len _ _ 64) by (apply hexlen; assumption).
  cbn [drop]. apply take_app_len, hexlen; assumption.
Qed.

End DecodeFacts.

Lemma decodeInt256_bytes (w : list Byte.byte) :
  List.length w = 32%nat ->
  _decodeInt256 (Word256.hex_of_bytes w) = Some (signed256 (Word256.unsigned w)).
Proof.
  intros Hlen.
  assert (Hw : w <> []) by (intros ->; discriminate).
  unfold _decodeInt256, signed256. rewrite of_hex_bytes by assumption.
  unfold MAX_INT256. rewrite !Z.shiftl_1_l.
  rewrite Z.gtb_ltb, Z.ltb_antisym.
  destruct (Word256.unsigned w <=? 2 ^ 255 - 1); reflexivity.
Qed.

Lemma formatUnits_total (value : Z) (decimals : JSNumber.number) :
  valid_decimals decimals ->
  exists amount, _formatUnits value decimals = Some amount.
Proof.
  intros (d & Hd & Hpos). unfold _formatUnits. rewrite Hd.
  unfold JSBigInt.pow, JSBigInt.div, JSBigInt.rem.
  replace (d <? 0) with false by (symmetry; apply Z.ltb_ge; lia).
  assert (0 < 10 ^ d) by (apply Z.pow_pos_nonneg; lia).
  replace (10 ^ d =? 0) with false by (symmetry; apply Z.eqb_neq; lia).
  eexists. reflexivity.
Qed.

Lemma delta_row_kind (ts : JSNumber.number) (hash : string) (amt : Z)
    (decimals : JSNumber.number) (sym pos_label neg_label : string)
    (prices : price_map) :
  valid_decimals decimals ->
  exists r,
    delta_row ts hash amt decimals sym pos_label neg_label prices = Some r /\
    description r = (if amt >? 0 then pos_label else neg_label).
Proof.
  intros Hd. unfold delta_row.
  destruct (formatUnits_total (if amt >? 0 then amt else - amt) decimals Hd)
    as [a ->].
  eexists. split; reflexivity.
Qed.

(** C2. A raw log whose payload is five 32-byte words decodes, in a vault
    context with valid decimals, to one row per non-zero delta side:
    a deposit or a withdrawal for a positive or negative collateral delta,
    a borrow or a repayment for a positive or negative debt delta; so zero,
    one or two rows, and [null] exactly when both deltas are zero. *)
Theorem decodeEvent_rows (w0 w1 w2 w3 w4 : list Byte.byte)
    (ts hash : string) (vaultInfo : vault_info) (prices : price_map) :
  List.length w0 = 32%nat -> List.length w1 = 32%nat ->
  List.length w2 = 32%nat -> List.length w3 = 32%nat ->
  List.length w4 = 32%nat ->
  valid_decimals (supplyDecimals vaultInfo) ->
  valid_decimals (borrowDecimals vaultInfo) ->
  let colAmt := signed256 (Word256.unsigned w2) in
  let debtAmt := signed256 (Word256.unsigned w3) in
  let lg := {| log_data := payload w0 w1 w2 w3 w4;
               log_timeStamp := ts;
               log_transactionHash := hash |} in
  match decodeEvent lg vaultInfo prices with
  | None => colAmt = 0 /\ debtAmt = 0
  | Some d =>
      _nftId d = Word256.unsigned w1 /\
      map kind_of (rows d) = map Some (expected_kinds colAmt debtAmt) /\
      (colAmt <> 0 \/ debtAmt <> 0) /\
      (1 <= List.length (rows d) <= 2)%nat
  end.
Proof.
  intros L0 L1 L2 L3 L4 Hs Hb colAmt debtAmt lg.
  unfold decodeEvent. cbn [log_data log_timeStamp log_transactionHash lg].
  rewrite payload_length by assumption.
  change ((2 + 64 * 5 <? 2 + 64 * 5)%nat) with false. cbv iota.
  rewrite payload_drop.
  rewrite (word1 w0 w1 w2 w3 w4), (word2 w0 w1 w2 w3 w4),
    (word3 w0 w1 w2 w3 w4) by assumption.
  rewrite of_hex_bytes by (intros ->; discriminate).
  rewrite !decodeInt256_bytes by assumption.
  fold colAmt debtAmt.
  destruct (delta_row_kind (JSNumber.parseInt16 ts) hash colAmt
              (supplyDecimals vaultInfo) (supplySymbol vaultInfo)
              "Collateral Deposit" "Collateral Withdrawal" prices Hs)
    as (rc & -> & Dc).
  destruct (delta_row_kind (JSNumber.parseInt16 ts) hash debtAmt
              (borrowDecimals vaultInfo) (borrowSymbol vaultInfo)
              "Margin Loan" "Loan Repayment" prices Hb)
    as (rd & -> & Dd).
  unfold expected_kinds.
  destruct (Z.eqb_spec colAmt 0) as [Ec|Ec];
    destruct (Z.eqb_spec debtAmt 0) as [Ed|Ed]; cbn [app rows _nftId].
  - split; assumption.
  - split; [reflexivity|]. split; [|split; [right; assumption|cbn; lia]].
    rewrite Ec. cbn [Z.gtb Z.ltb Z.compare app map]. unfold kind_of. rewrite Dd.
    destruct (Z.gtb_spec debtAmt 0) as [G|G]; [reflexivity|].
    replace (debtAmt <? 0) with true by (symmetry; apply Z.ltb_lt; lia).
    reflexivity.
  - split; [reflexivity|]. split; [|split; [left; assumption|cbn; lia]].
    rewrite Ed. cbn [Z.gtb Z.ltb Z.compare map]. rewrite app_nil_r.
    unfold kind_of. rewrite Dc.
    destruct (Z.gtb_spec colAmt 0) as [G|G]; [reflexivity|].
    replace (colAmt <? 0) with true by (symmetry; apply Z.ltb_lt; lia).
    reflexivity.
  - split; [reflexivity|]. split; [|split; [left; assumption|cbn; lia]].
    cbn [map]. unfold kind_of. rewrite Dc, Dd.
    destruct (Z.gtb_spec colAmt 0) as [G|G];
      destruct (Z.gtb_spec debtAmt 0) as [G'|G'];
      try (replace (colAmt <? 0) with true by (symmetry; apply Z.ltb_lt; lia));
      try (replace (debtAmt <? 0) with true by (symmetry; apply Z.ltb_lt; lia));
      reflexivity.
Qed.


(** ** Pagination *)

Section FetchFacts.

Context {source : Type}.
Variable serve : source -> request -> http_reply * source.
Variable vaultAddress : string.

Local Abbreviation collects := (collects serve vaultAddress).
Local Abbreviation page_request := (page_request vaultAddress).

Lemma fetch_loop_collects (src src' : source) (p : nat)
    (reqs : list request) (pages : list (list log)) :
  collects src p reqs pages src' ->
  forall (fuel : nat) (reqs0 : list request) (acc : list log),
    fetch_loop serve (List.length reqs + fuel) vaultAddress src reqs0 acc p
    = fetch_loop serve fuel vaultAddress src' (reqs ++ reqs0)
        (acc ++ List.concat pages) (p + List.length pages).
Proof.
  induction 1 as [src p
                 | src src1 src2 p code json reqs pages Hs Hst Hlen _ IH
                 | src src1 src2 p code json reqs pages Hs Hrl _ IH];
    intros fuel reqs0 acc.
  - cbn. now rewrite app_nil_r, Nat.add_0_r.
  - rewrite length_app, Nat.add_comm with (n := List.length reqs).
    cbn [List.length Nat.add fetch_loop].
    fold (page_request p). rewrite Hs, Hst.
    replace (_ <? _)%nat with false
      by (symmetry; apply Nat.ltb_ge; exact Hlen).
    rewrite IH. cbn [List.concat List.length].
    rewrite <- !app_assoc. cbn [app].
    now rewrite Nat.add_succ_r.
  - rewrite length_app, Nat.add_comm with (n := List.length reqs).
    cbn [List.length Nat.add fetch_loop].
    fold (page_request p). rewrite Hs.
    unfold rate_limited in Hrl.
    apply andb_prop in Hrl as [Hrl Hr]. apply andb_prop in Hrl as [Hst Hm].
    rewrite Hst. apply negb_true_iff in Hm. rewrite Hm, Hr.
    rewrite IH. rewrite <- !app_assoc. reflexivity.
Qed.



(** The loop on a reply that ends it without a page. *)
Lemma fetch_loop_abort (src src' : source) (p fuel : nat)
    (reply : http_reply) (k : abort_kind)
    (reqs0 : list request) (acc : list log) :
  serve src (page_request p) = (reply, src') ->
  abort_of reply = Some k ->
  fetch_loop serve (S fuel) vaultAddress src reqs0 acc p
  = Some {| run_result := match k with
                          | AbortReturn => Returned acc
                          | AbortThrow => Thrown
                          end;
            run_source := src';
            run_requests := page_request p :: reqs0 |}.
Proof.
  intros Hs Hk. cbn [fetch_loop]. fold (page_request p). rewrite Hs.
  destruct reply as [|[|] code [json|]]; cbn in Hk;
    try (injection Hk as <-; reflexivity).
  unfold api_error in Hk.
  destruct (String.eqb (status json) "0"); [|discriminate].
  destruct (String.eqb (message json) "No records found"); [discriminate|].
  destruct (is_rate_limit (result json)); [discriminate|].
  cbn in Hk. injection Hk as <-. reflexivity.
Qed.

End FetchFacts.


(** C6, as the code has it. After any number of full pages, an error reply
    of the API that is neither "No records found" nor a rate limit ends
    [fetchVaultEvents] with the entries collected so far; a response whose
    status is not a success, a rejected [fetch] or a body that is not JSON
    makes it throw instead. *)
Theorem fetchVaultEvents_abort
    {source : Type} (serve : source -> request -> http_reply * source)
    (vaultAddress : string) (src src1 src2 : source)
    (reqs reqs0 : list request) (pages : list (list log))
    (reply : http_reply) (k : abort_kind) (fuel : nat) :
  collects serve vaultAddress src 1 reqs pages src1 ->
  serve src1 (page_request vaultAddress (1 + List.length pages))
    = (reply, src2) ->
  abort_of reply = Some k ->
  (List.length reqs < fuel)%nat ->
  fetchVaultEvents serve fuel vaultAddress src reqs0
  = Some {| run_result := match k with
                          | AbortReturn => Returned (List.concat pages)
                          | AbortThrow => Thrown
                          end;
            run_source := src2;
            run_requests :=
              page_request vaultAddress (1 + List.length pages)
                :: reqs ++ reqs0 |}.
Proof.
  intros Hc Hs Hk Hfuel. unfold fetchVaultEvents.
  replace fuel with (List.length reqs + S (fuel - S (List.length reqs)))%nat
    by lia.
  rewrite (fetch_loop_collects serve vaultAddress _ _ _ _ _ Hc).
  cbn [app].
  apply (fetch_loop_abort serve vaultAddress _ _ _ _ _ _ _ _ Hs Hk).
Qed.


(** ** The sort of the ledger *)

Section SortFacts.

Context {A : Type}.
Variable comparefn : A -> A -> JSNumber.number.
Variable P : A -> Prop.
Variable key : A -> Z.

Hypothesis after_key :
  forall a b, P a -> P b -> sorts_after comparefn a b = (key a <? key b).

Lemma sort_insert_perm (x : A) (l : list A) :
  Permutation (x :: l) (sort_insert comparefn x l).
Proof.
  induction l as [|y l IH]; [reflexivity|]. cbn [sort_insert].
  destruct (sorts_after comparefn x y); [|reflexivity].
  rewrite perm_swap. now apply perm_skip.
Qed.

Lemma array_sort_perm (l : list A) :
  Permutation l (array_sort comparefn l).
Proof.
  induction l as [|x l IH]; [reflexivity|]. unfold array_sort.
  cbn [fold_right]. fold (array_sort comparefn l).
  rewrite <- sort_insert_perm. now apply perm_skip.
Qed.

Lemma array_sort_Forall (l : list A) :
  Forall P l -> Forall P (array_sort comparefn l).
Proof. apply Permutation_Forall, array_sort_perm. Qed.

Local Abbreviation desc := (key_desc key).

Lemma sort_insert_sorted (x : A) (l : list A) :
  P x -> Forall P l -> StronglySorted desc l ->
  StronglySorted desc (sort_insert comparefn x l).
Proof.
  intros Px. induction l as [|y l IH]; intros Pl Hs.
  - repeat constructor.
  - inversion Pl as [|? ? Py Pl']; subst.
    inversion Hs as [|? ? Hs' Hy]; subst.
    cbn [sort_insert]. rewrite after_key by assumption.
    destruct (Z.ltb_spec (key x) (key y)) as [L|G].
    + constructor; [apply IH; assumption|].
      apply (Permutation_Forall (sort_insert_perm x l)).
      constructor; [unfold key_desc; lia|assumption].
    + constructor; [assumption|].
      constructor; [unfold key_desc; lia|].
      eapply Forall_impl; [|exact Hy]. unfold key_desc. intros; lia.
Qed.

Lemma array_sort_sorted (l : list A) :
  Forall P l -> StronglySorted desc (array_sort comparefn l).
Proof.
  induction l as [|x l IH]; intros Pl; [constructor|].
  inversion Pl; subst. unfold array_sort. cbn [fold_right].
  fold (array_sort comparefn l).
  apply sort_insert_sorted; [assumption|now apply array_sort_Forall|auto].
Qed.

Variable f : A -> bool.
Variable k : Z.
Hypothesis f_class : forall a, P a -> f a = (key a =? k).



End SortFacts.

Section LedgerOrder.

Import JSNumber.

Lemma valid_timestamp_key (r : row) :
  valid_timestamp r ->
  0 <= ts_key r < 2 ^ 53 /\ timestamp r = of_Z (ts_key r).
Proof.
  intros (z & Hz & E). unfold ts_key. rewrite E, to_BigInt_of_Z by assumption.
  split; [assumption|reflexivity].
Qed.

Lemma sorts_after_ts_key (a b : row) :
  valid_timestamp a -> valid_timestamp b ->
  sorts_after by_timestamp_desc a b = (ts_key a <? ts_key b).
Proof.
  intros Ha Hb.
  destruct (valid_timestamp_key a Ha) as [Ka Ea].
  destruct (valid_timestamp_key b Hb) as [Kb Eb].
  unfold sorts_after, by_timestamp_desc. rewrite Ea, Eb.
  apply sub_of_Z_positive; assumption.
Qed.

Lemma ts_desc_key (a b : row) :
  valid_timestamp a -> valid_timestamp b ->
  ts_key b <= ts_key a -> ts_desc a b.
Proof.
  intros Ha Hb L.
  destruct (valid_timestamp_key a Ha) as [Ka Ea].
  destruct (valid_timestamp_key b Hb) as [Kb Eb].
  unfold ts_desc, leb, SFleb. rewrite Ea, Eb, SFcompare_of_Z by assumption.
  destruct (Z.compare_spec (ts_key b) (ts_key a)); try reflexivity. lia.
Qed.


Lemma StronglySorted_impl_in {A : Type} (R R' : A -> A -> Prop) (l : list A) :
  (forall a b, In a l -> In b l -> R a b -> R' a b) ->
  StronglySorted R l -> StronglySorted R' l.
Proof.
  induction l as [|x l IH]; intros H Hs; [constructor|].
  inversion Hs as [|? ? Hs' Hx]; subst. constructor.
  - apply IH; [|assumption]. intros a b Ia Ib. apply H; right; assumption.
  - apply Forall_forall. intros b Ib.
    apply H; [left; reflexivity|right; assumption|].
    rewrite Forall_forall in Hx. now apply Hx.
Qed.

End LedgerOrder.


(** ** Filtering by owned positions *)

Section OwnedFacts.

Context {source : Type}.
Variable serve : source -> request -> http_reply * source.
Variable Math_log10 : JSNumber.number -> JSNumber.number.

Lemma existsb_Zeqb_In (x : Z) (l : list Z) :
  existsb (Z.eqb x) l = true <-> In x l.
Proof.
  rewrite existsb_exists. split.
  - intros (y & Hy & E). apply Z.eqb_eq in E. now subst.
  - intros H. exists x. split; [assumption|apply Z.eqb_refl].
Qed.

Lemma set_add_In (x id : Z) (s : list Z) :
  In x (set_add id s) -> In x s \/ x = id.
Proof.
  unfold set_add. destruct (existsb (Z.eqb id) s); [now left|].
  intros H. apply in_app_or in H as [H|[H|[]]]; [now left|now right].
Qed.

Lemma vault_add_id_In (m : vault_map) (a0 : string) (id : Z)
    (a : string) (info : vault_info) :
  In (a, info) (vault_add_id m a0 id) ->
  exists info0, In (a, info0) m /\
    forall x, In x (nftIds info) -> In x (nftIds info0) \/ (x = id /\ a = a0).
Proof.
  induction m as [|[k i] m IH]; [intros []|]. cbn [vault_add_id].
  destruct (String.eqb_spec k a0) as [E|N].
  - intros [H|H].
    + injection H as <- <-. exists i. split; [left; reflexivity|].
      cbn [nftIds]. intros x Hx. apply set_add_In in Hx as [Hx| ->]; auto.
    + exists info. split; [right; assumption|auto].
  - intros [H|H].
    + injection H as <- <-. exists i. split; [left; reflexivity|auto].
    + destruct (IH H) as (info0 & I0 & F). exists info0.
      split; [right; assumption|assumption].
Qed.

(** Every id kept for a vault comes from a position on that vault. *)
Lemma group_positions_owned (positions : list position)
    (m0 m : vault_map) :
  group_positions Math_log10 positions m0 = Some m ->
  forall a info x, In (a, info) m -> In x (nftIds info) ->
    owns positions a x \/
    exists info0, In (a, info0) m0 /\ In x (nftIds info0).
Proof.
  revert m0. induction positions as [|pos rest IH]; intros m0 H a info x Hi Hx.
  - cbn in H. injection H as <-. right. exists info. split; assumption.
  - cbn [group_positions] in H.
    destruct (JSBigInt.of_string (pos_nftId pos)) as [id|] eqn:Eid;
      [|discriminate].
    destruct (IH _ H a info x Hi Hx) as [(p & Ip & Ea & Ex)|(info1 & I1 & X1)].
    + left. exists p. split; [right; assumption|split; assumption].
    + apply vault_add_id_In in I1 as (info0 & I0 & F).
      destruct (F x X1) as [X0|[-> ->]].
      * destruct (vault_has m0 (pos_vaultAddress pos)).
        -- right. exists info0. split; assumption.
        -- apply in_app_or in I0 as [I0|[I0|[]]].
           ++ right. exists info0. split; assumption.
           ++ injection I0 as <- <-. cbn in X0. contradiction.
      * left. exists pos. split; [left; reflexivity|split; [reflexivity|assumption]].
Qed.

Lemma rows_of_logs_owned (logs : list log) (info : vault_info)
    (prices : price_map) (r : row) :
  In r (rows_of_logs logs info prices) ->
  exists lg d, In lg logs /\ decodeEvent lg info prices = Some d /\
               In r (rows d) /\ In (_nftId d) (nftIds info).
Proof.
  induction logs as [|lg logs IH]; [intros []|]. cbn [rows_of_logs].
  destruct (decodeEvent lg info prices) as [d|] eqn:Ed.
  - destruct (existsb (Z.eqb (_nftId d)) (nftIds info)) eqn:Eo.
    + intros H. apply in_app_or in H as [H|H].
      * exists lg, d. apply existsb_Zeqb_In in Eo.
        repeat split; try assumption. left; reflexivity.
      * destruct (IH H) as (lg' & d' & ? & ? & ? & ?).
        exists lg', d'. repeat split; try assumption. right; assumption.
    + intros H. destruct (IH H) as (lg' & d' & ? & ? & ? & ?).
      exists lg', d'. repeat split; try assumption. right; assumption.
  - intros H. destruct (IH H) as (lg' & d' & ? & ? & ? & ?).
    exists lg', d'. repeat split; try assumption. right; assumption.
Qed.

(** The rows of a vault are those of its owned logs alone. *)
Lemma rows_of_logs_filter (logs : list log) (info : vault_info)
    (prices : price_map) :
  rows_of_logs logs info prices
  = rows_of_logs
      (filter (fun lg => match decodeEvent lg info prices with
                         | Some d => existsb (Z.eqb (_nftId d)) (nftIds info)
                         | None => false
                         end) logs) info prices.
Proof.
  induction logs as [|lg logs IH]; [reflexivity|].
  cbn [rows_of_logs filter].
  destruct (decodeEvent lg info prices) as [d|] eqn:Ed; [|exact IH].
  destruct (existsb (Z.eqb (_nftId d)) (nftIds info)) eqn:Eo; [|exact IH].
  cbn [rows_of_logs]. rewrite Ed, Eo, <- IH. reflexivity.
Qed.

Lemma collect_vaults_owned (fuel : nat) (vaultMap : vault_map)
    (prices : price_map) :
  forall (m : vault_map) (src : source) (reqs : list request)
         (acc : list row) (r : run source (list row)) (ledger : list row),
    (forall e, In e m -> In e vaultMap) ->
    Forall (derived_from_owned_log serve fuel vaultMap prices) acc ->
    collect_vaults serve fuel m prices src reqs acc = Some r ->
    run_result r = Returned ledger ->
    Forall (derived_from_owned_log serve fuel vaultMap prices) ledger.
Proof.
  induction m as [|[a info] m IH]; intros src reqs acc r ledger Hm Hacc H Hr.
  - cbn in H. injection H as <-. cbn in Hr. injection Hr as <-. exact Hacc.
  - cbn [collect_vaults] in H.
    destruct (fetchVaultEvents serve fuel a src reqs) as [f|] eqn:Ef;
      [|discriminate].
    destruct (run_result f) as [logs|] eqn:El.
    + eapply IH; [| |exact H|exact Hr].
      * intros e He. apply Hm. right. exact He.
      * apply Forall_app. split; [exact Hacc|].
        apply Forall_forall. intros x Hx.
        apply rows_of_logs_owned in Hx as (lg & d & Il & Ed & Ir & Io).
        exists a, info, lg, d, src, reqs, f, logs.
        repeat split; try assumption. apply Hm. left. reflexivity.
    + injection H as <-. cbn in Hr. discriminate.
Qed.

End OwnedFacts.

(** C8. Every row of the ledger [fetchForPositions] returns is a row of a
    log fetched for one of the caller's vaults whose NFT id is the id of a
    position of the caller on that vault; the rows of every other log of
    the vault are left out. *)
Theorem ledger_only_owned_positions
    {source : Type} (serve : source -> request -> http_reply * source)
    (Math_log10 : JSNumber.number -> JSNumber.number)
    (fuel : nat) (positions : list position) (prices : price_map)
    (src : source) (r : run source (list row)) (ledger : list row) :
  fetchForPositions serve Math_log10 fuel positions prices src = Some r ->
  run_result r = Returned ledger ->
  exists vaultMap,
    group_positions Math_log10 positions [] = Some vaultMap /\
    (forall a info x, In (a, info) vaultMap -> In x (nftIds info) ->
                      owns positions a x) /\
    Forall (derived_from_owned_log serve fuel vaultMap prices) ledger /\
    (forall logs info,
        rows_of_logs logs info prices
        = rows_of_logs
            (filter (fun lg =>
                       match decodeEvent lg info prices with
                       | Some d => existsb (Z.eqb (_nftId d)) (nftIds info)
                       | None => false
                       end) logs) info prices).
Proof.
  intros H Hr. unfold fetchForPositions, collectTransactions in H.
  destruct (group_positions Math_log10 positions []) as [vaultMap|] eqn:Eg.
  - exists vaultMap. split; [reflexivity|]. split; [|split].
    + intros a info x Hi Hx.
      destruct (group_positions_owned Math_log10 _ _ _ Eg a info x Hi Hx)
        as [O|(info0 & [] & _)]. exact O.
    + destruct (collect_vaults serve fuel vaultMap prices src [] [])
        as [c|] eqn:Ec; [|discriminate].
      destruct (run_result c) as [all|] eqn:Ea.
      * injection H as <-. cbn in Hr. injection Hr as <-.
        apply (Permutation_Forall (array_sort_perm by_timestamp_desc all)).
        eapply (collect_vaults_owned serve fuel vaultMap prices vaultMap);
          [auto|constructor|exact Ec|exact Ea].
      * injection H as <-. rewrite Ea in Hr. discriminate.
    + intros logs info. apply rows_of_logs_filter.
  - cbn in H. injection H as <-. cbn in Hr. discriminate.
Qed.


(** ** Rates *)

Section RateFacts.

Import JSNumber.

Lemma of_Z_nonneg_facts (q : Z) :
  0 <= q ->
  regular (of_Z q) /\ has_sign false (of_Z q) /\
  forall m e, of_Z q = S754_finite false m e -> -52 <= e.
Proof.
  intros Hq. destruct (Z.eq_dec q 0) as [->|N].
  - rewrite of_Z_0. repeat split. intros m e E. discriminate E.
  - destruct (of_Z_regular q ltac:(lia)) as [->|(m & e & -> & C & L)].
    + repeat split. intros m e E. discriminate E.
    + split; [exact C|]. split; [reflexivity|].
      intros m' e' E. injection E as <- <-.
      assert (1 <= Zdigits2 q)
        by (rewrite Zdigits2_log2 by lia; pose proof (Z.log2_nonneg q); lia).
      lia.
Qed.

Lemma of_Z_100 : of_Z 100 = S754_finite false 7036874417766400 (-46).
Proof. reflexivity. Qed.

Lemma rate_magnitude_nonneg (r : Z) : 0 <= rate_magnitude r.
Proof.
  unfold rate_magnitude. destruct (10 ^ 18 <? Z.abs r); [|lia].
  apply Z.div_pos; lia.
Qed.

Lemma rate_quotient_facts (q : Z) :
  0 <= q ->
  regular (div (of_Z q) (of_Z 100)) /\
  has_sign false (div (of_Z q) (of_Z 100)).
Proof.
  intros Hq. destruct (of_Z_nonneg_facts q Hq) as (Rg & Sg & Ex).
  rewrite of_Z_100.
  apply (div_regular false (of_Z q) false); try assumption.
  - split; [reflexivity|]. unfold emin, prec, emax. lia.
  - intros m e E. specialize (Ex m e E). unfold emin, prec, emax. lia.
Qed.

Lemma rateToApy_raw_form (r : Z) :
  Fetcher.rateToApy_raw r
  = let y := div (of_Z (rate_magnitude r)) (of_Z 100) in
    if r <? 0 then neg y else y.
Proof.
  unfold Fetcher.rateToApy_raw, rate_magnitude. cbv zeta.
  replace (if r <? 0 then - r else r) with (Z.abs r)
    by (destruct (Z.ltb_spec r 0); lia).
  rewrite Z.gtb_ltb, Z.quot_div_nonneg by lia.
  set (q := if 10 ^ 18 <? Z.abs r then Z.abs r / 10 ^ 23 else Z.abs r).
  assert (Hq : 0 <= q) by apply rate_magnitude_nonneg.
  destruct (of_Z_nonneg_facts q Hq) as (Rg & _).
  assert (E : (if 10 ^ 18 <? Z.abs r
               then div (mul (if r <? 0 then of_Z (-1) else of_Z 1)
                           (of_Z (Z.abs r / 10 ^ 23))) (of_Z 100)
               else div (mul (if r <? 0 then of_Z (-1) else of_Z 1)
                           (of_Z (Z.abs r))) (of_Z 100))
              = div (mul (if r <? 0 then of_Z (-1) else of_Z 1) (of_Z q))
                  (of_Z 100))
    by (unfold q; destruct (10 ^ 18 <? Z.abs r); reflexivity).
  rewrite E. destruct (r <? 0).
  - now rewrite mul_m1_regular, div_neg_l by assumption.
  - now rewrite mul_1_regular by assumption.
Qed.

End RateFacts.

(** C3. [rateToApy] returns the sign of the rate times the scaled
    magnitude over one hundred: the magnitude divided by [10^23] when it
    is above [10^18], the magnitude itself otherwise. The sign of the
    input is the sign of the result, and opposite rates give opposite
    results. *)
Theorem rateToApy_scale_and_sign (r : Z) :
  Fetcher.rateToApy (JSBigInt.to_string r) = Some (Fetcher.rateToApy_raw r) /\
  Fetcher.rateToApy_raw r = rateToApy_spec r /\
  has_sign (r <? 0) (Fetcher.rateToApy_raw r) /\
  JSNumber.eqb (Fetcher.rateToApy_raw (- r))
               (JSNumber.neg (Fetcher.rateToApy_raw r)) = true /\
  (r <> 0 ->
   Fetcher.rateToApy_raw (- r) = JSNumber.neg (Fetcher.rateToApy_raw r)) /\
  Fetcher.rateToApy_raw (10 ^ 18) = JSNumber.of_Z (10 ^ 16) /\
  Fetcher.rateToApy_raw (10 ^ 18 + 1) = JSNumber.of_Z 0 /\
  Fetcher.rateToApy_raw (5 * 10 ^ 25) = JSNumber.of_Z 5 /\
  Fetcher.rateToApy_raw (-523) = JSNumber.parseFloat "-5.23".
Proof.
  destruct (rate_quotient_facts (rate_magnitude r) (rate_magnitude_nonneg r))
    as [Rg Sg].
  assert (Eopp : rate_magnitude (- r) = rate_magnitude r)
    by (unfold rate_magnitude; now rewrite Z.abs_opp).
  split; [|split; [|split; [|split; [|split]]]].
  - unfold Fetcher.rateToApy. now rewrite of_string_to_string.
  - rewrite rateToApy_raw_form. cbv zeta. unfold rateToApy_spec.
    fold (rate_magnitude r).
    destruct (Z.ltb_spec r 0) as [L|G].
    + rewrite Z.sgn_neg by lia. now rewrite mul_m1_regular.
    + destruct (Z.eq_dec r 0) as [->|N]; [reflexivity|].
      rewrite Z.sgn_pos by lia. now rewrite mul_1_regular.
  - rewrite rateToApy_raw_form. cbv zeta.
    destruct (r <? 0); [now apply (neg_has_sign false)|assumption].
  - rewrite !rateToApy_raw_form. cbv zeta. rewrite Eopp.
    destruct (Z.ltb_spec r 0) as [L|G].
    + replace (- r <? 0) with false by (symmetry; apply Z.ltb_ge; lia).
      unfold JSNumber.neg. rewrite SFopp_involutive_signed.
      apply (eqb_refl_signed false). assumption.
    + destruct (Z.eq_dec r 0) as [->|N]; [reflexivity|].
      replace (- r <? 0) with true by (symmetry; apply Z.ltb_lt; lia).
      apply (eqb_refl_signed true). now apply (neg_has_sign false).
  - intros N. rewrite !rateToApy_raw_form. cbv zeta. rewrite Eopp.
    destruct (Z.ltb_spec r 0) as [L|G].
    + replace (- r <? 0) with false by (symmetry; apply Z.ltb_ge; lia).
      unfold JSNumber.neg. now rewrite SFopp_involutive_signed.
    + replace (- r <? 0) with true by (symmetry; apply Z.ltb_lt; lia).
      reflexivity.
  - repeat split; vm_compute; reflexivity.
Qed.


(** ** Inferred decimals *)

Section InferFacts.

Import JSNumber.

Lemma of_Z_not_nan (z : Z) : of_Z z <> S754_nan.
Proof.
  unfold of_Z, binary_normalize. destruct z as [|p|p]; [discriminate| |].
  - pose proof (binary_round_sign false p 0) as H.
    intros E. rewrite E in H. exact H.
  - pose proof (binary_round_sign true p 0) as H.
    intros E. rewrite E in H. exact H.
Qed.

Lemma of_Z_sign (z : Z) : z <> 0 -> has_sign (z <? 0) (of_Z z).
Proof.
  unfold of_Z, binary_normalize. destruct z as [|p|p]; [easy| |]; intros _.
  - apply (binary_round_sign false).
  - apply (binary_round_sign true).
Qed.

Lemma SFdiv_core_nonneg (m1 e1 m2 e2 : Z) :
  0 < m1 -> 0 < m2 ->
  0 <= fst (fst (SFdiv_core_binary prec emax m1 e1 m2 e2)).
Proof.
  intros H1 H2. unfold SFdiv_core_binary.
  set (s := e1 - e2 - _).
  set (m' := match s with
             | Zpos _ => Z.shiftl m1 s
             | Z0 => m1
             | Zneg _ => 0
             end).
  assert (Hm : 0 <= m').
  { unfold m'. destruct s; try lia. apply Z.shiftl_nonneg. lia. }
  pose proof (Z.div_pos m' m2 Hm H2) as Hq. unfold Z.div in Hq.
  destruct (Z.div_eucl m' m2) as [q r]. exact Hq.
Qed.

(** A quotient of two positive finite Numbers is never [NaN] nor
    negative. *)
Lemma div_positive_finite (a b : number) :
  positive_finite a -> positive_finite b -> has_sign false (div a b).
Proof.
  destruct a as [| | |[|] ma ea]; try contradiction.
  destruct b as [| | |[|] mb eb]; try contradiction.
  intros _ _. unfold div. cbn [SFdiv xorb].
  pose proof (SFdiv_core_nonneg (Zpos ma) ea (Zpos mb) eb
                ltac:(lia) ltac:(lia)) as H.
  destruct (SFdiv_core_binary prec emax (Zpos ma) ea (Zpos mb) eb)
    as [[mz ez] lz].
  apply binary_round_aux_sign. exact H.
Qed.

Lemma Math_round_rounded (y : number) :
  y <> S754_nan -> rounded (Math_round y).
Proof.
  destruct y as [s|s| |s m e]; cbn [Math_round]; try easy.
  intros _. destruct (Z.leb_spec 0 e) as [L|G].
  - destruct s; cbn; auto.
  - set (z := (2 * (if s then Zneg m else Zpos m) + 2 ^ (- e))
              / 2 ^ (- e + 1)).
    destruct (Z.eqb_spec z 0) as [E|N]; [exact I|].
    pose proof (of_Z_sign z N) as H.
    destruct (of_Z z) as [s'|s'| |s' m' e'] eqn:Ez; cbn [has_sign] in H;
      try easy.
    destruct s'; [exact I|]. right. exists z. split; [|now rewrite Ez].
    destruct (Z.ltb_spec z 0); [discriminate|lia].
Qed.

Lemma of_Z_18 : of_Z 18 = S754_finite false 5066549580791808 (-48).
Proof. reflexivity. Qed.

(** [Math.max(0, Math.min(x, 18))] on a rounded Number is an integer
    from 0 to 18. *)
Lemma clamp_rounded (x : number) :
  rounded x ->
  exists d, 0 <= d <= 18 /\
    to_BigInt (Math_max (of_Z 0) (Math_min x (of_Z 18))) = Some d.
Proof.
  destruct x as [s|s| |s m e]; cbn [rounded]; try easy.
  - intros _. exists 0. split; [lia|]. destruct s; reflexivity.
  - intros _. destruct s; [exists 0|exists 18]; (split; [lia|reflexivity]).
  - destruct s.
    + intros _. exists 0. split; [lia|reflexivity].
    + intros [L|(z & Hz & E)].
      * exists 18. split; [lia|]. rewrite of_Z_18, of_Z_0.
        unfold Math_min. cbn [SFcompare].
        replace (e ?= -48) with Gt
          by (symmetry; apply Z.compare_gt_iff; lia).
        reflexivity.
      * destruct (Z.lt_ge_cases z (2 ^ 53)) as [Lz|Gz].
        -- rewrite E. unfold Math_min.
           rewrite SFcompare_of_Z by lia.
           destruct (Z.compare_spec z 18) as [E18|L18|G18].
           ++ exists 18. split; [lia|]. rewrite <- E. reflexivity.
           ++ exists z. split; [lia|]. unfold Math_max.
              rewrite SFcompare_of_Z by lia.
              replace (0 ?= z) with Lt
                by (symmetry; apply Z.compare_lt_iff; lia).
              apply to_BigInt_of_Z. lia.
           ++ exists 18. split; [lia|reflexivity].
        -- destruct (of_Z_regular z Hz) as [I|(m' & e' & E' & _ & L)].
           ++ rewrite <- E in I. discriminate I.
           ++ rewrite <- E in E'. injection E' as <- <-.
              assert (54 <= Zdigits2 z).
              { destruct (Z.le_gt_cases 54 (Zdigits2 z)) as [|G];
                  [assumption|].
                pose proof (Zdigits2_bounds z Hz) as [_ U].
                assert (2 ^ Zdigits2 z <= 2 ^ 53)
                  by (apply Z.pow_le_mono_r; lia). lia. }
              exists 18. split; [lia|]. rewrite of_Z_18, of_Z_0.
              unfold Math_min. cbn [SFcompare].
              replace (e ?= -48) with Gt
                by (symmetry; apply Z.compare_gt_iff; lia).
              reflexivity.
Qed.

End InferFacts.


(** ** The text [_formatUnits] parses *)

Section FormatFacts.

Import JSString JSBigInt JSNumber.

Lemma all_digits_zeros (j : nat) :
  all_digits (string_of_list_ascii (repeat "0"%char j)) = true.
Proof. induction j as [|j IH]; [reflexivity|]. exact IH. Qed.

Lemma length_zeros (j : nat) :
  String.length (string_of_list_ascii (repeat "0"%char j)) = j.
Proof. induction j as [|j IH]; [reflexivity|]. cbn. now rewrite IH. Qed.

Lemma dec_value_zeros (j : nat) (a : Z) (s : string) :
  dec_value a (string_of_list_ascii (repeat "0"%char j) ++ s)
  = dec_value (a * 10 ^ Z.of_nat j) s.
Proof.
  revert a. induction j as [|j IH]; intros a.
  - cbn [repeat string_of_list_ascii append].
    replace (a * 10 ^ Z.of_nat 0) with a by (cbn; lia). reflexivity.
  - cbn [repeat string_of_list_ascii append dec_value].
    rewrite IH. f_equal. rewrite Nat2Z.inj_succ, Z.pow_succ_r by lia.
    change (Z.of_nat (nat_of_ascii "0") - 48) with 0. lia.
Qed.

(** The padded fractional digits: all digits, of value [F]. *)
Lemma padStart0_decimal (n : nat) (F : Z) :
  0 <= F ->
  let P := padStart0 n (digits F) in
  all_digits P = true /\
  String.length P = Nat.max n (String.length (digits F)) /\
  forall a, dec_value a P = a * 10 ^ Z.of_nat (String.length P) + F.
Proof.
  intros HF P. destruct (digits_spec F HF) as [(A & Ne & V) _].
  unfold P, padStart0.
  set (j := (n - String.length (digits F))%nat).
  assert (L : String.length (string_of_list_ascii (repeat "0"%char j)
                             ++ digits F)
              = Nat.max n (String.length (digits F))).
  { rewrite length_append, length_zeros. unfold j. lia. }
  split; [|split; [exact L|]].
  - now rewrite all_digits_app, all_digits_zeros, A.
  - intros a. rewrite dec_value_zeros, V.
    rewrite length_append, length_zeros, Nat2Z.inj_add, Z.pow_add_r by lia.
    lia.
Qed.

Lemma prefix_Infinity_digit (c : ascii) (s : string) :
  is_digit c = true -> prefix "Infinity" (String c s) = false.
Proof.
  intros H. cbn [prefix].
  destruct (ascii_dec "I" c) as [E|N]; [|reflexivity].
  subst c. discriminate H.
Qed.

(** [parseFloat] of an integer part, a point and fractional digits. *)
Lemma parseFloat_decimal (DI P : string) (I : Z) :
  decimal_text DI I -> all_digits P = true ->
  parseFloat (DI ++ "." ++ P)
  = of_decimal false (dec_value I P) (- Z.of_nat (String.length P)).
Proof.
  intros (A & Ne & V) AP. unfold parseFloat.
  destruct DI as [|c D] eqn:ED; [contradiction|].
  assert (Hc : is_digit c = true).
  { unfold all_digits in A. cbn [list_ascii_of_string forallb] in A.
    now apply andb_prop in A as [A _]. }
  destruct (is_digit_facts c Hc) as (_ & _ & W & Em & Ep & _).
  cbn [append trim_start]. rewrite W. unfold read_sign. rewrite Em, Ep.
  rewrite prefix_Infinity_digit by assumption.
  change (String c (D ++ String "." P))
    with ((String c D) ++ String "." P)%string.
  rewrite read_digits_app by assumption.
  cbn [read_digits]. change (is_digit ".") with false. cbv iota.
  change (Ascii.eqb "." ".") with true. cbv iota.
  rewrite <- (append_empty_r P) at 1.
  rewrite read_digits_app by assumption. cbn [read_digits read_exponent].
  rewrite V. change (0 * 10 ^ Z.of_nat (String.length (String c D)) + I)
    with I.
  cbn [String.length Nat.add]. f_equal; lia.
Qed.

(** The Number [_formatUnits] returns: the decimal literal of [value]
    scaled by [10 ^ -d], with one fractional digit when [d] is zero. *)
Lemma formatUnits_decimal (value d : Z) (decimals : number) :
  0 <= value -> 0 <= d -> to_BigInt decimals = Some d ->
  _formatUnits value decimals
  = Some (if d =? 0 then of_decimal false (10 * value) (-1)
          else of_decimal false value (- d)) /\
  (d = 0 ->
   (to_string (Z.quot value (10 ^ d)) ++ "."
      ++ padStart0 (Z.to_nat d) (to_string (Z.rem value (10 ^ d))))%string
   = (to_string value ++ ".0")%string).
Proof.
  intros Hv Hd E. unfold _formatUnits. rewrite E.
  unfold JSBigInt.pow, JSBigInt.div, JSBigInt.rem.
  replace (d <? 0) with false by (symmetry; apply Z.ltb_ge; lia).
  assert (P10 : 0 < 10 ^ d) by (apply Z.pow_pos_nonneg; lia).
  replace (10 ^ d =? 0) with false by (symmetry; apply Z.eqb_neq; lia).
  rewrite Z.quot_div_nonneg, Z.rem_mod_nonneg by lia.
  set (I := value / 10 ^ d). set (F := value mod 10 ^ d).
  assert (HI : 0 <= I) by (apply Z.div_pos; lia).
  assert (HF : 0 <= F < 10 ^ d) by (apply Z.mod_pos_bound; lia).
  unfold to_string.
  replace (I <? 0) with false by (symmetry; apply Z.ltb_ge; lia).
  replace (F <? 0) with false by (symmetry; apply Z.ltb_ge; lia).
  destruct (digits_spec I HI) as [TI _].
  destruct (digits_spec F (proj1 HF)) as [_ LF].
  destruct (padStart0_decimal (Z.to_nat d) F (proj1 HF)) as (AP & LP & VP).
  split.
  - rewrite (parseFloat_decimal _ _ I TI AP). f_equal.
    rewrite VP, LP.
    destruct (Z.eqb_spec d 0) as [->|N].
    + change (10 ^ 0) with 1 in *.
      assert (F = 0) by lia. subst F.
      assert (EI : I = value) by (unfold I; apply Z.div_1_r).
      rewrite H. change (String.length (digits 0)) with 1%nat.
      cbn [Z.to_nat Nat.max Z.of_nat Pos.of_succ_nat]. rewrite EI.
      f_equal. change (10 ^ 1) with 10. lia.
    + assert (LF' : Z.of_nat (String.length (digits F)) <= d)
        by (apply LF; lia).
      replace (Nat.max (Z.to_nat d) (String.length (digits F)))
        with (Z.to_nat d) by lia.
      rewrite Z2Nat.id by lia.
      pose proof (Z.div_mod value (10 ^ d) ltac:(lia)) as DM.
      f_equal. unfold I, F. lia.
  - intros ->. change (10 ^ 0) with 1 in *.
    assert (F = 0) by lia.
    assert (EI : I = value) by (unfold I; apply Z.div_1_r).
    rewrite H, EI.
    replace (value <? 0) with false by (symmetry; apply Z.ltb_ge; lia).
    reflexivity.
Qed.

End FormatFacts.


(** ** Exactness of [_formatUnits] *)

Section RoundTripFacts.

Import JSNumber.
Local Open Scope R_scope.

(** The Number nearest to a ratio of integers, inside the normal
    range. *)
Lemma round_ratio_error (n den : Z) :
  (0 < n)%Z -> (0 < den)%Z ->
  let g := (Zdigits2 n - Zdigits2 den)%Z in
  (-1021 <= g <= 1022)%Z ->
  exists (m : positive) (e m1 e1 : Z),
    round_ratio false n den = S754_finite false m e /\
    canonical (S754_finite false m e) /\
    IZR (Zpos m) * p2 e = IZR m1 * p2 e1 /\
    Rabs (IZR m1 * p2 e1 - IZR n / IZR den) <= p2 e1 / 2 /\
    p2 (e1 + 52) <= IZR n / IZR den < p2 (e1 + 53) /\
    (e1 <= e <= e1 + 1)%Z /\ (g - 53 <= e1 <= g - 52)%Z.
Proof.
  intros Hn Hd g Hg. unfold round_ratio.
  destruct (SFdiv_core_spec n 0 den 0 Hn Hd)
    as (q & e' & l & E & Pq & L & Dq & G).
  { unfold emin, prec, emax. fold g. lia. }
  rewrite E.
  replace (Zdigits2 n + 0 - (Zdigits2 den + 0))%Z with g in G
    by (unfold g; lia).
  rewrite p2_0, !Rmult_1_r in L.
  destruct (binary_round_aux_error false q e' l _ Pq L Dq)
    as (m & e & m1 & E1 & V & _ & Er & X & C & Ee).
  { unfold emin, prec, emax. lia. }
  exists m, e, m1, (Zdigits2 q + e' - 53)%Z.
  split; [exact E1|]. split; [exact C|]. split; [exact V|].
  split; [exact Er|]. split; [exact X|]. split; lia.
Qed.

(** The product of two canonical positive Numbers, inside the normal
    range. *)
Lemma mul_error (ma mb : positive) (ea eb : Z) :
  canonical (S754_finite false ma ea) ->
  canonical (S754_finite false mb eb) ->
  (-1074 <= ea + eb + 52)%Z -> (ea + eb + 53 <= 970)%Z ->
  exists (m : positive) (e m1 e1 : Z),
    mul (S754_finite false ma ea) (S754_finite false mb eb)
      = S754_finite false m e /\
    IZR (Zpos m) * p2 e = IZR m1 * p2 e1 /\
    Rabs (IZR m1 * p2 e1 - (IZR (Zpos ma) * p2 ea) * (IZR (Zpos mb) * p2 eb))
      <= p2 e1 / 2 /\
    p2 (e1 + 52) <= (IZR (Zpos ma) * p2 ea) * (IZR (Zpos mb) * p2 eb).
Proof.
  intros [Da _] [Db _] Hl Hu. unfold mul. cbn [SFmul xorb].
  pose proof (Zdigits2_bounds (Zpos ma) ltac:(lia)) as [La Ua].
  pose proof (Zdigits2_bounds (Zpos mb) ltac:(lia)) as [Lb Ub].
  rewrite Da in La, Ua. rewrite Db in Lb, Ub.
  change (2 ^ (53 - 1))%Z with (2 ^ 52)%Z in *.
  assert (Pp : (0 < Zpos (ma * mb))%Z) by lia.
  pose proof (Zdigits2_bounds _ Pp) as [Lp Up].
  assert (Lm : (2 ^ 104 <= Zpos (ma * mb))%Z).
  { rewrite Pos2Z.inj_mul. change (2 ^ 104)%Z with (2 ^ 52 * 2 ^ 52)%Z.
    apply Z.mul_le_mono_nonneg; lia. }
  assert (Um : (Zpos (ma * mb) < 2 ^ 106)%Z).
  { rewrite Pos2Z.inj_mul. change (2 ^ 106)%Z with (2 ^ 53 * 2 ^ 53)%Z.
    apply Z.mul_lt_mono_nonneg; lia. }
  assert (Dp : (105 <= Zdigits2 (Zpos (ma * mb)) <= 106)%Z).
  { split.
    - destruct (Z.le_gt_cases 105 (Zdigits2 (Zpos (ma * mb)))) as [|G];
        [assumption|].
      assert (2 ^ Zdigits2 (Zpos (ma * mb)) <= 2 ^ 104)%Z
        by (apply Z.pow_le_mono_r; lia).
      lia.
    - destruct (Z.le_gt_cases (Zdigits2 (Zpos (ma * mb))) 106) as [|G];
        [assumption|].
      assert (2 ^ 106 <= 2 ^ (Zdigits2 (Zpos (ma * mb)) - 1))%Z
        by (apply Z.pow_le_mono_r; lia).
      lia. }
  destruct (binary_round_aux_error false (Zpos (ma * mb)) (ea + eb)
              loc_Exact
              (IZR (Zpos (ma * mb)) * p2 (ea + eb)) Pp eq_refl)
    as (m & e & m1 & E1 & V & _ & Er & X & _).
  { lia. }
  { unfold emin, prec, emax. lia. }
  assert (Ex : IZR (Zpos (ma * mb)) * p2 (ea + eb)
               = (IZR (Zpos ma) * p2 ea) * (IZR (Zpos mb) * p2 eb))
    by (rewrite Pos2Z.inj_mul, mult_IZR, p2_add; ring).
  rewrite Ex in Er, X.
  exists m, e, m1, (Zdigits2 (Zpos (ma * mb)) + (ea + eb) - 53)%Z.
  split; [exact E1|]. split; [exact V|]. split; [exact Er|]. apply X.
Qed.

(** The powers of ten up to [10^18] are binary64 values. *)
Lemma of_Z_pow10 (d : Z) :
  (0 <= d <= 18)%Z ->
  exists (m : positive) (e : Z),
    of_Z (10 ^ d) = S754_finite false m e /\
    canonical (S754_finite false m e) /\
    (-52 <= e <= 7)%Z /\
    IZR (Zpos m) * p2 e = IZR (10 ^ d).
Proof.
  intros H.
  assert (Hc : In d (map Z.of_nat (seq 0 19))).
  { apply in_map_iff. exists (Z.to_nat d). split; [lia|]. apply in_seq. lia. }
  cbn [seq map] in Hc.
  repeat (destruct Hc as [<- | Hc];
          [eexists; eexists; split; [vm_compute; reflexivity|];
           split; [split; [reflexivity|unfold emin, prec, emax; lia]|];
           split; [lia|apply scaled_value; reflexivity]|]).
  destruct Hc.
Qed.

End RoundTripFacts.


Section ExactnessFacts.

Import JSNumber.
Local Open Scope R_scope.

Lemma Zdigits2_le (m k : Z) :
  (0 < m < 2 ^ k)%Z -> (1 <= Zdigits2 m <= k)%Z.
Proof.
  intros [Hm Hk]. pose proof (Zdigits2_bounds m Hm) as [L U]. split.
  - rewrite Zdigits2_log2 by lia. pose proof (Z.log2_nonneg m). lia.
  - destruct (Z.le_gt_cases (Zdigits2 m) k) as [|G]; [assumption|].
    assert (0 <= k)%Z.
    { destruct (Z.le_gt_cases 0 k); [assumption|].
      rewrite Z.pow_neg_r in Hk by lia. lia. }
    assert (2 ^ k <= 2 ^ (Zdigits2 m - 1))%Z
      by (apply Z.pow_le_mono_r; lia). lia.
Qed.

Lemma Zdigits2_ge (m k : Z) :
  (0 <= k)%Z -> (2 ^ k <= m)%Z -> (k + 1 <= Zdigits2 m)%Z.
Proof.
  intros Hk Hm.
  assert (0 < m)%Z by (assert (0 < 2 ^ k)%Z by (apply Z.pow_pos_nonneg; lia); lia).
  pose proof (Zdigits2_bounds m H) as [L U].
  destruct (Z.le_gt_cases (k + 1) (Zdigits2 m)) as [|G]; [assumption|].
  assert (0 <= Zdigits2 m)%Z by apply Zdigits2_nonneg.
  assert (2 ^ Zdigits2 m <= 2 ^ k)%Z by (apply Z.pow_le_mono_r; lia). lia.
Qed.

(** A ratio whose value is an integer below [2^53] rounds to it. *)
Lemma round_ratio_exact (v n den : Z) :
  (0 < v < 2 ^ 53)%Z -> (0 < den)%Z -> (n = v * den)%Z ->
  (-1021 <= Zdigits2 n - Zdigits2 den <= 1022)%Z ->
  to_BigInt (round_ratio false n den) = Some v.
Proof.
  intros Hv Hd En Hg.
  assert (Hn : (0 < n)%Z) by nia.
  destruct (round_ratio_error n den Hn Hd Hg)
    as (m & e & m1 & e1 & -> & _ & V & Er & [Xl Xu] & _ & _).
  assert (Pd : 0 < IZR den) by (apply IZR_lt; lia).
  assert (Ex : IZR n / IZR den = IZR v)
    by (rewrite En, mult_IZR; field; lra).
  rewrite Ex in *.
  assert (He1 : (e1 <= 0)%Z).
  { destruct (Z.le_gt_cases e1 0) as [|G]; [assumption|].
    pose proof (p2_le 53 (e1 + 52) ltac:(lia)) as P.
    rewrite (p2_IZR 53) in P by lia.
    assert (IZR v < IZR (2 ^ 53)) by (apply IZR_lt; lia). lra. }
  set (V' := (v * 2 ^ (- e1))%Z).
  assert (EV : IZR V' * p2 e1 = IZR v).
  { unfold V'. rewrite mult_IZR, <- p2_IZR, Rmult_assoc by lia.
    rewrite Rmult_comm with (r1 := p2 (- e1)), p2_opp. ring. }
  assert (Em : m1 = V').
  { apply IZR_near_eq. pose proof (p2_pos e1) as P.
    rewrite <- EV in Er. apply Rabs_le_between in Er.
    apply Rabs_def1; nra. }
  apply to_BigInt_exact. rewrite V, Em. exact EV.
Qed.

(** The round trip of a ratio [n / den = r / 10^d]: scaling the rounded
    ratio back by [10^d] and rounding to an integer gives [r]. *)
Lemma round_trip_core (n den r d : Z) :
  (0 < r < 2 ^ 51)%Z -> (0 <= d <= 18)%Z ->
  (0 < n)%Z -> (0 < den)%Z -> (n * 10 ^ d = r * den)%Z ->
  (-100 <= Zdigits2 n - Zdigits2 den <= 100)%Z ->
  to_BigInt (reconstruct (round_ratio false n den) d) = Some r.
Proof.
  intros Hr Hd Hn Hden En Hg. unfold reconstruct.
  destruct (round_ratio_error n den Hn Hden ltac:(lia))
    as (m & e & m1 & e1 & -> & Ca & Va & Era & [Xl _] & Ee & Ge).
  destruct (of_Z_pow10 d Hd) as (mb & eb & -> & Cb & Eb & Vb).
  destruct (mul_error m mb e eb Ca Cb ltac:(lia) ltac:(lia))
    as (m' & e' & m1' & e1' & -> & Vy & Ery & Xy).
  apply Math_round_near; [lia|].
  rewrite Vy. rewrite Va, Vb in Ery, Xy.
  assert (PT : 0 < IZR (10 ^ d))
    by (apply IZR_lt, Z.pow_pos_nonneg; lia).
  assert (Pden : 0 < IZR den) by (apply IZR_lt; lia).
  set (T := IZR (10 ^ d)) in *. set (X := IZR n / IZR den) in *.
  set (A := IZR m1 * p2 e1) in *. set (Y := IZR m1' * p2 e1') in *.
  assert (XT : X * T = IZR r).
  { unfold X, T. apply (f_equal IZR) in En. rewrite !mult_IZR in En.
    field_simplify_eq; [|lra]. lra. }
  assert (R1 : 1 <= IZR r) by (apply IZR_le; lia).
  assert (R2 : IZR r <= 2251799813685247) by (apply IZR_le; lia).
  assert (Ua : p2 e1 / 2 <= X * / 9007199254740992).
  { rewrite p2_add, (p2_IZR 52) in Xl by lia.
    change (2 ^ 52)%Z with 4503599627370496%Z in Xl.
    pose proof (p2_pos e1). lra. }
  assert (Uy : p2 e1' / 2 <= A * T * / 9007199254740992).
  { rewrite p2_add, (p2_IZR 52) in Xy by lia.
    change (2 ^ 52)%Z with 4503599627370496%Z in Xy.
    pose proof (p2_pos e1'). lra. }
  apply Rabs_le_between in Era. apply Rabs_le_between in Ery.
  assert (F1 : - (IZR r * / 9007199254740992) <= A * T - IZR r
               <= IZR r * / 9007199254740992).
  { rewrite <- XT. split; nra. }
  apply Rabs_def1; lra.
Qed.

End ExactnessFacts.

(** C9, as the code has it. [_formatUnits] never fails on a non-negative
    integer and decimals from 0 to 18. With zero decimals the text parsed
    is the integer followed by ".0", and the Number produced is the input
    integer whenever that is below [2^53]. *)
Theorem formatUnits_total_zero_decimals (value d : Z) :
  0 <= value -> 0 <= d <= 18 ->
  exists amount,
    _formatUnits value (JSNumber.of_Z d) = Some amount /\
    (d = 0 ->
     amount = JSNumber.parseFloat (JSBigInt.to_string value ++ ".0") /\
     (value < 2 ^ 53 -> JSNumber.to_BigInt amount = Some value)).
Proof.
  intros Hv Hd.
  assert (Ed : JSNumber.to_BigInt (JSNumber.of_Z d) = Some d)
    by (apply to_BigInt_of_Z; lia).
  destruct (formatUnits_decimal value d _ Hv (proj1 Hd) Ed) as [E _].
  eexists. split; [exact E|].
  intros ->. cbn [Z.eqb]. split.
  - unfold JSBigInt.to_string.
    replace (value <? 0) with false by (symmetry; apply Z.ltb_ge; lia).
    destruct (digits_spec value Hv) as [T _].
    change (JSBigInt.digits value ++ ".0")%string
      with (JSBigInt.digits value ++ "." ++ "0")%string.
    rewrite (parseFloat_decimal (JSBigInt.digits value) "0" value T eq_refl).
    cbn [dec_value String.length]. f_equal. cbn. lia.
  - intros Hlt. unfold JSNumber.of_decimal.
    destruct (Z.eqb_spec (10 * value) 0) as [E0|N0].
    + cbn. f_equal. lia.
    + cbn [Z.leb Z.compare Z.opp].
      apply round_ratio_exact; [lia|reflexivity|change (10 ^ 1) with 10; lia|].
      change (10 ^ 1) with 10. change (Zdigits2 10) with 4.
      assert (1 <= Zdigits2 (10 * value) <= 57)%Z
        by (apply Zdigits2_le; change (2 ^ 57) with (16 * 2 ^ 53); lia).
      lia.
Qed.

(** C4, as the code has it. For a non-negative integer below [2^51] and
    decimals from 0 to 18, the decimal value of [_formatUnits], scaled
    back by [10^d] and rounded, is the integer again. *)
Theorem formatUnits_round_trip (r d : Z) :
  0 <= r < 2 ^ 51 -> 0 <= d <= 18 ->
  exists decimal,
    _formatUnits r (JSNumber.of_Z d) = Some decimal /\
    JSNumber.to_BigInt (reconstruct decimal d) = Some r.
Proof.
  intros Hr Hd.
  assert (Ed : JSNumber.to_BigInt (JSNumber.of_Z d) = Some d)
    by (apply to_BigInt_of_Z; lia).
  destruct (formatUnits_decimal r d _ (proj1 Hr) (proj1 Hd) Ed) as [E _].
  eexists. split; [exact E|].
  destruct (Z.eq_dec r 0) as [->|Nr].
  - destruct (of_Z_pow10 d Hd) as (mb & eb & Eb & _).
    unfold reconstruct. rewrite Eb. destruct (d =? 0); reflexivity.
  - assert (P10 : 0 < 10 ^ d) by (apply Z.pow_pos_nonneg; lia).
    assert (Dr : (1 <= Zdigits2 r <= 51)%Z) by (apply Zdigits2_le; lia).
    destruct (Z.eqb_spec d 0) as [->|Nd].
    + unfold JSNumber.of_decimal.
      replace (10 * r =? 0) with false by (symmetry; apply Z.eqb_neq; lia).
      cbn [Z.leb Z.compare Z.opp]. change (10 ^ 1) with 10.
      apply round_trip_core; try lia.
      change (Zdigits2 10) with 4.
      assert (1 <= Zdigits2 (10 * r) <= 55)%Z
        by (apply Zdigits2_le; change (2 ^ 55) with (16 * 2 ^ 51); lia).
      lia.
    + unfold JSNumber.of_decimal.
      replace (r =? 0) with false by (symmetry; apply Z.eqb_neq; lia).
      replace (0 <=? - d) with false by (symmetry; apply Z.leb_gt; lia).
      rewrite Z.opp_involutive.
      apply round_trip_core; try lia.
      assert (1 <= Zdigits2 (10 ^ d) <= 60)%Z.
      { apply Zdigits2_le. split; [lia|].
        assert (10 ^ d <= 10 ^ 18) by (apply Z.pow_le_mono_r; lia).
        assert (10 ^ 18 < 2 ^ 60) by reflexivity. lia. }
      lia.
Qed.


(** ** The statements on the sample data *)

Lemma decodeEvent_rows_witness :
  match decodeEvent (Sample.entry 6 1500000000000000000 (-250000000) "0x64")
          Sample.info Sample.prices with
  | None => False
  | Some d =>
      _nftId d = 6 /\
      map kind_of (rows d) = [Some Deposit; Some Repayment]
  end.
Proof.
  pose proof (decodeEvent_rows
                (Word256.of_Z 0) (Word256.of_Z 6)
                (Word256.of_Z 1500000000000000000)
                (Word256.of_Z (-250000000)) (Word256.of_Z 0)
                "0x64" "0xfeed" Sample.info Sample.prices
                eq_refl eq_refl eq_refl eq_refl eq_refl) as H.
  assert (Hs : valid_decimals (supplyDecimals Sample.info))
    by (exists 18; split; [vm_compute; reflexivity|lia]).
  assert (Hb : valid_decimals (borrowDecimals Sample.info))
    by (exists 6; split; [vm_compute; reflexivity|lia]).
  specialize (H Hs Hb). cbv zeta in H.
  change (decodeEvent _ Sample.info Sample.prices)
    with (decodeEvent
            (Sample.entry 6 1500000000000000000 (-250000000) "0x64")
            Sample.info Sample.prices) in H.
  destruct (decodeEvent _ Sample.info Sample.prices) as [d|].
  - destruct H as (Hn & Hk & _). split.
    + rewrite Hn. vm_compute. reflexivity.
    + rewrite Hk. vm_compute. reflexivity.
  - destruct H as [H _]. vm_compute in H. discriminate H.
Defined.


(** A response with a status that is not a success, after a full first
    page: the call throws, and the page is not returned. *)
Lemma fetchVaultEvents_http_error_drops_pages :
  exists r,
    fetchVaultEvents Sample.scripted 5 Sample.vault
      [Sample.page 1000; Sample.http_failure] [] = Some r /\
    run_result r = Thrown /\
    forall logs, run_result r <> Returned logs.
Proof.
  eexists. split; [vm_compute; reflexivity|].
  split; [reflexivity|]. intros logs. discriminate.
Qed.

Lemma fetchVaultEvents_abort_witness :
  fetchVaultEvents Sample.scripted 5 Sample.vault
    [Sample.page 1000; Sample.api_failure] []
  = Some {| run_result := Returned (repeat Sample.blank 1000 ++ []);
            run_source := [];
            run_requests := [page_request Sample.vault 2;
                             page_request Sample.vault 1] |}.
Proof.
  assert (Hc : collects Sample.scripted Sample.vault
                 [Sample.page 1000; Sample.api_failure] 1
                 [page_request Sample.vault 1]
                 [repeat Sample.blank 1000] [Sample.api_failure]).
  { apply (collects_page Sample.scripted Sample.vault
             [Sample.page 1000; Sample.api_failure]
             [Sample.api_failure] [Sample.api_failure] 1 200
             {| status := "1"; message := "OK";
                result := RLogs (repeat Sample.blank 1000) |} [] []).
    - reflexivity.
    - reflexivity.
    - apply Nat.leb_le. reflexivity.
    - apply collects_done. }
  assert (Hfuel : (List.length [page_request Sample.vault 1] < 5)%nat)
    by (apply Nat.ltb_lt; reflexivity).
  exact (fetchVaultEvents_abort
           Sample.scripted Sample.vault
           [Sample.page 1000; Sample.api_failure] [Sample.api_failure] []
           [page_request Sample.vault 1] []
           [repeat Sample.blank 1000] Sample.api_failure AbortReturn 5
           Hc eq_refl eq_refl Hfuel).
Defined.

Lemma ledger_only_owned_positions_witness :
  exists ledger,
    fetchForPositions Sample.scripted Sample.log10 5 [Sample.pos]
      Sample.prices [Sample.events_page]
    = Some {| run_result := Returned ledger;
              run_source := [];
              run_requests := [page_request Sample.vault 1] |} /\
    List.length ledger = 3%nat /\
    exists vaultMap,
      map (fun e => nftIds (snd e)) vaultMap = [[6]] /\
      Forall (derived_from_owned_log Sample.scripted 5 vaultMap Sample.prices)
        ledger.
Proof.
  destruct (fetchForPositions Sample.scripted Sample.log10 5 [Sample.pos]
              Sample.prices [Sample.events_page]) as [r|] eqn:Ef;
    [|vm_compute in Ef; discriminate Ef].
  destruct (run_result r) as [ledger|] eqn:Er;
    [|vm_compute in Ef; injection Ef as <-; discriminate Er].
  destruct (ledger_only_owned_positions Sample.scripted Sample.log10 5
              [Sample.pos] Sample.prices [Sample.events_page] r ledger
              Ef Er) as (vaultMap & Hg & _ & Hd & _).
  exists ledger.
  vm_compute in Ef. injection Ef as <-. cbn in Er. injection Er as <-.
  split; [reflexivity|]. split; [reflexivity|].
  exists vaultMap. split; [|exact Hd].
  vm_compute in Hg. injection Hg as <-. reflexivity.
Defined.


Lemma sample_log10_defined (x : JSNumber.number) :
  has_sign false x -> Sample.log10 x <> S754_nan.
Proof.
  destruct x as [s|s| |s m e]; cbn [has_sign Sample.log10];
    intros H; try contradiction; subst; try discriminate.
  apply of_Z_not_nan.
Qed.

(** An integer below [2^53], so a binary64 value itself, that the round
    trip through one decimal does not give back. *)
Lemma formatUnits_round_trip_fails_above_2_51 :
  5635742175016537 < 2 ^ 53 /\
  JSNumber.to_BigInt (JSNumber.of_Z 5635742175016537)
    = Some 5635742175016537 /\
  exists decimal,
    _formatUnits 5635742175016537 (JSNumber.of_Z 1) = Some decimal /\
    decimal = JSNumber.parseFloat "563574217501653.7" /\
    JSNumber.to_BigInt (reconstruct decimal 1) = Some 5635742175016538.
Proof.
  split; [reflexivity|]. split; [vm_compute; reflexivity|].
  eexists. split; [vm_compute; reflexivity|].
  split; vm_compute; reflexivity.
Qed.

Lemma formatUnits_round_trip_witness :
  exists decimal,
    _formatUnits 1234500 (JSNumber.of_Z 6) = Some decimal /\
    JSNumber.to_BigInt (reconstruct decimal 6) = Some 1234500.
Proof.
  apply (formatUnits_round_trip 1234500 6); split; try lia; reflexivity.
Defined.

(** With zero decimals the integer [2^53 + 1] comes out as [2^53]. *)
Lemma formatUnits_zero_decimals_not_exact :
  exists amount,
    _formatUnits 9007199254740993 (JSNumber.of_Z 0) = Some amount /\
    amount = JSNumber.parseFloat "9007199254740993.0" /\
    JSNumber.to_BigInt amount = Some 9007199254740992 /\
    JSNumber.to_BigInt amount <> Some 9007199254740993.
Proof.
  eexists. split; [vm_compute; reflexivity|].
  split; [vm_compute; reflexivity|].
  split; [vm_compute; reflexivity|].
  vm_compute. discriminate.
Qed.

Lemma formatUnits_total_zero_decimals_witness :
  exists amount,
    _formatUnits 1500 (JSNumber.of_Z 0) = Some amount /\
    JSNumber.to_BigInt amount = Some 1500.
Proof.
  destruct (formatUnits_total_zero_decimals 1500 0) as (amount & E & H);
    [lia|lia|].
  exists amount. split; [exact E|].
  apply (proj2 (H eq_refl)). reflexivity.
Defined.


(** * Further properties *)

(** ** What [decodeEvent] reads *)

Section SliceFacts.

Import JSString.

Lemma drop_drop (a b : nat) (s : string) :
  drop a (drop b s) = drop (b + a) s.
Proof.
  revert s. induction b as [|b IH]; intros s; [reflexivity|].
  destruct s as [|c s]; [destruct a; reflexivity|]. cbn. apply IH.
Qed.

Lemma drop_app_le (n : nat) (a b : string) :
  (n <= String.length a)%nat -> drop n (a ++ b) = (drop n a ++ b)%string.
Proof.
  revert a. induction n as [|n IH]; intros a H; [reflexivity|].
  destruct a as [|c a]; [cbn in H; lia|]. cbn. apply IH. cbn in H. lia.
Qed.

Lemma take_app_le (n : nat) (a b : string) :
  (n <= String.length a)%nat -> take n (a ++ b) = take n a.
Proof.
  revert a. induction n as [|n IH]; intros a H; [reflexivity|].
  destruct a as [|c a]; [cbn in H; lia|]. cbn. f_equal. apply IH.
  cbn in H. lia.
Qed.

Lemma length_drop (n : nat) (s : string) :
  String.length (drop n s) = (String.length s - n)%nat.
Proof.
  revert s. induction n as [|n IH]; intros s; [cbn; lia|].
  destruct s as [|c s]; [reflexivity|]. cbn. apply IH.
Qed.




(** The words [decodeEvent] parses, cut out of the payload. *)
Lemma word_of_data (k : nat) (data : string) :
  slice (k * 64) ((k + 1) * 64) (drop 2 data)
  = take 64 (drop (2 + k * 64) data).
Proof.
  unfold slice. rewrite drop_drop. f_equal. lia.
Qed.

End SliceFacts.

Section DecodeWords.

Import JSString.

Lemma words_of_mid (head mid tail : string) :
  String.length head = 66%nat -> String.length mid = 192%nat ->
  take 64 (drop (2 + 1 * 64) (head ++ mid ++ tail)) = take 64 mid /\
  take 64 (drop (2 + 2 * 64) (head ++ mid ++ tail)) = take 64 (drop 64 mid) /\
  take 64 (drop (2 + 3 * 64) (head ++ mid ++ tail)) = take 64 (drop 128 mid).
Proof.
  intros Hh Hm.
  change (2 + 1 * 64)%nat with (66 + 0)%nat.
  change (2 + 2 * 64)%nat with (66 + 64)%nat.
  change (2 + 3 * 64)%nat with (66 + 128)%nat.
  rewrite !(drop_app_len head _ 66) by assumption.
  change (drop 0 (mid ++ tail)) with (mid ++ tail)%string.
  rewrite !drop_app_le by lia.
  rewrite !take_app_le by (rewrite ?length_drop; lia).
  repeat split.
Qed.

End DecodeWords.

(** X1. [decodeEvent] reads the characters 66 to 257 of the [data] field
    only, the words of the NFT id and of the two deltas: the two
    characters of the prefix, the word of the user, the word of the
    recipient and whatever follows them do not change its result. *)
Theorem decodeEvent_reads_three_words
    (head head' mid tail tail' ts hash : string)
    (vaultInfo : vault_info) (prices : price_map) :
  String.length head = 66%nat -> String.length head' = 66%nat ->
  String.length mid = 192%nat ->
  (64 <= String.length tail)%nat -> (64 <= String.length tail')%nat ->
  decodeEvent {| log_data := head ++ mid ++ tail;
                 log_timeStamp := ts; log_transactionHash := hash |}
    vaultInfo prices
  = decodeEvent {| log_data := head' ++ mid ++ tail';
                   log_timeStamp := ts; log_transactionHash := hash |}
      vaultInfo prices.
Proof.
  intros Hh Hh' Hm Ht Ht'. unfold decodeEvent.
  cbn [log_data log_timeStamp log_transactionHash].
  rewrite !length_append, Hh, Hh', Hm.
  replace (66 + (192 + String.length tail) <? 2 + 64 * 5)%nat with false
    by (symmetry; apply Nat.ltb_ge; lia).
  replace (66 + (192 + String.length tail') <? 2 + 64 * 5)%nat with false
    by (symmetry; apply Nat.ltb_ge; lia).
  rewrite !word_of_data.
  destruct (words_of_mid head mid tail Hh Hm) as (-> & -> & ->).
  destruct (words_of_mid head' mid tail' Hh' Hm) as (-> & -> & ->).
  reflexivity.
Qed.

Lemma decodeEvent_reads_three_words_witness :
  decodeEvent (Sample.entry 6 1500000000000000000 0 "0x64")
    Sample.info Sample.prices
  = decodeEvent
      {| log_data :=
           JSString.take 66 (log_data (Sample.entry 9 0 0 "0x64"))
           ++ JSString.slice 66 258
                (log_data (Sample.entry 6 1500000000000000000 0 "0x64"))
           ++ JSString.drop 258 (log_data (Sample.entry 9 0 0 "0x64"))
           ++ "trailing text";
         log_timeStamp := "0x64"; log_transactionHash := "0xfeed" |}
      Sample.info Sample.prices.
Proof.
  apply (decodeEvent_reads_three_words
           (JSString.take 66
              (log_data (Sample.entry 6 1500000000000000000 0 "0x64")))
           (JSString.take 66 (log_data (Sample.entry 9 0 0 "0x64")))
           (JSString.slice 66 258
              (log_data (Sample.entry 6 1500000000000000000 0 "0x64")))
           (JSString.drop 258
              (log_data (Sample.entry 6 1500000000000000000 0 "0x64")))
           (JSString.drop 258 (log_data (Sample.entry 9 0 0 "0x64"))
            ++ "trailing text")
           "0x64" "0xfeed" Sample.info Sample.prices);
    try (vm_compute; reflexivity); apply Nat.leb_le; vm_compute; reflexivity.
Defined.

Section RejectFacts.

Import JSString JSBigInt.




End RejectFacts.




(** ** Exact arithmetic on integers below [2^53] *)

Section ExactIntegers.

Import JSNumber.
Local Open Scope R_scope.

Lemma canonical_mantissa (s : bool) (m : positive) (e : Z) :
  canonical (S754_finite s m e) ->
  IZR (2 ^ 52) <= IZR (Zpos m) < IZR (2 ^ 53).
Proof.
  intros [D _].
  pose proof (Zdigits2_bounds (Zpos m) ltac:(lia)) as [L U].
  rewrite D in L, U. split; [apply IZR_le|apply IZR_lt]; assumption.
Qed.

Lemma canonical_exponent_le (s s' : bool) (m m' : positive) (e e' : Z) :
  canonical (S754_finite s m e) -> canonical (S754_finite s' m' e') ->
  IZR (Zpos m) * p2 e = IZR (Zpos m') * p2 e' -> (e' <= e)%Z.
Proof.
  intros C C' V.
  destruct (Z.le_gt_cases e' e) as [|G]; [assumption|exfalso].
  pose proof (canonical_mantissa _ _ _ C) as [_ U].
  pose proof (canonical_mantissa _ _ _ C') as [L' _].
  replace e' with (e + (e' - e))%Z in V by lia.
  rewrite p2_add in V.
  pose proof (p2_le 1 (e' - e) ltac:(lia)) as P.
  rewrite (p2_IZR 1) in P by lia. change (IZR (2 ^ 1)) with 2 in P.
  pose proof (p2_pos e) as Pe.
  assert (E : IZR (Zpos m) = IZR (Zpos m') * p2 (e' - e)) by nra.
  change (2 ^ 53)%Z with (2 * 2 ^ 52)%Z in U. rewrite mult_IZR in U.
  assert (0 < IZR (2 ^ 52)) by (apply IZR_lt; reflexivity).
  nra.
Qed.

(** A value has one canonical form. *)
Lemma canonical_unique (s : bool) (m m' : positive) (e e' : Z) :
  canonical (S754_finite s m e) -> canonical (S754_finite s m' e') ->
  IZR (Zpos m) * p2 e = IZR (Zpos m') * p2 e' ->
  S754_finite s m e = S754_finite s m' e'.
Proof.
  intros C C' V.
  pose proof (canonical_exponent_le _ _ _ _ _ _ C C' V).
  pose proof (canonical_exponent_le _ _ _ _ _ _ C' C (eq_sym V)).
  assert (e = e') by lia. subst e'.
  pose proof (p2_pos e).
  assert (E : IZR (Zpos m) = IZR (Zpos m')) by nra.
  apply eq_IZR in E. injection E as ->. reflexivity.
Qed.

(** The canonical form of an integer below [2^53]. *)
Lemma of_Z_value (z : Z) :
  (0 < z < 2 ^ 53)%Z ->
  exists m e, of_Z z = S754_finite false m e /\
              canonical (S754_finite false m e) /\
              (-52 <= e <= 0)%Z /\
              IZR (Zpos m) * p2 e = IZR z.
Proof.
  intros Hz. destruct (of_Z_canonical z Hz) as (m & E & Em & Dm).
  assert (D : (1 <= Zdigits2 z <= 53)%Z) by (apply Zdigits2_le; lia).
  exists m, (Zdigits2 z - 53)%Z. split; [exact E|].
  split; [split; [exact Dm|unfold emin, prec, emax; lia]|].
  split; [lia|].
  apply scaled_value. rewrite Em.
  replace (Z.max 0 (Zdigits2 z - 53)) with 0%Z by lia.
  replace (Z.max 0 (- (Zdigits2 z - 53))) with (53 - Zdigits2 z)%Z by lia.
  rewrite Z.pow_0_r. lia.
Qed.

(** Rounding a mantissa whose value is an integer below [2^53]. *)
Lemma binary_round_aux_int (mx ex v : Z) :
  (0 < mx)%Z -> (53 <= Zdigits2 mx)%Z ->
  IZR mx * p2 ex = IZR v -> (0 < v < 2 ^ 53)%Z ->
  binary_round_aux prec emax false mx ex loc_Exact = of_Z v.
Proof.
  intros Hm Hd V Hv.
  pose proof (Zdigits2_bounds mx Hm) as [Dl Du].
  set (d := Zdigits2 mx) in *.
  assert (Bl : p2 (d - 1 + ex) <= IZR v).
  { rewrite <- V, p2_add, (p2_IZR (d - 1)) by lia.
    apply Rmult_le_compat_r; [left; apply p2_pos|apply IZR_le; exact Dl]. }
  assert (Bu : IZR v < p2 (d + ex)).
  { rewrite <- V, p2_add, (p2_IZR d) by lia.
    apply Rmult_lt_compat_r; [apply p2_pos|apply IZR_lt; exact Du]. }
  assert (V1 : 1 <= IZR v) by (apply IZR_le; lia).
  assert (V2 : IZR v < p2 53)
    by (rewrite (p2_IZR 53) by lia; apply IZR_lt; lia).
  assert (G1 : (1 <= d + ex)%Z).
  { destruct (Z.le_gt_cases 1 (d + ex)) as [|G]; [assumption|exfalso].
    pose proof (p2_le (d + ex) 0 ltac:(lia)) as P. rewrite p2_0 in P. lra. }
  assert (G2 : (d + ex <= 53)%Z).
  { destruct (Z.le_gt_cases (d + ex) 53) as [|G]; [assumption|exfalso].
    pose proof (p2_le 53 (d - 1 + ex) ltac:(lia)) as P. lra. }
  destruct (binary_round_aux_error false mx ex loc_Exact (IZR v) Hm)
    as (m & e & m1 & E & Vm & _ & Er & _ & C & _).
  { cbn [located]. symmetry. exact V. }
  { exact Hd. }
  { fold d. unfold emin, prec, emax. lia. }
  fold d in Vm, Er. set (e1 := (d + ex - 53)%Z) in *.
  assert (He1 : (e1 <= 0)%Z) by (unfold e1; lia).
  set (V' := (v * 2 ^ (- e1))%Z).
  assert (EV : IZR V' * p2 e1 = IZR v).
  { unfold V'. rewrite mult_IZR, <- p2_IZR, Rmult_assoc by lia.
    rewrite Rmult_comm with (r1 := p2 (- e1)), p2_opp. ring. }
  assert (Em : m1 = V').
  { apply IZR_near_eq. pose proof (p2_pos e1) as P.
    rewrite <- EV in Er. apply Rabs_le_between in Er.
    apply Rabs_def1; nra. }
  rewrite E.
  destruct (of_Z_value v Hv) as (m0 & e0 & -> & C0 & _ & V0).
  apply canonical_unique; try assumption.
  rewrite Vm, Em, EV, V0. reflexivity.
Qed.

(** The product of two integers, when it is below [2^53]. *)
Lemma mul_of_Z (a b : Z) :
  (0 <= a < 2 ^ 53)%Z -> (0 <= b < 2 ^ 53)%Z -> (a * b < 2 ^ 53)%Z ->
  mul (of_Z a) (of_Z b) = of_Z (a * b).
Proof.
  intros Ha Hb Hab.
  destruct (Z.eq_dec a 0) as [->|Na].
  { rewrite of_Z_0. destruct (Z.eq_dec b 0) as [->|Nb]; [reflexivity|].
    destruct (of_Z_value b) as (m & e & -> & _); [lia|]. reflexivity. }
  destruct (Z.eq_dec b 0) as [->|Nb].
  { rewrite Z.mul_0_r, of_Z_0.
    destruct (of_Z_value a) as (m & e & -> & _); [lia|]. reflexivity. }
  assert (A : (0 < a < 2 ^ 53)%Z) by lia.
  assert (B : (0 < b < 2 ^ 53)%Z) by lia.
  destruct (of_Z_value a A) as (ma & ea & -> & Ca & Ea & Va).
  destruct (of_Z_value b B) as (mb & eb & -> & Cb & Eb & Vb).
  unfold mul. cbn [SFmul xorb].
  apply binary_round_aux_int; [lia| | |nia].
  - pose proof (canonical_mantissa _ _ _ Ca) as [La _].
    pose proof (canonical_mantissa _ _ _ Cb) as [Lb _].
    apply le_IZR in La, Lb.
    assert (2 ^ 104 <= Zpos (ma * mb))%Z.
    { rewrite Pos2Z.inj_mul. change (2 ^ 104)%Z with (2 ^ 52 * 2 ^ 52)%Z.
      apply Z.mul_le_mono_nonneg; lia. }
    pose proof (Zdigits2_ge (Zpos (ma * mb)) 104 ltac:(lia) H). lia.
  - rewrite Pos2Z.inj_mul, !mult_IZR, p2_add, <- Va, <- Vb. ring.
Qed.

Lemma Zdigits2_shift (m k : Z) :
  (0 < m)%Z -> (0 <= k)%Z -> Zdigits2 (m * 2 ^ k) = (Zdigits2 m + k)%Z.
Proof.
  intros Hm Hk. pose proof (Zdigits2_bounds m Hm) as [L U].
  assert (D : (1 <= Zdigits2 m)%Z)
    by (rewrite Zdigits2_log2 by lia; pose proof (Z.log2_nonneg m); lia).
  assert (P : (0 < 2 ^ k)%Z) by (apply Z.pow_pos_nonneg; lia).
  apply Zdigits2_unique; [nia|].
  replace (Zdigits2 m + k - 1)%Z with (Zdigits2 m - 1 + k)%Z by lia.
  rewrite !Z.pow_add_r by lia. nia.
Qed.

(** Normalizing a mantissa whose value is an integer below [2^53]. *)
Lemma binary_normalize_int (M ez v : Z) :
  (0 <= M)%Z -> IZR M * p2 ez = IZR v -> (0 <= v < 2 ^ 53)%Z ->
  binary_normalize prec emax M ez false = of_Z v.
Proof.
  intros HM V Hv.
  destruct M as [|M|M]; [| |lia].
  { rewrite Rmult_0_l in V. apply eq_IZR in V. subst v. reflexivity. }
  assert (Pv : (0 < v)%Z).
  { apply lt_IZR. rewrite <- V. apply Rmult_lt_0_compat;
      [apply IZR_lt; lia|apply p2_pos]. }
  cbn [binary_normalize]. unfold binary_round.
  pose proof (shl_align_spec M ez
                (fexp prec emax (Zpos (digits2_pos M) + ez))) as S.
  destruct (shl_align _ _ _) as [mz ez']. destruct S as [Ez Em].
  change (Zpos (digits2_pos M)) with (Zdigits2 (Zpos M)) in Ez.
  set (d := Zdigits2 (Zpos M)) in *.
  pose proof (Zdigits2_bounds (Zpos M) ltac:(lia)) as [Dl Du]. fold d in Dl, Du.
  assert (D1 : (1 <= d)%Z)
    by (unfold d; rewrite Zdigits2_log2 by lia;
        pose proof (Z.log2_nonneg (Zpos M)); lia).
  assert (Bl : p2 (d - 1 + ez) <= IZR v).
  { rewrite <- V, p2_add, (p2_IZR (d - 1)) by lia.
    apply Rmult_le_compat_r; [left; apply p2_pos|apply IZR_le; exact Dl]. }
  assert (Bu : IZR v < p2 (d + ez)).
  { rewrite <- V, p2_add, (p2_IZR d) by lia.
    apply Rmult_lt_compat_r; [apply p2_pos|apply IZR_lt; exact Du]. }
  assert (V1 : 1 <= IZR v) by (apply IZR_le; lia).
  assert (V2 : IZR v < p2 53)
    by (rewrite (p2_IZR 53) by lia; apply IZR_lt; lia).
  assert (G1 : (1 <= d + ez)%Z).
  { destruct (Z.le_gt_cases 1 (d + ez)) as [|G]; [assumption|exfalso].
    pose proof (p2_le (d + ez) 0 ltac:(lia)) as P. rewrite p2_0 in P. lra. }
  assert (G2 : (d + ez <= 53)%Z).
  { destruct (Z.le_gt_cases (d + ez) 53) as [|G]; [assumption|exfalso].
    pose proof (p2_le 53 (d - 1 + ez) ltac:(lia)) as P. lra. }
  assert (F : fexp prec emax (d + ez) = (d + ez - 53)%Z)
    by (unfold fexp, emin, prec, emax; lia).
  rewrite F in Ez.
  assert (K : (0 <= ez - ez')%Z) by lia.
  apply binary_round_aux_int; [lia| | |lia].
  - rewrite Em, Zdigits2_shift by lia. fold d. lia.
  - rewrite Em, mult_IZR, <- (p2_IZR (ez - ez')), Rmult_assoc, <- p2_add
      by lia.
    replace (ez - ez' + ez')%Z with ez by lia. exact V.
Qed.

(** Sums and differences of integers below [2^53]. *)
Lemma add_of_Z (a b : Z) :
  (0 <= a)%Z -> (0 <= b)%Z -> (a + b < 2 ^ 53)%Z ->
  JSArith.add (of_Z a) (of_Z b) = of_Z (a + b).
Proof.
  intros Ha Hb Hab. unfold JSArith.add.
  destruct (Z.eq_dec a 0) as [->|Na].
  { rewrite of_Z_0. destruct (Z.eq_dec b 0) as [->|Nb]; [reflexivity|].
    destruct (of_Z_value b) as (m & e & E & _); [lia|].
    cbn [Z.add]. rewrite E. reflexivity. }
  destruct (Z.eq_dec b 0) as [->|Nb].
  { rewrite Z.add_0_r, of_Z_0.
    destruct (of_Z_value a) as (m & e & -> & _); [lia|]. reflexivity. }
  destruct (of_Z_value a ltac:(lia)) as (ma & ea & -> & _ & _ & Va).
  destruct (of_Z_value b ltac:(lia)) as (mb & eb & -> & _ & _ & Vb).
  cbn [SFadd cond_Zopp].
  pose proof (shl_align_spec ma ea (Z.min ea eb)) as Sa.
  pose proof (shl_align_spec mb eb (Z.min ea eb)) as Sb.
  destruct (shl_align ma ea (Z.min ea eb)) as [ma' ea'].
  destruct (shl_align mb eb (Z.min ea eb)) as [mb' eb'].
  destruct Sa as [Ea Ma]. destruct Sb as [Eb Mb]. cbn [fst].
  apply binary_normalize_int; [lia| |lia].
  rewrite plus_IZR, Ma, Mb, !mult_IZR, <- !p2_IZR by lia.
  rewrite Rmult_plus_distr_r, !Rmult_assoc, <- !p2_add.
  replace (ea - ea' + Z.min ea eb)%Z with ea by lia.
  replace (eb - eb' + Z.min ea eb)%Z with eb by lia.
  rewrite Va, Vb. now rewrite plus_IZR.
Qed.

Lemma sub_of_Z (a b : Z) :
  (0 <= b <= a)%Z -> (a < 2 ^ 53)%Z ->
  sub (of_Z a) (of_Z b) = of_Z (a - b).
Proof.
  intros Hb Ha. unfold sub.
  destruct (Z.eq_dec b 0) as [->|Nb].
  { rewrite Z.sub_0_r, of_Z_0. destruct (Z.eq_dec a 0) as [->|Na];
      [reflexivity|].
    destruct (of_Z_value a) as (m & e & -> & _); [lia|]. reflexivity. }
  destruct (of_Z_value a ltac:(lia)) as (ma & ea & -> & _ & _ & Va).
  destruct (of_Z_value b ltac:(lia)) as (mb & eb & -> & _ & _ & Vb).
  cbn [SFsub cond_Zopp].
  pose proof (shl_align_spec ma ea (Z.min ea eb)) as Sa.
  pose proof (shl_align_spec mb eb (Z.min ea eb)) as Sb.
  destruct (shl_align ma ea (Z.min ea eb)) as [ma' ea'].
  destruct (shl_align mb eb (Z.min ea eb)) as [mb' eb'].
  destruct Sa as [Ea Ma]. destruct Sb as [Eb Mb]. cbn [fst].
  assert (V : IZR (Zpos ma' - Zpos mb') * p2 (Z.min ea eb) = IZR (a - b)).
  { rewrite !minus_IZR, Ma, Mb, !mult_IZR, <- !p2_IZR by lia.
    rewrite Rmult_minus_distr_r, !Rmult_assoc, <- !p2_add.
    replace (ea - ea' + Z.min ea eb)%Z with ea by lia.
    replace (eb - eb' + Z.min ea eb)%Z with eb by lia.
    rewrite Va, Vb. reflexivity. }
  apply binary_normalize_int; [|exact V|lia].
  apply le_IZR. pose proof (p2_pos (Z.min ea eb)).
  assert (0 <= IZR (a - b)) by (apply IZR_le; lia). nra.
Qed.

Lemma gtb_of_Z (a b : Z) :
  (0 <= a < 2 ^ 53)%Z -> (0 <= b < 2 ^ 53)%Z ->
  JSArith.gtb (of_Z a) (of_Z b) = (b <? a)%Z.
Proof.
  intros Ha Hb. unfold JSArith.gtb, ltb, SFltb.
  rewrite SFcompare_of_Z by assumption.
  destruct (Z.compare_spec b a); symmetry;
    [apply Z.ltb_ge|apply Z.ltb_lt|apply Z.ltb_ge]; lia.
Qed.

(** The time value of a [Date] built from an integer below [2^53]:
    the integer up to 8.64e15, and [NaN] beyond. *)
Lemma TimeClip_of_Z (z : Z) :
  (0 <= z < 2 ^ 53)%Z ->
  TimeClip (of_Z z)
  = if (8640000000000000 <? z)%Z then NaN else of_Z z.
Proof.
  intros Hz. destruct (Z.eq_dec z 0) as [->|Nz]; [reflexivity|].
  pose proof (gtb_of_Z z 8640000000000000 Hz ltac:(split; [lia|reflexivity]))
    as G.
  destruct (of_Z_value z ltac:(lia)) as (m & e & E & _ & He & V).
  rewrite E in G |- *. unfold TimeClip. cbn [abs SFabs].
  unfold JSArith.gtb in G. rewrite G.
  destruct (8640000000000000 <? z)%Z; [reflexivity|].
  pose proof (to_BigInt_exact m e z V) as T.
  unfold to_BigInt, option_map in T.
  set (v := if (0 <=? e)%Z then _ else _).
  assert (Ev : v = z).
  { unfold v. destruct (0 <=? e)%Z; [now injection T|].
    destruct (_ =? 0)%Z; [now injection T|discriminate T]. }
  rewrite Ev. exact E.
Qed.

End ExactIntegers.


(** ** Block times *)

Section TimeFacts.

Import JSString JSBigInt JSNumber.

Lemma radix_digits_nonneg (r : Z) (s : string) (acc v : Z) :
  0 <= r -> 0 <= acc -> radix_digits r acc s = Some v -> 0 <= v.
Proof.
  intros Hr. revert acc. induction s as [|c s IH]; intros acc Ha H.
  - cbn in H. injection H as <-. assumption.
  - cbn [radix_digits] in H. unfold digit_value in H.
    set (n := Z.of_nat (nat_of_ascii c)) in H.
    destruct ((48 <=? n) && (n <=? 57)) eqn:E1;
      [|destruct ((97 <=? n) && (n <=? 102)) eqn:E2;
        [|destruct ((65 <=? n) && (n <=? 70)) eqn:E3; [|discriminate]]];
      (match type of H with
       | (if ?d <? r then _ else _) = _ =>
           destruct (d <? r); [|discriminate];
           apply IH in H; [assumption|lia]
       end).
Qed.

(** On text that is all hexadecimal digits, [parseInt] reads what
    [BigInt] reads. *)
Lemma read_hex_digits_all (s : string) (acc v : Z) (cnt : nat) :
  radix_digits 16 acc s = Some v ->
  read_hex_digits acc cnt s = (v, (cnt + String.length s)%nat, EmptyString).
Proof.
  revert acc cnt. induction s as [|c s IH]; intros acc cnt H.
  - cbn in H. injection H as <-. cbn. f_equal. f_equal. lia.
  - cbn [radix_digits] in H. cbn [read_hex_digits String.length].
    destruct (digit_value c) as [d|]; [|discriminate].
    destruct (d <? 16); [|discriminate].
    rewrite (IH _ (S cnt) H). f_equal. f_equal. lia.
Qed.

Lemma parseInt16_hex (h : string) (t : Z) :
  nonempty_digits 16 h = Some t -> parseInt16 ("0x" ++ h) = of_Z t.
Proof.
  intros H. unfold nonempty_digits in H.
  assert (L : exists n, String.length h = S n)
    by (destruct h; [discriminate|eexists; reflexivity]).
  destruct L as [n L].
  assert (H' : radix_digits 16 0 h = Some t) by (destruct h; [discriminate|exact H]).
  unfold parseInt16. cbn [append trim_start].
  change (is_white "0") with false. cbv iota.
  unfold read_sign. change (Ascii.eqb "0" "-") with false.
  change (Ascii.eqb "0" "+") with false. cbv iota.
  cbn [strip2]. change (Ascii.eqb "0" "0") with true.
  change (Ascii.eqb "x" "x") with true. cbn [andb orb].
  rewrite (read_hex_digits_all h 0 t 0 H'), L. cbn [Nat.add].
  destruct (Z.eqb_spec t 0) as [->|N]; reflexivity.
Qed.

Lemma delta_row_fields (ts : number) (hash : string) (amt : Z)
    (decimals : number) (sym pl nl : string) (prices : price_map)
    (r : row) :
  delta_row ts hash amt decimals sym pl nl prices = Some r ->
  exists a,
    _formatUnits (if amt >? 0 then amt else - amt) decimals = Some a /\
    timestamp r = ts /\ date r = TimeClip (mul ts (of_Z 1000)) /\
    txHash r = hash /\
    amount r = (if amt >? 0 then a else neg a) /\
    isRepayOrWithdraw r = negb (amt >? 0) /\
    usdValue r = mul (abs a) (price_or_0 prices sym) /\
    symbol r = sym /\ asset r = sym /\
    description r = (if amt >? 0 then pl else nl).
Proof.
  unfold delta_row. destruct (_formatUnits _ decimals) as [a|]; [|discriminate].
  intros H. injection H as <-. exists a. cbn. repeat split.
Qed.

(** Every row of a decoded event is the row of one of its non-zero
    deltas: of the collateral word, or of the debt word. *)
Lemma decodeEvent_rows_delta (lg : log) (vaultInfo : vault_info)
    (prices : price_map) (d : decoded) (r : row) :
  decodeEvent lg vaultInfo prices = Some d -> In r (rows d) ->
  exists k amt decimals sym pl nl,
    amt <> 0 /\
    _decodeInt256 (slice (k * 64) ((k + 1) * 64) (drop 2 (log_data lg)))
    = Some amt /\
    ((k = 2%nat /\ decimals = supplyDecimals vaultInfo /\
      sym = supplySymbol vaultInfo /\
      pl = "Collateral Deposit"%string /\
      nl = "Collateral Withdrawal"%string) \/
     (k = 3%nat /\ decimals = borrowDecimals vaultInfo /\
      sym = borrowSymbol vaultInfo /\
      pl = "Margin Loan"%string /\ nl = "Loan Repayment"%string)) /\
    delta_row (parseInt16 (log_timeStamp lg)) (log_transactionHash lg)
      amt decimals sym pl nl prices = Some r.
Proof.
  unfold decodeEvent.
  destruct (_ <? _)%nat; [discriminate|].
  destruct (of_hex _) as [nftId|]; [|discriminate].
  destruct (_decodeInt256 _) as [colAmt|] eqn:Dc; [|discriminate].
  destruct (_decodeInt256 (slice (3 * 64) _ _)) as [debtAmt|] eqn:Dd;
    [|discriminate].
  assert (Col : forall rc,
            colAmt <> 0 ->
            delta_row (parseInt16 (log_timeStamp lg))
              (log_transactionHash lg) colAmt (supplyDecimals vaultInfo)
              (supplySymbol vaultInfo) "Collateral Deposit"
              "Collateral Withdrawal" prices = Some rc ->
            exists k amt decimals sym pl nl,
              amt <> 0 /\
              _decodeInt256
                (slice (k * 64) ((k + 1) * 64) (drop 2 (log_data lg)))
              = Some amt /\
              ((k = 2%nat /\ decimals = supplyDecimals vaultInfo /\
                sym = supplySymbol vaultInfo /\
                pl = "Collateral Deposit"%string /\
                nl = "Collateral Withdrawal"%string) \/
               (k = 3%nat /\ decimals = borrowDecimals vaultInfo /\
                sym = borrowSymbol vaultInfo /\
                pl = "Margin Loan"%string /\
                nl = "Loan Repayment"%string)) /\
              delta_row (parseInt16 (log_timeStamp lg))
                (log_transactionHash lg) amt decimals sym pl nl prices
              = Some rc).
  { intros rc N E. exists 2%nat, colAmt. do 4 eexists.
    split; [exact N|]. split; [exact Dc|]. split; [|exact E].
    left. repeat split. }
  assert (Debt : forall rd,
            debtAmt <> 0 ->
            delta_row (parseInt16 (log_timeStamp lg))
              (log_transactionHash lg) debtAmt (borrowDecimals vaultInfo)
              (borrowSymbol vaultInfo) "Margin Loan" "Loan Repayment"
              prices = Some rd ->
            exists k amt decimals sym pl nl,
              amt <> 0 /\
              _decodeInt256
                (slice (k * 64) ((k + 1) * 64) (drop 2 (log_data lg)))
              = Some amt /\
              ((k = 2%nat /\ decimals = supplyDecimals vaultInfo /\
                sym = supplySymbol vaultInfo /\
                pl = "Collateral Deposit"%string /\
                nl = "Collateral Withdrawal"%string) \/
               (k = 3%nat /\ decimals = borrowDecimals vaultInfo /\
                sym = borrowSymbol vaultInfo /\
                pl = "Margin Loan"%string /\
                nl = "Loan Repayment"%string)) /\
              delta_row (parseInt16 (log_timeStamp lg))
                (log_transactionHash lg) amt decimals sym pl nl prices
              = Some rd).
  { intros rd N E. exists 3%nat, debtAmt. do 4 eexists.
    split; [exact N|]. split; [exact Dd|]. split; [|exact E].
    right. repeat split. }
  destruct (Z.eqb_spec colAmt 0) as [Ec|Nc];
    destruct (Z.eqb_spec debtAmt 0) as [Ed|Nd].
  - discriminate.
  - destruct (delta_row _ _ debtAmt _ _ _ _ _) as [rd|] eqn:Ed';
      [|discriminate].
    cbn [app]. intros H. injection H as <-. cbn [rows].
    intros [<-|[]]. now apply Debt.
  - destruct (delta_row _ _ colAmt _ _ _ _ _) as [rc|] eqn:Ec';
      [|discriminate].
    cbn [app]. intros H. injection H as <-. cbn [rows].
    intros [<-|[]]. now apply Col.
  - destruct (delta_row _ _ colAmt _ _ _ _ _) as [rc|] eqn:Ec';
      [|discriminate].
    destruct (delta_row _ _ debtAmt _ _ _ _ _) as [rd|] eqn:Ed';
      [|discriminate].
    cbn [app]. intros H. injection H as <-. cbn [rows].
    intros [<-|[<-|[]]]; [now apply Col|now apply Debt].
Qed.

End TimeFacts.

(** X3. When the [timeStamp] of a log entry is [0x] followed by the
    hexadecimal digits of [t], every row decoded from it carries the
    block time [t] in seconds as its timestamp and the entry's
    transaction hash. Its date is the [Date] of the time [1000 * t] in
    milliseconds when that is at most 8.64e15, the last time value of a
    [Date]; from there to [2^53] the date is an invalid [Date], of time
    value [NaN]. *)
Theorem decodeEvent_row_time
    (lg : log) (vaultInfo : vault_info) (prices : price_map)
    (d : decoded) (h : string) (t : Z) (r : row) :
  log_timeStamp lg = ("0x" ++ h)%string ->
  JSBigInt.nonempty_digits 16 h = Some t ->
  decodeEvent lg vaultInfo prices = Some d -> In r (rows d) ->
  timestamp r = JSNumber.of_Z t /\
  (1000 * t <= 8640000000000000 ->
   date r = JSNumber.of_Z (1000 * t)) /\
  (8640000000000000 < 1000 * t < 2 ^ 53 -> date r = JSNumber.NaN) /\
  txHash r = log_transactionHash lg.
Proof.
  intros Ets Eh Hd Hr.
  destruct (decodeEvent_rows_delta lg vaultInfo prices d r Hd Hr)
    as (k & amt & decimals & sym & pl & nl & _ & _ & _ & Hrow).
  destruct (delta_row_fields _ _ _ _ _ _ _ _ _ Hrow)
    as (a & _ & Et & Edate & Eh' & _).
  rewrite Ets, (parseInt16_hex h t Eh) in Et, Edate.
  assert (0 <= t).
  { unfold JSBigInt.nonempty_digits in Eh. destruct h; [discriminate|].
    eapply radix_digits_nonneg; [| |exact Eh]; lia. }
  assert (Clip : 1000 * t < 2 ^ 53 ->
                 date r = if 8640000000000000 <? 1000 * t
                          then JSNumber.NaN else JSNumber.of_Z (1000 * t)).
  { intros Hlt. rewrite Edate, mul_of_Z by lia.
    rewrite Z.mul_comm. apply TimeClip_of_Z. lia. }
  split; [exact Et|]. split; [|split; [|exact Eh']].
  - intros Hle. rewrite Clip by lia.
    now replace (8640000000000000 <? 1000 * t) with false
      by (symmetry; apply Z.ltb_ge; lia).
  - intros Hgt. rewrite Clip by lia.
    now replace (8640000000000000 <? 1000 * t) with true
      by (symmetry; apply Z.ltb_lt; lia).
Qed.

Lemma decodeEvent_row_time_witness :
  match decodeEvent (Sample.entry 6 1500000000000000000 0 "0x61a8c3f0")
          Sample.info Sample.prices with
  | Some d =>
      Forall (fun r => timestamp r = JSNumber.of_Z 1638450160 /\
                       date r = JSNumber.of_Z 1638450160000 /\
                       txHash r = "0xfeed"%string) (rows d)
  | None => False
  end.
Proof.
  destruct (decodeEvent (Sample.entry 6 1500000000000000000 0 "0x61a8c3f0")
              Sample.info Sample.prices) as [d|] eqn:E;
    [|vm_compute in E; discriminate E].
  apply Forall_forall. intros r Hr.
  destruct (decodeEvent_row_time
              (Sample.entry 6 1500000000000000000 0 "0x61a8c3f0")
              Sample.info Sample.prices d "61a8c3f0" 1638450160 r
              eq_refl eq_refl E Hr) as (Ht & Hd & _ & Hh).
  split; [exact Ht|]. split; [|exact Hh]. apply Hd. lia.
Defined.


(** ** The requests of [fetchVaultEvents] *)

Section FetchMore.

Context {source : Type}.
Variable serve : source -> request -> http_reply * source.
Variable vaultAddress : string.

(** X4. Against a source that answers every request with a rate-limit
    reply, [fetchVaultEvents] never ends: whatever the number of
    requests allowed, the loop is still running when they are spent.
    There is no bound on the retries. *)
Theorem fetchVaultEvents_retries_without_bound :
  always_rate_limited serve ->
  forall (fuel : nat) (src : source) (reqs : list request),
    fetchVaultEvents serve fuel vaultAddress src reqs = None.
Proof.
  intros H fuel. unfold fetchVaultEvents. generalize 1%nat as page.
  generalize (@nil log) as allLogs.
  induction fuel as [|fuel IH]; intros allLogs page src reqs;
    [reflexivity|].
  cbn [fetch_loop].
  destruct (H src {| req_address := vaultAddress; req_page := page |})
    as (code & json & src' & -> & Hrl).
  unfold rate_limited in Hrl.
  apply andb_prop in Hrl as [Hrl Hr]. apply andb_prop in Hrl as [Hst Hm].
  apply negb_true_iff in Hm. rewrite Hst, Hm, Hr. apply IH.
Qed.

(** The requests of the loop, from page [p] on. *)
Lemma fetch_loop_requests (fuel : nat) :
  forall (src : source) (reqs0 : list request) (allLogs : list log)
         (p : nat) (r : run source (list log)),
    fetch_loop serve fuel vaultAddress src reqs0 allLogs p = Some r ->
    exists new,
      run_requests r = new ++ reqs0 /\
      (1 <= List.length new <= fuel)%nat /\
      Forall (fun rq => req_address rq = vaultAddress) new /\
      climbs p (rev (map req_page new)) = true /\
      hd_error (rev (map req_page new)) = Some p.
Proof.
  induction fuel as [|fuel IH]; intros src reqs0 allLogs p r H;
    [discriminate|].
  cbn [fetch_loop] in H.
  set (rq := {| req_address := vaultAddress; req_page := p |}) in *.
  assert (One : forall (o : outcome (list log)) (src' : source),
            exists new,
              run_requests
                {| run_result := o; run_source := src';
                   run_requests := rq :: reqs0 |} = new ++ reqs0 /\
              (1 <= List.length new <= S fuel)%nat /\
              Forall (fun rq => req_address rq = vaultAddress) new /\
              climbs p (rev (map req_page new)) = true /\
              hd_error (rev (map req_page new)) = Some p).
  { intros o src'. exists [rq]. cbn. rewrite Nat.eqb_refl.
    repeat split; try lia. constructor; [reflexivity|constructor]. }
  assert (More : forall src' allLogs' q,
            q = p \/ q = S p ->
            fetch_loop serve fuel vaultAddress src' (rq :: reqs0) allLogs' q
            = Some r ->
            exists new,
              run_requests r = new ++ reqs0 /\
              (1 <= List.length new <= S fuel)%nat /\
              Forall (fun rq => req_address rq = vaultAddress) new /\
              climbs p (rev (map req_page new)) = true /\
              hd_error (rev (map req_page new)) = Some p).
  { intros src' allLogs' q Hq Hr.
    destruct (IH _ _ _ _ _ Hr) as (new & E & L & A & C & Hd).
    exists (new ++ [rq]). rewrite <- app_assoc. cbn [app].
    split; [exact E|]. rewrite length_app. cbn [List.length].
    split; [lia|]. split.
    - apply Forall_app. split; [exact A|].
      constructor; [reflexivity|constructor].
    - rewrite map_app, rev_app_distr. cbn [map rev app req_page rq].
      cbn [climbs hd_error]. split; [|reflexivity].
      destruct (rev (map req_page new)) as [|x l]; [discriminate|].
      cbn [hd_error] in Hd. injection Hd as ->. cbn [climbs] in C |- *.
      apply andb_prop in C as [_ C]. rewrite C, andb_true_r.
      destruct Hq as [->| ->]; rewrite !Nat.eqb_refl, ?orb_true_r;
        reflexivity. }
  destruct (serve src rq) as [reply src'].
  destruct reply as [|ok code body].
  - injection H as <-. apply One.
  - destruct ok; [|injection H as <-; apply One].
    destruct body as [json|]; [|injection H as <-; apply One].
    destruct (String.eqb (status json) "0").
    + destruct (String.eqb (message json) "No records found");
        [injection H as <-; apply One|].
      destruct (is_rate_limit (result json));
        [|injection H as <-; apply One].
      eapply More; [left; reflexivity|exact H].
    + destruct (_ <? _)%nat; [injection H as <-; apply One|].
      eapply More; [right; reflexivity|exact H].
Qed.

(** X5. When [fetchVaultEvents] ends, it has issued at least one
    request, each for the vault it was called with; the first is for
    page 1, and each later one is for the same page as the one before
    it, a retry, or for the next page: no page is skipped. *)
Theorem fetchVaultEvents_request_walk
    (fuel : nat) (src : source) (reqs0 : list request)
    (r : run source (list log)) :
  fetchVaultEvents serve fuel vaultAddress src reqs0 = Some r ->
  exists new,
    run_requests r = new ++ reqs0 /\
    (1 <= List.length new <= fuel)%nat /\
    Forall (fun rq => req_address rq = vaultAddress) new /\
    page_walk (rev (map req_page new)) = true.
Proof.
  intros H. destruct (fetch_loop_requests _ _ _ _ _ _ H)
    as (new & E & L & A & C & Hd).
  exists new. repeat split; try assumption; try lia.
  unfold page_walk. destruct (rev (map req_page new)) as [|q l];
    [discriminate|].
  cbn [hd_error] in Hd. injection Hd as ->.
  cbn [climbs] in C. apply andb_prop in C as [_ C]. now rewrite C.
Qed.

End FetchMore.

Lemma fetchVaultEvents_retries_without_bound_witness :
  fetchVaultEvents
    (fun (_ : unit) (_ : request) =>
       (HttpReply true 200
          (Some {| status := "0"; message := "NOTOK";
                   result := RString "Max rate limit reached" |}), tt))
    50 Sample.vault tt [] = None.
Proof.
  apply fetchVaultEvents_retries_without_bound.
  intros s rq. do 3 eexists. split; reflexivity.
Defined.

Lemma fetchVaultEvents_request_walk_witness :
  exists new,
    new = [ {| req_address := Sample.vault; req_page := 2 |};
            {| req_address := Sample.vault; req_page := 1 |} ] /\
    page_walk (rev (map req_page new)) = true.
Proof.
  destruct (fetchVaultEvents_request_walk Sample.two_pages Sample.vault
              5 tt [] _ eq_refl) as (new & E & _ & _ & W).
  exists new. split; [|exact W].
  cbn [run_requests] in E. rewrite app_nil_r in E. now subst new.
Defined.


(** ** The ledger, end to end *)

Section LedgerMore.

Context {source : Type}.
Variable serve : source -> request -> http_reply * source.
Variable Math_log10 : JSNumber.number -> JSNumber.number.

(** The entries the loop returns are those it held and entries of
    pages the source served. *)
Lemma fetch_loop_served (vaultAddress : string) (fuel : nat) :
  forall (src : source) (reqs : list request) (allLogs : list log)
         (p : nat) (r : run source (list log)) (logs : list log),
    fetch_loop serve fuel vaultAddress src reqs allLogs p = Some r ->
    run_result r = Returned logs ->
    forall lg, In lg logs -> In lg allLogs \/ served_by serve lg.
Proof.
  induction fuel as [|fuel IH]; intros src reqs allLogs p r logs H Hr lg Hl;
    [discriminate|].
  cbn [fetch_loop] in H.
  set (rq := {| req_address := vaultAddress; req_page := p |}) in *.
  destruct (serve src rq) as [reply src'] eqn:Es.
  destruct reply as [|ok code body].
  - injection H as <-. discriminate.
  - destruct ok; [|injection H as <-; discriminate].
    destruct body as [json|]; [|injection H as <-; discriminate].
    assert (Page : forall lg', In lg' (allLogs ++ logs_of_result (result json)) ->
                     In lg' allLogs \/ served_by serve lg').
    { intros lg' Hi. apply in_app_or in Hi as [Hi|Hi]; [now left|].
      right. exists src, rq, code, json, src'. split; assumption. }
    destruct (String.eqb (status json) "0").
    + destruct (String.eqb (message json) "No records found").
      * injection H as <-. cbn in Hr. injection Hr as <-. now left.
      * destruct (is_rate_limit (result json)).
        -- eapply IH; eassumption.
        -- injection H as <-. cbn in Hr. injection Hr as <-. now left.
    + destruct (_ <? _)%nat.
      * injection H as <-. cbn in Hr. injection Hr as <-. now apply Page.
      * destruct (IH _ _ _ _ _ _ H Hr lg Hl) as [Hi|Hi];
          [now apply Page|now right].
Qed.

Lemma decodeEvent_long_data (lg : log) (info : vault_info)
    (prices : price_map) (d : decoded) :
  decodeEvent lg info prices = Some d ->
  (322 <= String.length (log_data lg))%nat.
Proof.
  unfold decodeEvent.
  destruct (Nat.ltb_spec (String.length (log_data lg)) (2 + 64 * 5)) as [L|G];
    [discriminate|]. intros _. exact G.
Qed.

Hypothesis hex_times :
  forall lg, served_by serve lg ->
    (322 <= String.length (log_data lg))%nat -> hex_timestamp lg.

Lemma rows_of_logs_timed (logs : list log) (info : vault_info)
    (prices : price_map) :
  (forall lg, In lg logs -> served_by serve lg) ->
  Forall valid_timestamp (rows_of_logs logs info prices).
Proof.
  intros Hs. apply Forall_forall. intros r Hr.
  apply rows_of_logs_owned in Hr as (lg & d & Hl & Hd & Hi & _).
  destruct (hex_times lg (Hs lg Hl) (decodeEvent_long_data _ _ _ _ Hd))
    as (h & t & Ets & Eh & Ht).
  destruct (decodeEvent_rows_delta lg info prices d r Hd Hi)
    as (k & amt & decimals & sym & pl & nl & _ & _ & _ & Hrow).
  destruct (delta_row_fields _ _ _ _ _ _ _ _ _ Hrow) as (a & _ & Et & _).
  rewrite Ets, (parseInt16_hex h t Eh) in Et.
  exists t. split; [|exact Et]. split; [|exact Ht].
  unfold JSBigInt.nonempty_digits in Eh. destruct h; [discriminate|].
  eapply radix_digits_nonneg; [| |exact Eh]; lia.
Qed.

Lemma collect_vaults_timed (fuel : nat) (prices : price_map) :
  forall (m : vault_map) (src : source) (reqs : list request)
         (acc : list row) (r : run source (list row)) (rows : list row),
    Forall valid_timestamp acc ->
    collect_vaults serve fuel m prices src reqs acc = Some r ->
    run_result r = Returned rows ->
    Forall valid_timestamp rows.
Proof.
  induction m as [|[a info] m IH]; intros src reqs acc r rows Hacc H Hr.
  - cbn in H. injection H as <-. cbn in Hr. injection Hr as <-. exact Hacc.
  - cbn [collect_vaults] in H.
    destruct (fetchVaultEvents serve fuel a src reqs) as [f|] eqn:Ef;
      [|discriminate].
    destruct (run_result f) as [logs|] eqn:El.
    + eapply IH; [|exact H|exact Hr].
      apply Forall_app. split; [exact Hacc|].
      apply rows_of_logs_timed. intros lg Hl.
      destruct (fetch_loop_served _ _ _ _ _ _ _ _ Ef El lg Hl) as [[]|S].
      exact S.
    + injection H as <-. discriminate.
Qed.

(** X6. When every entry the source serves with a payload of full
    length has a hexadecimal [timeStamp] below [2^53], the ledger
    [fetchForPositions] returns is in descending order of timestamp,
    each timestamp being an integer. *)
Theorem ledger_sorted_for_hex_timestamps
    (fuel : nat) (positions : list position) (prices : price_map)
    (src : source) (r : run source (list row)) (ledger : list row) :
  fetchForPositions serve Math_log10 fuel positions prices src = Some r ->
  run_result r = Returned ledger ->
  Forall valid_timestamp ledger /\
  StronglySorted ts_desc ledger /\
  StronglySorted (key_desc ts_key) ledger.
Proof.
  unfold fetchForPositions, collectTransactions.
  destruct (group_positions Math_log10 positions []) as [vaultMap|];
    [|intros H; injection H as <-; discriminate].
  destruct (collect_vaults serve fuel vaultMap prices src [] [])
    as [c|] eqn:Ec; [|discriminate].
  destruct (run_result c) as [rows|] eqn:Er;
    [|intros H; injection H as <-; rewrite Er; discriminate].
  intros H. injection H as <-. cbn [run_result]. intros E.
  injection E as <-.
  pose proof (collect_vaults_timed _ _ _ _ _ _ _ _ (Forall_nil _) Ec Er)
    as Hv.
  pose proof (array_sort_Forall by_timestamp_desc valid_timestamp _ Hv)
    as Hv'.
  pose proof (array_sort_sorted by_timestamp_desc valid_timestamp ts_key
                (fun a b => sorts_after_ts_key a b) rows Hv) as Hs.
  split; [exact Hv'|]. split; [|exact Hs].
  apply (StronglySorted_impl_in (key_desc ts_key)); [|exact Hs].
  rewrite Forall_forall in Hv'. intros a b Ia Ib.
  apply ts_desc_key; auto.
Qed.

End LedgerMore.

Lemma ledger_sorted_for_hex_timestamps_witness :
  exists ledger,
    run_result
      (match fetchForPositions
               (fun (_ : unit) (_ : request) => (Sample.events_page, tt))
               Sample.log10 5 [Sample.pos] Sample.prices tt with
       | Some r => r
       | None => {| run_result := Thrown; run_source := tt;
                    run_requests := [] |}
       end) = Returned ledger /\
    map ts_key ledger = [300; 200; 100] /\
    StronglySorted ts_desc ledger.
Proof.
  set (serve := fun (_ : unit) (_ : request) => (Sample.events_page, tt)).
  assert (Ht : forall lg, served_by serve lg ->
                 (322 <= String.length (log_data lg))%nat -> hex_timestamp lg).
  { intros lg (s & rq & code & json & s' & E & Hl) _.
    injection E as _ <- _. cbn [result logs_of_result Sample.events] in Hl.
    destruct Hl as [<-|[<-|[<-|[<-|[]]]]].
    - exists "64"%string, 100. repeat split; reflexivity.
    - exists "12d"%string, 301. repeat split; reflexivity.
    - exists "12c"%string, 300. repeat split; reflexivity.
    - exists "c8"%string, 200. repeat split; reflexivity. }
  destruct (fetchForPositions serve Sample.log10 5 [Sample.pos]
              Sample.prices tt) as [r|] eqn:E;
    [|vm_compute in E; discriminate E].
  destruct (run_result r) as [ledger|] eqn:Er;
    [|vm_compute in E; injection E as <-; discriminate Er].
  exists ledger. split; [reflexivity|].
  split; [|exact (proj1 (proj2 (ledger_sorted_for_hex_timestamps
                                   serve Sample.log10 Ht 5 [Sample.pos]
                                   Sample.prices tt r ledger E Er)))].
  vm_compute in E. injection E as <-. cbn [run_result] in Er.
  injection Er as <-. vm_compute. reflexivity.
Defined.


(** ** The order of the ledger *)





(** ** The grouping of positions by vault *)

Section GroupingFacts.

Variable Math_log10 : JSNumber.number -> JSNumber.number.

Lemma vault_has_In (m : vault_map) (a : string) :
  vault_has m a = true <-> In a (map fst m).
Proof.
  induction m as [|[k i] m IH]; [split; [discriminate|intros []]|].
  cbn [vault_has map fst]. rewrite orb_true_iff, IH.
  split; (intros [H|H]; [left|right; exact H]).
  - now apply String.eqb_eq in H.
  - now apply String.eqb_eq.
Qed.

Lemma vault_add_id_keys (m : vault_map) (a : string) (id : Z) :
  map fst (vault_add_id m a id) = map fst m.
Proof.
  induction m as [|[k i] m IH]; [reflexivity|]. cbn [vault_add_id].
  destruct (String.eqb k a); cbn [map fst]; [reflexivity|now rewrite IH].
Qed.

Lemma set_add_iff (x id : Z) (s : list Z) :
  In x (set_add id s) <-> In x s \/ x = id.
Proof.
  unfold set_add. destruct (existsb (Z.eqb id) s) eqn:E.
  - apply existsb_Zeqb_In in E. split; [now left|].
    intros [H| ->]; assumption.
  - rewrite in_app_iff. cbn. intuition.
Qed.

Lemma set_add_NoDup (id : Z) (s : list Z) :
  NoDup s -> NoDup (set_add id s).
Proof.
  intros H. unfold set_add. destruct (existsb (Z.eqb id) s) eqn:E;
    [assumption|].
  apply NoDup_app; [assumption|repeat constructor; intros []|].
  intros x Hx [Ex|[]]. subst x.
  assert (existsb (Z.eqb id) s = true) by now apply existsb_Zeqb_In.
  congruence.
Qed.

(** With distinct keys, [vault_add_id] changes the ids of the entry of
    [a] and nothing else. *)
Lemma vault_add_id_entry (m : vault_map) (a : string) (id : Z)
    (k : string) (info' : vault_info) :
  NoDup (map fst m) ->
  In (k, info') (vault_add_id m a id) ->
  exists info,
    In (k, info) m /\ vault_metadata info' = vault_metadata info /\
    ((k = a /\ nftIds info' = set_add id (nftIds info)) \/
     (k <> a /\ info' = info)).
Proof.
  induction m as [|[k0 i0] m IH]; [intros _ []|].
  cbn [map fst]. intros Hn. inversion Hn as [|? ? Hk Hn']; subst.
  cbn [vault_add_id]. destruct (String.eqb_spec k0 a) as [E|N].
  - intros [H|H].
    + injection H as <- <-. exists i0. split; [left; reflexivity|].
      split; [reflexivity|]. left. split; [exact E|reflexivity].
    + exists info'. split; [right; exact H|]. split; [reflexivity|].
      right. split; [|reflexivity]. intros ->. apply Hk.
      subst k0. apply (in_map fst) in H. exact H.
  - intros [H|H].
    + injection H as <- <-. exists i0. split; [left; reflexivity|].
      split; [reflexivity|]. right. split; [exact N|reflexivity].
    + destruct (IH Hn' H) as (info & Hi & Hm & Hc).
      exists info. split; [right; exact Hi|]. split; assumption.
Qed.

Lemma owns_app (done : list position) (pos : position) (a : string)
    (x : Z) :
  owns (done ++ [pos]) a x <->
  owns done a x \/
  (pos_vaultAddress pos = a /\ JSBigInt.of_string (pos_nftId pos) = Some x).
Proof.
  unfold owns. split.
  - intros (p & Hp & Ha & Hx). apply in_app_or in Hp as [Hp|[<-|[]]].
    + left. exists p. repeat split; assumption.
    + right. split; assumption.
  - intros [(p & Hp & Ha & Hx)|[Ha Hx]].
    + exists p. split; [apply in_or_app; left; exact Hp|split; assumption].
    + exists pos. split; [apply in_or_app; right; left; reflexivity|].
      split; assumption.
Qed.

Lemma first_on_vault_app (done : list position) (pos p : position)
    (a : string) :
  first_on_vault done a p -> first_on_vault (done ++ [pos]) a p.
Proof.
  intros (before & after & -> & Ha & Hb).
  exists before, (after ++ [pos]). rewrite <- app_assoc. cbn [app].
  repeat split; assumption.
Qed.

(** The invariant of the grouping loop, from the positions [done]
    already met to all of them. *)
Lemma group_positions_inv (rest : list position) :
  forall (done : list position) (m final : vault_map),
    group_positions Math_log10 rest m = Some final ->
    NoDup (map fst m) ->
    (forall a, In a (map fst m) <-> In a (map pos_vaultAddress done)) ->
    (forall a info, In (a, info) m ->
       NoDup (nftIds info) /\
       (forall x, In x (nftIds info) <-> owns done a x) /\
       exists pos, first_on_vault done a pos /\
                   vault_metadata info
                   = vault_metadata (new_vault_info Math_log10 pos)) ->
    NoDup (map fst final) /\
    (forall a, In a (map fst final)
               <-> In a (map pos_vaultAddress (done ++ rest))) /\
    (forall a info, In (a, info) final ->
       NoDup (nftIds info) /\
       (forall x, In x (nftIds info) <-> owns (done ++ rest) a x) /\
       exists pos, first_on_vault (done ++ rest) a pos /\
                   vault_metadata info
                   = vault_metadata (new_vault_info Math_log10 pos)).
Proof.
  induction rest as [|pos rest IH]; intros done m final H Hn Hk He.
  - cbn in H. injection H as <-. rewrite app_nil_r. auto.
  - cbn [group_positions] in H.
    destruct (JSBigInt.of_string (pos_nftId pos)) as [id|] eqn:Eid;
      [|discriminate].
    set (a0 := pos_vaultAddress pos) in *.
    set (m1 := if vault_has m a0 then m
               else m ++ [(a0, new_vault_info Math_log10 pos)]) in *.
    replace (done ++ pos :: rest) with ((done ++ [pos]) ++ rest)
      by (rewrite <- app_assoc; reflexivity).
    assert (Hn1 : NoDup (map fst m1)).
    { unfold m1. destruct (vault_has m a0) eqn:Eh; [exact Hn|].
      rewrite map_app. cbn [map fst].
      apply NoDup_app; [exact Hn|repeat constructor; intros []|].
      intros x Hx [Ex|[]]. subst x. apply vault_has_In in Hx. congruence. }
    assert (Hk1 : forall a, In a (map fst m1)
                            <-> In a (map pos_vaultAddress (done ++ [pos]))).
    { intros a. rewrite map_app, in_app_iff. cbn [map In]. fold a0.
      unfold m1. destruct (vault_has m a0) eqn:Eh.
      - rewrite Hk. split; [now left|]. intros [H1|[<-|[]]]; [exact H1|].
        apply Hk, vault_has_In. exact Eh.
      - rewrite map_app, in_app_iff, Hk. cbn [map fst In]. reflexivity. }
    assert (He1 : forall a info, In (a, info) m1 ->
              NoDup (nftIds info) /\
              (forall x, In x (nftIds info) <-> owns done a x) /\
              exists p, first_on_vault (done ++ [pos]) a p /\
                        vault_metadata info
                        = vault_metadata (new_vault_info Math_log10 p)).
    { intros a info Hi.
      assert (Old : In (a, info) m ->
                NoDup (nftIds info) /\
                (forall x, In x (nftIds info) <-> owns done a x) /\
                exists p, first_on_vault (done ++ [pos]) a p /\
                          vault_metadata info
                          = vault_metadata (new_vault_info Math_log10 p)).
      { intros Hi'. destruct (He a info Hi') as (N & O & p & F & M).
        split; [exact N|]. split; [exact O|].
        exists p. split; [now apply first_on_vault_app|exact M]. }
      unfold m1 in Hi. destruct (vault_has m a0) eqn:Eh; [now apply Old|].
      apply in_app_or in Hi as [Hi|[Hi|[]]]; [now apply Old|].
      injection Hi as <- <-. cbn [new_vault_info nftIds].
      split; [constructor|]. split.
      - intros x. split; [intros []|].
        intros (p & Hp & Ha & _). exfalso.
        assert (In a0 (map fst m))
          by (apply Hk; rewrite <- Ha; now apply in_map).
        apply vault_has_In in H0. congruence.
      - exists pos. split; [|reflexivity].
        exists done, []. split; [reflexivity|]. split; [reflexivity|].
        apply Forall_forall. intros p Hp Ha.
        assert (In a0 (map fst m))
          by (apply Hk; rewrite <- Ha; now apply in_map).
        apply vault_has_In in H0. congruence. }
    apply (IH (done ++ [pos]) _ _ H).
    + rewrite vault_add_id_keys. exact Hn1.
    + intros a. rewrite vault_add_id_keys. apply Hk1.
    + intros a info' Hi.
      destruct (vault_add_id_entry _ _ _ _ _ Hn1 Hi)
        as (info & Hi1 & Hm & Hc).
      destruct (He1 a info Hi1) as (N & O & p & F & M).
      split; [|split].
      * destruct Hc as [[_ ->]|[_ ->]]; [now apply set_add_NoDup|exact N].
      * intros x. rewrite owns_app. fold a0.
        destruct Hc as [[-> ->]|[Na ->]].
        -- rewrite set_add_iff, O. split.
           ++ intros [H1| ->]; [now left|right; split; [reflexivity|exact Eid]].
           ++ intros [H1|[_ H1]]; [now left|right; congruence].
        -- rewrite O. split; [now left|].
           intros [H1|[H1 _]]; [exact H1|congruence].
      * exists p. split; [exact F|]. now rewrite Hm.
Qed.

(** X7. The first loop of [fetchForPositions] keeps one entry per
    distinct vault address of the positions, so that each vault is
    fetched once. The ids of an entry are, without repetition, the NFT
    ids of the positions on that vault; its tokens, symbols, names and
    decimals are those of the first position on the vault, whatever
    the later ones say. *)
Theorem group_positions_by_vault
    (positions : list position) (vaultMap : vault_map) :
  group_positions Math_log10 positions [] = Some vaultMap ->
  NoDup (map fst vaultMap) /\
  (forall a, In a (map fst vaultMap)
             <-> In a (map pos_vaultAddress positions)) /\
  (forall a info, In (a, info) vaultMap ->
     NoDup (nftIds info) /\
     (forall x, In x (nftIds info) <-> owns positions a x) /\
     exists pos, first_on_vault positions a pos /\
                 vault_metadata info
                 = vault_metadata (new_vault_info Math_log10 pos)).
Proof.
  intros H.
  apply (group_positions_inv positions [] [] vaultMap H).
  - constructor.
  - intros a. reflexivity.
  - intros a info [].
Qed.

End GroupingFacts.

Lemma group_positions_by_vault_witness :
  exists vaultMap,
    group_positions Sample.log10
      [Sample.pos;
       {| pos_nftId := "7"; pos_vaultAddress := Sample.vault;
          pos_supplyToken := ""; pos_borrowToken := "";
          pos_supply := None; pos_borrow := None;
          pos_collateral_amount := None; pos_collateral_symbol := "WBTC";
          pos_collateral_name := ""; pos_debt_amount := None;
          pos_debt_symbol := "DAI"; pos_debt_name := "" |};
       Sample.pos] [] = Some vaultMap /\
    map fst vaultMap = [Sample.vault] /\
    forall a info, In (a, info) vaultMap ->
      NoDup (nftIds info) /\ supplySymbol info = "ETH"%string.
Proof.
  match goal with
  | |- exists vaultMap, group_positions _ ?l _ = _ /\ _ => set (ps := l)
  end.
  destruct (group_positions Sample.log10 ps []) as [vaultMap|] eqn:E;
    [|vm_compute in E; discriminate E].
  exists vaultMap. split; [reflexivity|].
  destruct (group_positions_by_vault Sample.log10 ps vaultMap E)
    as (_ & _ & He).
  vm_compute in E. injection E as E. split; [now rewrite <- E|].
  intros a info Hi. destruct (He a info Hi) as (N & _ & _).
  split; [exact N|].
  rewrite <- E in Hi. destruct Hi as [Hi|[]]. injection Hi as <- <-.
  reflexivity.
Defined.


(** ** When [fetchForPositions] throws *)

Section ThrowFacts.

Context {source : Type}.
Variable serve : source -> request -> http_reply * source.
Variable Math_log10 : JSNumber.number -> JSNumber.number.

Lemma fetch_loop_returns (vaultAddress : string) (fuel : nat) :
  transport_ok serve ->
  forall (src : source) (reqs : list request) (allLogs : list log)
         (p : nat) (r : run source (list log)),
    fetch_loop serve fuel vaultAddress src reqs allLogs p = Some r ->
    exists logs, run_result r = Returned logs.
Proof.
  intros Ht. induction fuel as [|fuel IH]; intros src reqs allLogs p r H;
    [discriminate|].
  cbn [fetch_loop] in H.
  destruct (Ht src {| req_address := vaultAddress; req_page := p |})
    as (code & json & src' & Es).
  rewrite Es in H.
  destruct (String.eqb (status json) "0").
  - destruct (String.eqb (message json) "No records found");
      [injection H as <-; eexists; reflexivity|].
    destruct (is_rate_limit (result json));
      [eapply IH; exact H|injection H as <-; eexists; reflexivity].
  - destruct (_ <? _)%nat;
      [injection H as <-; eexists; reflexivity|eapply IH; exact H].
Qed.

Lemma collect_vaults_returns (fuel : nat) (prices : price_map) :
  transport_ok serve ->
  forall (m : vault_map) (src : source) (reqs : list request)
         (acc : list row) (r : run source (list row)),
    collect_vaults serve fuel m prices src reqs acc = Some r ->
    exists rows, run_result r = Returned rows.
Proof.
  intros Ht. induction m as [|[a info] m IH]; intros src reqs acc r H.
  - cbn in H. injection H as <-. eexists. reflexivity.
  - cbn [collect_vaults] in H.
    destruct (fetchVaultEvents serve fuel a src reqs) as [f|] eqn:Ef;
      [|discriminate].
    destruct (fetch_loop_returns a fuel Ht _ _ _ _ _ Ef) as (logs & El).
    rewrite El in H. eapply IH. exact H.
Qed.

Lemma group_positions_total (positions : list position) :
  Forall (fun pos => exists id,
            JSBigInt.of_string (pos_nftId pos) = Some id) positions ->
  forall m, exists m', group_positions Math_log10 positions m = Some m'.
Proof.
  induction 1 as [|pos rest (id & Eid) _ IH]; intros m.
  - eexists. reflexivity.
  - cbn [group_positions]. rewrite Eid. apply IH.
Qed.

Lemma group_positions_throws (positions : list position) :
  Exists (fun pos => JSBigInt.of_string (pos_nftId pos) = None) positions ->
  forall m, group_positions Math_log10 positions m = None.
Proof.
  induction positions as [|pos rest IH]; intros H m;
    [inversion H|].
  cbn [group_positions].
  destruct (JSBigInt.of_string (pos_nftId pos)) as [id|] eqn:Eid;
    [|reflexivity].
  apply IH. inversion H as [? ? H1|? ? H1]; subst; [congruence|exact H1].
Qed.

(** X8. [fetchForPositions] throws in two cases only. When the NFT id
    of some position is not the text of an integer, it throws before
    any request is made. When every id is one, and the source never
    fails below the API (no rejected request, no response that is not
    a success, no body that is not JSON), a call that ends returns a
    ledger: error replies of the API itself never make it throw. *)
Theorem fetchForPositions_throws_only_on_failure
    (fuel : nat) (positions : list position) (prices : price_map)
    (src : source) :
  (Exists (fun pos => JSBigInt.of_string (pos_nftId pos) = None)
     positions ->
   fetchForPositions serve Math_log10 fuel positions prices src
   = Some {| run_result := Thrown; run_source := src;
             run_requests := [] |}) /\
  (Forall (fun pos => exists id,
             JSBigInt.of_string (pos_nftId pos) = Some id) positions ->
   transport_ok serve ->
   forall r,
     fetchForPositions serve Math_log10 fuel positions prices src = Some r ->
     exists ledger, run_result r = Returned ledger).
Proof.
  split.
  - intros H. unfold fetchForPositions, collectTransactions.
    rewrite (group_positions_throws positions H). reflexivity.
  - intros Hid Ht r. unfold fetchForPositions, collectTransactions.
    destruct (group_positions_total positions Hid []) as (vaultMap & ->).
    destruct (collect_vaults serve fuel vaultMap prices src [] [])
      as [c|] eqn:Ec; [|discriminate].
    destruct (collect_vaults_returns fuel prices Ht _ _ _ _ _ Ec)
      as (rows & Er).
    rewrite Er. intros H. injection H as <-. eexists. reflexivity.
Qed.

End ThrowFacts.

Lemma fetchForPositions_throws_only_on_failure_witness :
  (exists ledger,
     option_map run_result
       (fetchForPositions
          (fun (_ : unit) (_ : request) => (Sample.api_failure, tt))
          Sample.log10 5 [Sample.pos] Sample.prices tt)
     = Some (Returned ledger)) /\
  fetchForPositions
    (fun (_ : unit) (_ : request) => (Sample.api_failure, tt))
    Sample.log10 5
    [{| pos_nftId := "six"; pos_vaultAddress := Sample.vault;
        pos_supplyToken := ""; pos_borrowToken := "";
        pos_supply := None; pos_borrow := None;
        pos_collateral_amount := None; pos_collateral_symbol := "";
        pos_collateral_name := ""; pos_debt_amount := None;
        pos_debt_symbol := ""; pos_debt_name := "" |}]
    Sample.prices tt
  = Some {| run_result := Thrown; run_source := tt; run_requests := [] |}.
Proof.
  set (serve := fun (_ : unit) (_ : request) => (Sample.api_failure, tt)).
  split.
  - destruct (fetchForPositions serve Sample.log10 5 [Sample.pos]
                Sample.prices tt) as [r|] eqn:E;
      [|vm_compute in E; discriminate E].
    assert (Hid : Forall (fun pos => exists id,
                    JSBigInt.of_string (pos_nftId pos) = Some id)
                    [Sample.pos])
      by (constructor; [exists 6; reflexivity|constructor]).
    assert (Ht : transport_ok serve)
      by (intros s rq; do 3 eexists; reflexivity).
    destruct (proj2 (fetchForPositions_throws_only_on_failure
                       serve Sample.log10 5 [Sample.pos] Sample.prices tt)
                Hid Ht r E) as (ledger & El).
    exists ledger. cbn [option_map]. now rewrite El.
  - apply (proj1 (fetchForPositions_throws_only_on_failure
                    serve Sample.log10 5 _ Sample.prices tt)).
    constructor. reflexivity.
Defined.


(** ** Amounts *)

Section AmountFacts.

Import JSNumber.
Local Open Scope R_scope.

(** The Number of a decimal literal with a negative exponent is the
    ratio it denotes, within half a unit in the last place. *)
Lemma round_ratio_relative (n den : Z) :
  (0 < n)%Z -> (0 < den)%Z ->
  (-1021 <= Zdigits2 n - Zdigits2 den <= 1022)%Z ->
  exists (m : positive) (e : Z),
    round_ratio false n den = S754_finite false m e /\
    canonical (S754_finite false m e) /\
    Rabs (IZR (Zpos m) * p2 e - IZR n / IZR den)
    <= IZR n / IZR den * p2 (-53).
Proof.
  intros Hn Hd Hg.
  destruct (round_ratio_error n den Hn Hd Hg)
    as (m & e & m1 & e1 & E & C & V & Er & [Xl _] & _ & _).
  exists m, e. split; [exact E|]. split; [exact C|].
  rewrite V. eapply Rle_trans; [exact Er|].
  replace (e1 + 52)%Z with (e1 + 53 + -1)%Z in Xl by lia.
  rewrite p2_add in Xl.
  assert (H1 : p2 (-1) = / 2).
  { unfold p2. cbn [powerRZ]. change (Pos.to_nat 1) with 1%nat.
    now rewrite pow_1. }
  rewrite H1 in Xl.
  replace (p2 e1) with (p2 (e1 + 53) * p2 (-53))
    by (rewrite <- p2_add; f_equal; lia).
  pose proof (p2_pos (-53)). pose proof (p2_pos (e1 + 53)). nra.
Qed.

(** The amount [_formatUnits] gives for decimals from 0 to 18. *)
Lemma formatUnits_relative (value d : Z) (decimals : number) :
  (0 < value < 2 ^ 256)%Z -> (0 <= d <= 18)%Z ->
  to_BigInt decimals = Some d ->
  exists (m : positive) (e : Z),
    _formatUnits value decimals = Some (S754_finite false m e) /\
    canonical (S754_finite false m e) /\
    Rabs (IZR (Zpos m) * p2 e - IZR value / IZR (10 ^ d))
    <= IZR value / IZR (10 ^ d) * p2 (-53).
Proof.
  intros Hv Hd Ed.
  destruct (formatUnits_decimal value d decimals ltac:(lia) ltac:(lia) Ed)
    as [-> _].
  assert (P10 : (0 < 10 ^ d)%Z) by (apply Z.pow_pos_nonneg; lia).
  assert (D10 : (1 <= Zdigits2 (10 ^ d) <= 60)%Z).
  { apply Zdigits2_le. split; [lia|].
    assert (10 ^ d <= 10 ^ 18)%Z by (apply Z.pow_le_mono_r; lia).
    assert (10 ^ 18 < 2 ^ 60)%Z by reflexivity. lia. }
  destruct (Z.eqb_spec d 0) as [->|Nd].
  - unfold of_decimal.
    replace (10 * value =? 0)%Z with false by (symmetry; apply Z.eqb_neq; lia).
    cbn [Z.leb Z.compare Z.opp]. change (10 ^ 1)%Z with 10%Z.
    destruct (round_ratio_relative (10 * value) 10) as (m & e & E & C & Er);
      [lia|lia| |].
    { change (Zdigits2 10) with 4%Z.
      assert (1 <= Zdigits2 (10 * value) <= 260)%Z
        by (apply Zdigits2_le; change (2 ^ 260)%Z with (16 * 2 ^ 256)%Z; lia).
      lia. }
    exists m, e. split; [now rewrite E|]. split; [exact C|].
    change (10 ^ 0)%Z with 1%Z.
    replace (IZR value / 1) with (IZR (10 * value) / 10)
      by (rewrite mult_IZR; field).
    exact Er.
  - unfold of_decimal.
    replace (value =? 0)%Z with false by (symmetry; apply Z.eqb_neq; lia).
    replace (0 <=? - d)%Z with false by (symmetry; apply Z.leb_gt; lia).
    rewrite Z.opp_involutive.
    destruct (round_ratio_relative value (10 ^ d)) as (m & e & E & C & Er);
      [lia|lia| |].
    { assert (1 <= Zdigits2 value <= 256)%Z by (apply Zdigits2_le; lia).
      lia. }
    exists m, e. split; [now rewrite E|]. split; [exact C|exact Er].
Qed.

End AmountFacts.

(** X9. For a raw amount from 1 to [2^256 - 1] and decimals from 0 to 18,
    [_formatUnits] returns a positive finite Number that differs from
    the exact quotient [value / 10^decimals] by at most [2^-53] of it:
    the conversion is correctly rounded. *)
Theorem formatUnits_correctly_rounded (value d : Z) :
  0 < value < 2 ^ 256 -> 0 <= d <= 18 ->
  exists amount,
    _formatUnits value (JSNumber.of_Z d) = Some amount /\
    positive_finite amount /\
    (Rabs (B2R amount - IZR value / IZR (10 ^ d))
     <= IZR value / IZR (10 ^ d) * p2 (-53))%R.
Proof.
  intros Hv Hd.
  destruct (formatUnits_relative value d (JSNumber.of_Z d) Hv Hd)
    as (m & e & E & _ & Er); [apply to_BigInt_of_Z; lia|].
  exists (S754_finite false m e). split; [exact E|]. split; [exact I|].
  exact Er.
Qed.

Lemma formatUnits_correctly_rounded_witness :
  exists amount,
    _formatUnits 1500000000000000000 (JSNumber.of_Z 18) = Some amount /\
    amount = JSNumber.parseFloat "1.5" /\
    (Rabs (B2R amount - IZR 1500000000000000000 / IZR (10 ^ 18))
     <= IZR 1500000000000000000 / IZR (10 ^ 18) * p2 (-53))%R.
Proof.
  destruct (formatUnits_correctly_rounded 1500000000000000000 18)
    as (amount & E & _ & Er); [lia|lia|].
  exists amount. split; [exact E|]. split; [|exact Er].
  vm_compute in E. injection E as <-. vm_compute. reflexivity.
Defined.

Section DirectionFacts.

Import JSNumber.

Lemma mul_zero_or_positive (a b : number) :
  zero_or_positive a -> zero_or_positive b -> has_sign false (mul a b).
Proof.
  intros [->|Ha] [->|Hb].
  - reflexivity.
  - destruct b as [| | |[|] mb eb]; try contradiction. reflexivity.
  - destruct a as [| | |[|] ma ea]; try contradiction. reflexivity.
  - destruct a as [| | |[|] ma ea]; try contradiction.
    destruct b as [| | |[|] mb eb]; try contradiction.
    unfold mul. cbn [SFmul xorb]. apply binary_round_aux_sign. lia.
Qed.

Lemma signed256_bound (w : list Byte.byte) :
  List.length w = 32%nat ->
  - 2 ^ 255 <= signed256 (Word256.unsigned w) < 2 ^ 255.
Proof.
  intros L. pose proof (unsigned_bound w) as B. rewrite L in B.
  change (256 ^ Z.of_nat 32) with (2 ^ 256) in B.
  unfold signed256.
  destruct (Z.leb_spec (Word256.unsigned w) (2 ^ 255 - 1)); lia.
Qed.

(** The row of a non-zero delta, for decimals from 0 to 18. *)
Lemma delta_row_direction (ts : number) (hash : string) (amt : Z)
    (decimals : number) (sym pl nl : string) (prices : price_map)
    (r : row) :
  amt <> 0 -> - 2 ^ 255 <= amt < 2 ^ 255 -> decimals_0_18 decimals ->
  delta_row ts hash amt decimals sym pl nl prices = Some r ->
  isRepayOrWithdraw r = (amt <? 0) /\
  description r = (if amt <? 0 then nl else pl) /\
  (exists m e, amount r = S754_finite (amt <? 0) m e) /\
  Generator.amount_sign (amount r)
  = (if amt <? 0 then ""%string else "+"%string) /\
  (prices_known prices -> plain_symbol prices (symbol r) ->
   has_sign false (usdValue r)) /\
  (inherited_symbol prices (symbol r) -> usdValue r = NaN).
Proof.
  intros N B (d & Ed & Hd) H.
  destruct (delta_row_fields _ _ _ _ _ _ _ _ _ H)
    as (a & Ea & _ & _ & _ & Eam & Ei & Eu & Es & _ & Edesc).
  destruct (formatUnits_relative (if amt >? 0 then amt else - amt) d decimals)
    as (m & e & E & _ & _);
    [destruct (Z.gtb_spec amt 0); lia|exact Hd|exact Ed|].
  rewrite E in Ea. injection Ea as <-.
  assert (U : (prices_known prices -> plain_symbol prices sym ->
               has_sign false
                 (mul (abs (S754_finite false m e))
                    (price_or_0 prices sym))) /\
              (inherited_symbol prices sym ->
               mul (abs (S754_finite false m e)) (price_or_0 prices sym)
               = NaN)).
  { unfold price_or_0. split.
    - intros Hp Hs. apply mul_zero_or_positive; [right; exact I|].
      destruct (prices sym) as [x|] eqn:Ex.
      + destruct (truthy x); [exact (Hp sym x Ex)|left; reflexivity].
      + destruct Hs as [Hs|Hs]; [now elim Hs|]. rewrite Hs.
        left. reflexivity.
    - intros [Ex Hi]. rewrite Ex, Hi. reflexivity. }
  rewrite Ei, Edesc, Eam, Eu, Es.
  destruct (Z.gtb_spec amt 0) as [G|G].
  - replace (amt <? 0) with false by (symmetry; apply Z.ltb_ge; lia).
    repeat split; try apply U. exists m, e. reflexivity.
  - replace (amt <? 0) with true by (symmetry; apply Z.ltb_lt; lia).
    repeat split; try apply U. exists m, e. reflexivity.
Qed.

End DirectionFacts.

(** X10. In a vault context with decimals from 0 to 18, every row
    decoded from a payload of five 32-byte words has a finite amount
    that is not zero, negative exactly on the outflows, the withdrawals
    and the repayments, which are the rows flagged [isRepayOrWithdraw];
    so the statement prints the sign [+] on the deposits and the loans
    and on no other row. The USD value of a row is never negative and
    never [NaN], on outflows too, when the prices are zero or positive
    and the symbol has a price of its own or is not the name of a member
    the prices object inherits; it is [NaN] when the symbol has no price
    and is such a name. *)
Theorem decoded_rows_direction (w0 w1 w2 w3 w4 : list Byte.byte)
    (ts hash : string) (vaultInfo : vault_info) (prices : price_map)
    (d : decoded) (r : row) :
  List.length w0 = 32%nat -> List.length w1 = 32%nat ->
  List.length w2 = 32%nat -> List.length w3 = 32%nat ->
  List.length w4 = 32%nat ->
  decimals_0_18 (supplyDecimals vaultInfo) ->
  decimals_0_18 (borrowDecimals vaultInfo) ->
  decodeEvent {| log_data := payload w0 w1 w2 w3 w4;
                 log_timeStamp := ts; log_transactionHash := hash |}
    vaultInfo prices = Some d ->
  In r (rows d) ->
  isRepayOrWithdraw r = outflow r /\
  (exists m e, amount r = S754_finite (outflow r) m e) /\
  Generator.amount_sign (amount r)
  = (if outflow r then "" else "+")%string /\
  (prices_known prices -> plain_symbol prices (symbol r) ->
   has_sign false (usdValue r)) /\
  (inherited_symbol prices (symbol r) -> usdValue r = JSNumber.NaN).
Proof.
  intros L0 L1 L2 L3 L4 Hs Hb Hd Hr.
  destruct (decodeEvent_rows_delta _ _ _ _ _ Hd Hr)
    as (k & amt & decimals & sym & pl & nl & N & Dk & Hk & Hrow).
  cbn [log_data] in Dk. rewrite payload_drop in Dk.
  assert (B : - 2 ^ 255 <= amt < 2 ^ 255 /\ decimals_0_18 decimals).
  { destruct Hk as [(-> & -> & _)|(-> & -> & _)].
    - rewrite (word2 w0 w1 w2 w3 w4), decodeInt256_bytes in Dk by assumption.
      injection Dk as <-. split; [now apply signed256_bound|exact Hs].
    - rewrite (word3 w0 w1 w2 w3 w4), decodeInt256_bytes in Dk by assumption.
      injection Dk as <-. split; [now apply signed256_bound|exact Hb]. }
  destruct B as [B Hdec].
  destruct (delta_row_direction _ _ _ _ _ _ _ _ _ N B Hdec Hrow)
    as (Ei & Edesc & Eam & Esg & Eu & En).
  assert (Eo : outflow r = (amt <? 0)).
  { unfold outflow, kind_of. rewrite Edesc.
    destruct Hk as [(_ & _ & _ & -> & ->)|(_ & _ & _ & -> & ->)];
      destruct (amt <? 0); reflexivity. }
  rewrite Eo. repeat split; assumption.
Qed.

Lemma decoded_rows_direction_witness :
  match decodeEvent (Sample.entry 6 1500000000000000000 (-250000000) "0x64")
          Sample.info Sample.prices with
  | Some d =>
      map (fun r => Generator.amount_sign (amount r)) (rows d)
      = ["+"; ""]%string /\
      Forall (fun r => isRepayOrWithdraw r = outflow r) (rows d)
  | None => False
  end.
Proof.
  destruct (decodeEvent (Sample.entry 6 1500000000000000000 (-250000000) "0x64")
              Sample.info Sample.prices) as [d|] eqn:E;
    [|vm_compute in E; discriminate E].
  split.
  - vm_compute in E. injection E as <-. vm_compute. reflexivity.
  - apply Forall_forall. intros r Hr.
    assert (Hs : decimals_0_18 (supplyDecimals Sample.info))
      by (exists 18; split; [vm_compute; reflexivity|lia]).
    assert (Hb : decimals_0_18 (borrowDecimals Sample.info))
      by (exists 6; split; [vm_compute; reflexivity|lia]).
    exact (proj1 (decoded_rows_direction
                    (Word256.of_Z 0) (Word256.of_Z 6)
                    (Word256.of_Z 1500000000000000000)
                    (Word256.of_Z (-250000000)) (Word256.of_Z 0)
                    "0x64" "0xfeed" Sample.info Sample.prices d r
                    eq_refl eq_refl eq_refl eq_refl eq_refl Hs Hb E Hr)).
Defined.


(** ** Rates between the two scales *)

(** X11. A raw rate whose magnitude is above [10^18] and below [10^23]
    is past the threshold of the basis-point scale and below one unit of
    the ray scale: [rateToApy] gives zero for it, with the sign of the
    rate, while the magnitude [10^18] itself still gives [10^16]. *)
Theorem rateToApy_zero_between_scales (r : Z) :
  10 ^ 18 < Z.abs r < 10 ^ 23 ->
  Fetcher.rateToApy (JSBigInt.to_string r) = Some (S754_zero (r <? 0)) /\
  Fetcher.rateToApy (JSBigInt.to_string (10 ^ 18))
  = Some (JSNumber.of_Z (10 ^ 16)).
Proof.
  intros H. unfold Fetcher.rateToApy. rewrite !of_string_to_string.
  split; [|vm_compute; reflexivity].
  f_equal. rewrite rateToApy_raw_form. cbv zeta.
  assert (E : rate_magnitude r = 0).
  { unfold rate_magnitude.
    replace (10 ^ 18 <? Z.abs r) with true by (symmetry; apply Z.ltb_lt; lia).
    apply Z.div_small. lia. }
  rewrite E. destruct (r <? 0); reflexivity.
Qed.

Lemma rateToApy_zero_between_scales_witness :
  Fetcher.rateToApy "-99999999999999999999999" = Some (S754_zero true).
Proof.
  assert (H : 10 ^ 18 < Z.abs (-99999999999999999999999) < 10 ^ 23)
    by (split; apply Z.ltb_lt; vm_compute; reflexivity).
  pose proof (proj1 (rateToApy_zero_between_scales _ H)) as E.
  assert (T : JSBigInt.to_string (-99999999999999999999999)
              = "-99999999999999999999999"%string)
    by (vm_compute; reflexivity).
  rewrite T in E. exact E.
Defined.


(** ** No event of an owned position is lost *)

Section InferMore.

Import JSString JSBigInt JSNumber.

Variable Math_log10 : number -> number.
Hypothesis log10_defined :
  forall x, has_sign false x -> Math_log10 x <> S754_nan.

(** [parseFloat] of the decimal text of an integer. *)
Lemma parseFloat_digits (D : string) (n : Z) :
  decimal_text D n -> parseFloat D = of_decimal false n 0.
Proof.
  intros (A & Ne & V). unfold parseFloat.
  destruct D as [|c D'] eqn:ED; [contradiction|].
  assert (Hc : is_digit c = true).
  { unfold all_digits in A. cbn [list_ascii_of_string forallb] in A.
    now apply andb_prop in A as [A _]. }
  destruct (is_digit_facts c Hc) as (_ & _ & W & Em & Ep & _).
  cbn [trim_start]. rewrite W. unfold read_sign. rewrite Em, Ep.
  rewrite prefix_Infinity_digit by assumption.
  rewrite <- (append_empty_r (String c D')).
  rewrite read_digits_app by assumption.
  cbn [read_digits read_exponent]. rewrite V.
  cbn [String.length Nat.add]. f_equal; lia.
Qed.

Lemma parseFloat_to_string_positive (v : Z) :
  0 < v < 2 ^ 256 -> positive_finite (parseFloat (to_string v)).
Proof.
  intros Hv. unfold to_string.
  replace (v <? 0) with false by (symmetry; apply Z.ltb_ge; lia).
  destruct (digits_spec v ltac:(lia)) as [T _].
  rewrite (parseFloat_digits _ _ T). unfold of_decimal.
  replace (v =? 0) with false by (symmetry; apply Z.eqb_neq; lia).
  cbn [Z.leb Z.compare]. change (10 ^ 0) with 1. rewrite Z.mul_1_r.
  destruct (round_ratio_error v 1) as (m & e & _ & _ & -> & _);
    [lia|lia| |exact I].
  change (Zdigits2 1) with 1.
  assert (1 <= Zdigits2 v <= 256) by (apply Zdigits2_le; lia). lia.
Qed.

(** On the amounts of a position read from the chain, the inferred
    decimals are an integer from 0 to 18. *)
Lemma inferDecimals_chain (raw : option string) (amt : option number) :
  chain_amount raw amt -> decimals_0_18 (_inferDecimals Math_log10 raw amt).
Proof.
  intros (v & x & Hv & -> & -> & Hx). unfold _inferDecimals.
  destruct (use_default_decimals (Some (to_string v)) (Some x)) eqn:U.
  - exists 18. split; [reflexivity|lia].
  - assert (Px : positive_finite x).
    { destruct Hx as [->|Hx]; [|exact Hx]. cbn in U.
      rewrite !orb_true_r in U. discriminate. }
    assert (Nv : v <> 0).
    { intros ->. cbn in U. discriminate. }
    destruct (clamp_rounded
                (Math_round
                   (Math_log10 (div (parseFloat (to_string v)) x))))
      as (d & Hd & E).
    + apply Math_round_rounded, log10_defined, div_positive_finite;
        [apply parseFloat_to_string_positive; lia|exact Px].
    + exists d. split; [exact E|exact Hd].
Qed.

End InferMore.

Section CompleteFacts.

Context {source : Type}.
Variable serve : source -> request -> http_reply * source.
Variable Math_log10 : JSNumber.number -> JSNumber.number.

(** The decoding of a payload of five words with a non-zero delta. *)
Lemma decodeEvent_payload (w0 w1 w2 w3 w4 : list Byte.byte)
    (ts hash : string) (vaultInfo : vault_info) (prices : price_map) :
  List.length w0 = 32%nat -> List.length w1 = 32%nat ->
  List.length w2 = 32%nat -> List.length w3 = 32%nat ->
  List.length w4 = 32%nat ->
  valid_decimals (supplyDecimals vaultInfo) ->
  valid_decimals (borrowDecimals vaultInfo) ->
  signed256 (Word256.unsigned w2) <> 0 \/
  signed256 (Word256.unsigned w3) <> 0 ->
  exists d,
    decodeEvent {| log_data := payload w0 w1 w2 w3 w4;
                   log_timeStamp := ts; log_transactionHash := hash |}
      vaultInfo prices = Some d /\
    _nftId d = Word256.unsigned w1 /\ rows d <> [].
Proof.
  intros L0 L1 L2 L3 L4 Hs Hb Hnz.
  unfold decodeEvent. cbn [log_data log_timeStamp log_transactionHash].
  rewrite payload_length by assumption.
  change ((2 + 64 * 5 <? 2 + 64 * 5)%nat) with false. cbv iota.
  rewrite payload_drop.
  rewrite (word1 w0 w1 w2 w3 w4), (word2 w0 w1 w2 w3 w4),
    (word3 w0 w1 w2 w3 w4) by assumption.
  rewrite of_hex_bytes by (intros ->; discriminate).
  rewrite !decodeInt256_bytes by assumption.
  set (colAmt := signed256 (Word256.unsigned w2)) in *.
  set (debtAmt := signed256 (Word256.unsigned w3)) in *.
  destruct (delta_row_kind (JSNumber.parseInt16 ts) hash colAmt
              (supplyDecimals vaultInfo) (supplySymbol vaultInfo)
              "Collateral Deposit" "Collateral Withdrawal" prices Hs)
    as (rc & -> & _).
  destruct (delta_row_kind (JSNumber.parseInt16 ts) hash debtAmt
              (borrowDecimals vaultInfo) (borrowSymbol vaultInfo)
              "Margin Loan" "Loan Repayment" prices Hb)
    as (rd & -> & _).
  destruct (Z.eqb_spec colAmt 0) as [Ec|Ec];
    destruct (Z.eqb_spec debtAmt 0) as [Ed|Ed]; cbn [app];
    try (eexists; split; [reflexivity|]; split; [reflexivity|];
         cbn [rows]; discriminate).
  destruct Hnz; contradiction.
Qed.

Lemma rows_of_logs_incl (logs : list log) (info : vault_info)
    (prices : price_map) (lg : log) (d : decoded) :
  In lg logs -> decodeEvent lg info prices = Some d ->
  In (_nftId d) (nftIds info) ->
  incl (rows d) (rows_of_logs logs info prices).
Proof.
  intros Hl Hd Ho. induction logs as [|lg' logs IH]; [destruct Hl|].
  cbn [rows_of_logs]. destruct Hl as [->|Hl].
  - rewrite Hd. apply existsb_Zeqb_In in Ho. rewrite Ho.
    apply incl_appl, incl_refl.
  - specialize (IH Hl).
    destruct (decodeEvent lg' info prices) as [d'|]; [|exact IH].
    destruct (existsb _ _); [apply incl_appr|]; exact IH.
Qed.

Lemma collect_vaults_fetched (fuel : nat) (prices : price_map) :
  forall (m : vault_map) (src : source) (reqs : list request)
         (acc : list row) (r : run source (list row)) (rows : list row),
    collect_vaults serve fuel m prices src reqs acc = Some r ->
    run_result r = Returned rows ->
    incl acc rows /\
    forall a info logs,
      In (a, info, logs) (fetched serve fuel m src reqs) ->
      In (a, info) m /\ incl (rows_of_logs logs info prices) rows.
Proof.
  induction m as [|[a0 info0] m IH]; intros src reqs acc r rows H Hr.
  - cbn in H. injection H as <-. cbn in Hr. injection Hr as <-.
    split; [apply incl_refl|intros a info logs []].
  - cbn [collect_vaults] in H. cbn [fetched].
    destruct (fetchVaultEvents serve fuel a0 src reqs) as [f|] eqn:Ef;
      [|discriminate].
    destruct (run_result f) as [logs0|] eqn:El;
      [|injection H as <-; discriminate].
    destruct (IH _ _ _ _ _ H Hr) as [Ia If].
    split; [intros x Hx; apply Ia, in_or_app; now left|].
    intros a info logs [E|Hi].
    + injection E as <- <- <-. split; [left; reflexivity|].
      intros x Hx. apply Ia, in_or_app. now right.
    + destruct (If a info logs Hi) as [Im Ir].
      split; [right; exact Im|exact Ir].
Qed.

Hypothesis log10_defined :
  forall x, has_sign false x -> Math_log10 x <> S754_nan.

(** X12. No event of an owned position is lost. When the positions
    carry amounts as they are read from the chain, every entry that
    [fetchVaultEvents] returned for a vault during a call of
    [fetchForPositions], whose payload is five 32-byte words, whose
    NFT id is that of one of the positions on the vault and which has
    a non-zero delta, decodes in the vault's context, and all its
    rows are in the ledger returned. *)
Theorem owned_events_reach_ledger
    (fuel : nat) (positions : list position) (prices : price_map)
    (src : source) (vaultMap : vault_map) (r : run source (list row))
    (ledger : list row) (a : string) (info : vault_info)
    (logs : list log) (w0 w1 w2 w3 w4 : list Byte.byte)
    (ts hash : string) :
  Forall chain_position positions ->
  group_positions Math_log10 positions [] = Some vaultMap ->
  fetchForPositions serve Math_log10 fuel positions prices src = Some r ->
  run_result r = Returned ledger ->
  In (a, info, logs) (fetched serve fuel vaultMap src []) ->
  List.length w0 = 32%nat -> List.length w1 = 32%nat ->
  List.length w2 = 32%nat -> List.length w3 = 32%nat ->
  List.length w4 = 32%nat ->
  In {| log_data := payload w0 w1 w2 w3 w4;
        log_timeStamp := ts; log_transactionHash := hash |} logs ->
  owns positions a (Word256.unsigned w1) ->
  signed256 (Word256.unsigned w2) <> 0 \/
  signed256 (Word256.unsigned w3) <> 0 ->
  exists d,
    decodeEvent {| log_data := payload w0 w1 w2 w3 w4;
                   log_timeStamp := ts; log_transactionHash := hash |}
      info prices = Some d /\
    rows d <> [] /\ incl (rows d) ledger.
Proof.
  intros Hch Hg Hf Hr Hfe L0 L1 L2 L3 L4 Hl Ho Hnz.
  unfold fetchForPositions, collectTransactions in Hf. rewrite Hg in Hf.
  destruct (collect_vaults serve fuel vaultMap prices src [] [])
    as [c|] eqn:Ec; [|discriminate].
  destruct (run_result c) as [rows0|] eqn:Er;
    [|injection Hf as <-; rewrite Er in Hr; discriminate].
  injection Hf as <-. cbn [run_result] in Hr. injection Hr as <-.
  destruct (collect_vaults_fetched _ _ _ _ _ _ _ _ Ec Er) as [_ Hfetched].
  destruct (Hfetched a info logs Hfe) as [Hm Hrows].
  destruct (group_positions_inv Math_log10 positions [] [] vaultMap Hg)
    as (_ & _ & He);
    [constructor|intros x; reflexivity|intros x i []|].
  cbn [app] in He.
  destruct (He a info Hm) as (_ & Hown & pos & (bf & af & Ep & _) & Hmeta).
  assert (Hpos : chain_position pos).
  { rewrite Forall_forall in Hch. apply Hch. rewrite Ep.
    apply in_or_app. right. left. reflexivity. }
  destruct Hpos as [Hs Hb].
  unfold vault_metadata in Hmeta. cbn [new_vault_info supplyToken
    borrowToken supplySymbol borrowSymbol supplyName borrowName
    supplyDecimals borrowDecimals] in Hmeta.
  injection Hmeta as _ _ _ _ _ _ Esd Ebd.
  assert (Vs : valid_decimals (supplyDecimals info)).
  { rewrite Esd. cbn [_getDecimals].
    destruct (inferDecimals_chain Math_log10 log10_defined _ _ Hs)
      as (d & E & Hd). exists d. split; [exact E|lia]. }
  assert (Vb : valid_decimals (borrowDecimals info)).
  { rewrite Ebd. cbn [_getDecimals].
    destruct (inferDecimals_chain Math_log10 log10_defined _ _ Hb)
      as (d & E & Hd). exists d. split; [exact E|lia]. }
  destruct (decodeEvent_payload w0 w1 w2 w3 w4 ts hash info prices
              L0 L1 L2 L3 L4 Vs Vb Hnz) as (d & Ed & Eid & Hne).
  exists d. split; [exact Ed|]. split; [exact Hne|].
  intros x Hx.
  apply (Permutation_in _ (array_sort_perm by_timestamp_desc rows0)).
  apply Hrows. eapply rows_of_logs_incl; [exact Hl|exact Ed| |exact Hx].
  apply Hown. rewrite Eid. exact Ho.
Qed.

End CompleteFacts.

Lemma owned_events_reach_ledger_witness :
  exists ledger d,
    option_map run_result
      (fetchForPositions
         (fun (_ : unit) (_ : request) => (Sample.events_page, tt))
         Sample.log10 5 [Sample.pos] Sample.prices tt)
    = Some (Returned ledger) /\
    decodeEvent (Sample.entry 6 (-500000000000000000) 0 "0xc8")
      Sample.info Sample.prices = Some d /\
    rows d <> [] /\ incl (rows d) ledger.
Proof.
  set (serve := fun (_ : unit) (_ : request) => (Sample.events_page, tt)).
  destruct (fetchForPositions serve Sample.log10 5 [Sample.pos]
              Sample.prices tt) as [r|] eqn:E;
    [|vm_compute in E; discriminate E].
  destruct (run_result r) as [ledger|] eqn:Er;
    [|vm_compute in E; injection E as <-; discriminate Er].
  assert (Hch : Forall chain_position [Sample.pos]).
  { constructor; [|constructor]. split.
    - exists 1500000000000000000, (JSNumber.parseFloat "1.5").
      split; [lia|]. split; [reflexivity|]. split; [reflexivity|].
      right. vm_compute. exact I.
    - exists 250000000, (JSNumber.of_Z 250).
      split; [lia|]. split; [reflexivity|]. split; [reflexivity|].
      right. vm_compute. exact I. }
  assert (Hg : group_positions Sample.log10 [Sample.pos] []
               = Some [(Sample.vault, Sample.info)])
    by (vm_compute; reflexivity).
  assert (Hfe : In (Sample.vault, Sample.info, Sample.events)
                  (fetched serve 5 [(Sample.vault, Sample.info)] tt []))
    by (left; reflexivity).
  destruct (owned_events_reach_ledger serve Sample.log10
              sample_log10_defined 5 [Sample.pos] Sample.prices tt
              [(Sample.vault, Sample.info)] r ledger
              Sample.vault Sample.info Sample.events
              (Word256.of_Z 0) (Word256.of_Z 6)
              (Word256.of_Z (-500000000000000000)) (Word256.of_Z 0)
              (Word256.of_Z 0) "0xc8" "0xfeed"
              Hch Hg E Er Hfe eq_refl eq_refl eq_refl eq_refl eq_refl)
    as (d & Ed & Hne & Hin).
  - right. right. right. left. reflexivity.
  - exists Sample.pos. split; [left; reflexivity|]. split; reflexivity.
  - left. vm_compute. discriminate.
  - exists ledger, d. split; [cbn [option_map]; now rewrite Er|].
    split; [exact Ed|]. split; assumption.
Defined.


(** ** The decimals [_inferDecimals] recovers *)

Section InferValue.

Import JSString JSBigInt JSNumber.
Local Open Scope R_scope.

Lemma p2_lt_inv (a b : Z) : p2 a < p2 b -> (a < b)%Z.
Proof.
  intros H. destruct (Z.lt_ge_cases a b) as [|G]; [assumption|].
  pose proof (p2_le b a ltac:(lia)). lra.
Qed.

Lemma p2_m53_small : 0 < p2 (-53) <= / 1000.
Proof.
  pose proof (p2_pos (-53)) as P. split; [exact P|].
  pose proof (p2_opp 53) as O. rewrite (p2_IZR 53) in O by lia.
  change (2 ^ 53)%Z with 9007199254740992%Z in O.
  change (- (53))%Z with (-53)%Z in O. lra.
Qed.

(** The value of a finite Number, between two powers of two. *)
Lemma value_bounds (m : positive) (e : Z) :
  p2 (Zdigits2 (Zpos m) + e - 1) <= IZR (Zpos m) * p2 e
  < p2 (Zdigits2 (Zpos m) + e).
Proof.
  pose proof (Zdigits2_bounds (Zpos m) ltac:(lia)) as [L U].
  assert (D : (1 <= Zdigits2 (Zpos m))%Z).
  { destruct (Z.le_gt_cases 1 (Zdigits2 (Zpos m))) as [|G]; [assumption|].
    assert (2 ^ Zdigits2 (Zpos m) <= 2 ^ 0)%Z.
    { destruct (Z.le_gt_cases 0 (Zdigits2 (Zpos m))).
      - apply Z.pow_le_mono_r; lia.
      - rewrite Z.pow_neg_r by lia. cbn. lia. }
    change (2 ^ 0)%Z with 1%Z in *. lia. }
  apply IZR_le in L. apply IZR_lt in U.
  rewrite <- p2_IZR in L, U by lia.
  replace (Zdigits2 (Zpos m) + e - 1)%Z
    with (Zdigits2 (Zpos m) - 1 + e)%Z by lia.
  rewrite !p2_add. pose proof (p2_pos e). split; nra.
Qed.

(** The quotient of two positive finite Numbers, inside the normal
    range: correctly rounded. *)
Lemma div_relative (ma mb : positive) (ea eb : Z) :
  let g := (Zdigits2 (Zpos ma) + ea - (Zdigits2 (Zpos mb) + eb))%Z in
  (-1021 <= g <= 1022)%Z ->
  exists (m : positive) (e : Z),
    div (S754_finite false ma ea) (S754_finite false mb eb)
    = S754_finite false m e /\
    canonical (S754_finite false m e) /\
    Rabs (IZR (Zpos m) * p2 e
          - IZR (Zpos ma) * p2 ea / (IZR (Zpos mb) * p2 eb))
    <= IZR (Zpos ma) * p2 ea / (IZR (Zpos mb) * p2 eb) * p2 (-53).
Proof.
  intros g Hg. unfold div. cbn [SFdiv xorb].
  destruct (SFdiv_core_spec (Zpos ma) ea (Zpos mb) eb
              ltac:(lia) ltac:(lia))
    as (q & e' & l & E & Pq & L & Dq & G).
  { unfold emin, prec, emax. fold g. lia. }
  fold g in G. rewrite E.
  destruct (binary_round_aux_error false q e' l _ Pq L Dq)
    as (m & e & m1 & E1 & V & _ & Er & [Xl _] & C & _).
  { unfold emin, prec, emax. lia. }
  exists m, e. split; [exact E1|]. split; [exact C|].
  rewrite V. eapply Rle_trans; [exact Er|].
  set (e1 := (Zdigits2 q + e' - 53)%Z) in *.
  replace (e1 + 52)%Z with (e1 + 53 + -1)%Z in Xl by lia.
  rewrite p2_add in Xl.
  assert (H1 : p2 (-1) = / 2).
  { unfold p2. cbn [powerRZ]. change (Pos.to_nat 1) with 1%nat.
    now rewrite pow_1. }
  rewrite H1 in Xl.
  replace (p2 e1) with (p2 (e1 + 53) * p2 (-53))
    by (rewrite <- p2_add; f_equal; lia).
  pose proof (p2_pos (-53)). pose proof (p2_pos (e1 + 53)). nra.
Qed.

(** [parseFloat] of the decimal text of an integer: the integer,
    correctly rounded. *)
Lemma parseFloat_to_string_value (v : Z) :
  (0 < v < 2 ^ 256)%Z ->
  exists (m : positive) (e : Z),
    parseFloat (to_string v) = S754_finite false m e /\
    Rabs (IZR (Zpos m) * p2 e - IZR v) <= IZR v * p2 (-53).
Proof.
  intros Hv. unfold to_string.
  replace (v <? 0)%Z with false by (symmetry; apply Z.ltb_ge; lia).
  destruct (digits_spec v ltac:(lia)) as [T _].
  rewrite (parseFloat_digits _ _ T). unfold of_decimal.
  replace (v =? 0)%Z with false by (symmetry; apply Z.eqb_neq; lia).
  cbn [Z.leb Z.compare]. change (10 ^ 0)%Z with 1%Z. rewrite Z.mul_1_r.
  destruct (round_ratio_relative v 1) as (m & e & E & _ & Er);
    [lia|lia| |].
  { change (Zdigits2 1) with 1%Z.
    assert (1 <= Zdigits2 v <= 256)%Z by (apply Zdigits2_le; lia). lia. }
  exists m, e. split; [exact E|].
  replace (IZR v / 1) with (IZR v) in Er by field. exact Er.
Qed.

(** The ratio [_inferDecimals] takes the logarithm of: between half
    and twice the power of ten. *)
Lemma ratio_near_power (v d : Z) (f : number) :
  (0 < v < 2 ^ 256)%Z -> (0 <= d <= 18)%Z -> formatted_amount v d f ->
  exists (m : positive) (e : Z),
    div (parseFloat (to_string v)) f = S754_finite false m e /\
    IZR (10 ^ d) / 2 <= IZR (Zpos m) * p2 e <= 2 * IZR (10 ^ d).
Proof.
  intros Hv Hd [Pf Hf].
  destruct f as [| | |[|] mb eb]; try contradiction.
  cbn [B2R] in Hf.
  destruct (parseFloat_to_string_value v Hv) as (ma & ea & Ea & Ha).
  rewrite Ea.
  set (A := IZR (Zpos ma) * p2 ea) in *.
  set (B := IZR (Zpos mb) * p2 eb) in *.
  set (V := IZR v) in *. set (T := IZR (10 ^ d)) in *.
  pose proof p2_m53_small as [E0 E1].
  assert (PV : 0 < V) by (apply IZR_lt; lia).
  assert (PT : 1 <= T <= 1000000000000000000).
  { unfold T. split.
    - apply IZR_le. assert (0 < 10 ^ d)%Z by (apply Z.pow_pos_nonneg; lia).
      lia.
    - apply IZR_le.
      change 1000000000000000000%Z with (10 ^ 18)%Z.
      apply Z.pow_le_mono_r; lia. }
  set (W := V / T) in *.
  assert (HW : W * T = V) by (unfold W; field; lra).
  assert (PW : 0 < W) by (unfold W; apply Rdiv_lt_0_compat; lra).
  apply Rabs_le_between in Ha. apply Rabs_le_between in Hf.
  assert (PB : 0 < B) by lra.
  assert (PA : 0 < A) by nra.
  set (X := A / B).
  assert (HX : X * B = A) by (unfold X; field; lra).
  assert (PX : 0 < X) by (unfold X; apply Rdiv_lt_0_compat; lra).
  assert (XU : X <= 134 / 100 * T).
  { apply (Rmult_le_reg_r B); [exact PB|]. rewrite HX.
    assert (T * B >= T * (3 * W / 4)) by nra. nra. }
  assert (XL : 79 / 100 * T <= X).
  { apply (Rmult_le_reg_r B); [exact PB|]. rewrite HX.
    assert (T * B <= T * (5 * W / 4)) by nra. nra. }
  pose proof (value_bounds ma ea) as [La Ua]. fold A in La, Ua.
  pose proof (value_bounds mb eb) as [Lb Ub]. fold B in Lb, Ub.
  set (ga := (Zdigits2 (Zpos ma) + ea)%Z) in *.
  set (gb := (Zdigits2 (Zpos mb) + eb)%Z) in *.
  assert (G : (-1021 <= ga - gb <= 1022)%Z).
  { assert (G1 : p2 (ga - gb - 1) < p2 61).
    { assert (p2 (ga - gb - 1) * B < X * B).
      { rewrite HX. eapply Rlt_le_trans; [|exact La].
        replace (ga - 1)%Z with (ga - gb - 1 + gb)%Z by lia.
        rewrite p2_add. pose proof (p2_pos (ga - gb - 1)). nra. }
      assert (p2 (ga - gb - 1) < X) by nra.
      rewrite (p2_IZR 61) by lia.
      change (2 ^ 61)%Z with 2305843009213693952%Z. lra. }
    assert (G2 : p2 (-1) < p2 (ga - gb + 1)).
    { assert (X * B < p2 (ga - gb + 1) * B).
      { rewrite HX. eapply Rlt_le_trans; [exact Ua|].
        replace ga with (ga - gb + 1 + (gb - 1))%Z at 1 by lia.
        rewrite p2_add. pose proof (p2_pos (ga - gb + 1)). nra. }
      assert (X < p2 (ga - gb + 1)) by nra.
      assert (H1 : p2 (-1) = / 2).
      { unfold p2. cbn [powerRZ]. change (Pos.to_nat 1) with 1%nat.
        now rewrite pow_1. }
      rewrite H1. lra. }
    apply p2_lt_inv in G1. apply p2_lt_inv in G2. lia. }
  destruct (div_relative ma mb ea eb G) as (m & e & E & _ & Er).
  exists m, e. split; [exact E|].
  fold A B X in Er. apply Rabs_le_between in Er.
  split; nra.
Qed.

(** [Math.round] and the clamp, on a value less than one half away
    from an integer from 0 to 18: that integer. *)
Lemma clamp_near (y : number) (k : Z) :
  (0 <= k <= 18)%Z -> within_half y k ->
  Math_max (of_Z 0) (Math_min (Math_round y) (of_Z 18)) = of_Z k.
Proof.
  intros Hk H. destruct y as [s|s| |s m e]; cbn [within_half] in H;
    try contradiction.
  - subst k. destruct s; reflexivity.
  - destruct H as [C H]. cbn [B2R] in H.
    set (v := if s then Zneg m else Zpos m) in *.
    pose proof (canonical_mantissa _ _ _ C) as [Lm _].
    change (2 ^ 52)%Z with 4503599627370496%Z in Lm.
    assert (Av : 4503599627370496 <= Rabs (IZR v)).
    { unfold v. destruct s.
      - change (Zneg m) with (- Zpos m)%Z. rewrite opp_IZR, Rabs_Ropp.
        rewrite Rabs_pos_eq; lra.
      - rewrite Rabs_pos_eq; lra. }
    assert (Bk : 0 <= IZR k <= 18)
      by (split; apply IZR_le; lia).
    destruct (Z.leb_spec 0 e) as [L|G].
    { exfalso. pose proof (p2_le 0 e L) as P. rewrite p2_0 in P.
      apply Rabs_def2 in H as [H1 H2].
      unfold Rabs in Av. destruct (Rcase_abs (IZR v)); nra. }
    cbn [Math_round].
    replace (0 <=? e)%Z with false by (symmetry; apply Z.leb_gt; lia).
    fold v.
    set (j := (- e)%Z). assert (Hj : (0 < j)%Z) by (unfold j; lia).
    assert (P : (0 < 2 ^ j)%Z) by (apply Z.pow_pos_nonneg; lia).
    assert (Pj : 0 < IZR (2 ^ j)) by (apply IZR_lt; exact P).
    assert (V : IZR v * p2 e * IZR (2 ^ j) = IZR v).
    { rewrite <- (p2_IZR j) by lia. unfold j.
      rewrite Rmult_assoc, p2_opp. ring. }
    apply Rabs_def2 in H as [H1 H2].
    assert (A1 : ((2 * k - 1) * 2 ^ j < 2 * v)%Z).
    { apply lt_IZR. rewrite !mult_IZR, minus_IZR, mult_IZR. nra. }
    assert (A2 : (2 * v < (2 * k + 1) * 2 ^ j)%Z).
    { apply lt_IZR. rewrite !mult_IZR, plus_IZR, mult_IZR. nra. }
    assert (Ez : ((2 * v + 2 ^ j) / 2 ^ (j + 1) = k)%Z).
    { rewrite Z.pow_add_r, Z.pow_1_r by lia.
      symmetry. apply (Z.div_unique _ _ k
                         (2 * v + 2 ^ j - 2 ^ j * 2 * k)); lia. }
    rewrite Ez. destruct (Z.eqb_spec k 0) as [->|N].
    + destruct s; reflexivity.
    + unfold Math_min.
      rewrite SFcompare_of_Z
        by (split; [lia|apply Z.le_lt_trans with 18%Z; [lia|reflexivity]]).
      destruct (Z.compare_spec k 18) as [->|Lt18|Gt18]; [| |lia].
      * reflexivity.
      * unfold Math_max.
        rewrite SFcompare_of_Z
          by (split; [lia|apply Z.le_lt_trans with 18%Z; [lia|reflexivity]]).
        replace (0 ?= k)%Z with Lt
          by (symmetry; apply Z.compare_lt_iff; lia).
        reflexivity.
Qed.

(** The decimals recovered from an amount and its raw text. *)
Lemma inferDecimals_recovers (Math_log10 : number -> number)
    (v d : Z) (f : number) :
  log10_near_powers Math_log10 ->
  (0 < v < 2 ^ 256)%Z -> (0 <= d <= 18)%Z -> formatted_amount v d f ->
  _inferDecimals Math_log10 (Some (to_string v)) (Some f) = of_Z d.
Proof.
  intros Hlog Hv Hd Hf.
  destruct (ratio_near_power v d f Hv Hd Hf) as (m & e & E & B).
  unfold _inferDecimals.
  assert (U : use_default_decimals (Some (to_string v)) (Some f) = false).
  { destruct Hf as [Pf _].
    destruct f as [| | |[|] mb eb]; try contradiction.
    unfold use_default_decimals.
    cbn [truthy negb eqb SFeqb SFcompare of_Z binary_normalize orb].
    rewrite !orb_false_r.
    destruct (digits_spec v ltac:(lia)) as [(Ad & Ne & Vd) _].
    unfold to_string.
    replace (v <? 0)%Z with false by (symmetry; apply Z.ltb_ge; lia).
    destruct (digits v) as [|c t] eqn:Ed; [contradiction|].
    cbn [String.eqb].
    destruct (Ascii.eqb_spec c "0") as [->|Nc]; [|reflexivity].
    destruct t as [|c' t']; [|reflexivity].
    exfalso. specialize (Vd 0%Z). cbn in Vd. lia. }
  rewrite U, E. apply clamp_near; [exact Hd|].
  rewrite <- E. apply Hlog; [exact Hd|rewrite E; exact I|].
  rewrite E. exact B.
Qed.

(** The sample logarithm to the nearest exponent. *)
Lemma at_most_spec (m : positive) (e n : Z) :
  Sample.at_most m e n = true <-> IZR (Zpos m) * p2 e <= IZR n.
Proof.
  unfold Sample.at_most. destruct (Z.leb_spec 0 e) as [L|G].
  - rewrite p2_IZR, <- mult_IZR by assumption. rewrite Z.leb_le.
    split; [apply IZR_le|apply le_IZR].
  - rewrite Z.leb_le.
    assert (P : 0 < p2 (- e)) by apply p2_pos.
    pose proof (p2_pos e) as P'.
    assert (O : p2 e * p2 (- e) = 1) by apply p2_opp.
    split.
    + intros H. apply IZR_le in H.
      rewrite mult_IZR, <- p2_IZR in H by lia.
      apply (Rmult_le_reg_r (p2 (- e))); [exact P|].
      rewrite Rmult_assoc, O. lra.
    + intros H. apply le_IZR. rewrite mult_IZR, <- p2_IZR by lia.
      apply (Rmult_le_compat_r (p2 (- e))) in H; [|lra].
      rewrite Rmult_assoc, O in H. lra.
Qed.

Lemma exponent_from_spec (m : positive) (e k : Z) (fuel : nat) :
  forall k0 : Z,
    (k0 <= k)%Z -> (k - k0 < Z.of_nat fuel)%Z ->
    (forall j, (k0 <= j < k)%Z ->
               Sample.at_most m e (2 * 10 ^ j) = false) ->
    Sample.at_most m e (2 * 10 ^ k) = true ->
    Sample.exponent_from fuel k0 m e = k.
Proof.
  induction fuel as [|fuel IH]; intros k0 H0 Hf Hb Hk; [lia|].
  cbn [Sample.exponent_from].
  destruct (Z.eq_dec k0 k) as [->|N]; [now rewrite Hk|].
  rewrite Hb by lia. apply IH; [lia|lia| |exact Hk].
  intros j Hj. apply Hb. lia.
Qed.

Lemma sample_log10_nearest_accurate :
  log10_near_powers Sample.log10_nearest.
Proof.
  intros x k Hk Px [L U].
  destruct x as [| | |[|] m e]; try contradiction.
  cbn [B2R] in L, U. cbn [Sample.log10_nearest].
  assert (E : Sample.exponent_from 330 0 m e = k).
  { apply exponent_from_spec; [lia|lia| |].
    - intros j Hj.
      destruct (Sample.at_most m e (2 * 10 ^ j)) eqn:Ej; [|reflexivity].
      exfalso. apply at_most_spec in Ej.
      assert (4 * 10 ^ j < 10 ^ k)%Z.
      { replace k with (k - j + j)%Z by lia.
        rewrite Z.pow_add_r by lia.
        assert (0 < 10 ^ j)%Z by (apply Z.pow_pos_nonneg; lia).
        assert (10 ^ 1 <= 10 ^ (k - j))%Z
          by (apply Z.pow_le_mono_r; lia).
        change (10 ^ 1)%Z with 10%Z in *. nia. }
      assert (IZR (4 * 10 ^ j) < IZR (10 ^ k)) by (now apply IZR_lt).
      rewrite !mult_IZR in *. lra.
    - apply at_most_spec. rewrite mult_IZR. lra. }
  rewrite E. destruct (Z.eq_dec k 0) as [->|N]; [reflexivity|].
  destruct (of_Z_value k) as (m' & e' & -> & C & _ & V);
    [split; [lia|apply Z.le_lt_trans with 18%Z; [lia|reflexivity]]|].
  cbn [within_half B2R]. split; [exact C|].
  rewrite V. replace (IZR k - IZR k) with 0 by ring.
  rewrite Rabs_R0. lra.
Qed.

Lemma sample_log10_nearest_defined (x : number) :
  has_sign false x -> Sample.log10_nearest x <> S754_nan.
Proof.
  destruct x as [s|s| |s m e];
    cbn [has_sign Sample.log10_nearest Sample.log10];
    intros H; try contradiction; subst; try discriminate.
  apply of_Z_not_nan.
Qed.

(** The amount of a whole number of units. *)
Lemma formatted_amount_whole (a d : Z) :
  (0 < a < 2 ^ 53)%Z -> (0 <= d)%Z ->
  formatted_amount (a * 10 ^ d) d (of_Z a).
Proof.
  intros Ha Hd.
  destruct (of_Z_value a Ha) as (m & e & -> & _ & _ & V).
  split; [exact I|]. cbn [B2R]. rewrite V, mult_IZR.
  assert (0 < IZR (10 ^ d))
    by (apply IZR_lt, Z.pow_pos_nonneg; lia).
  assert (0 < IZR a) by (apply IZR_lt; lia).
  replace (IZR a * IZR (10 ^ d) / IZR (10 ^ d)) with (IZR a)
    by (field; lra).
  replace (IZR a - IZR a) with 0 by ring. rewrite Rabs_R0. lra.
Qed.

End InferValue.

(** C10. The decimals of a vault's tokens come from [_inferDecimals] on
    the position's raw amount text and formatted amount, not from token
    metadata. It gives the default 18 when the text is absent, empty or
    "0", or the amount absent or zero; and when the text parses to a
    positive finite Number and the amount is one, it gives an integer from
    0 to 18, for any [Math.log10] that is never [NaN] on a Number that is
    neither [NaN] nor negative: so [_formatUnits] does not throw on it.
    The integer is the rounded logarithm of the ratio of the raw amount
    to the formatted one: for a raw amount [v] and an amount within a
    quarter of [v / 10^d], with [d] from 0 to 18, it is [d] itself, for
    any [Math.log10] that is less than one half off the exponent between
    half and twice a power of ten. *)
Theorem inferDecimals_clamped
    (Math_log10 : JSNumber.number -> JSNumber.number)
    (log10_defined : forall x, has_sign false x -> Math_log10 x <> S754_nan) :
  (forall pos,
      _getDecimals Math_log10 pos supply_side
        = _inferDecimals Math_log10 (pos_supply pos) (pos_collateral_amount pos) /\
      _getDecimals Math_log10 pos borrow_side
        = _inferDecimals Math_log10 (pos_borrow pos) (pos_debt_amount pos)) /\
  (forall rawStr formattedAmount,
      missing_or_0 rawStr \/ missing_or_zero formattedAmount ->
      _inferDecimals Math_log10 rawStr formattedAmount = JSNumber.of_Z 18) /\
  (forall s f,
      positive_finite (JSNumber.parseFloat s) -> positive_finite f ->
      (exists d, 0 <= d <= 18 /\
         JSNumber.to_BigInt (_inferDecimals Math_log10 (Some s) (Some f))
           = Some d) /\
      forall value, exists amount,
        _formatUnits value (_inferDecimals Math_log10 (Some s) (Some f))
          = Some amount) /\
  (log10_near_powers Math_log10 ->
   forall v d f,
     0 < v < 2 ^ 256 -> 0 <= d <= 18 -> formatted_amount v d f ->
     _inferDecimals Math_log10 (Some (JSBigInt.to_string v)) (Some f)
     = JSNumber.of_Z d).
Proof.
  split; [|split; [|split]].
  - intros pos. split; reflexivity.
  - intros rawStr f H. unfold _inferDecimals.
    destruct rawStr as [s|]; [|reflexivity].
    destruct f as [x|]; [|reflexivity].
    assert (U : use_default_decimals (Some s) (Some x) = true);
      [|now rewrite U].
    unfold use_default_decimals.
    destruct H as [[H|[H|H]]|[H|(s' & H)]]; try discriminate H;
      injection H as ->; cbn [String.eqb Ascii.eqb Bool.eqb orb andb
                              JSNumber.truthy negb];
      try reflexivity.
    now rewrite orb_true_r.
  - intros s f Hs Hf.
    assert (D : exists d, 0 <= d <= 18 /\
                  JSNumber.to_BigInt (_inferDecimals Math_log10 (Some s) (Some f))
                  = Some d).
    { unfold _inferDecimals.
      destruct (use_default_decimals (Some s) (Some f)).
      - exists 18. split; [lia|reflexivity].
      - apply clamp_rounded, Math_round_rounded, log10_defined.
        apply div_positive_finite; assumption. }
    split; [exact D|].
    intros value. apply formatUnits_total.
    destruct D as (d & Hd & E). exists d. split; [exact E|lia].
  - intros Hlog v d f Hv Hd Hf.
    now apply inferDecimals_recovers.
Qed.

Lemma inferDecimals_clamped_witness :
  _inferDecimals Sample.log10_nearest (Some "250000000"%string)
    (Some (JSNumber.of_Z 250)) = JSNumber.of_Z 6 /\
  _inferDecimals Sample.log10_nearest (Some "250000000"%string)
    (Some (JSNumber.of_Z 25)) = JSNumber.of_Z 7 /\
  _inferDecimals Sample.log10_nearest (Some "0"%string)
    (Some (JSNumber.of_Z 250)) = JSNumber.of_Z 18.
Proof.
  destruct (inferDecimals_clamped Sample.log10_nearest
              sample_log10_nearest_defined) as (_ & D & _ & H).
  split; [|split].
  - exact (H sample_log10_nearest_accurate 250000000 6 (JSNumber.of_Z 250)
             ltac:(lia) ltac:(lia)
             (formatted_amount_whole 250 6 ltac:(lia) ltac:(lia))).
  - exact (H sample_log10_nearest_accurate 250000000 7 (JSNumber.of_Z 25)
             ltac:(lia) ltac:(lia)
             (formatted_amount_whole 25 7 ltac:(lia) ltac:(lia))).
  - apply D. left. right. right. reflexivity.
Defined.


(** ** The statement: account number *)

Section MaskFacts.

Import JSString JSText JSBigInt JSNumber.

Lemma take_drop (k : nat) (s : string) : (take k s ++ drop k s)%string = s.
Proof.
  revert s. induction k as [|k IH]; intros s; [reflexivity|].
  destruct s as [|c s]; [reflexivity|]. cbn. now rewrite IH.
Qed.

Lemma length_take (k : nat) (s : string) :
  String.length (take k s) = Nat.min k (String.length s).
Proof.
  revert s. induction k as [|k IH]; intros s; [reflexivity|].
  destruct s as [|c s]; [reflexivity|]. cbn. now rewrite IH.
Qed.

Lemma length_padStart0 (n : nat) (s : string) :
  String.length (padStart0 n s) = Nat.max n (String.length s).
Proof.
  unfold padStart0. rewrite length_append, length_zeros. lia.
Qed.

Lemma length_slice_last (n : nat) (s : string) :
  String.length (slice_last n s) = Nat.min n (String.length s).
Proof. unfold slice_last. rewrite length_drop. lia. Qed.

Lemma dec_value_linear (s : string) (a : Z) :
  dec_value a s = a * 10 ^ Z.of_nat (String.length s) + dec_value 0 s.
Proof.
  revert a. induction s as [|c s IH]; intros a.
  - cbn. lia.
  - cbn [dec_value String.length].
    rewrite IH, (IH (10 * 0 + _)), Nat2Z.inj_succ, Z.pow_succ_r by lia.
    lia.
Qed.

Lemma all_digits_value_bound (s : string) :
  all_digits s = true ->
  0 <= dec_value 0 s < 10 ^ Z.of_nat (String.length s).
Proof.
  induction s as [|c s IH]; intros H; [cbn; lia|].
  unfold all_digits in H. cbn [list_ascii_of_string forallb] in H.
  apply andb_prop in H as [Hc Hs].
  destruct (is_digit_facts c Hc) as (_ & B & _).
  specialize (IH Hs). cbn [dec_value String.length].
  rewrite dec_value_linear, Nat2Z.inj_succ, Z.pow_succ_r by lia.
  nia.
Qed.

Lemma is_digit_inj (c c' : ascii) :
  is_digit c = true -> is_digit c' = true ->
  Z.of_nat (nat_of_ascii c) - 48 = Z.of_nat (nat_of_ascii c') - 48 ->
  c = c'.
Proof.
  intros _ _ H. rewrite <- (ascii_nat_embedding c),
    <- (ascii_nat_embedding c'). f_equal. lia.
Qed.

(** Two runs of digits of the same length and the same value are the
    same text. *)
Lemma all_digits_inj (s t : string) :
  all_digits s = true -> all_digits t = true ->
  String.length s = String.length t ->
  dec_value 0 s = dec_value 0 t -> s = t.
Proof.
  revert t. induction s as [|c s IH]; intros [|c' t] Hs Ht L V;
    try discriminate; [reflexivity|].
  unfold all_digits in Hs, Ht.
  cbn [list_ascii_of_string forallb] in Hs, Ht.
  apply andb_prop in Hs as [Hc Hs]. apply andb_prop in Ht as [Hc' Ht].
  destruct (is_digit_facts c Hc) as (_ & B & _).
  destruct (is_digit_facts c' Hc') as (_ & B' & _).
  cbn [String.length] in L. injection L as L.
  cbn [dec_value] in V.
  rewrite (dec_value_linear s), (dec_value_linear t), L in V.
  pose proof (all_digits_value_bound s Hs) as Bs.
  pose proof (all_digits_value_bound t Ht) as Bt.
  rewrite L in Bs.
  set (P := 10 ^ Z.of_nat (String.length t)) in *.
  assert (E : Z.of_nat (nat_of_ascii c) - 48 = Z.of_nat (nat_of_ascii c') - 48)
    by nia.
  f_equal; [now apply is_digit_inj|].
  apply IH; try assumption. nia.
Qed.

(** The last four digits of a text of at least four digits. *)
Lemma slice_last_digits (P : string) (n : Z) :
  all_digits P = true -> (4 <= String.length P)%nat ->
  dec_value 0 P = n ->
  all_digits (slice_last 4 P) = true /\
  String.length (slice_last 4 P) = 4%nat /\
  dec_value 0 (slice_last 4 P) = n mod 10000.
Proof.
  intros A L V. unfold slice_last.
  set (k := (String.length P - 4)%nat).
  pose proof (take_drop k P) as E.
  rewrite <- E in A. rewrite all_digits_app in A.
  apply andb_prop in A as [A1 A2].
  assert (L2 : String.length (drop k P) = 4%nat)
    by (rewrite length_drop; unfold k; lia).
  split; [exact A2|]. split; [exact L2|].
  assert (V' : n = dec_value 0 (take k P) * 10 ^ Z.of_nat 4
                   + dec_value 0 (drop k P)).
  { rewrite <- V.
    transitivity (dec_value 0 (take k P ++ drop k P)); [now rewrite E|].
    rewrite dec_value_app,
      (dec_value_linear (drop k P) (dec_value 0 (take k P))), L2.
    reflexivity. }
  pose proof (all_digits_value_bound _ A2) as B. rewrite L2 in B.
  change (10 ^ Z.of_nat 4) with 10000 in *.
  apply (Z.mod_unique _ _ (dec_value 0 (take k P))); lia.
Qed.

End MaskFacts.

(** X13. The account number of the statement is [****] followed by four
    characters, eight characters in all whatever the positions: [0000]
    when there is no position, and otherwise, the NFT id of the first
    position being the decimal text of [n], the four digits of
    [n mod 10000], with zeros in front. No other digit of an id is
    shown. *)
Theorem maskedAccountNumber_last_four :
  Generator.maskedAccountNumber [] = "****0000"%string /\
  (forall pos rest,
      String.length (Generator.maskedAccountNumber (pos :: rest)) = 8%nat) /\
  (forall pos rest n,
      0 <= n -> pos_nftId pos = JSBigInt.to_string n ->
      Generator.maskedAccountNumber (pos :: rest)
      = ("****"
         ++ JSString.padStart0 4 (JSBigInt.to_string (n mod 10000)))%string).
Proof.
  split; [reflexivity|]. split.
  - intros pos rest. unfold Generator.maskedAccountNumber.
    rewrite length_append, length_slice_last, length_padStart0.
    cbn [String.length]. lia.
  - intros pos rest n Hn E. unfold Generator.maskedAccountNumber.
    f_equal. rewrite E. unfold JSBigInt.to_string.
    assert (M : 0 <= n mod 10000 < 10000) by (apply Z.mod_pos_bound; lia).
    replace (n <? 0) with false by (symmetry; apply Z.ltb_ge; lia).
    replace (n mod 10000 <? 0) with false by (symmetry; apply Z.ltb_ge; lia).
    destruct (padStart0_decimal 4 n Hn) as (A & L & V).
    destruct (padStart0_decimal 4 (n mod 10000) (proj1 M)) as (A' & L' & V').
    destruct (digits_spec (n mod 10000) (proj1 M)) as [_ K].
    specialize (K 4 ltac:(lia) ltac:(change (10 ^ 4) with 10000; lia)).
    cbv zeta in *.
    destruct (slice_last_digits _ n A ltac:(rewrite L; lia)) as (A2 & L2 & V2).
    { rewrite V. lia. }
    apply all_digits_inj; try assumption.
    + rewrite L2, L'. lia.
    + rewrite V2, V'. lia.
Qed.

Lemma maskedAccountNumber_last_four_witness :
  Generator.maskedAccountNumber
    [{| pos_nftId := "1234567"; pos_vaultAddress := Sample.vault;
        pos_supplyToken := ""; pos_borrowToken := "";
        pos_supply := None; pos_borrow := None;
        pos_collateral_amount := None; pos_collateral_symbol := "";
        pos_collateral_name := ""; pos_debt_amount := None;
        pos_debt_symbol := ""; pos_debt_name := "" |}; Sample.pos]
  = "****4567"%string /\
  Generator.maskedAccountNumber [Sample.pos] = "****0006"%string.
Proof.
  destruct maskedAccountNumber_last_four as (_ & _ & H). split.
  - rewrite (H _ _ 1234567); [reflexivity|lia|reflexivity].
  - rewrite (H _ _ 6); [reflexivity|lia|reflexivity].
Defined.


(** ** The statement: totals *)

Section TotalsFacts.

Import JSNumber JSArith.

Lemma add_has_sign (a b : number) :
  has_sign false a -> has_sign false b -> has_sign false (add a b).
Proof.
  destruct a as [sa|sa| |sa ma ea]; destruct b as [sb|sb| |sb mb eb];
    cbn [has_sign]; intros Ha Hb; try contradiction; subst;
    try reflexivity.
  unfold add. cbn [SFadd cond_Zopp].
  pose proof (shl_align_spec ma ea (Z.min ea eb)) as Sa.
  pose proof (shl_align_spec mb eb (Z.min ea eb)) as Sb.
  destruct (shl_align ma ea (Z.min ea eb)) as [ma' ea'].
  destruct (shl_align mb eb (Z.min ea eb)) as [mb' eb'].
  cbn [fst]. change (Zpos ma' + Zpos mb') with (Zpos (ma' + mb')).
  cbn [binary_normalize]. apply binary_round_sign.
Qed.

Lemma price_or_zero_or_positive (fallback : Z) (prices : price_map)
    (sym : string) :
  fallback = 0 \/ fallback = 1 -> prices_known prices ->
  plain_symbol prices sym ->
  zero_or_positive (price_or fallback (Some prices) sym).
Proof.
  intros Hf Hp Hs. unfold price_or.
  assert (F : zero_or_positive (of_Z fallback)).
  { destruct Hf as [->| ->]; [left; reflexivity|right; exact I]. }
  destruct (prices sym) as [x|] eqn:E.
  - destruct (truthy x); [|exact F]. exact (Hp sym x E).
  - destruct Hs as [Hs|Hs]; [now elim Hs|]. rewrite Hs. exact F.
Qed.

Lemma price_or_inherited (fallback : Z) (prices : price_map)
    (sym : string) :
  inherited_symbol prices sym -> price_or fallback (Some prices) sym = NaN.
Proof. intros [E I]. unfold price_or. now rewrite E, I. Qed.

Lemma mul_NaN (a : number) : mul a NaN = NaN.
Proof. now destruct a. Qed.

Lemma add_NaN_l (a : number) : add NaN a = NaN.
Proof. reflexivity. Qed.

Lemma add_NaN_r (a : number) : add a NaN = NaN.
Proof. now destruct a. Qed.

(** Once a total is [NaN] it stays so. *)
Lemma fold_sums_NaN (prices : price_map)
    (positions : list statement_position) (t : Generator.sums) :
  Generator.totalCollateralUsd t = NaN ->
  Generator.totalCollateralUsd
    (fold_left (Generator.add_position (Some prices)) positions t) = NaN.
Proof.
  revert t. induction positions as [|pos rest IH]; intros t Ht;
    [exact Ht|].
  cbn [fold_left]. apply IH.
  cbn [Generator.add_position Generator.totalCollateralUsd].
  rewrite Ht. apply add_NaN_l.
Qed.

Lemma fold_sums_inherited (prices : price_map)
    (positions : list statement_position) (t : Generator.sums)
    (pos : statement_position) :
  In pos positions ->
  inherited_symbol prices (pos_collateral_symbol (sp_position pos)) ->
  Generator.totalCollateralUsd
    (fold_left (Generator.add_position (Some prices)) positions t) = NaN.
Proof.
  intros Hin Hs. revert t.
  induction positions as [|p rest IH]; intros t; [contradiction|].
  cbn [fold_left]. destruct Hin as [->|Hin]; [|now apply IH].
  apply fold_sums_NaN.
  cbn [Generator.add_position Generator.totalCollateralUsd].
  rewrite (price_or_inherited 0 prices _ Hs), mul_NaN.
  apply add_NaN_r.
Qed.

Lemma fold_sums_sign (prices : price_map)
    (positions : list statement_position) (t : Generator.sums) :
  prices_known prices -> Forall amounts_known positions ->
  Forall (symbols_plain prices) positions ->
  has_sign false (Generator.totalCollateralUsd t) ->
  has_sign false (Generator.totalDebtUsd t) ->
  has_sign false
    (Generator.totalCollateralUsd
       (fold_left (Generator.add_position (Some prices)) positions t)) /\
  has_sign false
    (Generator.totalDebtUsd
       (fold_left (Generator.add_position (Some prices)) positions t)).
Proof.
  intros Hp Ha. revert t.
  induction Ha as [|pos rest ((x & Ex & Hx) & (y & Ey & Hy)) _ IH];
    intros t Hs Hc Hd; [split; assumption|].
  inversion Hs as [|? ? [Sc Sd] Hs']; subst.
  cbn [fold_left]. apply IH; [exact Hs'| |].
  - cbn [Generator.add_position Generator.totalCollateralUsd].
    rewrite Ex. cbn [to_number].
    apply add_has_sign; [exact Hc|].
    apply mul_zero_or_positive; [exact Hx|].
    apply price_or_zero_or_positive; [now left|exact Hp|exact Sc].
  - cbn [Generator.add_position Generator.totalDebtUsd].
    rewrite Ey. cbn [to_number].
    apply add_has_sign; [exact Hd|].
    apply mul_zero_or_positive; [exact Hy|].
    apply price_or_zero_or_positive; [now right|exact Hp|exact Sd].
Qed.

Lemma fold_sums_cards (prices : price_map)
    (positions : list statement_position) (t : Generator.sums) :
  fold_left
    (fun '(totalCollateralUsd, totalDebtUsd) pos =>
       let f := sp_position pos in
       let collateralPrice :=
         price_or 0 (Some prices) (pos_collateral_symbol f) in
       let debtPrice := price_or 1 (Some prices) (pos_debt_symbol f) in
       (add totalCollateralUsd
          (mul (to_number (pos_collateral_amount f)) collateralPrice),
        add totalDebtUsd
          (mul (to_number (pos_debt_amount f)) debtPrice)))
    positions (Generator.totalCollateralUsd t, Generator.totalDebtUsd t)
  = (Generator.totalCollateralUsd
       (fold_left (Generator.add_position (Some prices)) positions t),
     Generator.totalDebtUsd
       (fold_left (Generator.add_position (Some prices)) positions t)).
Proof.
  revert t. induction positions as [|pos rest IH]; intros t; [reflexivity|].
  cbn [fold_left]. rewrite <- IH. reflexivity.
Qed.

End TotalsFacts.

(** X14. The summary cards of the page and the statement agree: the two
    sums [updateSummaryCards] shows, the collateral and the debt in USD,
    are the totals [calculateTotals] prints, Number for Number, whatever
    the positions and the prices. *)
Theorem summary_cards_match_statement
    (toFixed : JSNumber.number -> nat -> string)
    (prices : price_map) (positions : list statement_position) :
  App.updateSummaryCards prices positions
  = (Generator.t_totalCollateralUsd
       (Generator.calculateTotals toFixed (Some prices) positions),
     Generator.t_totalDebtUsd
       (Generator.calculateTotals toFixed (Some prices) positions)).
Proof.
  unfold App.updateSummaryCards, Generator.calculateTotals.
  cbn [Generator.t_totalCollateralUsd Generator.t_totalDebtUsd].
  apply (fold_sums_cards prices positions Generator.no_sums).
Qed.

(** X15. When the amounts of the positions and the prices are zero or
    positive finite Numbers, and every symbol has a price of its own or
    is not the name of a member the prices object inherits, the two
    totals of the statement are never [NaN] and never negative. A
    position whose collateral symbol has no price and is such a name, as
    [constructor] or [toString], makes the collateral total [NaN]. With
    no position at all the totals are zero and the three averages read
    [0.00]. *)
Theorem calculateTotals_sound
    (toFixed : JSNumber.number -> nat -> string)
    (prices : price_map) (positions : list statement_position) :
  prices_known prices -> Forall amounts_known positions ->
  Forall (symbols_plain prices) positions ->
  has_sign false
    (Generator.t_totalCollateralUsd
       (Generator.calculateTotals toFixed (Some prices) positions)) /\
  has_sign false
    (Generator.t_totalDebtUsd
       (Generator.calculateTotals toFixed (Some prices) positions)) /\
  (forall others pos,
      In pos others ->
      inherited_symbol prices (pos_collateral_symbol (sp_position pos)) ->
      Generator.t_totalCollateralUsd
        (Generator.calculateTotals toFixed (Some prices) others)
      = JSNumber.NaN) /\
  Generator.calculateTotals toFixed (Some prices) []
  = {| Generator.t_totalCollateralUsd := JSNumber.of_Z 0;
       Generator.t_totalDebtUsd := JSNumber.of_Z 0;
       Generator.t_netValue := JSNumber.of_Z 0;
       Generator.t_avgLtv := "0.00";
       Generator.t_avgBorrowRate := "0.00";
       Generator.t_avgLiquidationThreshold := "0.00" |}.
Proof.
  intros Hp Ha Hs. unfold Generator.calculateTotals.
  cbn [Generator.t_totalCollateralUsd Generator.t_totalDebtUsd].
  destruct (fold_sums_sign prices positions Generator.no_sums Hp Ha Hs)
    as [Hc Hd]; [reflexivity|reflexivity|].
  split; [exact Hc|]. split; [exact Hd|]. split; [|reflexivity].
  intros others pos Hin Hi.
  exact (fold_sums_inherited prices others Generator.no_sums pos Hin Hi).
Qed.

Lemma calculateTotals_sound_witness :
  has_sign false
    (Generator.t_totalCollateralUsd
       (Generator.calculateTotals (fun _ _ => "8.33"%string)
          (Some Sample.prices)
          [{| sp_position := Sample.pos; sp_ltv := "8.33";
              sp_liquidationThreshold := "85.00";
              sp_borrowRateApy := "5.23"; sp_healthFactor := "10.20";
              sp_isLiquidated := false |}])) /\
  Generator.t_totalCollateralUsd
    (Generator.calculateTotals (fun _ _ => "8.33"%string)
       (Some Sample.prices)
       [{| sp_position := Sample.pos; sp_ltv := "8.33";
           sp_liquidationThreshold := "85.00";
           sp_borrowRateApy := "5.23"; sp_healthFactor := "10.20";
           sp_isLiquidated := false |}])
  = JSNumber.of_Z 3000.
Proof.
  assert (Hp : prices_known Sample.prices).
  { intros sym x. unfold Sample.prices.
    destruct (String.eqb sym "ETH");
      [intros E; injection E as <-; right; vm_compute; exact I|].
    destruct (String.eqb sym "USDC");
      [intros E; injection E as <-; right; vm_compute; exact I|].
    discriminate. }
  assert (Ha : Forall amounts_known
                 [{| sp_position := Sample.pos; sp_ltv := "8.33";
                     sp_liquidationThreshold := "85.00";
                     sp_borrowRateApy := "5.23"; sp_healthFactor := "10.20";
                     sp_isLiquidated := false |}]).
  { constructor; [|constructor]. split.
    - exists (JSNumber.parseFloat "1.5"). split; [reflexivity|].
      right. vm_compute. exact I.
    - exists (JSNumber.of_Z 250). split; [reflexivity|].
      right. vm_compute. exact I. }
  assert (Hs : Forall (symbols_plain Sample.prices)
                 [{| sp_position := Sample.pos; sp_ltv := "8.33";
                     sp_liquidationThreshold := "85.00";
                     sp_borrowRateApy := "5.23"; sp_healthFactor := "10.20";
                     sp_isLiquidated := false |}]).
  { constructor; [|constructor]. split; right; vm_compute; reflexivity. }
  split.
  - exact (proj1 (calculateTotals_sound (fun _ _ => "8.33"%string)
                    Sample.prices _ Hp Ha Hs)).
  - vm_compute. reflexivity.
Defined.


(** ** The positions of a wallet *)

Section FetcherFacts.

Import JSNumber JSArith FluidFetcher.

Variable getTokenMetadata : string -> token_metadata.
Variable formatUnits : big_numberish -> number -> option string.
Variable toFixed : number -> nat -> string.

Local Abbreviation formatPosition :=
  (formatPosition getTokenMetadata formatUnits toFixed).
Local Abbreviation collect_positions :=
  (collect_positions getTokenMetadata formatUnits toFixed).

Lemma formatPosition_position (po : position_object)
    (p : formatted_position) :
  formatPosition po = Some p -> fp_position p = po.
Proof.
  unfold FluidFetcher.formatPosition.
  repeat match goal with
         | |- context [match ?x with Some _ => _ | None => None end] =>
             destruct x; [|discriminate]
         end.
  intros H. injection H as <-. reflexivity.
Qed.

Lemma collect_positions_kept (userPositions : list user_position) :
  forall (vaultsData : list vault_entire_data)
         (positions : list formatted_position),
    collect_positions userPositions vaultsData = Some positions ->
    Forall (fun p =>
              exists u v,
                In (u, v) (combine userPositions vaultsData) /\
                formatPosition (buildPositionObject u v) = Some p /\
                up_isLiquidated u = false /\ up_supply u <> 0 /\
                ved_isSmartCol v = false /\ ved_isSmartDebt v = false /\
                up_isSupplyPosition u = false) positions.
Proof.
  induction userPositions as [|u rest IH]; intros vaultsData positions H.
  - cbn in H. injection H as <-. constructor.
  - cbn [FluidFetcher.collect_positions] in H.
    assert (Skip : collect_positions rest (tl vaultsData) = Some positions ->
              Forall (fun p =>
                exists u0 v,
                  In (u0, v) (combine (u :: rest) vaultsData) /\
                  formatPosition (buildPositionObject u0 v) = Some p /\
                  up_isLiquidated u0 = false /\ up_supply u0 <> 0 /\
                  ved_isSmartCol v = false /\ ved_isSmartDebt v = false /\
                  up_isSupplyPosition u0 = false) positions).
    { intros E. eapply Forall_impl; [|exact (IH _ _ E)].
      intros p (u0 & v & Hi & R). exists u0, v. split; [|exact R].
      destruct vaultsData as [|v0 vs]; [destruct rest; destruct Hi|].
      right. exact Hi. }
    destruct (up_isLiquidated u) eqn:El; [now apply Skip|].
    destruct (String.eqb_spec (JSBigInt.to_string (up_supply u)) "0")
      as [Es|Ns]; [now apply Skip|].
    destruct vaultsData as [|v vs]; [discriminate|].
    destruct (ved_isSmartCol v) eqn:Ec; [now apply Skip|].
    destruct (ved_isSmartDebt v) eqn:Ed; [now apply Skip|].
    cbn [orb] in H.
    destruct (up_isSupplyPosition u) eqn:Ep; [now apply Skip|].
    destruct (formatPosition (buildPositionObject u v)) as [p|] eqn:Ef;
      [|discriminate].
    cbn [tl] in H.
    destruct (collect_positions rest vs) as [ps|] eqn:Er; [|discriminate].
    injection H as <-. constructor.
    + exists u, v. split; [left; reflexivity|]. split; [exact Ef|].
      repeat split; try assumption. intros E0. apply Ns. now rewrite E0.
    + eapply Forall_impl; [|exact (IH _ _ Er)].
      intros q (u0 & v0 & Hi & R). exists u0, v0. split; [|exact R].
      right. exact Hi.
Qed.

(** X16. Every position [getAllPositions] returns is the formatted
    image of an entry of the resolver's answer, taken with the vault
    data of the same index, that is not liquidated, has a supply that
    is not zero, is in a vault with neither smart collateral nor smart
    debt, and is not a supply-only position. So the statement prints
    the status [Active] for it, never [Margin Call]; and the text of
    its NFT id, read back as the history fetcher does, is the id on
    the chain. *)
Theorem getAllPositions_keeps_open_positions
    (result : option (list user_position * list vault_entire_data))
    (positions : list formatted_position) :
  getAllPositions getTokenMetadata formatUnits toFixed result
  = Some positions ->
  exists userPositions vaultsData,
    result = Some (userPositions, vaultsData) /\
    Forall (fun p =>
              (exists u v,
                 In (u, v) (combine userPositions vaultsData) /\
                 formatPosition (buildPositionObject u v) = Some p /\
                 up_isLiquidated u = false /\ up_supply u <> 0 /\
                 ved_isSmartCol v = false /\ ved_isSmartDebt v = false /\
                 up_isSupplyPosition u = false /\
                 JSBigInt.of_string (pos_nftId (history_view p))
                 = Some (up_nftId u)) /\
              Generator.status_text (statement_view p) = "Active"%string)
           positions.
Proof.
  unfold getAllPositions. destruct result as [[ups vds]|]; [|discriminate].
  intros H. exists ups, vds. split; [reflexivity|].
  assert (C : collect_positions ups vds = Some positions)
    by (destruct ups; [cbn; exact H|exact H]).
  eapply Forall_impl; [|exact (collect_positions_kept _ _ _ C)].
  intros p (u & v & Hi & Ef & El & Es & Ec & Ed & Ep).
  pose proof (formatPosition_position _ _ Ef) as Epos.
  split.
  - exists u, v. repeat split; try assumption.
    cbn [history_view pos_nftId]. rewrite Epos.
    cbn [buildPositionObject nftId]. apply of_string_to_string.
  - unfold Generator.status_text, statement_view. cbn [sp_isLiquidated].
    rewrite Epos. cbn [buildPositionObject isLiquidated]. now rewrite El.
Qed.

End FetcherFacts.

Lemma getAllPositions_keeps_open_positions_witness :
  exists positions,
    FluidFetcher.getAllPositions Scenario.metadata Scenario.whole_units
      Scenario.two_digits
      (Some ([Scenario.chain_position 5 true 1000000000000000000 0;
              Scenario.chain_position 6 false 2000000000000000000 250000000;
              Scenario.chain_position 7 false 0 0],
             [Scenario.vault_data; Scenario.vault_data; Scenario.vault_data]))
    = Some positions /\
    map (fun p => FluidFetcher.nftId (FluidFetcher.fp_position p)) positions
    = ["6"%string] /\
    Forall (fun p => Generator.status_text (FluidFetcher.statement_view p)
                     = "Active"%string) positions.
Proof.
  match goal with
  | |- exists positions, FluidFetcher.getAllPositions _ _ _ ?r = _ /\ _ =>
      set (result := r)
  end.
  destruct (FluidFetcher.getAllPositions Scenario.metadata
              Scenario.whole_units Scenario.two_digits result)
    as [positions|] eqn:E; [|vm_compute in E; discriminate E].
  exists positions. split; [reflexivity|]. split.
  - vm_compute in E. injection E as <-. reflexivity.
  - destruct (getAllPositions_keeps_open_positions
                Scenario.metadata Scenario.whole_units Scenario.two_digits
                result positions E) as (ups & vds & _ & H).
    eapply Forall_impl; [|exact H]. intros p [_ Hs]. exact Hs.
Defined.

(** ** Loan to value and health factor *)

Section HealthFacts.

Import JSNumber JSArith FluidFetcher.

Lemma gtb_zero_positive (x : number) :
  gtb x (of_Z 0) = true ->
  x = S754_infinity false \/ positive_finite x.
Proof.
  destruct x as [s|[|]| |[|] m e]; cbn; try discriminate; auto.
Qed.

Lemma mul_100_sign (x : number) :
  has_sign false x -> has_sign false (mul x (of_Z 100)).
Proof.
  rewrite of_Z_100.
  destruct x as [s|s| |s m e]; cbn [has_sign]; intros H;
    try contradiction; subst s; try reflexivity.
  unfold mul. cbn [SFmul xorb]. apply binary_round_aux_sign. lia.
Qed.

Lemma ltv_of_sign (borrowAmount colValueInDebt : number) :
  zero_or_positive borrowAmount -> zero_or_positive colValueInDebt ->
  has_sign false (ltv_of borrowAmount colValueInDebt).
Proof.
  intros Hb Hc. unfold ltv_of.
  destruct (gtb borrowAmount (of_Z 0)) eqn:Gb; [|reflexivity].
  destruct (gtb colValueInDebt (of_Z 0)) eqn:Gc; [|reflexivity].
  cbn [andb]. apply mul_100_sign.
  destruct Hb as [->|Pb]; [discriminate|].
  destruct Hc as [->|Pc]; [discriminate|].
  now apply div_positive_finite.
Qed.

Lemma healthFactor_of_sign (threshold ltv : number) :
  zero_or_positive threshold -> has_sign false ltv ->
  has_sign false (healthFactor_of threshold ltv).
Proof.
  intros Ht Hl. unfold healthFactor_of.
  destruct (gtb ltv (of_Z 0)) eqn:G; [|reflexivity].
  apply gtb_zero_positive in G as [->|Pl].
  - destruct Ht as [->|Pt]; [reflexivity|].
    destruct threshold as [| | |[|] m e]; try contradiction. reflexivity.
  - destruct Ht as [->|Pt].
    + destruct ltv as [| | |[|] m e]; try contradiction. reflexivity.
    + now apply div_positive_finite.
Qed.

(** A percentage of basis points below [2^53] is zero or positive and
    finite. *)
Lemma percent_zero_or_positive (c : Z) :
  0 <= c < 2 ^ 53 -> zero_or_positive (percent c).
Proof.
  intros Hc. unfold percent.
  destruct (Z.eq_dec c 0) as [->|N]; [left; reflexivity|right].
  destruct (of_Z_value c ltac:(lia)) as (m & e & -> & [Dm _] & He & _).
  rewrite of_Z_100. unfold div. cbn [SFdiv xorb].
  destruct (SFdiv_core_spec (Zpos m) e 7036874417766400 (-46))
    as (q & e' & l & E & Pq & L & Dq & G); [lia|lia| |].
  { rewrite Dm. change (Zdigits2 7036874417766400) with 53.
    unfold emin, prec, emax. lia. }
  rewrite E. rewrite Dm in G.
  change (Zdigits2 7036874417766400) with 53 in G.
  destruct (binary_round_aux_error false q e' l _ Pq L Dq)
    as (m' & e'' & m1 & -> & _); [unfold emin, prec, emax; lia|].
  exact I.
Qed.

End HealthFacts.

(** X17. For a position built from the chain, with a maintenance
    threshold below [2^53] basis points, and amounts that
    [ethers.formatUnits] renders as zero or positive decimal texts, the
    loan to value and the health factor [formatPosition] computes are
    never [NaN] and never negative. A position without debt has the
    loan to value zero and the health factor [Infinity], written with
    the sign of infinity; the table of positions reads this text as
    [NaN] and draws it in the colour of danger. *)
Theorem formatPosition_health
    (getTokenMetadata : string -> FluidFetcher.token_metadata)
    (formatUnits : FluidFetcher.big_numberish -> JSNumber.number
                   -> option string)
    (toFixed : JSNumber.number -> nat -> string)
    (u : FluidFetcher.user_position) (v : FluidFetcher.vault_entire_data)
    (p : FluidFetcher.formatted_position) :
  (forall x d text,
      formatUnits x d = Some text ->
      zero_or_positive (JSNumber.parseFloat text)) ->
  0 <= FluidFetcher.ved_liquidationThreshold v < 2 ^ 53 ->
  FluidFetcher.formatPosition getTokenMetadata formatUnits toFixed
    (FluidFetcher.buildPositionObject u v) = Some p ->
  exists colValueInDebt,
    zero_or_positive colValueInDebt /\
    let ltv :=
      FluidFetcher.ltv_of
        (FluidFetcher.debt_amount (FluidFetcher.fp_formatted p))
        colValueInDebt in
    let hf :=
      FluidFetcher.healthFactor_of
        (FluidFetcher.percent (FluidFetcher.ved_liquidationThreshold v))
        ltv in
    has_sign false ltv /\ has_sign false hf /\
    FluidFetcher.ltv (FluidFetcher.fp_formatted p) = toFixed ltv 2%nat /\
    FluidFetcher.healthFactor (FluidFetcher.fp_formatted p)
    = (if JSNumber.eqb hf (S754_infinity false)
       then FluidFetcher.infinity_sign else toFixed hf 2%nat) /\
    (FluidFetcher.debt_amount (FluidFetcher.fp_formatted p)
     = S754_zero false ->
     ltv = S754_zero false /\
     FluidFetcher.healthFactor (FluidFetcher.fp_formatted p)
     = FluidFetcher.infinity_sign /\
     Generator.health_colour
       (FluidFetcher.healthFactor (FluidFetcher.fp_formatted p)) = danger).
Proof.
  intros Hf Ht. unfold FluidFetcher.formatPosition.
  cbn [FluidFetcher.buildPositionObject FluidFetcher.vaultData
       FluidFetcher.parseVaultData FluidFetcher.liquidationThreshold
       FluidFetcher.supply FluidFetcher.borrow
       FluidFetcher.vd_supplyToken FluidFetcher.vd_borrowToken
       FluidFetcher.oraclePriceOperate FluidFetcher.borrowRateRaw
       FluidFetcher.supplyRateRaw].
  destruct (formatUnits (FluidFetcher.BNString _) _) as [supplyText|];
    [|discriminate].
  destruct (formatUnits (FluidFetcher.BNString _) _) as [borrowText|] eqn:Eb;
    [|discriminate].
  destruct (JSBigInt.of_string _) as [supplyRaw|]; [|discriminate].
  destruct (JSBigInt.of_string _) as [borrowRaw|]; [|discriminate].
  destruct (JSBigInt.of_string _) as [oraclePriceBN|]; [|discriminate].
  destruct (JSBigInt.pow 10 27) as [e27|]; [|discriminate].
  destruct (JSBigInt.div _ e27) as [colRaw|]; [|discriminate].
  destruct (formatUnits (FluidFetcher.BNBigInt colRaw) _) as [colText|] eqn:Ec;
    [|discriminate].
  destruct (Fetcher.rateToApy _) as [borrowRateApy|]; [|discriminate].
  destruct (Fetcher.rateToApy _) as [supplyRateApy|]; [|discriminate].
  intros H. injection H as <-.
  cbn [FluidFetcher.fp_formatted FluidFetcher.debt_amount FluidFetcher.ltv
       FluidFetcher.healthFactor].
  pose proof (Hf _ _ _ Eb) as Pb. pose proof (Hf _ _ _ Ec) as Pc.
  exists (JSNumber.parseFloat colText). split; [exact Pc|]. cbv zeta.
  pose proof (ltv_of_sign _ _ Pb Pc) as Sl.
  pose proof (healthFactor_of_sign _ _ (percent_zero_or_positive _ Ht) Sl)
    as Sh.
  split; [exact Sl|]. split; [exact Sh|]. split; [reflexivity|].
  split; [reflexivity|].
  intros E0. rewrite E0.
  assert (L0 : FluidFetcher.ltv_of (S754_zero false)
                 (JSNumber.parseFloat colText) = S754_zero false)
    by reflexivity.
  rewrite L0. split; [reflexivity|].
  assert (H0 : FluidFetcher.healthFactor_of
                 (FluidFetcher.percent (FluidFetcher.ved_liquidationThreshold v))
                 (S754_zero false) = S754_infinity false) by reflexivity.
  rewrite H0. split; [reflexivity|].
  vm_compute. reflexivity.
Qed.

Lemma formatPosition_health_witness :
  exists p,
    FluidFetcher.formatPosition Scenario.metadata Scenario.coarse_units
      Scenario.two_digits
      (FluidFetcher.buildPositionObject
         (Scenario.chain_position 6 false 2000000000000000000 0)
         Scenario.vault_data) = Some p /\
    FluidFetcher.healthFactor (FluidFetcher.fp_formatted p)
    = FluidFetcher.infinity_sign /\
    Generator.health_colour
      (FluidFetcher.healthFactor (FluidFetcher.fp_formatted p)) = danger.
Proof.
  destruct (FluidFetcher.formatPosition Scenario.metadata
              Scenario.coarse_units Scenario.two_digits
              (FluidFetcher.buildPositionObject
                 (Scenario.chain_position 6 false 2000000000000000000 0)
                 Scenario.vault_data)) as [p|] eqn:E;
    [|vm_compute in E; discriminate E].
  exists p. split; [reflexivity|].
  assert (Hf : forall x d text,
             Scenario.coarse_units x d = Some text ->
             zero_or_positive (JSNumber.parseFloat text)).
  { intros x d text. unfold Scenario.coarse_units.
    destruct x as [s|z]; [destruct (String.eqb s "0")|destruct (z =? 0)];
      intros H; injection H as <-;
      [left|right|left|right]; vm_compute; try reflexivity; exact I. }
  destruct (formatPosition_health Scenario.metadata Scenario.coarse_units
              Scenario.two_digits
              (Scenario.chain_position 6 false 2000000000000000000 0)
              Scenario.vault_data p Hf ltac:(cbn; lia) E)
    as (c & _ & _ & _ & _ & _ & H0).
  apply H0. vm_compute in E. injection E as <-. reflexivity.
Defined.


(** ** The statement: the table of transactions *)

Section LayoutFacts.

Import JSNumber JSArith Generator.

Variable toLocaleString : number -> nat -> string.
Variable toLocaleDateString : number -> string.

Lemma above_footer_header_texts (H k : Z) hs ws x :
  0 <= k <= H - 59 -> H < 2 ^ 52 ->
  Forall (above_footer H) (header_texts hs ws x (of_Z k)).
Proof.
  intros Hk HH. revert ws x.
  induction hs as [|h hs IH]; intros [|w ws] x; cbn [header_texts];
    try constructor.
  - exists (k + 12). split; [|lia]. apply add_of_Z; lia.
  - apply IH.
Qed.

Lemma above_footer_table_header (H k : Z) :
  0 <= k <= H - 59 -> H < 2 ^ 52 ->
  Forall (above_footer H) (table_header (of_Z k)).
Proof.
  intros Hk HH. unfold table_header. apply Forall_app. split.
  - repeat constructor. exists k, 18. repeat split; lia.
  - now apply above_footer_header_texts.
Qed.

Lemma above_footer_transaction_row (H k : Z) index tx :
  0 <= k <= H - 60 -> H < 2 ^ 52 ->
  Forall (above_footer H)
    (transaction_row toLocaleString toLocaleDateString index tx (of_Z k)).
Proof.
  intros Hk HH.
  assert (E : add (of_Z k) (of_Z 13) = of_Z (k + 13))
    by (apply add_of_Z; lia).
  unfold transaction_row. rewrite E.
  repeat constructor;
    try (exists (k + 13); split; [reflexivity|lia]).
  exists k, 20. repeat split; lia.
Qed.

Lemma above_footer_transaction_rows (H : Z) transactions :
  240 <= H < 2 ^ 52 ->
  forall index k, 0 <= k <= H - 40 ->
  Forall (above_footer H)
    (fst (transaction_rows toLocaleString toLocaleDateString (of_Z H)
            index transactions (of_Z k))) /\
  exists k',
    snd (transaction_rows toLocaleString toLocaleDateString (of_Z H)
           index transactions (of_Z k)) = of_Z k' /\
    0 <= k' <= H - 40.
Proof.
  intros HH. induction transactions as [|tx rest IH]; intros index k Hk.
  - cbn [transaction_rows fst snd]. split; [constructor|].
    exists k. split; [reflexivity|lia].
  - cbn [transaction_rows].
    rewrite sub_of_Z by lia. rewrite gtb_of_Z by lia.
    destruct (Z.ltb_spec (H - 60) k) as [Hb|Hb].
    + assert (E : add margin (of_Z 22) = of_Z 62) by reflexivity.
      rewrite E.
      assert (E' : add (of_Z 62) (of_Z 20) = of_Z 82) by reflexivity.
      rewrite E'.
      destruct (IH (S index) 82) as [F (k' & Ek & Hk')]; [lia|].
      destruct (transaction_rows _ _ _ (S index) rest (of_Z 82))
        as [more y'].
      cbn [fst snd] in *. split; [|now exists k'].
      cbn [app]. constructor; [exact I|].
      apply Forall_app. split.
      { apply (above_footer_table_header H 40); lia. }
      apply Forall_app. split; [|assumption].
      apply above_footer_transaction_row; lia.
    + rewrite (add_of_Z k 20) by lia.
      destruct (IH (S index) (k + 20)) as [F (k' & Ek & Hk')]; [lia|].
      destruct (transaction_rows _ _ _ (S index) rest (of_Z (k + 20)))
        as [more y'].
      cbn [fst snd] in *. split; [|now exists k'].
      cbn [app]. apply Forall_app. split; [|assumption].
      apply above_footer_transaction_row; lia.
Qed.

(** X18. On a page whose height is the integer [H], at least 240, and
    entered with [currentY] an integer, [addTransactionActivity] draws
    nothing into the footer: every rectangle of the table ends at or
    above [H - 40], where the footer line is drawn, the base line of
    every text is at or above [H - 47], and [currentY] is left at an
    integer that is at most [H - 20]. *)
Theorem addTransactionActivity_above_footer (H y : Z) transactions :
  240 <= H < 2 ^ 52 -> 0 <= y < 2 ^ 52 ->
  Forall (above_footer H)
    (fst (addTransactionActivity toLocaleString toLocaleDateString
            (of_Z H) transactions (of_Z y))) /\
  exists k,
    snd (addTransactionActivity toLocaleString toLocaleDateString
           (of_Z H) transactions (of_Z y)) = of_Z k /\
    0 <= k <= H - 20.
Proof.
  intros HH Hy. unfold addTransactionActivity.
  rewrite sub_of_Z by lia. rewrite gtb_of_Z by lia.
  assert (S : exists y0, 0 <= y0 <= H - 200 /\
    (if H - 200 <? y then ([addPage], margin) else ([], of_Z y))
    = (if H - 200 <? y then [addPage] else [], of_Z y0)).
  { destruct (Z.ltb_spec (H - 200) y).
    - exists 40. split; [lia|reflexivity].
    - exists y. split; [lia|reflexivity]. }
  destruct S as (y0 & Hy0 & ->).
  rewrite (add_of_Z y0 20) by lia.
  rewrite (add_of_Z (y0 + 20) 22) by lia.
  destruct (above_footer_transaction_rows H transactions HH 0%nat
              (y0 + 20 + 22)) as [F (k' & Ek & Hk')]; [lia|].
  destruct (transaction_rows _ _ _ 0%nat transactions
              (of_Z (y0 + 20 + 22))) as [rows y3].
  cbn [fst snd] in *. subst y3. split.
  - apply Forall_app. split.
    { destruct (H - 200 <? y); repeat constructor. }
    apply Forall_app. split.
    { repeat constructor. exists y0. split; [reflexivity|lia]. }
    apply Forall_app. split.
    { apply above_footer_table_header; lia. }
    apply Forall_app. split; [assumption|]. repeat constructor.
  - exists (k' + 20). split; [apply add_of_Z; lia|lia].
Qed.

End LayoutFacts.

Lemma addTransactionActivity_above_footer_witness :
  Forall (above_footer 792)
    (fst (Generator.addTransactionActivity Scenario.grouped
            Scenario.short_date (JSNumber.of_Z 792)
            (repeat Scenario.repayment 40) (JSNumber.of_Z 700))) /\
  exists k,
    snd (Generator.addTransactionActivity Scenario.grouped
           Scenario.short_date (JSNumber.of_Z 792)
           (repeat Scenario.repayment 40) (JSNumber.of_Z 700))
    = JSNumber.of_Z k /\
    0 <= k <= 792 - 20.
Proof.
  apply (addTransactionActivity_above_footer Scenario.grouped
           Scenario.short_date 792 700 (repeat Scenario.repayment 40));
    lia.
Defined.
